(** * Bloom: the AVR8 target-control pipeline

    A shallow embedding of the parts of Bloom that drive an AVR8 target
    through an EDBG debug tool:

    - [EdbgAvr8Interface] (EdbgAvr8Interface.cpp): config-variant resolution,
      execution control, program counter access, target-state tracking,
      memory alignment, chunking and access;
    - [Avr8] (Avr8.cpp): the target's memory-write gate and the DWEN fuse
      update procedure;
    - [GdbWriteMemory] (AvrGdb/CommandPackets/WriteMemory.cpp): parsing and
      handling of the RSP 'M' packet.

    Unsigned C++ integers are [Z] with the wrap-around written out, the
    single-precision arithmetic of the alignment helpers is IEEE 754
    binary32 over [SpecFloat], and every member function that talks to the
    debug tool threads the interface object explicitly and records what it
    put on the wire. *)

From Stdlib Require Import String Ascii ZArith List Bool Lia.
From Stdlib Require Import Floats.SpecFloat.
From Stdlib Require Import Permutation.
Import ListNotations.

Local Open Scope Z_scope.

(** ** Outcomes of fallible code *)

(** What unwinds the stack: a Bloom exception ([Exceptions::Exception] or
    a class derived from it), which is what the [catch (const Exception&)]
    clauses of the sources catch; an exception of the standard library,
    which they do not catch; or undefined behaviour, at which the model
    stops. *)
Inductive Exn : Type :=
| Exception (message : string)
| StdException (what : string)
| Undefined (what : string).

(** A C++ call either returns, throws, or (for the two self-recursive
    memory routines, which are run on fuel) does not finish. *)
Inductive Res (A : Type) : Type :=
| Ok (a : A)
| Err (e : Exn)
| OutOfFuel.

Arguments Ok {A} a.
Arguments Err {A} e.
Arguments OutOfFuel {A}.

Definition is_ok {A} (r : Res A) : bool :=
  match r with Ok _ => true | _ => false end.

Definition is_err {A} (r : Res A) : bool :=
  match r with Err _ => true | _ => false end.

(** State and exception monad: a throw keeps the mutations made so far. *)
Definition M (S A : Type) : Type := S -> Res A * S.

Definition ret {S A} (a : A) : M S A := fun s => (Ok a, s).

Definition raise {S A} (e : Exn) : M S A := fun s => (Err e, s).

(** [throw Exception(msg)], or one of the classes derived from it. *)
Definition throw {S A} (msg : string) : M S A := raise (Exception msg).

Definition bind {S A B} (m : M S A) (f : A -> M S B) : M S B :=
  fun s =>
    match m s with
    | (Ok a, s') => f a s'
    | (Err e, s') => (Err e, s')
    | (OutOfFuel, s') => (OutOfFuel, s')
    end.

Definition get {S} : M S S := fun s => (Ok s, s).

Definition gets {S A} (f : S -> A) : M S A := fun s => (Ok (f s), s).

Definition modify {S} (f : S -> S) : M S unit := fun s => (Ok tt, f s).

(** [try { m } catch (const Exception& e) { h e }] *)
Definition tryCatch {S A} (m : M S A) (h : string -> M S A) : M S A :=
  fun s =>
    match m s with
    | (Err (Exception msg), s') => h msg s'
    | other => other
    end.

Declare Scope monad_scope.
Delimit Scope monad_scope with monad.
Notation "x <- m ;; k" := (bind m (fun x => k))
  (at level 61, m at next level, right associativity) : monad_scope.
Notation "m ;;; k" := (bind m (fun _ => k))
  (at level 61, right associativity) : monad_scope.

Definition when {S} (b : bool) (m : M S unit) : M S unit :=
  if b then m else ret tt.

(** ** Machine integers *)

Definition wrap8 (x : Z) : Z := x mod 2 ^ 8.
Definition wrap16 (x : Z) : Z := x mod 2 ^ 16.
Definition wrap32 (x : Z) : Z := x mod 2 ^ 32.

Definition is_u32 (x : Z) : Prop := 0 <= x < 2 ^ 32.

(** ** Enumerations

    Each C++ [enum class E] is a module [E] with the type [E.t], so that
    [E::X] reads [E.X]. *)

Module TargetMemoryType.
Inductive t := FLASH | RAM | EEPROM | FUSES | OTHER.

Definition eqb (a b : t) : bool :=
  match a, b with
  | FLASH, FLASH | RAM, RAM | EEPROM, EEPROM | FUSES, FUSES | OTHER, OTHER => true
  | _, _ => false
  end.
End TargetMemoryType.

Module TargetState.
Inductive t := UNKNOWN | STOPPED | RUNNING.

Definition eqb (a b : t) : bool :=
  match a, b with
  | UNKNOWN, UNKNOWN | STOPPED, STOPPED | RUNNING, RUNNING => true
  | _, _ => false
  end.
End TargetState.

Module Family.
Inductive t := MEGA | XMEGA | TINY | DA | DB | DD | EA.

Definition eqb (a b : t) : bool :=
  match a, b with
  | MEGA, MEGA | XMEGA, XMEGA | TINY, TINY
  | DA, DA | DB, DB | DD, DD | EA, EA => true
  | _, _ => false
  end.
End Family.

Module PhysicalInterface.
Inductive t := ISP | JTAG | DEBUG_WIRE | PDI | UPDI.

Definition eqb (a b : t) : bool :=
  match a, b with
  | ISP, ISP | JTAG, JTAG | DEBUG_WIRE, DEBUG_WIRE | PDI, PDI | UPDI, UPDI => true
  | _, _ => false
  end.
End PhysicalInterface.

Module Avr8ConfigVariant.
(** [NONE] is the interface's initial value; the resolver itself only
    ever yields one of the other four. *)
Inductive t := NONE | DEBUG_WIRE | MEGAJTAG | XMEGA | UPDI.

Definition eqb (a b : t) : bool :=
  match a, b with
  | NONE, NONE | DEBUG_WIRE, DEBUG_WIRE | MEGAJTAG, MEGAJTAG
  | XMEGA, XMEGA | UPDI, UPDI => true
  | _, _ => false
  end.
End Avr8ConfigVariant.

Module Avr8MemoryType.
(** The enumerators the sources name; [OTHER_TYPE id] stands for the
    remaining ones of the EDBG protocol, which no code path here
    distinguishes. *)
Inductive t :=
| SRAM | EEPROM | SPM | FLASH_PAGE | EEPROM_PAGE | FUSES | REGISTER_FILE
| APPL_FLASH | BOOT_FLASH | EEPROM_ATOMIC
| OTHER_TYPE (id : Z).

Definition eqb (a b : t) : bool :=
  match a, b with
  | SRAM, SRAM | EEPROM, EEPROM | SPM, SPM | FLASH_PAGE, FLASH_PAGE
  | EEPROM_PAGE, EEPROM_PAGE | FUSES, FUSES | REGISTER_FILE, REGISTER_FILE
  | APPL_FLASH, APPL_FLASH | BOOT_FLASH, BOOT_FLASH
  | EEPROM_ATOMIC, EEPROM_ATOMIC => true
  | OTHER_TYPE i, OTHER_TYPE j => i =? j
  | _, _ => false
  end.
End Avr8MemoryType.

(** [Targets::Microchip::Avr::TargetSignature]: three signature bytes. *)
Definition TargetSignature : Type := (Z * Z * Z)%type.

Definition TargetSignature_eqb (a b : TargetSignature) : bool :=
  let '(a0, a1, a2) := a in
  let '(b0, b1, b2) := b in
  (a0 =? b0) && (a1 =? b1) && (a2 =? b2).

(** [std::map::find] over a literal map: the first entry with the key. *)
Fixpoint map_find {K V} (eqb : K -> K -> bool) (k : K) (m : list (K * V)) : option V :=
  match m with
  | [] => None
  | (k', v) :: rest => if eqb k k' then Some v else map_find eqb k rest
  end.

(** ** Config-variant resolution (EdbgAvr8Interface.cpp) *)

Module VariantResolution.

(** [EdbgAvr8Interface::getConfigVariantsByFamilyAndPhysicalInterface] *)
Definition getConfigVariantsByFamilyAndPhysicalInterface
  : list (Family.t * list (PhysicalInterface.t * Avr8ConfigVariant.t)) :=
  [ (Family.MEGA,
      [ (PhysicalInterface.JTAG, Avr8ConfigVariant.MEGAJTAG);
        (PhysicalInterface.DEBUG_WIRE, Avr8ConfigVariant.DEBUG_WIRE);
        (PhysicalInterface.UPDI, Avr8ConfigVariant.UPDI) ]);
    (Family.TINY,
      [ (PhysicalInterface.JTAG, Avr8ConfigVariant.MEGAJTAG);
        (PhysicalInterface.DEBUG_WIRE, Avr8ConfigVariant.DEBUG_WIRE);
        (PhysicalInterface.UPDI, Avr8ConfigVariant.UPDI) ]);
    (Family.XMEGA,
      [ (PhysicalInterface.JTAG, Avr8ConfigVariant.XMEGA);
        (PhysicalInterface.PDI, Avr8ConfigVariant.XMEGA) ]);
    (Family.DA, [ (PhysicalInterface.UPDI, Avr8ConfigVariant.UPDI) ]);
    (Family.DB, [ (PhysicalInterface.UPDI, Avr8ConfigVariant.UPDI) ]);
    (Family.DD, [ (PhysicalInterface.UPDI, Avr8ConfigVariant.UPDI) ]);
    (Family.EA, [ (PhysicalInterface.UPDI, Avr8ConfigVariant.UPDI) ]) ].

(** The function-local static map of [resolveConfigVariant]. *)
Definition physicalInterfacesToConfigVariants
  : list (PhysicalInterface.t * Avr8ConfigVariant.t) :=
  [ (PhysicalInterface.DEBUG_WIRE, Avr8ConfigVariant.DEBUG_WIRE);
    (PhysicalInterface.PDI, Avr8ConfigVariant.XMEGA);
    (PhysicalInterface.UPDI, Avr8ConfigVariant.UPDI) ].

(** [EdbgAvr8Interface::resolveConfigVariant], as a function of the two
    members it reads: [this->family] and
    [this->targetConfig->physicalInterface]. *)
Definition resolveConfigVariant
    (family : option Family.t) (physicalInterface : PhysicalInterface.t)
  : option Avr8ConfigVariant.t :=
  match family with
  | Some f =>
      match map_find Family.eqb f getConfigVariantsByFamilyAndPhysicalInterface with
      | Some configVariantsByPhysicalInterface =>
          match map_find PhysicalInterface.eqb physicalInterface
                  configVariantsByPhysicalInterface with
          | Some v => Some v
          | None => None
          end
      | None => None
      end
  | None =>
      match map_find PhysicalInterface.eqb physicalInterface
              physicalInterfacesToConfigVariants with
      | Some v => Some v
      | None => None
      end
  end.

(** The variant table as the specification words it:
    MEGA/TINY + JTAG -> MEGAJTAG, + DEBUG_WIRE -> DEBUG_WIRE, + UPDI -> UPDI;
    XMEGA + JTAG or PDI -> XMEGA; DA/DB/DD/EA + UPDI -> UPDI. *)
Definition spec_variant_table (f : Family.t) (p : PhysicalInterface.t)
  : option Avr8ConfigVariant.t :=
  match f, p with
  | (Family.MEGA | Family.TINY), PhysicalInterface.JTAG =>
      Some Avr8ConfigVariant.MEGAJTAG
  | (Family.MEGA | Family.TINY), PhysicalInterface.DEBUG_WIRE =>
      Some Avr8ConfigVariant.DEBUG_WIRE
  | (Family.MEGA | Family.TINY), PhysicalInterface.UPDI =>
      Some Avr8ConfigVariant.UPDI
  | Family.XMEGA, (PhysicalInterface.JTAG | PhysicalInterface.PDI) =>
      Some Avr8ConfigVariant.XMEGA
  | (Family.DA | Family.DB | Family.DD | Family.EA), PhysicalInterface.UPDI =>
      Some Avr8ConfigVariant.UPDI
  | _, _ => None
  end.

(** ... and the fallback on the physical interface alone. *)
Definition spec_fallback (p : PhysicalInterface.t) : option Avr8ConfigVariant.t :=
  match p with
  | PhysicalInterface.DEBUG_WIRE => Some Avr8ConfigVariant.DEBUG_WIRE
  | PhysicalInterface.PDI => Some Avr8ConfigVariant.XMEGA
  | PhysicalInterface.UPDI => Some Avr8ConfigVariant.UPDI
  | PhysicalInterface.JTAG | PhysicalInterface.ISP => None
  end.

End VariantResolution.


(** ** Single-precision arithmetic

    [alignMemoryAddress] and [alignMemoryBytes] round through [float]:
    IEEE 754 binary32, round to nearest even, as [SpecFloat] defines it
    for a 24-bit significand. *)

Module Float32.

Definition prec : Z := 24.
Definition emax : Z := 128.

(** [static_cast<float>(n)] for an integer [n]. *)
Definition of_Z (n : Z) : spec_float := binary_normalize prec emax n 0 false.

Definition div (x y : spec_float) : spec_float := SFdiv prec emax x y.

Definition mul (x y : spec_float) : spec_float := SFmul prec emax x y.

(** The signed significand of a finite float. *)
Definition signed (s : bool) (m : positive) : Z := if s then Z.neg m else Z.pos m.

(** The largest integer not above a finite float ([Z.div] rounds down). *)
Definition floorZ (s : bool) (m : positive) (e : Z) : Z :=
  if 0 <=? e then signed s m * 2 ^ e else signed s m / 2 ^ (- e).

(** The smallest integer not below a finite float. *)
Definition ceilZ (s : bool) (m : positive) (e : Z) : Z :=
  if 0 <=? e then signed s m * 2 ^ e else - ((- signed s m) / 2 ^ (- e)).

(** [std::floor(float)]: the result is a float again (always exact). *)
Definition floor (x : spec_float) : spec_float :=
  match x with
  | S754_finite s m e => binary_normalize prec emax (floorZ s m e) 0 s
  | _ => x
  end.

(** [std::ceil(float)] *)
Definition ceil (x : spec_float) : spec_float :=
  match x with
  | S754_finite s m e => binary_normalize prec emax (ceilZ s m e) 0 s
  | _ => x
  end.

(** [static_cast<std::uint32_t>(x)]: truncation toward zero; the conversion
    is undefined ([None]) when the truncated value does not fit, or for an
    infinity or a NaN. *)
Definition to_u32 (x : spec_float) : option Z :=
  match x with
  | S754_zero _ => Some 0
  | S754_finite s m e =>
      let t := if 0 <=? e then signed s m * 2 ^ e
               else Z.quot (signed s m) (2 ^ (- e)) in
      if (0 <=? t) && (t <? 2 ^ 32) then Some t else None
  | _ => None
  end.

End Float32.

(** ** Target parameters and the EDBG transport *)

(** The fields of [Avr8Bit::TargetParameters] that the modelled code reads. *)
Record TargetParameters := {
  flashPageSize : option Z;
  eepromPageSize : option Z;
  bootSectionStartAddress : option Z;
  appSectionStartAddress : option Z;
  eepromStartAddress : option Z
}.

(** [std::optional::value()]: throws [std::bad_optional_access] when empty. *)
Definition value {S A} (o : option A) : M S A :=
  match o with
  | Some a => ret a
  | None => raise (StdException "bad_optional_access")
  end.

Module Alignment.

(** [EdbgAvr8Interface::alignmentRequired] *)
Definition alignmentRequired (memoryType : Avr8MemoryType.t) : bool :=
  match memoryType with
  | Avr8MemoryType.FLASH_PAGE
  | Avr8MemoryType.SPM
  | Avr8MemoryType.APPL_FLASH
  | Avr8MemoryType.BOOT_FLASH
  | Avr8MemoryType.EEPROM_ATOMIC
  | Avr8MemoryType.EEPROM_PAGE => true
  | _ => false
  end.

(** The [switch] that both alignment helpers open with: the value of the
    local [std::uint16_t alignTo]. *)
Definition alignTo (tp : TargetParameters) (memoryType : Avr8MemoryType.t) : Res Z :=
  match memoryType with
  | Avr8MemoryType.FLASH_PAGE
  | Avr8MemoryType.SPM
  | Avr8MemoryType.APPL_FLASH
  | Avr8MemoryType.BOOT_FLASH =>
      match flashPageSize tp with
      | Some v => Ok (wrap16 v)
      | None => Err (StdException "bad_optional_access")
      end
  | Avr8MemoryType.EEPROM_ATOMIC
  | Avr8MemoryType.EEPROM_PAGE =>
      match eepromPageSize tp with
      | Some v => Ok (wrap16 v)
      | None => Err (StdException "bad_optional_access")
      end
  | _ => Ok 1
  end.

(** [floor(float(address) / float(alignTo)) * alignTo], cast back to
    [std::uint32_t]. *)
Definition floorToMultiple (address alignTo : Z) : option Z :=
  Float32.to_u32
    (Float32.mul
       (Float32.floor (Float32.div (Float32.of_Z address) (Float32.of_Z alignTo)))
       (Float32.of_Z alignTo)).

(** [ceil(float(bytes) / float(alignTo)) * alignTo], cast back likewise. *)
Definition ceilToMultiple (bytes alignTo : Z) : option Z :=
  Float32.to_u32
    (Float32.mul
       (Float32.ceil (Float32.div (Float32.of_Z bytes) (Float32.of_Z alignTo)))
       (Float32.of_Z alignTo)).

(** [EdbgAvr8Interface::alignMemoryAddress]. A zero [alignTo] makes
    [address % alignTo] undefined, as does a float that does not fit the
    return type. *)
Definition alignMemoryAddress
    (tp : TargetParameters) (memoryType : Avr8MemoryType.t) (address : Z) : Res Z :=
  match alignTo tp memoryType with
  | Ok a =>
      if a =? 0 then Err (Undefined "modulo by zero")
      else if negb (address mod a =? 0) then
        match floorToMultiple address a with
        | Some r => Ok r
        | None => Err (Undefined "float out of range of uint32")
        end
      else Ok address
  | Err e => Err e
  | OutOfFuel => OutOfFuel
  end.

(** [EdbgAvr8Interface::alignMemoryBytes] *)
Definition alignMemoryBytes
    (tp : TargetParameters) (memoryType : Avr8MemoryType.t) (bytes : Z) : Res Z :=
  match alignTo tp memoryType with
  | Ok a =>
      if a =? 0 then Err (Undefined "modulo by zero")
      else if negb (bytes mod a =? 0) then
        match ceilToMultiple bytes a with
        | Some r => Ok r
        | None => Err (Undefined "float out of range of uint32")
        end
      else Ok bytes
  | Err e => Err e
  | OutOfFuel => OutOfFuel
  end.

End Alignment.

(** *** Command frames, response frames and events *)

Module Avr8ResponseId.
Inductive t := OK | LIST | DATA | PC | FAILED.

Definition eqb (a b : t) : bool :=
  match a, b with
  | OK, OK | LIST, LIST | DATA, DATA | PC, PC | FAILED, FAILED => true
  | _, _ => false
  end.
End Avr8ResponseId.

(** The AVR8-generic command frames that the modelled member functions
    construct, with the constructor arguments they pass. *)
Module CommandFrames.
Inductive t :=
| Stop
| Run
| RunTo (address : Z)
| Step
| Reset
| GetProgramCounter
| SetProgramCounter (programCounter : Z)
| Attach (breakAfterAttach : bool)
| ReadMemory (type : Avr8MemoryType.t) (address bytes : Z) (excludedAddresses : list Z)
| WriteMemory (type : Avr8MemoryType.t) (address : Z) (buffer : list Z).
End CommandFrames.

(** A response frame, by what the interface reads off it: its id, the
    32-bit program counter field of its payload, and its memory payload. *)
Record Avr8ResponseFrame := {
  id : Avr8ResponseId.t;
  payloadProgramCounter : Z;
  memoryData : list Z
}.

Module AvrEventId.
Inductive t := AVR8_BREAK_EVENT | OTHER_EVENT (code : Z).

Definition eqb (a b : t) : bool :=
  match a, b with
  | AVR8_BREAK_EVENT, AVR8_BREAK_EVENT => true
  | OTHER_EVENT i, OTHER_EVENT j => i =? j
  | _, _ => false
  end.
End AvrEventId.

(** [AvrEvent::eventId] is a [std::optional<AvrEventId>]. *)
Record AvrEvent := { eventId : option AvrEventId.t }.

(** What [getAvrEvent] hands out: a [BreakEvent] object or a plain
    [AvrEvent] behind the same base pointer. *)
Inductive AvrEventObject :=
| BreakEvent (e : AvrEvent)
| PlainEvent (e : AvrEvent).

Definition eventOf (o : AvrEventObject) : AvrEvent :=
  match o with BreakEvent e | PlainEvent e => e end.

(** [dynamic_cast<BreakEvent*>] *)
Definition isBreakEventObject (o : AvrEventObject) : bool :=
  match o with BreakEvent _ => true | PlainEvent _ => false end.

(** What crossed the wire, oldest first. *)
Inductive WireItem :=
| Sent (frame : CommandFrames.t)
| Polled (event : option AvrEvent).

(** The debug tool behind [EdbgInterface]: it answers the n-th command
    frame with the n-th of [responses] (none left: the transport throws)
    and the n-th event request with the n-th of [events] (none left:
    nothing is pending). Every behaviour of a real tool is one such pair
    of sequences. *)
Record EdbgInterface := {
  responses : list Avr8ResponseFrame;
  events : list (option AvrEvent);
  usbHidInputReportSize : Z;
  wire : list WireItem
}.

(** [EdbgInterface::sendAvrCommandFrameAndWaitForResponseFrame] *)
Definition sendAvrCommandFrameAndWaitForResponseFrame
    (frame : CommandFrames.t) : M EdbgInterface Avr8ResponseFrame :=
  fun e =>
    match responses e with
    | r :: rest =>
        (Ok r, {| responses := rest; events := events e;
                  usbHidInputReportSize := usbHidInputReportSize e;
                  wire := wire e ++ [Sent frame] |})
    | [] =>
        (Err (Exception "transport failure"),
         {| responses := []; events := events e;
            usbHidInputReportSize := usbHidInputReportSize e;
            wire := wire e ++ [Sent frame] |})
    end.

(** [EdbgInterface::requestAvrEvent] *)
Definition requestAvrEvent : M EdbgInterface (option AvrEvent) :=
  fun e =>
    match events e with
    | ev :: rest =>
        (Ok ev, {| responses := responses e; events := rest;
                   usbHidInputReportSize := usbHidInputReportSize e;
                   wire := wire e ++ [Polled ev] |})
    | [] =>
        (Ok None, {| responses := responses e; events := [];
                     usbHidInputReportSize := usbHidInputReportSize e;
                     wire := wire e ++ [Polled None] |})
    end.

(** ** The AVR8 debug interface object *)

Record EdbgAvr8Interface := {
  edbgInterface : EdbgInterface;
  configVariant : Avr8ConfigVariant.t;
  targetParameters : TargetParameters;
  targetState : TargetState.t;
  programmingModeEnabled : bool;
  avoidMaskedMemoryRead : bool;
  maximumMemoryAccessSizePerRequest : option Z;
  targetAttached : bool;
  eventWaitAttempts : nat
}.

Definition with_edbgInterface (e : EdbgInterface) (i : EdbgAvr8Interface) :=
  {| edbgInterface := e;
     configVariant := configVariant i;
     targetParameters := targetParameters i;
     targetState := targetState i;
     programmingModeEnabled := programmingModeEnabled i;
     avoidMaskedMemoryRead := avoidMaskedMemoryRead i;
     maximumMemoryAccessSizePerRequest := maximumMemoryAccessSizePerRequest i;
     targetAttached := targetAttached i;
     eventWaitAttempts := eventWaitAttempts i |}.

Definition with_targetState (t : TargetState.t) (i : EdbgAvr8Interface) :=
  {| edbgInterface := edbgInterface i;
     configVariant := configVariant i;
     targetParameters := targetParameters i;
     targetState := t;
     programmingModeEnabled := programmingModeEnabled i;
     avoidMaskedMemoryRead := avoidMaskedMemoryRead i;
     maximumMemoryAccessSizePerRequest := maximumMemoryAccessSizePerRequest i;
     targetAttached := targetAttached i;
     eventWaitAttempts := eventWaitAttempts i |}.

Definition with_targetAttached (b : bool) (i : EdbgAvr8Interface) :=
  {| edbgInterface := edbgInterface i;
     configVariant := configVariant i;
     targetParameters := targetParameters i;
     targetState := targetState i;
     programmingModeEnabled := programmingModeEnabled i;
     avoidMaskedMemoryRead := avoidMaskedMemoryRead i;
     maximumMemoryAccessSizePerRequest := maximumMemoryAccessSizePerRequest i;
     targetAttached := b;
     eventWaitAttempts := eventWaitAttempts i |}.

Definition with_programmingModeEnabled (b : bool) (i : EdbgAvr8Interface) :=
  {| edbgInterface := edbgInterface i;
     configVariant := configVariant i;
     targetParameters := targetParameters i;
     targetState := targetState i;
     programmingModeEnabled := b;
     avoidMaskedMemoryRead := avoidMaskedMemoryRead i;
     maximumMemoryAccessSizePerRequest := maximumMemoryAccessSizePerRequest i;
     targetAttached := targetAttached i;
     eventWaitAttempts := eventWaitAttempts i |}.

(** A call through [this->edbgInterface->...]. *)
Definition onEdbg {A} (m : M EdbgInterface A) : M EdbgAvr8Interface A :=
  fun i =>
    let '(r, e) := m (edbgInterface i) in
    (r, with_edbgInterface e i).

(** What the interface has put on, and taken off, the wire so far. *)
Definition wireOf (i : EdbgAvr8Interface) : list WireItem := wire (edbgInterface i).

Definition failed (r : Avr8ResponseFrame) : bool :=
  Avr8ResponseId.eqb (id r) Avr8ResponseId.FAILED.

Module Avr8Interface.

Local Open Scope monad_scope.

Definition send (frame : CommandFrames.t) : M EdbgAvr8Interface Avr8ResponseFrame :=
  onEdbg (sendAvrCommandFrameAndWaitForResponseFrame frame).

(** [EdbgAvr8Interface::getAvrEvent]; [None] is [nullptr]. *)
Definition getAvrEvent : M EdbgAvr8Interface (option AvrEventObject) :=
  event <- onEdbg requestAvrEvent ;;
  match event with
  | None => ret None
  | Some ev =>
      eid <- value (eventId ev) ;;
      match eid with
      | AvrEventId.AVR8_BREAK_EVENT => ret (Some (BreakEvent ev))
      | _ => ret (Some (PlainEvent ev))
      end
  end.

(** [EdbgAvr8Interface::clearEvents]: [while (getAvrEvent() != nullptr) {}].
    Every iteration takes one entry off the tool's event sequence, which
    the recursion follows. *)
Fixpoint clearEventsLoop (pending : list (option AvrEvent)) : M EdbgAvr8Interface unit :=
  event <- getAvrEvent ;;
  match event with
  | None => ret tt
  | Some _ =>
      match pending with
      | [] => ret tt
      | _ :: rest => clearEventsLoop rest
      end
  end.

Definition clearEvents : M EdbgAvr8Interface unit :=
  fun i => clearEventsLoop (events (edbgInterface i)) i.

(** Modelled from the spec: [waitForAvrEvent<BreakEvent>] is a template of
    EdbgAvr8Interface.hpp, which is not among the sources. The spec has the
    interface "wait for a Break event" after attach, stop and reset, with a
    timeout: the event stream is polled up to [eventWaitAttempts] times,
    the first Break event is returned, other events are passed over, and
    [None] ([nullptr]) is the timeout. *)
Fixpoint waitForBreakEvent (attempts : nat) : M EdbgAvr8Interface (option AvrEvent) :=
  match attempts with
  | O => ret None
  | S n =>
      event <- getAvrEvent ;;
      match event with
      | Some (BreakEvent ev) => ret (Some ev)
      | _ => waitForBreakEvent n
      end
  end.

(** [EdbgAvr8Interface::waitForStoppedEvent] *)
Definition waitForStoppedEvent : M EdbgAvr8Interface unit :=
  attempts <- gets eventWaitAttempts ;;
  breakEvent <- waitForBreakEvent attempts ;;
  match breakEvent with
  | None => throw "Failed to receive break event for AVR8 target"
  | Some _ => modify (with_targetState TargetState.STOPPED)
  end.

(** [EdbgAvr8Interface::refreshTargetState] *)
Definition refreshTargetState : M EdbgAvr8Interface unit :=
  avrEvent <- getAvrEvent ;;
  match avrEvent with
  | Some obj =>
      match eventId (eventOf obj) with
      | Some AvrEventId.AVR8_BREAK_EVENT =>
          if isBreakEventObject obj
          then modify (with_targetState TargetState.STOPPED)
          else throw "Failed to process AVR8 break event"
      | _ => modify (with_targetState TargetState.RUNNING)
      end
  | None => modify (with_targetState TargetState.RUNNING)
  end.

(** [EdbgAvr8Interface::getTargetState] *)
Definition getTargetState : M EdbgAvr8Interface TargetState.t :=
  current <- gets targetState ;;
  when (negb (TargetState.eqb current TargetState.STOPPED)) refreshTargetState ;;;
  gets targetState.

(** [EdbgAvr8Interface::stop] *)
Definition stop : M EdbgAvr8Interface unit :=
  responseFrame <- send CommandFrames.Stop ;;
  if failed responseFrame then throw "AVR8 Stop target command failed"
  else
    state <- getTargetState ;;
    when (TargetState.eqb state TargetState.RUNNING) waitForStoppedEvent.

(** [EdbgAvr8Interface::run] *)
Definition run : M EdbgAvr8Interface unit :=
  clearEvents ;;;
  responseFrame <- send CommandFrames.Run ;;
  if failed responseFrame then throw "AVR8 Run command failed"
  else modify (with_targetState TargetState.RUNNING).

(** [EdbgAvr8Interface::runTo] *)
Definition runTo (address : Z) : M EdbgAvr8Interface unit :=
  clearEvents ;;;
  responseFrame <- send (CommandFrames.RunTo address) ;;
  if failed responseFrame then throw "AVR8 Run-to command failed"
  else modify (with_targetState TargetState.RUNNING).

(** [EdbgAvr8Interface::step] *)
Definition step : M EdbgAvr8Interface unit :=
  responseFrame <- send CommandFrames.Step ;;
  if failed responseFrame then throw "AVR8 Step target command failed"
  else modify (with_targetState TargetState.RUNNING).

(** [EdbgAvr8Interface::reset]; the closing 250 ms sleep has no effect on
    the interface object or the wire. *)
Definition reset : M EdbgAvr8Interface unit :=
  responseFrame <- send CommandFrames.Reset ;;
  if failed responseFrame then throw "AVR8 Reset target command failed"
  else
    tryCatch waitForStoppedEvent
      (fun _ => throw "Failed to reset AVR8 target - missing stopped event.").

(** [EdbgAvr8Interface::attach]; a missing stop event is only logged. *)
Definition attach : M EdbgAvr8Interface unit :=
  variant <- gets configVariant ;;
  responseFrame <- send (CommandFrames.Attach
                           (negb (Avr8ConfigVariant.eqb variant Avr8ConfigVariant.MEGAJTAG))) ;;
  if failed responseFrame then throw "AVR8 Attach command failed"
  else
    modify (with_targetAttached true) ;;;
    tryCatch waitForStoppedEvent (fun _ => ret tt).

(** Modelled from the spec: [Avr8ResponseFrame::extractProgramCounter] is
    declared in a header that is not among the sources. The spec: the EDBG
    protocol uses word addresses and "get_pc returns the multiplied value",
    so the payload's word address is doubled, in [std::uint32_t]. *)
Definition extractProgramCounter (r : Avr8ResponseFrame) : Z :=
  wrap32 (payloadProgramCounter r * 2).

(** [EdbgAvr8Interface::getProgramCounter] *)
Definition getProgramCounter : M EdbgAvr8Interface Z :=
  current <- gets targetState ;;
  when (negb (TargetState.eqb current TargetState.STOPPED)) stop ;;;
  responseFrame <- send CommandFrames.GetProgramCounter ;;
  if failed responseFrame then throw "AVR8 Get program counter command failed"
  else ret (extractProgramCounter responseFrame).

(** [EdbgAvr8Interface::setProgramCounter]; [programCounter / 2] is
    unsigned 32-bit division. *)
Definition setProgramCounter (programCounter : Z) : M EdbgAvr8Interface unit :=
  current <- gets targetState ;;
  when (negb (TargetState.eqb current TargetState.STOPPED)) stop ;;;
  responseFrame <- send (CommandFrames.SetProgramCounter (programCounter / 2)) ;;
  if failed responseFrame then throw "AVR8 Set program counter command failed"
  else ret tt.

End Avr8Interface.

(** ** Memory access (EdbgAvr8Interface.cpp) *)

Module MemoryAccess.

Local Open Scope monad_scope.

Import Alignment.

Definition liftRes {S A} (r : Res A) : M S A := fun s => (r, s).

Definition outOfFuel {S A} : M S A := fun s => (OutOfFuel, s).

(** [EdbgAvr8Interface::maximumMemoryAccessSize]. The function returns a
    [std::optional], which on every path holds a value. *)
Definition maximumMemoryAccessSize (memoryType : Avr8MemoryType.t)
  : M EdbgAvr8Interface Z :=
  variant <- gets configVariant ;;
  tp <- gets targetParameters ;;
  perRequest <- gets maximumMemoryAccessSizePerRequest ;;
  hid <- gets (fun i => usbHidInputReportSize (edbgInterface i)) ;;
  if Avr8MemoryType.eqb memoryType Avr8MemoryType.FLASH_PAGE
     || Avr8MemoryType.eqb memoryType Avr8MemoryType.APPL_FLASH
     || Avr8MemoryType.eqb memoryType Avr8MemoryType.BOOT_FLASH
     || (Avr8MemoryType.eqb memoryType Avr8MemoryType.SPM
         && Avr8ConfigVariant.eqb variant Avr8ConfigVariant.MEGAJTAG)
  then value (flashPageSize tp)
  else if Avr8MemoryType.eqb memoryType Avr8MemoryType.EEPROM_ATOMIC
          || Avr8MemoryType.eqb memoryType Avr8MemoryType.EEPROM_PAGE
  then value (eepromPageSize tp)
  else
    match perRequest with
    | Some limit => ret limit
    | None => ret (wrap32 ((hid - 30) * 2))
    end.

(** The guard both memory routines open with. *)
Definition fusesGuard (type : Avr8MemoryType.t) : M EdbgAvr8Interface unit :=
  variant <- gets configVariant ;;
  if Avr8MemoryType.eqb type Avr8MemoryType.FUSES
     && Avr8ConfigVariant.eqb variant Avr8ConfigVariant.DEBUG_WIRE
  then throw "Cannot access AVR fuses via the debugWire interface"
  else ret tt.

(** [std::move(offset, offset + bytes, ...)] out of a buffer: reading past
    its end is undefined. *)
Definition slice {S} (buffer : list Z) (offset bytes : Z) : M S (list Z) :=
  if offset + bytes <=? Z.of_nat (length buffer)
  then ret (firstn (Z.to_nat bytes) (skipn (Z.to_nat offset) buffer))
  else raise (Undefined "read past the end of the buffer").

(** [std::copy(buffer.begin(), buffer.end(), offset)] into a buffer:
    writing past its end is undefined. *)
Definition overlay {S} (aligned : list Z) (offset : Z) (buffer : list Z) : M S (list Z) :=
  if offset + Z.of_nat (length buffer) <=? Z.of_nat (length aligned)
  then ret (firstn (Z.to_nat offset) aligned ++ buffer
            ++ skipn (Z.to_nat offset + length buffer) aligned)
  else raise (Undefined "write past the end of the buffer").

(** The single-frame read that [readMemory] ends in. *)
Definition readMemoryFrame (type : Avr8MemoryType.t) (startAddress bytes : Z)
    (excludedAddresses : list Z) : M EdbgAvr8Interface (list Z) :=
  responseFrame <- Avr8Interface.send
                     (CommandFrames.ReadMemory type startAddress bytes excludedAddresses) ;;
  if failed responseFrame then throw "AVR8 Read memory command failed"
  else
    let data := memoryData responseFrame in
    if Z.of_nat (length data) =? bytes then ret data
    else throw "Unexpected number of bytes returned from EDBG debug tool".

(** The [while (output.size() < bytes)] loop of [readMemory], over the
    call it makes for every chunk; [turns] bounds its iterations. *)
Fixpoint readChunks (readChunk : Z -> Z -> M EdbgAvr8Interface (list Z))
    (startAddress bytes maximumReadSize : Z) (turns : nat) (output : list Z)
  : M EdbgAvr8Interface (list Z) :=
  if Z.of_nat (length output) <? bytes
  then
    match turns with
    | O => outOfFuel
    | S turns' =>
        let bytesToRead :=
          Z.min (wrap32 (bytes - Z.of_nat (length output))) maximumReadSize in
        data <- readChunk (wrap32 (startAddress + Z.of_nat (length output))) bytesToRead ;;
        readChunks readChunk startAddress bytes maximumReadSize turns' (output ++ data)
    end
  else ret output.

(** The loop over the excluded addresses of the driver-side masked read,
    over the call it makes for every segment between them: the output so
    far and the start of the next segment. *)
Fixpoint readSegments (readSegment : Z -> Z -> M EdbgAvr8Interface (list Z))
    (startAddress endAddress : Z) (excluded : list Z)
    (output : list Z) (segmentStartAddress : Z)
  : M EdbgAvr8Interface (list Z * Z) :=
  match excluded with
  | [] => ret (output, segmentStartAddress)
  | excludedAddress :: rest =>
      if (excludedAddress <? startAddress) || (endAddress <? excludedAddress)
      then readSegments readSegment startAddress endAddress rest output segmentStartAddress
      else
        let segmentSize := wrap32 (excludedAddress - segmentStartAddress) in
        output' <- (if 0 <? segmentSize
                    then segmentBuffer <- readSegment segmentStartAddress segmentSize ;;
                         ret (output ++ segmentBuffer)
                    else ret output) ;;
        readSegments readSegment startAddress endAddress rest
          (output' ++ [0]) (wrap32 (excludedAddress + 1))
  end.

(** Whether [readMemory] takes the driver-side masked read. *)
Definition driverSideMasking (avoid : bool) (type : Avr8MemoryType.t)
    (excludedAddresses : list Z) : bool :=
  negb (match excludedAddresses with [] => true | _ => false end)
  && (avoid || negb (Avr8MemoryType.eqb type Avr8MemoryType.SRAM)).

(** [EdbgAvr8Interface::readMemory(Avr8MemoryType, ...)]. The function
    calls itself (for every segment between excluded addresses, for the
    widened range, for every chunk); [fuel] bounds the depth of those calls
    and the number of turns of the chunking loop. [excludedAddresses] is
    the [std::set] in iteration order, that is, ascending. *)
Fixpoint readMemory (fuel : nat) (type : Avr8MemoryType.t) (startAddress bytes : Z)
    (excludedAddresses : list Z) {struct fuel} : M EdbgAvr8Interface (list Z) :=
  match fuel with
  | O => outOfFuel
  | S fuel' =>
      fusesGuard type ;;;
      avoid <- gets avoidMaskedMemoryRead ;;
      if driverSideMasking avoid type excludedAddresses
      then
        let endAddress := wrap32 (startAddress + bytes - 1) in
        r <- readSegments (fun address size => readMemory fuel' type address size [])
               startAddress endAddress excludedAddresses [] startAddress ;;
        let '(output, segmentStartAddress) := r in
        let finalReadBytes := wrap32 (wrap32 (endAddress - segmentStartAddress) + 1) in
        if 0 <? finalReadBytes
        then segmentBuffer <- readMemory fuel' type segmentStartAddress finalReadBytes [] ;;
             ret (output ++ segmentBuffer)
        else ret output
      else
        let chunked : M EdbgAvr8Interface (list Z) :=
          maximumReadSize <- maximumMemoryAccessSize type ;;
          if maximumReadSize <? bytes
          then readChunks (fun address size =>
                             readMemory fuel' type address size excludedAddresses)
                 startAddress bytes maximumReadSize fuel' []
          else readMemoryFrame type startAddress bytes excludedAddresses in
        if alignmentRequired type
        then
          tp <- gets targetParameters ;;
          alignedStartAddress <- liftRes (alignMemoryAddress tp type startAddress) ;;
          alignedBytes <- liftRes (alignMemoryBytes tp type
                                     (wrap32 (bytes + wrap32 (startAddress - alignedStartAddress)))) ;;
          if negb (alignedStartAddress =? startAddress) || negb (alignedBytes =? bytes)
          then
            memoryBuffer <- readMemory fuel' type alignedStartAddress alignedBytes
                              excludedAddresses ;;
            slice memoryBuffer (wrap32 (startAddress - alignedStartAddress)) bytes
          else chunked
        else chunked
  end.

(** The single-frame write that [writeMemory] ends in. *)
Definition writeMemoryFrame (type : Avr8MemoryType.t) (startAddress : Z)
    (buffer : list Z) : M EdbgAvr8Interface unit :=
  responseFrame <- Avr8Interface.send (CommandFrames.WriteMemory type startAddress buffer) ;;
  if failed responseFrame then throw "AVR8 Write memory command failed"
  else ret tt.

(** The [while (bytesWritten < buffer.size())] loop of [writeMemory], over
    the call it makes for every chunk. *)
Fixpoint writeChunks (writeChunk : Z -> list Z -> M EdbgAvr8Interface unit)
    (startAddress : Z) (buffer : list Z) (maximumWriteSize : Z)
    (turns : nat) (bytesWritten : Z) : M EdbgAvr8Interface unit :=
  if bytesWritten <? Z.of_nat (length buffer)
  then
    match turns with
    | O => outOfFuel
    | S turns' =>
        let chunkSize :=
          Z.min (wrap32 (Z.of_nat (length buffer) - bytesWritten)) maximumWriteSize in
        writeChunk (wrap32 (startAddress + bytesWritten))
          (firstn (Z.to_nat chunkSize) (skipn (Z.to_nat bytesWritten) buffer)) ;;;
        writeChunks writeChunk startAddress buffer maximumWriteSize turns'
          (wrap32 (bytesWritten + chunkSize))
    end
  else ret tt.

(** [EdbgAvr8Interface::writeMemory(Avr8MemoryType, ...)], on fuel like
    [readMemory]. [buffer.size()] is truncated to [TargetMemorySize]. *)
Fixpoint writeMemory (fuel : nat) (type : Avr8MemoryType.t) (startAddress : Z)
    (buffer : list Z) {struct fuel} : M EdbgAvr8Interface unit :=
  match fuel with
  | O => outOfFuel
  | S fuel' =>
      fusesGuard type ;;;
      let bytes := wrap32 (Z.of_nat (length buffer)) in
      let chunked : M EdbgAvr8Interface unit :=
        maximumWriteSize <- maximumMemoryAccessSize type ;;
        if maximumWriteSize <? Z.of_nat (length buffer)
        then writeChunks (fun address chunk => writeMemory fuel' type address chunk)
               startAddress buffer maximumWriteSize fuel' 0
        else writeMemoryFrame type startAddress buffer in
      if alignmentRequired type
      then
        tp <- gets targetParameters ;;
        alignedStartAddress <- liftRes (alignMemoryAddress tp type startAddress) ;;
        alignedBytes <- liftRes (alignMemoryBytes tp type
                                   (wrap32 (bytes + wrap32 (startAddress - alignedStartAddress)))) ;;
        if negb (alignedStartAddress =? startAddress) || negb (alignedBytes =? bytes)
        then
          let readMemoryType :=
            if Avr8MemoryType.eqb type Avr8MemoryType.EEPROM_ATOMIC
            then Avr8MemoryType.EEPROM else type in
          alignedBuffer <- readMemory fuel' readMemoryType alignedStartAddress alignedBytes [] ;;
          merged <- overlay alignedBuffer (wrap32 (startAddress - alignedStartAddress)) buffer ;;
          writeMemory fuel' type alignedStartAddress merged
        else chunked
      else chunked
  end.

End MemoryAccess.

(** [Targets::TargetMemoryAddressRange] *)
Module TargetMemoryAddressRange.
Record t := { startAddress : Z; endAddress : Z }.
End TargetMemoryAddressRange.

(** ** Memory access by generic memory type (EdbgAvr8Interface.cpp) *)

Module TargetMemoryAccess.

Local Open Scope monad_scope.

(** [std::set<TargetMemoryAddress>::insert] on the ascending list of the
    set's elements. *)
Fixpoint setInsert (x : Z) (s : list Z) : list Z :=
  match s with
  | [] => [x]
  | y :: rest =>
      if x <? y then x :: s
      else if x =? y then s
      else y :: setInsert x rest
  end.

(** [for (auto i = range.startAddress; i <= range.endAddress; i++)
    excludedAddresses.insert(i)]; with [endAddress] at the top of
    [std::uint32_t] the loop condition never fails. *)
Definition insertRange (r : TargetMemoryAddressRange.t) (s : list Z) : Res (list Z) :=
  let first := TargetMemoryAddressRange.startAddress r in
  let last := TargetMemoryAddressRange.endAddress r in
  if last =? 2 ^ 32 - 1 then OutOfFuel
  else
    Ok (fold_left (fun acc k => setInsert (first + Z.of_nat k) acc)
          (seq 0 (Z.to_nat (last - first + 1))) s).

(** The conversion of excluded ranges into excluded addresses. *)
Fixpoint excludedAddressesOf (ranges : list TargetMemoryAddressRange.t)
    (endAddress : Z) (acc : list Z) : Res (list Z) :=
  match ranges with
  | [] => Ok acc
  | r :: rest =>
      if endAddress <? TargetMemoryAddressRange.startAddress r
      then excludedAddressesOf rest endAddress acc
      else
        match insertRange r acc with
        | Ok acc' => excludedAddressesOf rest endAddress acc'
        | other => other
        end
  end.

(** The FLASH branch shared by the read and the write switch for XMEGA:
    the memory type and the rebased address. *)
Definition xmegaFlash (startAddress : Z)
  : M EdbgAvr8Interface (Avr8MemoryType.t * Z) :=
  tp <- gets targetParameters ;;
  boot <- value (bootSectionStartAddress tp) ;;
  if boot <=? startAddress
  then ret (Avr8MemoryType.BOOT_FLASH, wrap32 (startAddress - boot))
  else
    app <- value (appSectionStartAddress tp) ;;
    ret (Avr8MemoryType.APPL_FLASH, wrap32 (startAddress - app)).

(** The [switch (memoryType)] of [readMemory(TargetMemoryType, ...)]. *)
Definition resolveReadType (memoryType : TargetMemoryType.t) (startAddress : Z)
  : M EdbgAvr8Interface (Avr8MemoryType.t * Z) :=
  variant <- gets configVariant ;;
  progMode <- gets programmingModeEnabled ;;
  tp <- gets targetParameters ;;
  match memoryType with
  | TargetMemoryType.RAM => ret (Avr8MemoryType.SRAM, startAddress)
  | TargetMemoryType.FLASH =>
      match variant with
      | Avr8ConfigVariant.DEBUG_WIRE | Avr8ConfigVariant.UPDI =>
          ret (Avr8MemoryType.FLASH_PAGE, startAddress)
      | Avr8ConfigVariant.MEGAJTAG =>
          ret (if progMode then Avr8MemoryType.FLASH_PAGE else Avr8MemoryType.SPM,
               startAddress)
      | Avr8ConfigVariant.XMEGA => xmegaFlash startAddress
      | Avr8ConfigVariant.NONE => ret (Avr8MemoryType.SRAM, startAddress)
      end
  | TargetMemoryType.EEPROM =>
      let type :=
        if Avr8ConfigVariant.eqb variant Avr8ConfigVariant.MEGAJTAG && progMode
        then Avr8MemoryType.EEPROM_PAGE else Avr8MemoryType.EEPROM in
      if Avr8ConfigVariant.eqb variant Avr8ConfigVariant.XMEGA
      then eepromStart <- value (eepromStartAddress tp) ;;
           ret (type, wrap32 (startAddress - eepromStart))
      else ret (type, startAddress)
  | TargetMemoryType.FUSES => ret (Avr8MemoryType.FUSES, startAddress)
  | TargetMemoryType.OTHER => ret (Avr8MemoryType.SRAM, startAddress)
  end.

(** [EdbgAvr8Interface::readMemory(TargetMemoryType, ...)] *)
Definition readMemory (fuel : nat) (memoryType : TargetMemoryType.t)
    (startAddress bytes : Z) (excludedAddressRanges : list TargetMemoryAddressRange.t)
  : M EdbgAvr8Interface (list Z) :=
  progMode <- gets programmingModeEnabled ;;
  if progMode && TargetMemoryType.eqb memoryType TargetMemoryType.RAM
  then throw "Cannot access RAM when programming mode is enabled"
  else
    resolved <- resolveReadType memoryType startAddress ;;
    let '(avr8MemoryType, startAddress') := resolved in
    let endAddress := wrap32 (startAddress' + bytes - 1) in
    excludedAddresses <- MemoryAccess.liftRes
                           (excludedAddressesOf excludedAddressRanges endAddress []) ;;
    MemoryAccess.readMemory fuel avr8MemoryType startAddress' bytes excludedAddresses.

(** The [switch (memoryType)] of [writeMemory(TargetMemoryType, ...)]. *)
Definition resolveWriteType (memoryType : TargetMemoryType.t) (startAddress : Z)
  : M EdbgAvr8Interface (Avr8MemoryType.t * Z) :=
  variant <- gets configVariant ;;
  progMode <- gets programmingModeEnabled ;;
  tp <- gets targetParameters ;;
  match memoryType with
  | TargetMemoryType.RAM => ret (Avr8MemoryType.SRAM, startAddress)
  | TargetMemoryType.FLASH =>
      match variant with
      | Avr8ConfigVariant.DEBUG_WIRE | Avr8ConfigVariant.UPDI
      | Avr8ConfigVariant.MEGAJTAG =>
          ret (Avr8MemoryType.FLASH_PAGE, startAddress)
      | Avr8ConfigVariant.XMEGA => xmegaFlash startAddress
      | Avr8ConfigVariant.NONE => ret (Avr8MemoryType.SRAM, startAddress)
      end
  | TargetMemoryType.EEPROM =>
      match variant with
      | Avr8ConfigVariant.UPDI => ret (Avr8MemoryType.EEPROM_ATOMIC, startAddress)
      | Avr8ConfigVariant.XMEGA =>
          eepromStart <- value (eepromStartAddress tp) ;;
          ret (Avr8MemoryType.EEPROM_ATOMIC, wrap32 (startAddress - eepromStart))
      | Avr8ConfigVariant.MEGAJTAG =>
          ret (if progMode then Avr8MemoryType.EEPROM_PAGE else Avr8MemoryType.EEPROM,
               startAddress)
      | _ => ret (Avr8MemoryType.EEPROM, startAddress)
      end
  | TargetMemoryType.FUSES => ret (Avr8MemoryType.FUSES, startAddress)
  | TargetMemoryType.OTHER => ret (Avr8MemoryType.SRAM, startAddress)
  end.

(** [EdbgAvr8Interface::writeMemory(TargetMemoryType, ...)] *)
Definition writeMemory (fuel : nat) (memoryType : TargetMemoryType.t)
    (startAddress : Z) (buffer : list Z) : M EdbgAvr8Interface unit :=
  resolved <- resolveWriteType memoryType startAddress ;;
  let '(avr8MemoryType, startAddress') := resolved in
  MemoryAccess.writeMemory fuel avr8MemoryType startAddress' buffer.

End TargetMemoryAccess.

(** ** The AVR8 target (Avr8.cpp) *)

Module FuseType.
Inductive t := LOW | HIGH | EXTENDED.

Definition eqb (a b : t) : bool :=
  match a, b with
  | LOW, LOW | HIGH, HIGH | EXTENDED, EXTENDED => true
  | _, _ => false
  end.
End FuseType.

(** [Targets::Microchip::Avr::Fuse] *)
Module Fuse.
Record t := { type : FuseType.t; value : Z }.
End Fuse.

(** [FuseBitsDescriptor], by the two fields the DWEN update reads. *)
Module FuseBitsDescriptor.
Record t := { fuseType : FuseType.t; bitMask : Z }.
End FuseBitsDescriptor.

(** The abstract class [AvrIspInterface] (implemented by
    [EdbgAvrIspInterface]) over the state [D] of whatever sits behind it;
    every member function may throw. *)
Class AvrIspInterface (D : Type) := {
  setIspParameters : M D unit;
  activate : M D unit;
  deactivate : M D unit;
  getDeviceId : M D TargetSignature;
  readFuse : FuseType.t -> M D Fuse.t;
  readLockBitByte : M D Z;
  programFuse : Fuse.t -> M D unit
}.

(** One call through the ISP interface, with what came back. *)
Inductive IspCall :=
| SetIspParameters (r : Res unit)
| Activate (r : Res unit)
| Deactivate (r : Res unit)
| GetDeviceId (r : Res TargetSignature)
| ReadFuse (fuseType : FuseType.t) (r : Res Fuse.t)
| ReadLockBitByte (r : Res Z)
| ProgramFuse (fuse : Fuse.t) (r : Res unit).

(** The ISP side of the target: the device behind the interface and the
    calls made so far, oldest first. *)
Record IspSession (D : Type) := {
  device : D;
  calls : list IspCall
}.

Arguments device {D} _.
Arguments calls {D} _.

Module Avr8.

Local Open Scope monad_scope.

(** The members of [Avr8] that [updateDwenFuseBit] reads before it
    touches the ISP interface. *)
Record Target := {
  hasAvrIspInterface : bool;
  hasTargetDescriptionFile : bool;
  id : option TargetSignature;
  supportedPhysicalInterfaces : list PhysicalInterface.t;
  dwenFuseBitsDescriptor : option FuseBitsDescriptor.t;
  spienFuseBitsDescriptor : option FuseBitsDescriptor.t
}.

Section WithIsp.

Context {D : Type} {isp : AvrIspInterface D}.

(** A call of [this->avrIspInterface->...], recorded. *)
Definition call {A} (m : M D A) (record : Res A -> IspCall) : M (IspSession D) A :=
  fun s =>
    let '(r, d) := m (device s) in
    (r, {| device := d; calls := calls s ++ [record r] |}).

(** The body of the [try] block of [Avr8::updateDwenFuseBit]. *)
Definition updateDwenFuseBitGuarded (targetId : TargetSignature)
    (dwen spien : FuseBitsDescriptor.t) (enable : bool) : M (IspSession D) unit :=
  ispDeviceId <- call getDeviceId GetDeviceId ;;
  if negb (TargetSignature_eqb ispDeviceId targetId)
  then throw "AVR target signature mismatch"
  else
    dwenFuse <- call (readFuse (FuseBitsDescriptor.fuseType dwen))
                  (ReadFuse (FuseBitsDescriptor.fuseType dwen)) ;;
    let dwenFuseByte := Fuse.value dwenFuse in
    spienFuseByte <-
      (if FuseType.eqb (FuseBitsDescriptor.fuseType spien) (FuseBitsDescriptor.fuseType dwen)
       then ret dwenFuseByte
       else spienFuse <- call (readFuse (FuseBitsDescriptor.fuseType spien))
                           (ReadFuse (FuseBitsDescriptor.fuseType spien)) ;;
            ret (Fuse.value spienFuse)) ;;
    if negb (Z.land spienFuseByte (FuseBitsDescriptor.bitMask spien) =? 0)
    then throw "Invalid SPIEN fuse bit value - suspected inaccuracies in TDF data."
    else if Bool.eqb (negb (negb (Z.land dwenFuseByte (FuseBitsDescriptor.bitMask dwen) =? 0)))
                     enable
    then call deactivate Deactivate
    else
      lockBitByte <- call readLockBitByte ReadLockBitByte ;;
      if negb (lockBitByte =? 255)
      then throw "At least one lock bit has been set"
      else
        let newFuse :=
          {| Fuse.type := FuseBitsDescriptor.fuseType dwen;
             Fuse.value :=
               if enable
               then wrap8 (Z.land dwenFuseByte (Z.lnot (FuseBitsDescriptor.bitMask dwen)))
               else wrap8 (Z.lor dwenFuseByte (FuseBitsDescriptor.bitMask dwen)) |} in
        call (programFuse newFuse) (ProgramFuse newFuse) ;;;
        readBack <- call (readFuse (FuseBitsDescriptor.fuseType dwen))
                      (ReadFuse (FuseBitsDescriptor.fuseType dwen)) ;;
        if negb (Fuse.value readBack =? Fuse.value newFuse)
        then throw "Failed to update DWEN fuse bit - post-update verification failed"
        else call deactivate Deactivate.

(** [Avr8::updateDwenFuseBit] *)
Definition updateDwenFuseBit (t : Target) (enable : bool) : M (IspSession D) unit :=
  if negb (hasAvrIspInterface t)
  then throw "Debug tool or driver does not provide access to an ISP interface"
  else
    match hasTargetDescriptionFile t, id t with
    | true, Some targetId =>
        if negb (existsb (PhysicalInterface.eqb PhysicalInterface.DEBUG_WIRE)
                   (supportedPhysicalInterfaces t))
        then throw "Target does not support debugWire physical interface"
        else
          match dwenFuseBitsDescriptor t with
          | None => throw "Could not find DWEN bit field in TDF."
          | Some dwen =>
              match spienFuseBitsDescriptor t with
              | None => throw "Could not find SPIEN bit field in TDF."
              | Some spien =>
                  call setIspParameters SetIspParameters ;;;
                  call activate Activate ;;;
                  tryCatch (updateDwenFuseBitGuarded targetId dwen spien enable)
                    (fun e => call deactivate Deactivate ;;; throw e)
              end
          end
    | _, _ => throw "Insufficient target information for ISP interface"
    end.

End WithIsp.

(** What the procedure observed through the ISP interface. *)

(** The signature the first successful [getDeviceId] returned. *)
Fixpoint observedSignature (log : list IspCall) : option TargetSignature :=
  match log with
  | [] => None
  | GetDeviceId (Ok s) :: _ => Some s
  | _ :: rest => observedSignature rest
  end.

(** The byte the first successful [readFuse] of the given fuse returned. *)
Fixpoint observedFuse (fuseType : FuseType.t) (log : list IspCall) : option Z :=
  match log with
  | [] => None
  | ReadFuse t (Ok f) :: rest =>
      if FuseType.eqb t fuseType then Some (Fuse.value f) else observedFuse fuseType rest
  | _ :: rest => observedFuse fuseType rest
  end.

(** The byte the first successful [readLockBitByte] returned. *)
Fixpoint observedLockBits (log : list IspCall) : option Z :=
  match log with
  | [] => None
  | ReadLockBitByte (Ok b) :: _ => Some b
  | _ :: rest => observedLockBits rest
  end.

(** The fuses handed to [programFuse], in order. *)
Fixpoint fuseWrites (log : list IspCall) : list Fuse.t :=
  match log with
  | [] => []
  | ProgramFuse f _ :: rest => f :: fuseWrites rest
  | _ :: rest => fuseWrites rest
  end.

(** The signature check passed: the signature read equals the target's. *)
Definition signatureConfirmed (t : Target) (log : list IspCall) : bool :=
  match observedSignature log, id t with
  | Some s, Some targetId => TargetSignature_eqb s targetId
  | _, _ => false
  end.

(** The SPIEN check passed: the SPIEN bit of the fuse byte read is 0,
    that is, programmed. *)
Definition spienProgrammed (t : Target) (log : list IspCall) : bool :=
  match spienFuseBitsDescriptor t with
  | Some spien =>
      match observedFuse (FuseBitsDescriptor.fuseType spien) log with
      | Some b => Z.land b (FuseBitsDescriptor.bitMask spien) =? 0
      | None => false
      end
  | None => false
  end.

(** The lock-bit check passed: the lock-bit byte read is 0xFF. *)
Definition lockBitsCleared (log : list IspCall) : bool :=
  match observedLockBits log with
  | Some b => b =? 255
  | None => false
  end.

(** The facade object for memory writes: the debug interface and the
    target's own programming-mode flag. *)
Record Avr8 := {
  avr8DebugInterface : EdbgAvr8Interface;
  progModeEnabled : bool
}.

Definition onDebugInterface {A} (m : M EdbgAvr8Interface A) : M Avr8 A :=
  fun t =>
    let '(r, i) := m (avr8DebugInterface t) in
    (r, {| avr8DebugInterface := i; progModeEnabled := progModeEnabled t |}).

(** [Avr8::writeMemory] *)
Definition writeMemory (fuel : nat) (memoryType : TargetMemoryType.t)
    (startAddress : Z) (buffer : list Z) : M Avr8 unit :=
  progMode <- gets progModeEnabled ;;
  if TargetMemoryType.eqb memoryType TargetMemoryType.FLASH && negb progMode
  then throw "Attempted FLASH memory write with no active programming session."
  else onDebugInterface (TargetMemoryAccess.writeMemory fuel memoryType startAddress buffer).

(** [Avr8::readMemory] *)
Definition readMemory (fuel : nat) (memoryType : TargetMemoryType.t)
    (startAddress bytes : Z) (excludedAddressRanges : list TargetMemoryAddressRange.t)
  : M Avr8 (list Z) :=
  onDebugInterface
    (TargetMemoryAccess.readMemory fuel memoryType startAddress bytes excludedAddressRanges).

End Avr8.

(** ** The command broker (TargetController/Commands, Services) *)

Module Commands.

(** What a command declares of the state it needs: the virtual functions
    [requiresActiveState], [requiresStoppedTargetState] and
    [requiresDebugMode] of [Command] (Command.hpp). *)
Record Command := {
  requiresActiveState : bool;
  requiresStoppedTargetState : bool;
  requiresDebugMode : bool
}.

(** The base class [Command]: what a command declares that overrides
    none of the three. *)
Definition base : Command :=
  {| requiresActiveState := true;
     requiresStoppedTargetState := false;
     requiresDebugMode := true |}.

(** [ReadTargetMemory] (ReadTargetMemory.hpp), with its two overrides. *)
Definition ReadTargetMemory (memoryType : TargetMemoryType.t) : Command :=
  {| requiresActiveState := requiresActiveState base;
     requiresStoppedTargetState := true;
     requiresDebugMode := TargetMemoryType.eqb memoryType TargetMemoryType.RAM |}.

(** Modelled from the spec: WriteTargetMemory.hpp is not among the
    sources. The spec has, while the programming-mode flag is set, "RAM
    memory operations are forbidden" and "FLASH writes are permitted", and
    "RAM writes during programming mode are rejected": the write command
    declares what [ReadTargetMemory] declares, debug mode for RAM alone. *)
Definition WriteTargetMemory (memoryType : TargetMemoryType.t) : Command :=
  {| requiresActiveState := requiresActiveState base;
     requiresStoppedTargetState := true;
     requiresDebugMode := TargetMemoryType.eqb memoryType TargetMemoryType.RAM |}.

End Commands.

Module TargetControllerState.
Inductive t := ACTIVE | SUSPENDED.

Definition eqb (a b : t) : bool :=
  match a, b with
  | ACTIVE, ACTIVE | SUSPENDED, SUSPENDED => true
  | _, _ => false
  end.
End TargetControllerState.

Module TargetController.

Local Open Scope monad_scope.

(** The TargetController, by what the broker consults: its own state and
    the target it owns. *)
Record t := {
  state : TargetControllerState.t;
  target : Avr8.Avr8
}.

(** Modelled from the spec: the command loop of the TargetController is
    not among the sources. The spec has "each command declares
    requires_active, requires_stopped, requires_debug_mode; the service
    rejects a command pre-dispatch if any precondition fails, with a typed
    error", the error being a precondition failure "because the service is
    suspended, target not stopped, or programming mode state mismatch"; a
    command that passes is dispatched to the target. *)
Definition processCommand {A} (command : Commands.Command) (handler : M Avr8.Avr8 A)
  : M t A :=
  fun c =>
    if Commands.requiresActiveState command
       && negb (TargetControllerState.eqb (state c) TargetControllerState.ACTIVE)
    then (Err (Exception "Command rejected - TargetController not in active state"), c)
    else if Commands.requiresStoppedTargetState command
            && negb (TargetState.eqb (targetState (Avr8.avr8DebugInterface (target c)))
                       TargetState.STOPPED)
    then (Err (Exception "Command rejected - target execution is not stopped"), c)
    else if Commands.requiresDebugMode command && Avr8.progModeEnabled (target c)
    then (Err (Exception "Command rejected - target is in programming mode"), c)
    else
      let '(r, t') := handler (target c) in
      (r, {| state := state c; target := t' |}).

(** Modelled from the spec: [TargetControllerService::readMemory] is
    declared in TargetControllerService.hpp, its body is not among the
    sources. The spec has the service as a "request/response broker":
    the call submits a [ReadTargetMemory] command, and the command that
    passes the broker reads through the target. *)
Definition readMemory (fuel : nat) (memoryType : TargetMemoryType.t)
    (startAddress bytes : Z) (excludedAddressRanges : list TargetMemoryAddressRange.t)
  : M t (list Z) :=
  processCommand (Commands.ReadTargetMemory memoryType)
    (Avr8.readMemory fuel memoryType startAddress bytes excludedAddressRanges).

(** Modelled from the spec: [TargetControllerService::writeMemory], as
    [readMemory] above, with the [WriteTargetMemory] command. *)
Definition writeMemory (fuel : nat) (memoryType : TargetMemoryType.t)
    (startAddress : Z) (buffer : list Z) : M t unit :=
  processCommand (Commands.WriteTargetMemory memoryType)
    (Avr8.writeMemory fuel memoryType startAddress buffer).

End TargetController.

(** ** The RSP 'M' packet (DebugServer/Gdb/AvrGdb/CommandPackets/WriteMemory.cpp) *)

(** [TargetMemoryDescriptor], by the one field the handler reads. *)
Record TargetMemoryDescriptor := {
  addressRange : TargetMemoryAddressRange.t
}.

(** [TargetControllerService], by the one operation the handler calls;
    [T] is whatever sits behind the service, and the call may throw. *)
Class TargetControllerService (T : Type) := {
  serviceWriteMemory : TargetMemoryType.t -> Z -> list Z -> M T unit
}.

Inductive ResponsePacket := OkResponsePacket | ErrorResponsePacket.

(** What a packet handler did, oldest first. *)
Inductive HandlerAction :=
| ServiceWriteMemory (memoryType : TargetMemoryType.t) (startAddress : Z)
    (buffer : list Z) (r : Res unit)
| WritePacket (p : ResponsePacket).

(** The debug session as the handler sees it: the target controller behind
    the service and the record of what the handler did. *)
Record DebugSession (T : Type) := {
  controller : T;
  actions : list HandlerAction
}.

Arguments controller {T} _.
Arguments actions {T} _.

Module GdbWriteMemory.

Local Open Scope monad_scope.

(** [QString::split(sep)], which keeps empty parts: a string with n
    separators has n + 1 segments. *)
Fixpoint split (sep : ascii) (s : string) : list string :=
  match s with
  | EmptyString => [EmptyString]
  | String c rest =>
      if Ascii.eqb c sep then EmptyString :: split sep rest
      else
        match split sep rest with
        | segment :: segments => String c segment :: segments
        | [] => [String c EmptyString]
        end
  end.

(** [this->data.data() + 1]: the packet data without its first byte. *)
Definition dropFirst (s : string) : string :=
  match s with
  | EmptyString => EmptyString
  | String _ rest => rest
  end.

(** The members of the [WriteMemory] command packet. *)
Record t := {
  memoryType : TargetMemoryType.t;
  startAddress : Z;
  buffer : list Z
}.

Section Packet.

(** [QString::toUInt(&ok, 16)] of the Qt library; [None] is [ok == false]. *)
Variable toUInt : string -> option Z.

(** [Gdb::TargetDescriptor::getMemoryTypeFromGdbAddress] and
    [getMemoryOffset], virtual functions declared in a header that is not
    among the sources. *)
Variable getMemoryTypeFromGdbAddress : Z -> TargetMemoryType.t.
Variable getMemoryOffset : TargetMemoryType.t -> Z.

(** [Packet::hexToData], declared in Packet.hpp, which is not among the
    sources; it may throw. *)
Variable hexToData : string -> Res (list Z).

(** The constructor [WriteMemory::WriteMemory], on the packet's data (the
    bytes between [$] and [#]). *)
Definition parse (data : string) : Res t :=
  if Z.of_nat (String.length data) <? 4 then Err (Exception "Invalid packet length")
  else
    let packetString := dropFirst data in
    match split "," packetString with
    | [addressSegment; lengthAndBuffer] =>
        match toUInt addressSegment with
        | None => Err (Exception "Failed to parse start address from write memory packet data")
        | Some gdbStartAddress =>
            let type := getMemoryTypeFromGdbAddress gdbStartAddress in
            let start := wrap32 (Z.land gdbStartAddress (Z.lnot (getMemoryOffset type))) in
            match split ":" lengthAndBuffer with
            | [lengthSegment; bufferSegment] =>
                match toUInt lengthSegment with
                | None => Err (Exception "Failed to parse write length from write memory packet data")
                | Some bufferSize =>
                    match hexToData bufferSegment with
                    | Ok bytes =>
                        if negb (Z.of_nat (length bytes) =? bufferSize)
                        then Err (Exception "Buffer size does not match length value given in write memory packet")
                        else Ok {| memoryType := type; startAddress := start; buffer := bytes |}
                    | Err e => Err e
                    | OutOfFuel => OutOfFuel
                    end
                end
            | _ => Err (Exception "Unexpected number of segments in packet data")
            end
        end
    | _ => Err (Exception "Unexpected number of segments in packet data")
    end.

End Packet.

Section Handler.

Context {T : Type} {service : TargetControllerService T}.

(** [debugSession.connection.writePacket(...)] *)
Definition writePacket (p : ResponsePacket) : M (DebugSession T) unit :=
  modify (fun s => {| controller := controller s;
                      actions := actions s ++ [WritePacket p] |}).

(** [targetControllerService.writeMemory(...)], recorded. *)
Definition callWriteMemory (type : TargetMemoryType.t) (start : Z) (bytes : list Z)
  : M (DebugSession T) unit :=
  fun s =>
    let '(r, c) := serviceWriteMemory type start bytes (controller s) in
    (r, {| controller := c;
           actions := actions s ++ [ServiceWriteMemory type start bytes r] |}).

(** [WriteMemory::handle]; [memoryDescriptorsByType] is the map of the
    session's target descriptor. *)
Definition handle
    (memoryDescriptorsByType : list (TargetMemoryType.t * TargetMemoryDescriptor))
    (packet : t) : M (DebugSession T) unit :=
  tryCatch
    (match map_find TargetMemoryType.eqb (memoryType packet) memoryDescriptorsByType with
     | None => throw "Target does not support the requested memory type."
     | Some memoryDescriptor =>
         if TargetMemoryType.eqb (memoryType packet) TargetMemoryType.FLASH
         then throw "GDB attempted to write to program memory via an M packet"
         else if (length (buffer packet) =? 0)%nat
         then writePacket OkResponsePacket
         else
           let rangeStart :=
             TargetMemoryAddressRange.startAddress (addressRange memoryDescriptor) in
           let rangeEnd :=
             TargetMemoryAddressRange.endAddress (addressRange memoryDescriptor) in
           let start :=
             if TargetMemoryType.eqb (memoryType packet) TargetMemoryType.EEPROM
             then wrap32 (rangeStart + startAddress packet)
             else startAddress packet in
           let memoryStartAddress :=
             if TargetMemoryType.eqb (memoryType packet) TargetMemoryType.RAM
             then 0 else rangeStart in
           if (start <? memoryStartAddress)
              || (rangeEnd <? start + (Z.of_nat (length (buffer packet)) - 1))
           then throw "GDB requested access to memory which is outside the target's memory range"
           else
             callWriteMemory (memoryType packet) start (buffer packet) ;;;
             writePacket OkResponsePacket
     end)
    (fun _ => writePacket ErrorResponsePacket).

End Handler.

(** The target writes among a handler's actions. *)
Definition targetWrites (log : list HandlerAction) : list HandlerAction :=
  filter (fun a => match a with ServiceWriteMemory _ _ _ _ => true | _ => false end) log.

(** [QString::toUInt(&ok, 16)] on plain hexadecimal digits, for running
    the constructor: no sign, prefix or blanks, and the value must fit
    [uint]. *)
Definition hexDigit (c : ascii) : option Z :=
  let n := Z.of_nat (nat_of_ascii c) in
  if (48 <=? n) && (n <=? 57) then Some (n - 48)
  else if (97 <=? n) && (n <=? 102) then Some (n - 87)
  else if (65 <=? n) && (n <=? 70) then Some (n - 55)
  else None.

Fixpoint hexValue (acc : Z) (s : string) : option Z :=
  match s with
  | EmptyString => Some acc
  | String c rest =>
      match hexDigit c with
      | Some d => hexValue (acc * 16 + d) rest
      | None => None
      end
  end.

Definition plainToUInt (s : string) : option Z :=
  match s with
  | EmptyString => None
  | _ =>
      match hexValue 0 s with
      | Some v => if v <? 2 ^ 32 then Some v else None
      | None => None
      end
  end.

(** Modelled from the spec: [Packet::hexToData] is declared in Packet.hpp,
    which is not among the sources. The spec has the body of the packet as
    [addr,len:data], where "the data length in nibbles must equal 2 len or
    the packet fails": pairs of hexadecimal digits are decoded in order, a
    byte to every two nibbles; a character that is no digit, or a nibble
    left over, is a failure. *)
Fixpoint hexPairs (s : string) : Res (list Z) :=
  match s with
  | EmptyString => Ok []
  | String _ EmptyString => Err (Exception "odd number of hex digits")
  | String hi (String lo rest) =>
      match hexDigit hi, hexDigit lo with
      | Some h, Some l =>
          match hexPairs rest with
          | Ok bytes => Ok (h * 16 + l :: bytes)
          | other => other
          end
      | _, _ => Err (Exception "invalid hex digit")
      end
  end.

(** What a decoder of the packet's data has to be for the length test of
    the constructor to compare nibbles: a byte to every two nibbles. *)
Definition pairwiseDecoder (hexToData : string -> Res (list Z)) : Prop :=
  forall s,
    match hexToData s with
    | Ok bytes => Z.of_nat (String.length s) = 2 * Z.of_nat (length bytes)
    | Err _ => True
    | OutOfFuel => False
    end.

(** The three segments of the packet's data, as the constructor cuts
    them: address, length and hexadecimal data. *)
Definition segments (data : string) : option (string * string * string) :=
  match split "," (dropFirst data) with
  | [addressSegment; lengthAndBuffer] =>
      match split ":" lengthAndBuffer with
      | [lengthSegment; bufferSegment] =>
          Some (addressSegment, lengthSegment, bufferSegment)
      | _ => None
      end
  | _ => None
  end.

(** The AVR GDB address convention, for running the constructor: RAM
    lives at offset 0x800000 and EEPROM at 0x810000 of GDB's flat address
    space, everything below is FLASH. *)
Definition avrMemoryTypeFromGdbAddress (address : Z) : TargetMemoryType.t :=
  if Z.land address 8454144 =? 8454144 then TargetMemoryType.EEPROM
  else if Z.land address 8388608 =? 8388608 then TargetMemoryType.RAM
  else TargetMemoryType.FLASH.

Definition avrMemoryOffset (type : TargetMemoryType.t) : Z :=
  match type with
  | TargetMemoryType.FLASH => 0
  | TargetMemoryType.EEPROM => 8454144
  | _ => 8388608
  end.

End GdbWriteMemory.

(** ** The target-state machine

    The member functions of the debug interface that can assign
    [targetState], as the operations of a transition system over the
    interface object. *)

Module Operation.
Inductive t :=
| Run
| RunTo (address : Z)
| Step
| Stop
| Reset
| Attach
| GetTargetState
| GetProgramCounter
| SetProgramCounter (programCounter : Z).
End Operation.

(** The result of an operation, with the value it returned dropped. *)
Definition discard {S A} (m : M S A) : M S unit :=
  fun s =>
    match m s with
    | (Ok _, s') => (Ok tt, s')
    | (Err e, s') => (Err e, s')
    | (OutOfFuel, s') => (OutOfFuel, s')
    end.

Definition perform (op : Operation.t) : M EdbgAvr8Interface unit :=
  match op with
  | Operation.Run => Avr8Interface.run
  | Operation.RunTo address => Avr8Interface.runTo address
  | Operation.Step => Avr8Interface.step
  | Operation.Stop => Avr8Interface.stop
  | Operation.Reset => Avr8Interface.reset
  | Operation.Attach => Avr8Interface.attach
  | Operation.GetTargetState => discard Avr8Interface.getTargetState
  | Operation.GetProgramCounter => discard Avr8Interface.getProgramCounter
  | Operation.SetProgramCounter pc => Avr8Interface.setProgramCounter pc
  end.

(** A Break event as the tool reports it. *)
Definition breakEvent : AvrEvent := {| eventId := Some AvrEventId.AVR8_BREAK_EVENT |}.

Definition isBreak (e : option AvrEvent) : bool :=
  match e with
  | Some ev =>
      match eventId ev with
      | Some AvrEventId.AVR8_BREAK_EVENT => true
      | _ => false
      end
  | None => false
  end.

(** The event requests among wire items, and whether one of them yielded
    a Break event. *)
Definition polledBreak (w : WireItem) : bool :=
  match w with
  | Polled e => isBreak e
  | Sent _ => false
  end.

Definition isPoll (w : WireItem) : bool :=
  match w with Polled _ => true | Sent _ => false end.

Definition isSent (frame : CommandFrames.t) (w : WireItem) : Prop := w = Sent frame.

(** An interface object fresh from configuration, for running the model. *)
Definition exampleParameters : TargetParameters :=
  {| flashPageSize := Some 128; eepromPageSize := Some 4;
     bootSectionStartAddress := None; appSectionStartAddress := None;
     eepromStartAddress := Some 0 |}.

Definition okResponse : Avr8ResponseFrame :=
  {| id := Avr8ResponseId.OK; payloadProgramCounter := 0; memoryData := [] |}.

Definition pcResponse (word : Z) : Avr8ResponseFrame :=
  {| id := Avr8ResponseId.PC; payloadProgramCounter := word; memoryData := [] |}.

Definition dataResponse (data : list Z) : Avr8ResponseFrame :=
  {| id := Avr8ResponseId.DATA; payloadProgramCounter := 0; memoryData := data |}.

Definition exampleTool (rs : list Avr8ResponseFrame) (evs : list (option AvrEvent))
  : EdbgInterface :=
  {| responses := rs; events := evs; usbHidInputReportSize := 64; wire := [] |}.

Definition exampleInterface (variant : Avr8ConfigVariant.t) (state : TargetState.t)
    (progMode : bool) (tool : EdbgInterface) : EdbgAvr8Interface :=
  {| edbgInterface := tool;
     configVariant := variant;
     targetParameters := exampleParameters;
     targetState := state;
     programmingModeEnabled := progMode;
     avoidMaskedMemoryRead := false;
     maximumMemoryAccessSizePerRequest := None;
     targetAttached := true;
     eventWaitAttempts := 10 |}.

(** ** Vocabulary of the properties *)

(** The pairs the fixed table lists. *)
Definition inVariantTable (f : Family.t) (p : PhysicalInterface.t) : bool :=
  match map_find Family.eqb f
          VariantResolution.getConfigVariantsByFamilyAndPhysicalInterface with
  | Some row =>
      match map_find PhysicalInterface.eqb p row with
      | Some _ => true
      | None => false
      end
  | None => false
  end.

(** The wire grew by [d] between two states of the interface. *)
Definition extends (i i' : EdbgAvr8Interface) (d : list WireItem) : Prop :=
  wireOf i' = wireOf i ++ d.

(** [i'] can only be STOPPED if [i] was, or if a Break event came off the
    wire in between. *)
Definition stoppedByBreak (i i' : EdbgAvr8Interface) (d : list WireItem) : Prop :=
  targetState i' = TargetState.STOPPED ->
  targetState i = TargetState.STOPPED \/ existsb polledBreak d = true.

(** A STOPPED state is kept. *)
Definition keepsStopped (i i' : EdbgAvr8Interface) : Prop :=
  targetState i = TargetState.STOPPED -> targetState i' = TargetState.STOPPED.

(** The operations that resume execution. *)
Definition resumes (op : Operation.t) : Prop :=
  op = Operation.Run \/ op = Operation.Step
  \/ (exists address, op = Operation.RunTo address) \/ op = Operation.Reset.

(** What [run] and [runTo] have in common: drain, then one frame. *)
Definition resumeWith (frame : CommandFrames.t) (i : EdbgAvr8Interface)
    (r : Res unit) (i' : EdbgAvr8Interface) : Prop :=
  r <> OutOfFuel
  /\ (exists d, extends i i' d)
  /\ (r = Ok tt ->
      targetState i' = TargetState.RUNNING
      /\ exists stale,
           extends i i' (map (fun e => Polled (Some e)) stale
                         ++ [Polled None; Sent frame])
           /\ (events (edbgInterface i) = map Some stale ++ None :: events (edbgInterface i')
               \/ (events (edbgInterface i) = map Some stale
                   /\ events (edbgInterface i') = [])))
  /\ (r <> Ok tt -> targetState i' = targetState i).

(** The shape both program counter accessors share: an optional stop,
    then the one frame. *)
Definition pcAccess (frame : CommandFrames.t) (i : EdbgAvr8Interface)
    (ok : bool) (i' : EdbgAvr8Interface) : Prop :=
  (targetState i = TargetState.STOPPED ->
   extends i i' [Sent frame] /\ targetState i' = TargetState.STOPPED)
  /\ (targetState i <> TargetState.STOPPED ->
      exists ps,
        (extends i i' (Sent CommandFrames.Stop :: map Polled ps ++ [Sent frame])
         /\ existsb isBreak ps = true
         /\ targetState i' = TargetState.STOPPED)
        \/ (extends i i' (Sent CommandFrames.Stop :: map Polled ps)
            /\ ok = false
            /\ (targetState i' = TargetState.STOPPED -> existsb isBreak ps = true))).

(** The tool refuses Stop: it answers FAILED, or does not answer. *)
Definition stopRefused (i : EdbgAvr8Interface) : Prop :=
  match responses (edbgInterface i) with
  | [] => True
  | response :: _ => failed response = true
  end.

(** An event that carries no id: [eventId.value()] throws on it. *)
Definition withoutId (e : option AvrEvent) : bool :=
  match e with
  | Some ev => match eventId ev with None => true | Some _ => false end
  | None => false
  end.

(** The event requests of a wait that saw its Break event: the Break
    event is the last thing polled and the only one, and it came within
    the one request of [getTargetState] and the [attempts] of the wait. *)
Definition awaitedBreak (attempts : nat) (ps : list (option AvrEvent)) : Prop :=
  (length ps <= S attempts)%nat
  /\ exists quiet b,
       ps = quiet ++ [b] /\ existsb isBreak quiet = false /\ isBreak b = true.

(** The event requests of a stop that failed: no Break event came, and
    either the tool refused Stop and nothing was polled, or the last
    event polled had no id, or the wait ran through all its attempts. *)
Definition gaveUp (attempts : nat) (i : EdbgAvr8Interface)
    (ps : list (option AvrEvent)) : Prop :=
  existsb isBreak ps = false
  /\ (length ps <= S attempts)%nat
  /\ ((stopRefused i /\ ps = [])
      \/ (exists quiet p, ps = quiet ++ [p] /\ withoutId p = true)
      \/ length ps = S attempts).

(** What both program counter accessors do: on a STOPPED target the one
    frame; otherwise Stop, the wait for the Break event, and the frame
    only once the Break event has come. *)
Definition stopsAndWaits (frame : CommandFrames.t) (i : EdbgAvr8Interface)
    (ok : bool) (i' : EdbgAvr8Interface) : Prop :=
  (targetState i = TargetState.STOPPED ->
   extends i i' [Sent frame] /\ targetState i' = TargetState.STOPPED)
  /\ (targetState i <> TargetState.STOPPED ->
      exists ps,
        (awaitedBreak (eventWaitAttempts i) ps
         /\ extends i i' (Sent CommandFrames.Stop :: map Polled ps ++ [Sent frame])
         /\ targetState i' = TargetState.STOPPED)
        \/ (gaveUp (eventWaitAttempts i) i ps
            /\ extends i i' (Sent CommandFrames.Stop :: map Polled ps)
            /\ ok = false
            /\ targetState i' <> TargetState.STOPPED)).

Definition pcOperation (op : Operation.t) (frame : CommandFrames.t) : Prop :=
  (op = Operation.GetProgramCounter /\ frame = CommandFrames.GetProgramCounter)
  \/ (exists pc, op = Operation.SetProgramCounter pc
                 /\ frame = CommandFrames.SetProgramCounter (pc / 2)).

Definition runningInterface : EdbgAvr8Interface :=
  exampleInterface Avr8ConfigVariant.DEBUG_WIRE TargetState.RUNNING false
    (exampleTool [okResponse; pcResponse 100] [None; None; Some breakEvent]).

(** A tool that answers Stop and reports the Break event too late for the
    wait. *)
Definition lateBreakInterface : EdbgAvr8Interface :=
  exampleInterface Avr8ConfigVariant.DEBUG_WIRE TargetState.RUNNING false
    (exampleTool [okResponse; pcResponse 100] (repeat None 11 ++ [Some breakEvent])).

Definition stoppedInterface : EdbgAvr8Interface :=
  exampleInterface Avr8ConfigVariant.DEBUG_WIRE TargetState.STOPPED false
    (exampleTool [okResponse; pcResponse 256] []).

Definition staleBreakInterface : EdbgAvr8Interface :=
  exampleInterface Avr8ConfigVariant.DEBUG_WIRE TargetState.STOPPED false
    (exampleTool [okResponse] [Some breakEvent]).

(** Each successful [programFuse], with the call made right after it. *)
Fixpoint writeFollowUps (log : list IspCall) : list (Fuse.t * option IspCall) :=
  match log with
  | [] => []
  | ProgramFuse f (Ok _) :: rest =>
      (f, match rest with next :: _ => Some next | [] => None end) :: writeFollowUps rest
  | _ :: rest => writeFollowUps rest
  end.

(** The follow-up of a write is the read-back of the same fuse, and the
    procedure only returns normally when it read back the value written. *)
Definition verifiedBy (r : Res unit) (w : Fuse.t * option IspCall) : Prop :=
  exists rd,
    snd w = Some (ReadFuse (Fuse.type (fst w)) rd)
    /\ (forall back, rd = Ok back -> Fuse.value back <> Fuse.value (fst w) -> is_ok r = false)
    /\ (r = Ok tt -> exists back, rd = Ok back /\ Fuse.value back = Fuse.value (fst w)).

(** A simulated AVR behind the ISP interface, for running the fuse
    procedure: fuses that take every write. *)
Record SimulatedAvr := {
  simSignature : TargetSignature;
  simFuses : FuseType.t -> Z;
  simLockBits : Z
}.

#[export] Instance simulatedIsp : AvrIspInterface SimulatedAvr := {
  setIspParameters := ret tt;
  activate := ret tt;
  deactivate := ret tt;
  getDeviceId := gets simSignature;
  readFuse := fun fuseType d =>
    (Ok {| Fuse.type := fuseType; Fuse.value := simFuses d fuseType |}, d);
  readLockBitByte := gets simLockBits;
  programFuse := fun fuse d =>
    (Ok tt,
     {| simSignature := simSignature d;
        simFuses := fun t => if FuseType.eqb t (Fuse.type fuse)
                             then Fuse.value fuse else simFuses d t;
        simLockBits := simLockBits d |})
}.

(** An ATmega328P-like target: DWEN is bit 6 and SPIEN bit 5 of the high
    fuse byte; the device has SPIEN programmed, DWEN and the lock bits
    cleared. *)
Definition exampleTarget : Avr8.Target :=
  {| Avr8.hasAvrIspInterface := true;
     Avr8.hasTargetDescriptionFile := true;
     Avr8.id := Some (30, 149, 15);
     Avr8.supportedPhysicalInterfaces :=
       [PhysicalInterface.ISP; PhysicalInterface.DEBUG_WIRE];
     Avr8.dwenFuseBitsDescriptor :=
       Some {| FuseBitsDescriptor.fuseType := FuseType.HIGH;
               FuseBitsDescriptor.bitMask := 64 |};
     Avr8.spienFuseBitsDescriptor :=
       Some {| FuseBitsDescriptor.fuseType := FuseType.HIGH;
               FuseBitsDescriptor.bitMask := 32 |} |}.

Definition exampleDevice : SimulatedAvr :=
  {| simSignature := (30, 149, 15);
     simFuses := fun t => match t with
                          | FuseType.LOW => 98
                          | FuseType.HIGH => 217
                          | FuseType.EXTENDED => 255
                          end;
     simLockBits := 255 |}.

(** ** Vocabulary of the chunking property *)

Definition ceilDiv (a b : Z) : Z := (a + b - 1) / b.

(** The chunks of a request of [remaining] bytes at [address], each of at
    most [maximum] bytes: (address, size) pairs, in order. *)
Fixpoint chunks (n : nat) (address remaining maximum : Z) : list (Z * Z) :=
  match n with
  | O => []
  | S n' =>
      if 0 <? remaining
      then (address, Z.min remaining maximum)
           :: chunks n' (address + Z.min remaining maximum)
                (remaining - Z.min remaining maximum) maximum
      else []
  end.

Definition chunksOf (address bytes maximum : Z) : list (Z * Z) :=
  chunks (Z.to_nat bytes) address bytes maximum.

(** The interface settings that the memory routines consult. *)
Definition settingsOf (i : EdbgAvr8Interface) :=
  (configVariant i, targetParameters i, avoidMaskedMemoryRead i,
   maximumMemoryAccessSizePerRequest i, usbHidInputReportSize (edbgInterface i)).

(** The request needs no widening: the memory type is not page-aligned,
    or the start address and the length are multiples of the page size,
    which is then also the maximum access size. *)
Definition noWidening (tp : TargetParameters) (type : Avr8MemoryType.t)
    (startAddress bytes maximum : Z) : Prop :=
  Alignment.alignmentRequired type = false
  \/ (Alignment.alignTo tp type = Ok maximum
      /\ startAddress mod maximum = 0 /\ bytes mod maximum = 0).

(** Neither the fuses guard nor the driver-side masked read applies. *)
Definition plainAccess (i : EdbgAvr8Interface) (type : Avr8MemoryType.t)
    (excludedAddresses : list Z) : Prop :=
  Avr8MemoryType.eqb type Avr8MemoryType.FUSES
  && Avr8ConfigVariant.eqb (configVariant i) Avr8ConfigVariant.DEBUG_WIRE = false
  /\ MemoryAccess.driverSideMasking (avoidMaskedMemoryRead i) type excludedAddresses = false.

(** The tool answers the frames of the given chunks, in order, each with
    as many bytes as the chunk asks for. *)
Definition answersReads (rs : list Avr8ResponseFrame) (cs : list (Z * Z)) : Prop :=
  Forall2 (fun r c => failed r = false /\ Z.of_nat (length (memoryData r)) = snd c) rs cs.

Definition readFrameOf (type : Avr8MemoryType.t) (excludedAddresses : list Z)
    (c : Z * Z) : WireItem :=
  Sent (CommandFrames.ReadMemory type (fst c) (snd c) excludedAddresses).

Definition writeFrameOf (type : Avr8MemoryType.t) (startAddress : Z) (buffer : list Z)
    (c : Z * Z) : WireItem :=
  Sent (CommandFrames.WriteMemory type (fst c)
          (firstn (Z.to_nat (snd c)) (skipn (Z.to_nat (fst c - startAddress)) buffer))).

(** The state after one more frame went out and its response came in. *)
Definition afterFrame (frame : CommandFrames.t) (rest : list Avr8ResponseFrame)
    (i : EdbgAvr8Interface) : EdbgAvr8Interface :=
  with_edbgInterface
    {| responses := rest;
       events := events (edbgInterface i);
       usbHidInputReportSize := usbHidInputReportSize (edbgInterface i);
       wire := wire (edbgInterface i) ++ [Sent frame] |} i.

Definition answersWrites (rs : list Avr8ResponseFrame) (cs : list (Z * Z)) : Prop :=
  Forall2 (fun r (_ : Z * Z) => failed r = false) rs cs.

(** The number of bytes a memory frame moves. *)
Definition transactionLength (w : WireItem) : option Z :=
  match w with
  | Sent (CommandFrames.ReadMemory _ _ bytes _) => Some bytes
  | Sent (CommandFrames.WriteMemory _ _ buffer) => Some (Z.of_nat (length buffer))
  | _ => None
  end.

Definition transactionWithin (maximum : Z) (w : WireItem) : Prop :=
  exists n, transactionLength w = Some n /\ 0 < n <= maximum.

(** Between [i] and [i'], a request of [bytes] bytes went out as
    ceil(bytes / maximum) memory frames of at most [maximum] bytes each. *)
Definition splitInto (maximum bytes : Z) (i i' : EdbgAvr8Interface) : Prop :=
  exists frames,
    wireOf i' = wireOf i ++ frames
    /\ Z.of_nat (length frames) = ceilDiv bytes maximum
    /\ Forall (transactionWithin maximum) frames.

Definition chunkedReadTool : EdbgInterface :=
  exampleTool [dataResponse (repeat 0 68); dataResponse (repeat 0 68);
               dataResponse (repeat 0 14)] [].

Definition chunkedInterface : EdbgAvr8Interface :=
  exampleInterface Avr8ConfigVariant.DEBUG_WIRE TargetState.STOPPED false chunkedReadTool.

Definition pagedInterface : EdbgAvr8Interface :=
  exampleInterface Avr8ConfigVariant.DEBUG_WIRE TargetState.STOPPED false
    (exampleTool [dataResponse (repeat 0 128); dataResponse (repeat 0 128);
                  dataResponse (repeat 0 128)] []).

(** ** Vocabulary of the memory guards *)

(** A target in its programming session, with a tool that acknowledges
    the next frame. *)
Definition programmingTarget : Avr8.Avr8 :=
  {| Avr8.avr8DebugInterface :=
       exampleInterface Avr8ConfigVariant.DEBUG_WIRE TargetState.STOPPED true
         (exampleTool [okResponse] []);
     Avr8.progModeEnabled := true |}.

(** A memory request was rejected with an error, and left the target
    controller, the target and the wire as they were. *)
Definition rejected {A} (outcome : Res A * TargetController.t)
    (c : TargetController.t) : Prop :=
  exists message, outcome = (Err (Exception message), c).

(** The target controller of a target in its programming session. *)
Definition programmingController : TargetController.t :=
  {| TargetController.state := TargetControllerState.ACTIVE;
     TargetController.target := programmingTarget |}.

(** The same target outside a programming session. *)
Definition debuggingController : TargetController.t :=
  {| TargetController.state := TargetControllerState.ACTIVE;
     TargetController.target :=
       {| Avr8.avr8DebugInterface :=
            exampleInterface Avr8ConfigVariant.DEBUG_WIRE TargetState.STOPPED false
              (exampleTool [okResponse] []);
          Avr8.progModeEnabled := false |} |}.

(** A service that hands a write straight to the target, for running the
    packet handler. *)
#[export] Instance directService : TargetControllerService Avr8.Avr8 := {
  serviceWriteMemory := Avr8.writeMemory 16
}.

Definition exampleDescriptors : list (TargetMemoryType.t * TargetMemoryDescriptor) :=
  [(TargetMemoryType.FLASH,
    {| addressRange := {| TargetMemoryAddressRange.startAddress := 0;
                          TargetMemoryAddressRange.endAddress := 32767 |} |});
   (TargetMemoryType.RAM,
    {| addressRange := {| TargetMemoryAddressRange.startAddress := 256;
                          TargetMemoryAddressRange.endAddress := 2303 |} |});
   (TargetMemoryType.EEPROM,
    {| addressRange := {| TargetMemoryAddressRange.startAddress := 0;
                          TargetMemoryAddressRange.endAddress := 1023 |} |})].

Definition exampleSession : DebugSession Avr8.Avr8 :=
  {| controller := {| Avr8.avr8DebugInterface :=
                        exampleInterface Avr8ConfigVariant.DEBUG_WIRE TargetState.STOPPED
                          false (exampleTool [okResponse] []);
                      Avr8.progModeEnabled := false |};
     actions := [] |}.

(** The constructor with the plain readers of hexadecimal text and the
    AVR address convention. *)
Definition exampleParse (data : string) : Res GdbWriteMemory.t :=
  GdbWriteMemory.parse GdbWriteMemory.plainToUInt
    GdbWriteMemory.avrMemoryTypeFromGdbAddress GdbWriteMemory.avrMemoryOffset
    GdbWriteMemory.hexPairs data.

(** ** Vocabulary of the alignment property *)

(** What the specification asks of an aligned address: not above the
    address, and a multiple of the alignment. *)
Definition alignedDown (address alignment : Z) (r : Res Z) : bool :=
  match r with
  | Ok a => (a <=? address) && (a mod alignment =? 0)
  | _ => false
  end.

(** What it asks of an aligned length: not below the length, and a
    multiple of the alignment. *)
Definition alignedUp (bytes alignment : Z) (r : Res Z) : bool :=
  match r with
  | Ok b => (bytes <=? b) && (b mod alignment =? 0)
  | _ => false
  end.

(** The alignment of a memory type that requires one: the flash page size
    for FLASH_PAGE, SPM, APPL_FLASH and BOOT_FLASH, the EEPROM page size
    for EEPROM_ATOMIC and EEPROM_PAGE. *)
Definition pageSizeOf (tp : TargetParameters) (type : Avr8MemoryType.t) : option Z :=
  match type with
  | Avr8MemoryType.FLASH_PAGE
  | Avr8MemoryType.SPM
  | Avr8MemoryType.APPL_FLASH
  | Avr8MemoryType.BOOT_FLASH => flashPageSize tp
  | Avr8MemoryType.EEPROM_ATOMIC
  | Avr8MemoryType.EEPROM_PAGE => eepromPageSize tp
  | _ => None
  end.

(** The significand and the exponent of the float that holds a positive
    integer below 2^24. *)
Definition mantissa (n : Z) : Z := n * 2 ^ (24 - Zdigits2 n).
Definition exponent (n : Z) : Z := Zdigits2 n - 24.

(** The interface's maximum access size for a memory type. *)
Definition maximumOf (i : EdbgAvr8Interface) (type : Avr8MemoryType.t) : Res Z :=
  fst (MemoryAccess.maximumMemoryAccessSize type i).

(** ** The fuse procedure on the simulated device *)

Definition dwenRun : Res unit * IspSession SimulatedAvr :=
  Avr8.updateDwenFuseBit exampleTarget true {| device := exampleDevice; calls := [] |}.

(** An interface configured with a limit of 16 bytes per request. *)
Definition limitedInterface : EdbgAvr8Interface :=
  {| edbgInterface := exampleTool [] [];
     configVariant := Avr8ConfigVariant.DEBUG_WIRE;
     targetParameters := exampleParameters;
     targetState := TargetState.STOPPED;
     programmingModeEnabled := false;
     avoidMaskedMemoryRead := false;
     maximumMemoryAccessSizePerRequest := Some 16;
     targetAttached := true;
     eventWaitAttempts := 10 |}.

(** An interface that masks excluded addresses on the driver side, with a
    tool that answers three reads. *)
Definition maskedInterface : EdbgAvr8Interface :=
  {| edbgInterface :=
       exampleTool [dataResponse (repeat 0 10); dataResponse (repeat 0 68);
                    dataResponse (repeat 0 21)] [];
     configVariant := Avr8ConfigVariant.DEBUG_WIRE;
     targetParameters := exampleParameters;
     targetState := TargetState.STOPPED;
     programmingModeEnabled := false;
     avoidMaskedMemoryRead := true;
     maximumMemoryAccessSizePerRequest := None;
     targetAttached := true;
     eventWaitAttempts := 10 |}.

(** * The rest of the sources

    [Targets/TargetMemory.hpp] and [Targets/TargetRegister.hpp], the
    member functions of [EdbgAvr8Interface] and [Avr8] that the first part
    leaves out, and what is left of the RSP write-memory handler. *)

(** ** Address ranges and memory descriptors (Targets/TargetMemory.hpp) *)

(** The member functions of [TargetMemoryAddressRange]. *)
Module AddressRange.

Import TargetMemoryAddressRange.

(** [operator ==] *)
Definition eqb (this rhs : t) : bool :=
  (startAddress this =? startAddress rhs) && (endAddress this =? endAddress rhs).

(** [operator <]: by the start address alone. *)
Definition ltb (this rhs : t) : bool := startAddress this <? startAddress rhs.

(** [intersectsWith] *)
Definition intersectsWith (this other : t) : bool :=
  ((startAddress other <=? startAddress this) && (endAddress other >=? startAddress this))
  || ((startAddress other >=? startAddress this) && (startAddress other <=? endAddress this)).

(** [contains(TargetMemoryAddress)] *)
Definition contains (this : t) (address : Z) : bool :=
  (address >=? startAddress this) && (address <=? endAddress this).

(** [contains(const TargetMemoryAddressRange&)] *)
Definition containsRange (this addressRange : t) : bool :=
  (startAddress this <=? startAddress addressRange)
  && (endAddress this >=? endAddress addressRange).

(** A range that holds at least one address. *)
Definition inhabited (r : t) : Prop := startAddress r <= endAddress r.

End AddressRange.

(** [TargetMemoryAccess] and the whole of [TargetMemoryDescriptor]. *)
Module MemoryDescriptor.

Record TargetMemoryAccess := {
  readable : bool;
  writeable : bool;
  writeableDuringDebugSession : bool
}.

Record t := {
  type : TargetMemoryType.t;
  addressRange : TargetMemoryAddressRange.t;
  access : TargetMemoryAccess;
  pageSize : option Z
}.

(** [operator ==]: type and address range. *)
Definition eqb (this rhs : t) : bool :=
  TargetMemoryType.eqb (type this) (type rhs)
  && AddressRange.eqb (addressRange this) (addressRange rhs).

(** [size()], in [std::uint32_t]. *)
Definition size (this : t) : Z :=
  wrap32 (wrap32 (TargetMemoryAddressRange.endAddress (addressRange this)
                  - TargetMemoryAddressRange.startAddress (addressRange this)) + 1).

End MemoryDescriptor.

(** ** Registers (Targets/TargetRegister.hpp) *)

Module TargetRegisterType.
Inductive t :=
| GENERAL_PURPOSE_REGISTER | PROGRAM_COUNTER | STACK_POINTER | STATUS_REGISTER
| PORT_REGISTER | OTHER.

Definition eqb (a b : t) : bool :=
  match a, b with
  | GENERAL_PURPOSE_REGISTER, GENERAL_PURPOSE_REGISTER
  | PROGRAM_COUNTER, PROGRAM_COUNTER | STACK_POINTER, STACK_POINTER
  | STATUS_REGISTER, STATUS_REGISTER | PORT_REGISTER, PORT_REGISTER
  | OTHER, OTHER => true
  | _, _ => false
  end.

(** The enumerators in declaration order, which is the order of a
    [std::map] keyed by the type. *)
Definition all : list t :=
  [GENERAL_PURPOSE_REGISTER; PROGRAM_COUNTER; STACK_POINTER; STATUS_REGISTER;
   PORT_REGISTER; OTHER].
End TargetRegisterType.

Module TargetRegisterDescriptor.
Record t := {
  startAddress : option Z;
  size : Z;
  type : TargetRegisterType.t;
  memoryType : TargetMemoryType.t;
  name : option string;
  groupName : option string;
  description : option string;
  readable : bool;
  writable : bool
}.

(** [TargetRegisterDescriptor(TargetRegisterType type)]: the defaults of
    the member initialisers, with the given type. *)
Definition ofType (registerType : TargetRegisterType.t) : t :=
  {| startAddress := None; size := 0; type := registerType;
     memoryType := TargetMemoryType.OTHER;
     name := None; groupName := None; description := None;
     readable := false; writable := false |}.
End TargetRegisterDescriptor.

Module TargetRegister.
Record t := {
  descriptor : TargetRegisterDescriptor.t;
  value : list Z
}.

(** [size()] *)
Definition size (this : t) : Z := Z.of_nat (length (value this)).
End TargetRegister.

(** ** The whole [EdbgAvr8Interface] object

    The interface object of the first part, with the members and the
    command frames that the remaining member functions need. *)

Module Avr8EraseMemoryMode.
Inductive t := CHIP | APPLICATION_SECTION | BOOT_SECTION.
End Avr8EraseMemoryMode.

(** [Avr8Bit::ProgramMemorySection] *)
Module ProgramMemorySection.
Inductive t := APPLICATION | BOOT.

Definition eqb (a b : t) : bool :=
  match a, b with
  | APPLICATION, APPLICATION | BOOT, BOOT => true
  | _, _ => false
  end.
End ProgramMemorySection.

(** The failure codes [EdbgAvr8Interface::activate] tells apart. *)
Module Avr8CommandFailureCode.
Inductive t := DEBUGWIRE_PHYSICAL_ERROR | FAILED_TO_ENABLE_OCD | OTHER_CODE (code : Z).
End Avr8CommandFailureCode.

Module Edbg.

Local Open Scope monad_scope.

(** The AVR8-generic command frames besides those of [CommandFrames]. *)
Inductive Frame :=
| ActivatePhysical (applyExternalReset : bool)
| DeactivatePhysical
| Detach
| DisableDebugWire
| EnterProgrammingMode
| LeaveProgrammingMode
| EraseMemory (mode : Avr8EraseMemoryMode.t)
| GetDeviceId
| SetSoftwareBreakpoints (addresses : list Z)
| ClearSoftwareBreakpoints (addresses : list Z)
| ClearAllSoftwareBreakpoints.

(** Everything that crossed the wire, oldest first: the traffic of the
    first part's member functions and the frames above. *)
Inductive Traffic :=
| Avr8 (item : WireItem)
| Command (frame : Frame).

(** The fields of [Avr8TargetConfig] that are read here. The member
    [targetConfig] is a [std::optional] that [configure] fills before any
    of the functions below is called. *)
Record Avr8TargetConfig := {
  physicalInterface : PhysicalInterface.t;
  disableDebugWireOnDeactivate : bool;
  preserveEeprom : bool
}.

(** The fields of [TargetParameters] that are read here besides those of
    the record [TargetParameters]. *)
Record FurtherParameters := {
  flashStartAddress : option Z;
  flashSize : option Z;
  eepromSize : option Z;
  signatureSegmentStartAddress : option Z;
  ocdDataRegister : option Z;
  mappedIoSegmentStartAddress : option Z
}.

Record t := {
  interface : EdbgAvr8Interface;
  physicalInterfaceActivated : bool;
  reactivateJtagTargetPostProgrammingMode : bool;
  targetConfig : Avr8TargetConfig;
  furtherParameters : FurtherParameters;
  traffic : list Traffic
}.

Definition with_interface (i : EdbgAvr8Interface) (d : t) : t :=
  {| interface := i;
     physicalInterfaceActivated := physicalInterfaceActivated d;
     reactivateJtagTargetPostProgrammingMode := reactivateJtagTargetPostProgrammingMode d;
     targetConfig := targetConfig d;
     furtherParameters := furtherParameters d;
     traffic := traffic d |}.

Definition with_physicalInterfaceActivated (b : bool) (d : t) : t :=
  {| interface := interface d;
     physicalInterfaceActivated := b;
     reactivateJtagTargetPostProgrammingMode := reactivateJtagTargetPostProgrammingMode d;
     targetConfig := targetConfig d;
     furtherParameters := furtherParameters d;
     traffic := traffic d |}.

Definition with_traffic (l : list Traffic) (d : t) : t :=
  {| interface := interface d;
     physicalInterfaceActivated := physicalInterfaceActivated d;
     reactivateJtagTargetPostProgrammingMode := reactivateJtagTargetPostProgrammingMode d;
     targetConfig := targetConfig d;
     furtherParameters := furtherParameters d;
     traffic := l |}.

(** A member function of the first part, called on this object: what it
    adds to the wire joins the traffic. *)
Definition onInterface {A} (m : M EdbgAvr8Interface A) : M t A :=
  fun d =>
    let '(r, i) := m (interface d) in
    (r, with_interface i
          (with_traffic
             (traffic d
              ++ map Avr8 (skipn (length (wireOf (interface d))) (wireOf i))) d)).

(** [edbgInterface->sendAvrCommandFrameAndWaitForResponseFrame] for one of
    the frames above: the tool answers it with the next of its responses,
    like any other frame. *)
Definition sendFrame (frame : Frame) : M t Avr8ResponseFrame :=
  fun d =>
    let e := edbgInterface (interface d) in
    let taken (rest : list Avr8ResponseFrame) :=
      with_interface
        (with_edbgInterface
           {| responses := rest; events := events e;
              usbHidInputReportSize := usbHidInputReportSize e;
              wire := wire e |} (interface d))
        (with_traffic (traffic d ++ [Command frame]) d) in
    match responses e with
    | r :: rest => (Ok r, taken rest)
    | [] => (Err (Exception "transport failure"), taken [])
    end.

(** [setBreakpoint], [clearBreakpoint], [clearAllBreakpoints] *)
Definition setBreakpoint (address : Z) : M t unit :=
  responseFrame <- sendFrame (SetSoftwareBreakpoints [address]) ;;
  if failed responseFrame then throw "AVR8 Set software breakpoint command failed"
  else ret tt.

Definition clearBreakpoint (address : Z) : M t unit :=
  responseFrame <- sendFrame (ClearSoftwareBreakpoints [address]) ;;
  if failed responseFrame then throw "AVR8 Clear software breakpoint command failed"
  else ret tt.

Definition clearAllBreakpoints : M t unit :=
  responseFrame <- sendFrame ClearAllSoftwareBreakpoints ;;
  if failed responseFrame then throw "AVR8 Clear all software breakpoints command failed"
  else ret tt.

(** [activatePhysical], up to its [throw]: [Some] of the response frame
    that the [Avr8CommandFailure] carries when the function throws it,
    [None] when the function returns. The function calls itself at most
    once, which two units of fuel cover. *)
Fixpoint activatePhysicalAttempt (fuel : nat) (applyExternalReset : bool)
  : M t (option Avr8ResponseFrame) :=
  match fuel with
  | O => MemoryAccess.outOfFuel
  | S fuel' =>
      responseFrame <- sendFrame (ActivatePhysical applyExternalReset) ;;
      if failed responseFrame
      then
        if negb applyExternalReset
        then activatePhysicalAttempt fuel' true
        else ret (Some responseFrame)
      else
        modify (with_physicalInterfaceActivated true) ;;;
        ret None
  end.

(** [activatePhysical(bool applyExternalReset)]; the declaration, which is
    not among the sources, defaults the argument to [false] (the retry is
    the one "with external reset applied"). *)
Definition activatePhysical (applyExternalReset : bool) : M t unit :=
  failure <- activatePhysicalAttempt 2 applyExternalReset ;;
  match failure with
  | Some _ => throw "AVR8 Activate physical interface command failed"
  | None => ret tt
  end.

(** [deactivatePhysical] *)
Definition deactivatePhysical : M t unit :=
  responseFrame <- sendFrame DeactivatePhysical ;;
  if failed responseFrame
  then throw "AVR8 Deactivate physical interface command failed"
  else modify (with_physicalInterfaceActivated false).

(** [detach] *)
Definition detach : M t unit :=
  responseFrame <- sendFrame Detach ;;
  if failed responseFrame then throw "AVR8 Detach command failed"
  else modify (fun d => with_interface (with_targetAttached false (interface d)) d).

(** [disableDebugWire] *)
Definition disableDebugWire : M t unit :=
  responseFrame <- sendFrame DisableDebugWire ;;
  if failed responseFrame then throw "AVR8 Disable debugWire command failed"
  else ret tt.

Section Activation.

(** [Avr8CommandFailure::code], which the exception's constructor (in a
    header that is not among the sources) takes off the response frame. *)
Variable failureCode : Avr8ResponseFrame -> Avr8CommandFailureCode.t.

(** [activate]: the [catch (const Avr8CommandFailure&)] clause sees the
    exception of [activatePhysical] and nothing else. *)
Definition activate : M t unit :=
  activated <- gets physicalInterfaceActivated ;;
  (if negb activated
   then
     failure <- activatePhysicalAttempt 2 false ;;
     match failure with
     | Some responseFrame =>
         config <- gets targetConfig ;;
         if PhysicalInterface.eqb (physicalInterface config) PhysicalInterface.DEBUG_WIRE
            && match failureCode responseFrame with
               | Avr8CommandFailureCode.DEBUGWIRE_PHYSICAL_ERROR
               | Avr8CommandFailureCode.FAILED_TO_ENABLE_OCD => true
               | _ => false
               end
         then throw "Failed to activate the debugWire physical interface - check target connection."
         else throw "AVR8 Activate physical interface command failed"
     | None => ret tt
     end
   else ret tt) ;;;
  attached <- gets (fun d => targetAttached (interface d)) ;;
  when (negb attached) (onInterface Avr8Interface.attach).

(** [enableProgrammingMode] *)
Definition enableProgrammingMode : M t unit :=
  enabled <- gets (fun d => programmingModeEnabled (interface d)) ;;
  if enabled then ret tt
  else
    responseFrame <- sendFrame EnterProgrammingMode ;;
    if failed responseFrame
    then throw "Failed to enter programming mode on EDBG debug tool"
    else modify (fun d => with_interface
                            (with_programmingModeEnabled true (interface d)) d).

(** [disableProgrammingMode] *)
Definition disableProgrammingMode : M t unit :=
  enabled <- gets (fun d => programmingModeEnabled (interface d)) ;;
  if negb enabled then ret tt
  else
    responseFrame <- sendFrame LeaveProgrammingMode ;;
    if failed responseFrame
    then throw "Failed to leave programming mode on EDBG debug tool"
    else
      modify (fun d => with_interface
                         (with_programmingModeEnabled false (interface d)) d) ;;;
      variant <- gets (fun d => configVariant (interface d)) ;;
      reactivate <- gets reactivateJtagTargetPostProgrammingMode ;;
      if Avr8ConfigVariant.eqb variant Avr8ConfigVariant.MEGAJTAG && reactivate
      then
        deactivatePhysical ;;;
        modify (fun d => with_interface (with_targetAttached false (interface d)) d) ;;;
        activate
      else ret tt.

End Activation.

(** [deactivate]; a failure to disable debugWire is only logged. *)
Definition deactivate : M t unit :=
  attached <- gets (fun d => targetAttached (interface d)) ;;
  (if attached
   then
     config <- gets targetConfig ;;
     (if PhysicalInterface.eqb (physicalInterface config) PhysicalInterface.DEBUG_WIRE
         && disableDebugWireOnDeactivate config
      then tryCatch disableDebugWire (fun _ => ret tt)
      else ret tt) ;;;
     detach
   else ret tt) ;;;
  activated <- gets physicalInterfaceActivated ;;
  when activated deactivatePhysical.

(** [eraseProgramMemory(std::optional<ProgramMemorySection> section)] *)
Definition eraseProgramMemory (fuel : nat) (section : option ProgramMemorySection.t)
  : M t unit :=
  variant <- gets (fun d => configVariant (interface d)) ;;
  further <- gets furtherParameters ;;
  if Avr8ConfigVariant.eqb variant Avr8ConfigVariant.DEBUG_WIRE
  then
    flashStart <- value (flashStartAddress further) ;;
    size <- value (flashSize further) ;;
    onInterface (TargetMemoryAccess.writeMemory fuel TargetMemoryType.FLASH flashStart
                   (repeat 255 (Z.to_nat size)))
  else if Avr8ConfigVariant.eqb variant Avr8ConfigVariant.XMEGA
  then
    (if match section with
        | None | Some ProgramMemorySection.BOOT => true
        | _ => false
        end
     then
       responseFrame <- sendFrame (EraseMemory Avr8EraseMemoryMode.BOOT_SECTION) ;;
       if failed responseFrame
       then throw "AVR8 erase memory command (for BOOT section) failed"
       else ret tt
     else ret tt) ;;;
    (if match section with
        | None | Some ProgramMemorySection.APPLICATION => true
        | _ => false
        end
     then
       responseFrame <- sendFrame (EraseMemory Avr8EraseMemoryMode.APPLICATION_SECTION) ;;
       if failed responseFrame
       then throw "AVR8 erase memory command (for APPLICATION section) failed"
       else ret tt
     else ret tt)
  else
    config <- gets targetConfig ;;
    eepromSnapshot <-
      (if preserveEeprom config
       then
         tp <- gets (fun d => targetParameters (interface d)) ;;
         eepromStart <- value (eepromStartAddress tp) ;;
         size <- value (eepromSize further) ;;
         snapshot <- onInterface (TargetMemoryAccess.readMemory fuel TargetMemoryType.EEPROM
                                    eepromStart size []) ;;
         ret (Some snapshot)
       else ret None) ;;
    responseFrame <- sendFrame (EraseMemory Avr8EraseMemoryMode.CHIP) ;;
    if failed responseFrame then throw "AVR8 erase memory command failed"
    else
      match eepromSnapshot with
      | Some snapshot =>
          tp <- gets (fun d => targetParameters (interface d)) ;;
          eepromStart <- value (eepromStartAddress tp) ;;
          onInterface (TargetMemoryAccess.writeMemory fuel TargetMemoryType.EEPROM
                         eepromStart snapshot)
      | None => ret tt
      end.

End Edbg.

(** ** Register access (EdbgAvr8Interface.cpp) *)

Module Registers.

Local Open Scope monad_scope.

(** The memory type both register routines pick for a register type. *)
Definition memoryTypeOf (variant : Avr8ConfigVariant.t)
    (registerType : TargetRegisterType.t) : Avr8MemoryType.t :=
  if TargetRegisterType.eqb registerType TargetRegisterType.GENERAL_PURPOSE_REGISTER
     && (Avr8ConfigVariant.eqb variant Avr8ConfigVariant.XMEGA
         || Avr8ConfigVariant.eqb variant Avr8ConfigVariant.UPDI)
  then Avr8MemoryType.REGISTER_FILE
  else Avr8MemoryType.SRAM.

(** The bytes [writeRegisters] hands to [writeMemory] for a register
    value: zero-filled at the most significant end up to the descriptor's
    size, then reversed, as AVR8 registers are stored LSB first. *)
Definition storedForm (size : Z) (registerValue : list Z) : list Z :=
  let filled :=
    if Z.of_nat (length registerValue) <? size
    then repeat 0 (Z.to_nat (size - Z.of_nat (length registerValue))) ++ registerValue
    else registerValue in
  if 1 <? Z.of_nat (length filled) then rev filled else filled.

(** The body of the loop of [writeRegisters]. *)
Definition writeRegister (fuel : nat) (reg : TargetRegister.t) : M EdbgAvr8Interface unit :=
  let registerDescriptor := TargetRegister.descriptor reg in
  let registerValue := TargetRegister.value reg in
  if (length registerValue =? 0)%nat
  then throw "Cannot write empty register value"
  else if TargetRegisterDescriptor.size registerDescriptor
          <? Z.of_nat (length registerValue)
  then throw "Register value exceeds size specified by register descriptor."
  else
    variant <- gets configVariant ;;
    startAddress <- value (TargetRegisterDescriptor.startAddress registerDescriptor) ;;
    MemoryAccess.writeMemory fuel
      (memoryTypeOf variant (TargetRegisterDescriptor.type registerDescriptor))
      startAddress
      (storedForm (TargetRegisterDescriptor.size registerDescriptor) registerValue).

(** [EdbgAvr8Interface::writeRegisters] *)
Fixpoint writeRegisters (fuel : nat) (registers : list TargetRegister.t)
  : M EdbgAvr8Interface unit :=
  match registers with
  | [] => ret tt
  | reg :: rest => writeRegister fuel reg ;;; writeRegisters fuel rest
  end.

(** The address range of a register type, as [readRegisters] grows it
    descriptor by descriptor: an [std::pair] of addresses. *)
Definition AddressRange : Type := (Z * Z)%type.

(** One step of the first loop of [readRegisters], for a descriptor with
    a start address: the range of its type after it. *)
Definition grow (range : option AddressRange) (startAddress endAddress : Z)
  : AddressRange :=
  match range with
  | None => (startAddress, endAddress)
  | Some (first, second) =>
      (if startAddress <? first then startAddress else first,
       if second <? endAddress then endAddress else second)
  end.

(** The first loop of [readRegisters] for one register type: the
    descriptors of the type that have a start address, in the order of
    the loop, and the range they span. *)
Fixpoint groupOf (registerType : TargetRegisterType.t)
    (descriptors : list TargetRegisterDescriptor.t)
    (members : list TargetRegisterDescriptor.t) (range : option AddressRange)
  : list TargetRegisterDescriptor.t * option AddressRange :=
  match descriptors with
  | [] => (members, range)
  | descriptor :: rest =>
      match TargetRegisterDescriptor.startAddress descriptor with
      | None => groupOf registerType rest members range
      | Some startAddress =>
          if TargetRegisterType.eqb (TargetRegisterDescriptor.type descriptor) registerType
          then
            let endAddress :=
              wrap32 (startAddress + wrap32 (TargetRegisterDescriptor.size descriptor - 1)) in
            groupOf registerType rest (members ++ [descriptor])
              (Some (grow range startAddress endAddress))
          else groupOf registerType rest members range
      end
  end.

(** The excluded addresses of a group's read: the OCD data register, for
    a read of SRAM. *)
Definition excludedAddressesFor (further : Edbg.FurtherParameters)
    (memoryType : Avr8MemoryType.t) : list Z :=
  match Edbg.ocdDataRegister further with
  | Some ocdDataRegister =>
      if Avr8MemoryType.eqb memoryType Avr8MemoryType.SRAM
      then [wrap32 (ocdDataRegister
                    + match Edbg.mappedIoSegmentStartAddress further with
                      | Some offset => offset
                      | None => 0
                      end)]
      else []
  | None => []
  end.

(** The value of a register out of the flat buffer of its group, through
    reverse iterators: the bytes of the register, most significant first.
    Iterators outside the buffer are undefined. *)
Definition extract (flatMemoryBuffer : list Z) (startAddress : Z)
    (descriptor : TargetRegisterDescriptor.t) : M EdbgAvr8Interface TargetRegister.t :=
  descriptorStart <- value (TargetRegisterDescriptor.startAddress descriptor) ;;
  let offset := wrap32 (descriptorStart - startAddress) in
  let size := TargetRegisterDescriptor.size descriptor in
  if offset + size <=? Z.of_nat (length flatMemoryBuffer)
  then ret {| TargetRegister.descriptor := descriptor;
              TargetRegister.value :=
                rev (firstn (Z.to_nat size) (skipn (Z.to_nat offset) flatMemoryBuffer)) |}
  else raise (Undefined "iterator outside the flat memory buffer").

Fixpoint extractAll (flatMemoryBuffer : list Z) (startAddress : Z)
    (descriptors : list TargetRegisterDescriptor.t)
  : M EdbgAvr8Interface (list TargetRegister.t) :=
  match descriptors with
  | [] => ret []
  | descriptor :: rest =>
      reg <- extract flatMemoryBuffer startAddress descriptor ;;
      regs <- extractAll flatMemoryBuffer startAddress rest ;;
      ret (reg :: regs)
  end.

Section ReadRegisters.

(** The order of a [std::set<const TargetRegisterDescriptor*>]: that of
    the addresses at which the caller's descriptors happen to live. *)
Variable byPointer : list TargetRegisterDescriptor.t -> list TargetRegisterDescriptor.t.

(** The body of the second loop of [readRegisters], for one register
    type. *)
Definition readGroup (fuel : nat) (further : Edbg.FurtherParameters)
    (registerType : TargetRegisterType.t)
    (members : list TargetRegisterDescriptor.t) (range : AddressRange)
  : M EdbgAvr8Interface (list TargetRegister.t) :=
  let '(startAddress, endAddress) := range in
  let bufferSize := wrap32 (wrap32 (endAddress - startAddress) + 1) in
  variant <- gets configVariant ;;
  let memoryType := memoryTypeOf variant registerType in
  flatMemoryBuffer <- MemoryAccess.readMemory fuel memoryType startAddress bufferSize
                        (excludedAddressesFor further memoryType) ;;
  if negb (Z.of_nat (length flatMemoryBuffer) =? bufferSize)
  then throw "Failed to read memory within register type address range"
  else extractAll flatMemoryBuffer startAddress (byPointer members).

(** The second loop, over the register types in the order of the map. *)
Fixpoint readGroups (fuel : nat) (further : Edbg.FurtherParameters)
    (registerTypes : list TargetRegisterType.t)
    (descriptors : list TargetRegisterDescriptor.t)
  : M EdbgAvr8Interface (list TargetRegister.t) :=
  match registerTypes with
  | [] => ret []
  | registerType :: rest =>
      match groupOf registerType descriptors [] None with
      | (members, Some range) =>
          regs <- readGroup fuel further registerType members range ;;
          others <- readGroups fuel further rest descriptors ;;
          ret (regs ++ others)
      | (_, None) => readGroups fuel further rest descriptors
      end
  end.

(** [EdbgAvr8Interface::readRegisters]; [descriptors] is the [std::set]
    in iteration order. *)
Definition readRegisters (fuel : nat) (further : Edbg.FurtherParameters)
    (descriptors : list TargetRegisterDescriptor.t)
  : M EdbgAvr8Interface (list TargetRegister.t) :=
  readGroups fuel further TargetRegisterType.all descriptors.

End ReadRegisters.

End Registers.

(** ** Vocabulary of the life-cycle properties *)

(** The responses the tool still holds for the object. *)
Definition pendingResponses (d : Edbg.t) : list Avr8ResponseFrame :=
  responses (edbgInterface (Edbg.interface d)).

(** The command frames among a stretch of traffic, and the rest. *)
Definition commandsOf (l : list Edbg.Traffic) : list Edbg.Frame :=
  flat_map (fun item => match item with
                        | Edbg.Command frame => [frame]
                        | Edbg.Avr8 _ => []
                        end) l.

Definition memoryTrafficOf (l : list Edbg.Traffic) : list WireItem :=
  flat_map (fun item => match item with
                        | Edbg.Avr8 w => [w]
                        | Edbg.Command _ => []
                        end) l.

(** What a call added to the traffic. *)
Definition trafficSince (d d' : Edbg.t) : list Edbg.Traffic :=
  skipn (length (Edbg.traffic d)) (Edbg.traffic d').

Definition failedResponse : Avr8ResponseFrame :=
  {| id := Avr8ResponseId.FAILED; payloadProgramCounter := 0; memoryData := [] |}.

Definition exampleFurther : Edbg.FurtherParameters :=
  {| Edbg.flashStartAddress := Some 0; Edbg.flashSize := Some 256;
     Edbg.eepromSize := Some 8; Edbg.signatureSegmentStartAddress := None;
     Edbg.ocdDataRegister := Some 49; Edbg.mappedIoSegmentStartAddress := Some 32 |}.

(** An object after [configure], with the given tool. *)
Definition exampleEdbg (variant : Avr8ConfigVariant.t) (physical : PhysicalInterface.t)
    (attached activated progMode : bool) (rs : list Avr8ResponseFrame)
    (evs : list (option AvrEvent)) : Edbg.t :=
  {| Edbg.interface :=
       with_targetAttached attached
         (exampleInterface variant TargetState.UNKNOWN progMode (exampleTool rs evs));
     Edbg.physicalInterfaceActivated := activated;
     Edbg.reactivateJtagTargetPostProgrammingMode := true;
     Edbg.targetConfig :=
       {| Edbg.physicalInterface := physical;
          Edbg.disableDebugWireOnDeactivate := true;
          Edbg.preserveEeprom := true |};
     Edbg.furtherParameters := exampleFurther;
     Edbg.traffic := [] |}.

(** The failure code of the example tool: the physical error of
    debugWire. *)
Definition exampleFailureCode (_ : Avr8ResponseFrame) : Avr8CommandFailureCode.t :=
  Avr8CommandFailureCode.DEBUGWIRE_PHYSICAL_ERROR.

(** The erase modes [eraseProgramMemory] goes through on an XMEGA target,
    by the section asked for. *)
Definition sectionModes (section : option ProgramMemorySection.t)
  : list Avr8EraseMemoryMode.t :=
  match section with
  | None => [Avr8EraseMemoryMode.BOOT_SECTION; Avr8EraseMemoryMode.APPLICATION_SECTION]
  | Some ProgramMemorySection.BOOT => [Avr8EraseMemoryMode.BOOT_SECTION]
  | Some ProgramMemorySection.APPLICATION => [Avr8EraseMemoryMode.APPLICATION_SECTION]
  end.

(** The frames [deactivate] starts with for an attached target. *)
Definition detachFrames (config : Edbg.Avr8TargetConfig) : list Edbg.Frame :=
  (if PhysicalInterface.eqb (Edbg.physicalInterface config) PhysicalInterface.DEBUG_WIRE
      && Edbg.disableDebugWireOnDeactivate config
   then [Edbg.DisableDebugWire] else [])
  ++ [Edbg.Detach].

(** ** Vocabulary of the register properties *)

(** The address of a register that has one. *)
Definition startOf (descriptor : TargetRegisterDescriptor.t) : Z :=
  match TargetRegisterDescriptor.startAddress descriptor with
  | Some address => address
  | None => 0
  end.

(** A register value filled with 0x00 at its most significant end, up to
    [size] bytes. *)
Definition zeroExtended (size : Z) (registerValue : list Z) : list Z :=
  repeat 0 (Z.to_nat (size - Z.of_nat (length registerValue))) ++ registerValue.

(** The frame that writes a register: its zero-extended value, least
    significant byte first, at its address. *)
Definition registerWrite (variant : Avr8ConfigVariant.t) (reg : TargetRegister.t)
  : CommandFrames.t :=
  let descriptor := TargetRegister.descriptor reg in
  CommandFrames.WriteMemory
    (Registers.memoryTypeOf variant (TargetRegisterDescriptor.type descriptor))
    (startOf descriptor)
    (rev (zeroExtended (TargetRegisterDescriptor.size descriptor) (TargetRegister.value reg))).

(** A register that [writeRegisters] accepts, and that one access covers. *)
Definition writable (maximum : Z) (reg : TargetRegister.t) : Prop :=
  TargetRegisterDescriptor.startAddress (TargetRegister.descriptor reg) <> None
  /\ 1 <= TargetRegister.size reg
  /\ TargetRegister.size reg <= TargetRegisterDescriptor.size (TargetRegister.descriptor reg)
  /\ TargetRegisterDescriptor.size (TargetRegister.descriptor reg) <= maximum.

(** A register that [writeRegisters] refuses: no value, or more bytes than
    the register has. *)
Definition refused (reg : TargetRegister.t) : Prop :=
  TargetRegister.value reg = []
  \/ TargetRegisterDescriptor.size (TargetRegister.descriptor reg) < TargetRegister.size reg.

(** The register types of which [readRegisters] finds a descriptor with a
    start address, each with its descriptors and the range they span: the
    two maps of the function, in the order of their keys. *)
Definition groupsOf (descriptors : list TargetRegisterDescriptor.t)
  : list (TargetRegisterType.t * list TargetRegisterDescriptor.t * (Z * Z)) :=
  flat_map (fun registerType =>
              match Registers.groupOf registerType descriptors [] None with
              | (members, Some range) => [(registerType, members, range)]
              | (_, None) => []
              end) TargetRegisterType.all.

(** The number of bytes of a range of addresses. *)
Definition span (range : Z * Z) : Z := snd range - fst range + 1.

(** The frame that reads the range of a group. *)
Definition groupRead (variant : Avr8ConfigVariant.t) (further : Edbg.FurtherParameters)
    (group : TargetRegisterType.t * list TargetRegisterDescriptor.t * (Z * Z))
  : CommandFrames.t :=
  let '(registerType, _, range) := group in
  let memoryType := Registers.memoryTypeOf variant registerType in
  CommandFrames.ReadMemory memoryType (fst range) (span range)
    (Registers.excludedAddressesFor further memoryType).

(** The value of a register in the memory of its group, which starts at
    [first]: its bytes, most significant first. *)
Definition valueIn (memory : list Z) (first : Z) (descriptor : TargetRegisterDescriptor.t)
  : TargetRegister.t :=
  {| TargetRegister.descriptor := descriptor;
     TargetRegister.value :=
       rev (firstn (Z.to_nat (TargetRegisterDescriptor.size descriptor))
              (skipn (Z.to_nat (startOf descriptor - first)) memory)) |}.

(** A descriptor without a start address, or with one and at least one
    byte, all of them within the address space. *)
Definition placed (descriptor : TargetRegisterDescriptor.t) : Prop :=
  match TargetRegisterDescriptor.startAddress descriptor with
  | Some address =>
      0 <= address /\ 1 <= TargetRegisterDescriptor.size descriptor
      /\ address + TargetRegisterDescriptor.size descriptor <= 2 ^ 32
  | None => True
  end.

(** The tool answers the read of every group with as many bytes as the
    group spans. *)
Definition answersGroups (rs : list Avr8ResponseFrame)
    (groups : list (TargetRegisterType.t * list TargetRegisterDescriptor.t * (Z * Z)))
  : Prop :=
  Forall2 (fun r group =>
             failed r = false /\ Z.of_nat (length (memoryData r)) = span (snd group))
    rs groups.

(** The registers of the groups out of the responses to their reads. *)
Definition registersFrom
    (byPointer : list TargetRegisterDescriptor.t -> list TargetRegisterDescriptor.t)
    (groups : list (TargetRegisterType.t * list TargetRegisterDescriptor.t * (Z * Z)))
    (rs : list Avr8ResponseFrame) : list TargetRegister.t :=
  flat_map (fun '(group, r) =>
              map (valueIn (memoryData r) (fst (snd group)))
                (byPointer (snd (fst group))))
    (combine groups rs).

(** The descriptors [readRegisters] takes for a register type: those of
    the type that have a start address. *)
Definition eligible (registerType : TargetRegisterType.t)
    (descriptor : TargetRegisterDescriptor.t) : bool :=
  match TargetRegisterDescriptor.startAddress descriptor with
  | Some _ => TargetRegisterType.eqb (TargetRegisterDescriptor.type descriptor) registerType
  | None => false
  end.

(** The address of the last byte of a register. *)
Definition endOf (descriptor : TargetRegisterDescriptor.t) : Z :=
  startOf descriptor + TargetRegisterDescriptor.size descriptor - 1.

(** A range that runs from the least start address to the greatest end
    address of the members; no range for no members. *)
Definition spanned (members : list TargetRegisterDescriptor.t) (range : option (Z * Z))
  : Prop :=
  match range with
  | None => members = []
  | Some (first, last) =>
      Forall (fun m => first <= startOf m /\ endOf m <= last) members
      /\ Exists (fun m => startOf m = first) members
      /\ Exists (fun m => endOf m = last) members
  end.

(** Descriptors and an interface for running the register routines: two
    general purpose registers, the stack pointer, the status register and
    a register without an address. *)
Definition exampleRegister (registerType : TargetRegisterType.t)
    (address : option Z) (size : Z) : TargetRegisterDescriptor.t :=
  {| TargetRegisterDescriptor.startAddress := address;
     TargetRegisterDescriptor.size := size;
     TargetRegisterDescriptor.type := registerType;
     TargetRegisterDescriptor.memoryType := TargetMemoryType.OTHER;
     TargetRegisterDescriptor.name := None;
     TargetRegisterDescriptor.groupName := None;
     TargetRegisterDescriptor.description := None;
     TargetRegisterDescriptor.readable := true;
     TargetRegisterDescriptor.writable := true |}.

Definition exampleRegisters : list TargetRegisterDescriptor.t :=
  [exampleRegister TargetRegisterType.STATUS_REGISTER (Some 95) 1;
   exampleRegister TargetRegisterType.GENERAL_PURPOSE_REGISTER (Some 1) 1;
   exampleRegister TargetRegisterType.OTHER None 1;
   exampleRegister TargetRegisterType.STACK_POINTER (Some 93) 2;
   exampleRegister TargetRegisterType.GENERAL_PURPOSE_REGISTER (Some 0) 1].

Definition registerInterface (rs : list Avr8ResponseFrame) : EdbgAvr8Interface :=
  exampleInterface Avr8ConfigVariant.UPDI TargetState.STOPPED false (exampleTool rs []).

(** The order of the caller's list, for an order of pointers. *)
Definition inListOrder (l : list TargetRegisterDescriptor.t)
  : list TargetRegisterDescriptor.t := l.

(** ** The AVR8 target over its debug interface (Avr8.cpp)

    The member functions of [Avr8] that reach the target through
    [this->avr8DebugInterface], over the abstract class and a record of the
    calls made through it. *)

Module TargetPinState.
Inductive IoDirection := INPUT | OUTPUT.
Inductive IoState := HIGH | LOW.

Record t := {
  ioDirection : option IoDirection;
  ioState : option IoState
}.

Definition isOutput (direction : IoDirection) : bool :=
  match direction with OUTPUT => true | INPUT => false end.

Definition isHigh (state : IoState) : bool :=
  match state with HIGH => true | LOW => false end.
End TargetPinState.

(** The fields of [TargetPinDescriptor], [PadDescriptor] and
    [TargetVariant] that the pin functions read. *)
Module TargetPinDescriptor.
Record t := { variantId : Z; padName : string }.
End TargetPinDescriptor.

Module PadDescriptor.
Record t := {
  gpioPinNumber : option Z;
  gpioDdrAddress : option Z;
  gpioPortAddress : option Z;
  gpioPortInputAddress : option Z
}.
End PadDescriptor.

Module TargetVariant.
Record t := { pinDescriptorsByNumber : list (Z * TargetPinDescriptor.t) }.
End TargetVariant.

(** [std::bitset<8>]: [test] and [set] throw [std::out_of_range] for a
    position that is not in the set. *)
Module Bitset.
Definition ofByte (byte : Z) : Z := wrap8 byte.

Definition test {S} (bits position : Z) : M S bool :=
  if position <? 8 then ret (Z.testbit bits position)
  else raise (StdException "out_of_range").

Definition set {S} (bits position : Z) (bit : bool) : M S Z :=
  if position <? 8
  then ret (if bit then Z.setbit bits position else Z.clearbit bits position)
  else raise (StdException "out_of_range").
End Bitset.

Module DebugInterface.

(** The abstract class [Avr8DebugInterface] (implemented by
    [EdbgAvr8Interface]) over the state [D] of whatever sits behind it, by
    the member functions that are called here; each may throw. *)
Class Avr8DebugInterface (D : Type) := {
  getDeviceId : M D TargetSignature;
  getProgramCounter : M D Z;
  setProgramCounter : Z -> M D unit;
  readRegisters : list TargetRegisterDescriptor.t -> M D (list TargetRegister.t);
  writeRegisters : list TargetRegister.t -> M D unit;
  readMemory : TargetMemoryType.t -> Z -> Z -> list TargetMemoryAddressRange.t
               -> M D (list Z);
  writeMemory : TargetMemoryType.t -> Z -> list Z -> M D unit;
  enableProgrammingMode : M D unit;
  disableProgrammingMode : M D unit
}.

(** One call through the debug interface, with what came back. *)
Inductive DebugCall :=
| GetDeviceId (r : Res TargetSignature)
| GetProgramCounter (r : Res Z)
| SetProgramCounter (programCounter : Z) (r : Res unit)
| ReadRegisters (descriptors : list TargetRegisterDescriptor.t)
    (r : Res (list TargetRegister.t))
| WriteRegisters (registers : list TargetRegister.t) (r : Res unit)
| ReadMemory (memoryType : TargetMemoryType.t) (startAddress bytes : Z)
    (r : Res (list Z))
| WriteMemory (memoryType : TargetMemoryType.t) (startAddress : Z) (buffer : list Z)
    (r : Res unit)
| EnableProgrammingMode (r : Res unit)
| DisableProgrammingMode (r : Res unit).

End DebugInterface.

Module Avr8Target.

Local Open Scope monad_scope.

Import DebugInterface(Avr8DebugInterface, DebugCall).
Import DebugInterface(GetDeviceId, GetProgramCounter, SetProgramCounter, ReadRegisters,
  WriteRegisters, ReadMemory, WriteMemory, EnableProgrammingMode, DisableProgrammingMode).

(** The fields of [FuseBitsDescriptor] that the OCDEN update reads. *)
Record FuseBits := { byteAddress : Z; bitMask : Z }.

(** The members of [Avr8] that the functions below read and do not
    change; the getters of the target description file stand for the
    file, which they need. *)
Record Members := {
  hasTargetDescriptionFile : bool;
  id : option TargetSignature;
  supportedPhysicalInterfaces : list PhysicalInterface.t;
  getTargetSignature : TargetSignature;
  getOcdenFuseBitsDescriptor : option FuseBits;
  getJtagenFuseBitsDescriptor : option FuseBits;
  targetRegisterDescriptorsByType :
    list (TargetRegisterType.t * list TargetRegisterDescriptor.t);
  targetVariantsById : list (Z * TargetVariant.t);
  padDescriptorsByName : list (string * PadDescriptor.t)
}.

(** The target: what sits behind the debug interface, the programming
    mode flag, and the calls made so far, oldest first. *)
Record Session (D : Type) := {
  debugInterface : D;
  progModeEnabled : bool;
  calls : list DebugCall
}.

Arguments debugInterface {D} _.
Arguments progModeEnabled {D} _.
Arguments calls {D} _.

Section WithDebugInterface.

Context {D : Type} {avr8DebugInterface : Avr8DebugInterface D}.

(** A call of [this->avr8DebugInterface->...], recorded. *)
Definition call {A} (m : M D A) (record : Res A -> DebugCall) : M (Session D) A :=
  fun s =>
    let '(r, d) := m (debugInterface s) in
    (r, {| debugInterface := d; progModeEnabled := progModeEnabled s;
           calls := calls s ++ [record r] |}).

Definition setProgModeEnabled (b : bool) : M (Session D) unit :=
  modify (fun s => {| debugInterface := debugInterface s; progModeEnabled := b;
                      calls := calls s |}).

(** [Avr8::getProgramCounterRegister]: the program counter in four bytes,
    most significant first, under a descriptor that has the type and
    nothing else. *)
Definition getProgramCounterRegister : M (Session D) TargetRegister.t :=
  programCounter <- call DebugInterface.getProgramCounter GetProgramCounter ;;
  ret {| TargetRegister.descriptor :=
           TargetRegisterDescriptor.ofType TargetRegisterType.PROGRAM_COUNTER;
         TargetRegister.value :=
           [wrap8 (Z.shiftr programCounter 24); wrap8 (Z.shiftr programCounter 16);
            wrap8 (Z.shiftr programCounter 8); wrap8 programCounter] |}.

(** The [int] that a shift or a bitwise operator on promoted operands
    yields: the value of that residue in 32 bits, two's complement. *)
Definition toInt (x : Z) : Z := (x + 2 ^ 31) mod 2 ^ 32 - 2 ^ 31.

(** [programCounterBytes[0] << 24 | programCounterBytes[1] << 16
    | programCounterBytes[2] << 8 | programCounterBytes[3]], cast to
    [std::uint32_t]; indexing past the end of the vector is undefined. *)
Definition programCounterOf (programCounterBytes : list Z) : M (Session D) Z :=
  match programCounterBytes with
  | b0 :: b1 :: b2 :: b3 :: _ =>
      ret (wrap32 (Z.lor (Z.lor (Z.lor (toInt (Z.shiftl b0 24)) (toInt (Z.shiftl b1 16)))
                            (toInt (Z.shiftl b2 8)))
                     b3))
  | _ => raise (Undefined "index past the end of the vector")
  end.

(** The first loop of [Avr8::writeRegisters]: the program counter
    registers set the program counter and leave the list. *)
Fixpoint routeProgramCounter (registers : list TargetRegister.t)
  : M (Session D) (list TargetRegister.t) :=
  match registers with
  | [] => ret []
  | reg :: rest =>
      if TargetRegisterType.eqb
           (TargetRegisterDescriptor.type (TargetRegister.descriptor reg))
           TargetRegisterType.PROGRAM_COUNTER
      then
        let programCounterBytes :=
          if Z.of_nat (length (TargetRegister.value reg)) <? 4
          then repeat 0 (4 - length (TargetRegister.value reg)) ++ TargetRegister.value reg
          else TargetRegister.value reg in
        programCounter <- programCounterOf programCounterBytes ;;
        call (DebugInterface.setProgramCounter programCounter)
          (SetProgramCounter programCounter) ;;;
        routeProgramCounter rest
      else
        others <- routeProgramCounter rest ;;
        ret (reg :: others)
  end.

(** [Avr8::writeRegisters] *)
Definition writeRegisters (registers : list TargetRegister.t) : M (Session D) unit :=
  others <- routeProgramCounter registers ;;
  match others with
  | [] => ret tt
  | _ :: _ => call (DebugInterface.writeRegisters others) (WriteRegisters others)
  end.

(** The first loop of [Avr8::readRegisters]: a program counter register
    for every descriptor of that type, and the other descriptors. *)
Fixpoint collectProgramCounter (descriptors : list TargetRegisterDescriptor.t)
  : M (Session D) (list TargetRegister.t * list TargetRegisterDescriptor.t) :=
  match descriptors with
  | [] => ret ([], [])
  | descriptor :: rest =>
      if TargetRegisterType.eqb (TargetRegisterDescriptor.type descriptor)
           TargetRegisterType.PROGRAM_COUNTER
      then
        reg <- getProgramCounterRegister ;;
        collected <- collectProgramCounter rest ;;
        ret (reg :: fst collected, snd collected)
      else
        collected <- collectProgramCounter rest ;;
        ret (fst collected, descriptor :: snd collected)
  end.

(** [Avr8::readRegisters]; [descriptors] is the [std::set] in iteration
    order. *)
Definition readRegisters (descriptors : list TargetRegisterDescriptor.t)
  : M (Session D) (list TargetRegister.t) :=
  collected <- collectProgramCounter descriptors ;;
  let '(registers, others) := collected in
  match others with
  | [] => ret registers
  | _ :: _ =>
      otherRegisters <- call (DebugInterface.readRegisters others) (ReadRegisters others) ;;
      ret (registers ++ otherRegisters)
  end.

(** The loop of [Avr8::getStackPointer], from its [i]-th turn on. *)
Fixpoint stackPointerFrom (registerValue : list Z) (i : nat) (stackPointer : Z) : Z :=
  match registerValue with
  | [] => stackPointer
  | byte :: rest =>
      if (i <? 4)%nat
      then stackPointerFrom rest (S i)
             (wrap32 (Z.lor (wrap32 (Z.shiftl stackPointer (8 * Z.of_nat i))) byte))
      else stackPointer
  end.

(** [Avr8::getStackPointer]; [std::map::at] throws [std::out_of_range]
    for a missing key, and [front()] of an empty vector is undefined. *)
Definition getStackPointer (members : Members) : M (Session D) Z :=
  match map_find TargetRegisterType.eqb TargetRegisterType.STACK_POINTER
          (targetRegisterDescriptorsByType members) with
  | None => raise (StdException "out_of_range")
  | Some descriptors =>
      registers <- readRegisters descriptors ;;
      match registers with
      | [] => raise (Undefined "front() of an empty vector")
      | stackPointerRegister :: _ =>
          ret (stackPointerFrom (TargetRegister.value stackPointerRegister) 0 0)
      end
  end.

(** [Avr8::readMemory] *)
Definition readMemory (memoryType : TargetMemoryType.t) (startAddress bytes : Z)
    (excludedAddressRanges : list TargetMemoryAddressRange.t) : M (Session D) (list Z) :=
  call (DebugInterface.readMemory memoryType startAddress bytes excludedAddressRanges)
    (ReadMemory memoryType startAddress bytes).

(** [Avr8::writeMemory] *)
Definition writeMemory (memoryType : TargetMemoryType.t) (startAddress : Z)
    (buffer : list Z) : M (Session D) unit :=
  progMode <- gets progModeEnabled ;;
  if TargetMemoryType.eqb memoryType TargetMemoryType.FLASH && negb progMode
  then throw "Attempted FLASH memory write with no active programming session."
  else call (DebugInterface.writeMemory memoryType startAddress buffer)
         (WriteMemory memoryType startAddress buffer).

(** [Avr8::enableProgrammingMode], [Avr8::disableProgrammingMode] *)
Definition enableProgrammingMode : M (Session D) unit :=
  call DebugInterface.enableProgrammingMode EnableProgrammingMode ;;;
  setProgModeEnabled true.

Definition disableProgrammingMode : M (Session D) unit :=
  call DebugInterface.disableProgrammingMode DisableProgrammingMode ;;;
  setProgModeEnabled false.

(** The read-test-set-write of one register of [Avr8::setPinState]: the
    bit of the pin in the byte at [address] is brought to [wanted]. *)
Definition updateBit (address pinNumber : Z) (wanted : bool) (failure : string)
  : M (Session D) unit :=
  registerValue <- readMemory TargetMemoryType.RAM address 1 [] ;;
  match registerValue with
  | [] => throw failure
  | front :: _ =>
      let bits := Bitset.ofByte front in
      current <- Bitset.test bits pinNumber ;;
      if negb (Bool.eqb current wanted)
      then
        updated <- Bitset.set bits pinNumber wanted ;;
        writeMemory TargetMemoryType.RAM address [wrap8 updated]
      else ret tt
  end.

(** [Avr8::setPinState] *)
Definition setPinState (members : Members) (pinDescriptor : TargetPinDescriptor.t)
    (state : TargetPinState.t) : M (Session D) unit :=
  match map_find Z.eqb (TargetPinDescriptor.variantId pinDescriptor)
          (targetVariantsById members) with
  | None => throw "Invalid target variant ID"
  | Some _ =>
      match map_find String.eqb (TargetPinDescriptor.padName pinDescriptor)
              (padDescriptorsByName members) with
      | None => throw "Unknown pad"
      | Some padDescriptor =>
          match TargetPinState.ioDirection state with
          | None => throw "Missing IO direction state"
          | Some direction =>
              let ioState :=
                match direction with
                | TargetPinState.INPUT => Some TargetPinState.LOW
                | TargetPinState.OUTPUT => TargetPinState.ioState state
                end in
              match PadDescriptor.gpioDdrAddress padDescriptor,
                    PadDescriptor.gpioPortAddress padDescriptor,
                    PadDescriptor.gpioPinNumber padDescriptor with
              | Some ddrAddress, Some portRegisterAddress, Some pinNumber =>
                  updateBit ddrAddress pinNumber (TargetPinState.isOutput direction)
                    "Failed to read DDR value" ;;;
                  match ioState with
                  | Some level =>
                      updateBit portRegisterAddress pinNumber (TargetPinState.isHigh level)
                        "Failed to read PORT register value"
                  | None => ret tt
                  end
              | _, _, _ => throw "Inadequate pad descriptor"
              end
          end
      end
  end.

(** The lambda [readMemoryBitset] of [Avr8::getPinStates] over the cache,
    which maps a start address to the byte read there; [at(0)] throws
    [std::out_of_range] on an empty buffer. *)
Definition readMemoryBitset (cachedMemoryByStartAddress : list (Z * list Z))
    (address : Z) : M (Session D) (Z * list (Z * list Z)) :=
  let startAddress := wrap16 address in
  cached <-
    match map_find Z.eqb startAddress cachedMemoryByStartAddress with
    | Some buffer => ret (buffer, cachedMemoryByStartAddress)
    | None =>
        buffer <- readMemory TargetMemoryType.RAM startAddress 1 [] ;;
        ret (buffer, cachedMemoryByStartAddress ++ [(startAddress, buffer)])
    end ;;
  match fst cached with
  | byte :: _ => ret (Bitset.ofByte byte, snd cached)
  | [] => raise (StdException "out_of_range")
  end.

(** The state of one pin, by its pad; the body of the loop of
    [Avr8::getPinStates] for a pad with a GPIO pin number. *)
Definition pinStateOf (pad : PadDescriptor.t) (pinNumber : Z)
    (cache : list (Z * list Z)) : M (Session D) (TargetPinState.t * list (Z * list Z)) :=
  match PadDescriptor.gpioDdrAddress pad with
  | None =>
      ret ({| TargetPinState.ioDirection := None; TargetPinState.ioState := None |}, cache)
  | Some ddrAddress =>
      ddr <- readMemoryBitset cache ddrAddress ;;
      isOutput <- Bitset.test (fst ddr) pinNumber ;;
      let direction := if isOutput then TargetPinState.OUTPUT else TargetPinState.INPUT in
      let levelAt (address : Z) :=
        port <- readMemoryBitset (snd ddr) address ;;
        isHigh <- Bitset.test (fst port) pinNumber ;;
        ret ({| TargetPinState.ioDirection := Some direction;
                TargetPinState.ioState :=
                  Some (if isHigh then TargetPinState.HIGH else TargetPinState.LOW) |},
             snd port) in
      match (if isOutput then PadDescriptor.gpioPortAddress pad
             else PadDescriptor.gpioPortInputAddress pad) with
      | Some address => levelAt address
      | None =>
          ret ({| TargetPinState.ioDirection := Some direction;
                  TargetPinState.ioState := None |}, snd ddr)
      end
  end.

(** The loop of [Avr8::getPinStates] over the pins of the variant. *)
Fixpoint pinStatesOf (members : Members) (pins : list (Z * TargetPinDescriptor.t))
    (cache : list (Z * list Z)) (output : list (Z * TargetPinState.t))
  : M (Session D) (list (Z * TargetPinState.t)) :=
  match pins with
  | [] => ret output
  | (pinNumber, pinDescriptor) :: rest =>
      match map_find String.eqb (TargetPinDescriptor.padName pinDescriptor)
              (padDescriptorsByName members) with
      | Some pad =>
          match PadDescriptor.gpioPinNumber pad with
          | None => pinStatesOf members rest cache output
          | Some gpioPinNumber =>
              r <- pinStateOf pad gpioPinNumber cache ;;
              pinStatesOf members rest (snd r) (output ++ [(pinNumber, fst r)])
          end
      | None => pinStatesOf members rest cache output
      end
  end.

(** [Avr8::getPinStates] *)
Definition getPinStates (members : Members) (variantId : Z)
  : M (Session D) (list (Z * TargetPinState.t)) :=
  match map_find Z.eqb variantId (targetVariantsById members) with
  | None => throw "Invalid target variant ID"
  | Some variant =>
      pinStatesOf members (TargetVariant.pinDescriptorsByNumber variant) [] []
  end.

(** [.at(0)] of the buffer a read of one fuse byte returns. *)
Definition readFuseByte (address : Z) : M (Session D) Z :=
  buffer <- call (DebugInterface.readMemory TargetMemoryType.FUSES address 1 [])
              (ReadMemory TargetMemoryType.FUSES address 1) ;;
  match buffer with
  | byte :: _ => ret byte
  | [] => raise (StdException "out_of_range")
  end.

(** The body of the [try] block of [Avr8::updateOcdenFuseBit]. *)
Definition updateOcdenFuseBitGuarded (ocden jtagen : FuseBits) (enable : bool)
  : M (Session D) unit :=
  enableProgrammingMode ;;;
  ocdenFuseByteValue <- readFuseByte (byteAddress ocden) ;;
  jtagenFuseByteValue <-
    (if byteAddress jtagen =? byteAddress ocden
     then ret ocdenFuseByteValue
     else readFuseByte (byteAddress jtagen)) ;;
  if negb (Z.land jtagenFuseByteValue (bitMask jtagen) =? 0)
  then throw "Invalid JTAGEN fuse bit value - suspected inaccuracies in TDF data."
  else if Bool.eqb (negb (negb (Z.land ocdenFuseByteValue (bitMask ocden) =? 0))) enable
  then disableProgrammingMode
  else
    let newValue :=
      if enable
      then wrap8 (Z.land ocdenFuseByteValue (Z.lnot (bitMask ocden)))
      else wrap8 (Z.lor ocdenFuseByteValue (bitMask ocden)) in
    call (DebugInterface.writeMemory TargetMemoryType.FUSES (byteAddress ocden) [newValue])
      (WriteMemory TargetMemoryType.FUSES (byteAddress ocden) [newValue]) ;;;
    postUpdateOcdenByteValue <- readFuseByte (byteAddress ocden) ;;
    if negb (postUpdateOcdenByteValue =? newValue)
    then throw "Failed to update OCDEN fuse bit - post-update verification failed"
    else disableProgrammingMode.

(** [Avr8::updateOcdenFuseBit] *)
Definition updateOcdenFuseBit (members : Members) (enable : bool) : M (Session D) unit :=
  match hasTargetDescriptionFile members, id members with
  | true, Some _ =>
      if negb (existsb (PhysicalInterface.eqb PhysicalInterface.JTAG)
                 (supportedPhysicalInterfaces members))
      then throw "Target does not support JTAG physical interface"
      else
        targetSignature <- call DebugInterface.getDeviceId GetDeviceId ;;
        if negb (TargetSignature_eqb targetSignature (getTargetSignature members))
        then throw "Failed to validate connected target - target signature mismatch."
        else
          match getOcdenFuseBitsDescriptor members with
          | None => throw "Could not find OCDEN bit field in TDF."
          | Some ocden =>
              match getJtagenFuseBitsDescriptor members with
              | None => throw "Could not find JTAGEN bit field in TDF."
              | Some jtagen =>
                  tryCatch (updateOcdenFuseBitGuarded ocden jtagen enable)
                    (fun message => disableProgrammingMode ;;; throw message)
              end
          end
  | _, _ => throw "Insufficient target information for managing OCDEN fuse bit"
  end.

End WithDebugInterface.

End Avr8Target.

(** ** Vocabulary of the properties of the target *)

(** A byte, and the number a sequence of bytes writes, most significant
    byte first. *)
Definition isByte (b : Z) : Prop := 0 <= b < 256.

Definition bigEndian (bytes : list Z) : Z :=
  fold_left (fun acc b => acc * 256 + b) bytes 0.

(** The calls made through the debug interface between two states of the
    target. *)
Definition callsSince {D} (s s' : Avr8Target.Session D) : list DebugInterface.DebugCall :=
  skipn (length (Avr8Target.calls s)) (Avr8Target.calls s').

Definition isProgramCounter (reg : TargetRegister.t) : bool :=
  TargetRegisterType.eqb (TargetRegisterDescriptor.type (TargetRegister.descriptor reg))
    TargetRegisterType.PROGRAM_COUNTER.

(** The program counter a register value stands for: its first four
    bytes, which are all of a value of at most four bytes. *)
Definition programCounterIn (reg : TargetRegister.t) : Z :=
  bigEndian (firstn 4 (TargetRegister.value reg)).

(** The calls that set the program counter, with what came back. *)
Definition setProgramCounterCalls (results : list (Z * Res unit))
  : list DebugInterface.DebugCall :=
  map (fun '(programCounter, r) => DebugInterface.SetProgramCounter programCounter r)
    results.

(** A debug interface that records nothing and answers from a fixed
    memory image and program counter: for running the functions. *)
Record SimulatedTarget := {
  simulatedSignature : TargetSignature;
  simulatedProgramCounter : Z;
  simulatedMemory : list (TargetMemoryType.t * Z * Z);
  simulatedRegisters : list TargetRegister.t
}.

Definition simulatedByte (d : SimulatedTarget) (memoryType : TargetMemoryType.t)
    (address : Z) : Z :=
  match find (fun '(type, a, _) => TargetMemoryType.eqb type memoryType && (a =? address))
          (simulatedMemory d) with
  | Some (_, _, byte) => byte
  | None => 0
  end.

#[export] Instance simulatedDebugInterface
  : DebugInterface.Avr8DebugInterface SimulatedTarget := {
  DebugInterface.getDeviceId := gets simulatedSignature;
  DebugInterface.getProgramCounter := gets simulatedProgramCounter;
  DebugInterface.setProgramCounter := fun programCounter =>
    modify (fun d => {| simulatedSignature := simulatedSignature d;
                        simulatedProgramCounter := programCounter;
                        simulatedMemory := simulatedMemory d;
                        simulatedRegisters := simulatedRegisters d |});
  DebugInterface.readRegisters := fun _ => gets simulatedRegisters;
  DebugInterface.writeRegisters := fun registers =>
    modify (fun d => {| simulatedSignature := simulatedSignature d;
                        simulatedProgramCounter := simulatedProgramCounter d;
                        simulatedMemory := simulatedMemory d;
                        simulatedRegisters := registers |});
  DebugInterface.readMemory := fun memoryType startAddress bytes _ =>
    gets (fun d => map (fun k => simulatedByte d memoryType (startAddress + Z.of_nat k))
                     (seq 0 (Z.to_nat bytes)));
  DebugInterface.writeMemory := fun memoryType startAddress buffer =>
    modify (fun d =>
      {| simulatedSignature := simulatedSignature d;
         simulatedProgramCounter := simulatedProgramCounter d;
         simulatedMemory :=
           map (fun '(k, byte) => (memoryType, startAddress + Z.of_nat k, byte))
             (combine (seq 0 (length buffer)) buffer)
           ++ simulatedMemory d;
         simulatedRegisters := simulatedRegisters d |});
  DebugInterface.enableProgrammingMode := ret tt;
  DebugInterface.disableProgrammingMode := ret tt
}.

Definition simulatedSession (d : SimulatedTarget) : Avr8Target.Session SimulatedTarget :=
  {| Avr8Target.debugInterface := d; Avr8Target.progModeEnabled := false;
     Avr8Target.calls := [] |}.

Definition exampleTargetDevice : SimulatedTarget :=
  {| simulatedSignature := (30, 149, 15);
     simulatedProgramCounter := 1234;
     simulatedMemory :=
       [(TargetMemoryType.RAM, 36, 5); (TargetMemoryType.RAM, 37, 4);
        (TargetMemoryType.FUSES, 1, 153)];
     simulatedRegisters :=
       [{| TargetRegister.descriptor :=
             exampleRegister TargetRegisterType.STACK_POINTER (Some 93) 2;
           TargetRegister.value := [8; 255] |}] |}.

Definition exampleMembers : Avr8Target.Members :=
  {| Avr8Target.hasTargetDescriptionFile := true;
     Avr8Target.id := Some (30, 149, 15);
     Avr8Target.supportedPhysicalInterfaces := [PhysicalInterface.ISP; PhysicalInterface.JTAG];
     Avr8Target.getTargetSignature := (30, 149, 15);
     Avr8Target.getOcdenFuseBitsDescriptor :=
       Some {| Avr8Target.byteAddress := 1; Avr8Target.bitMask := 128 |};
     Avr8Target.getJtagenFuseBitsDescriptor :=
       Some {| Avr8Target.byteAddress := 1; Avr8Target.bitMask := 64 |};
     Avr8Target.targetRegisterDescriptorsByType :=
       [(TargetRegisterType.STACK_POINTER,
         [exampleRegister TargetRegisterType.STACK_POINTER (Some 93) 2])];
     Avr8Target.targetVariantsById :=
       [(0, {| TargetVariant.pinDescriptorsByNumber :=
                 [(1, {| TargetPinDescriptor.variantId := 0;
                         TargetPinDescriptor.padName := "PB0" |});
                  (2, {| TargetPinDescriptor.variantId := 0;
                         TargetPinDescriptor.padName := "VCC" |});
                  (3, {| TargetPinDescriptor.variantId := 0;
                         TargetPinDescriptor.padName := "PB2" |})] |})];
     Avr8Target.padDescriptorsByName :=
       [("PB0"%string,
         {| PadDescriptor.gpioPinNumber := Some 0;
            PadDescriptor.gpioDdrAddress := Some 36;
            PadDescriptor.gpioPortAddress := Some 37;
            PadDescriptor.gpioPortInputAddress := Some 35 |});
        ("PB2"%string,
         {| PadDescriptor.gpioPinNumber := Some 2;
            PadDescriptor.gpioDdrAddress := Some 36;
            PadDescriptor.gpioPortAddress := Some 37;
            PadDescriptor.gpioPortInputAddress := Some 35 |})] |}.

(** *** The OCDEN fuse update, as seen through the debug interface *)

Module OcdenLog.

Import DebugInterface.

(** The signature the first successful [getDeviceId] returned. *)
Fixpoint observedSignature (log : list DebugCall) : option TargetSignature :=
  match log with
  | [] => None
  | GetDeviceId (Ok signature) :: _ => Some signature
  | _ :: rest => observedSignature rest
  end.

(** The byte the first successful read of the fuse byte at [address]
    returned. *)
Fixpoint observedFuseByte (address : Z) (log : list DebugCall) : option Z :=
  match log with
  | [] => None
  | ReadMemory TargetMemoryType.FUSES a _ (Ok (byte :: _)) :: rest =>
      if a =? address then Some byte else observedFuseByte address rest
  | _ :: rest => observedFuseByte address rest
  end.

(** The fuse bytes handed to [writeMemory], in order. *)
Fixpoint fuseWrites (log : list DebugCall) : list (Z * list Z) :=
  match log with
  | [] => []
  | WriteMemory TargetMemoryType.FUSES address buffer _ :: rest =>
      (address, buffer) :: fuseWrites rest
  | _ :: rest => fuseWrites rest
  end.

(** Anything else written through the debug interface: memory of another
    type, registers, the program counter. *)
Definition otherWrite (c : DebugCall) : bool :=
  match c with
  | WriteMemory TargetMemoryType.FUSES _ _ _ => false
  | WriteMemory _ _ _ _ | WriteRegisters _ _ | SetProgramCounter _ _ => true
  | _ => false
  end.

(** The signature check passed. *)
Definition signatureConfirmed (members : Avr8Target.Members) (log : list DebugCall) : bool :=
  match observedSignature log with
  | Some signature => TargetSignature_eqb signature (Avr8Target.getTargetSignature members)
  | None => false
  end.

(** The JTAGEN check passed: the JTAGEN bit of the fuse byte read is 0,
    that is, programmed. *)
Definition jtagenProgrammed (members : Avr8Target.Members) (log : list DebugCall) : bool :=
  match Avr8Target.getJtagenFuseBitsDescriptor members with
  | Some jtagen =>
      match observedFuseByte (Avr8Target.byteAddress jtagen) log with
      | Some byte => Z.land byte (Avr8Target.bitMask jtagen) =? 0
      | None => false
      end
  | None => false
  end.

(** Each successful write of a fuse byte, with the call made right after
    it. *)
Fixpoint writeFollowUps (log : list DebugCall) : list (Z * list Z * option DebugCall) :=
  match log with
  | [] => []
  | WriteMemory TargetMemoryType.FUSES address buffer (Ok _) :: rest =>
      (address, buffer, match rest with next :: _ => Some next | [] => None end)
      :: writeFollowUps rest
  | _ :: rest => writeFollowUps rest
  end.

(** The follow-up of a write is the read-back of the same byte, and the
    procedure only returns normally when it read back the byte written. *)
Definition verifiedBy (r : Res unit) (w : Z * list Z * option DebugCall) : Prop :=
  exists rd,
    snd w = Some (ReadMemory TargetMemoryType.FUSES (fst (fst w)) 1 rd)
    /\ (r = Ok tt -> exists back rest, rd = Ok (back :: rest) /\ snd (fst w) = [back]).

(** The byte written is the byte read with the OCDEN bits programmed (0)
    to enable and unprogrammed (1) to disable, and every other bit as it
    was. *)
Definition onlyOcdenBits (members : Avr8Target.Members) (enable : bool)
    (log : list DebugCall) (w : Z * list Z) : Prop :=
  exists ocden old new,
    Avr8Target.getOcdenFuseBitsDescriptor members = Some ocden
    /\ fst w = Avr8Target.byteAddress ocden
    /\ observedFuseByte (Avr8Target.byteAddress ocden) log = Some old
    /\ snd w = [new]
    /\ forall k, 0 <= k < 8 ->
         Z.testbit new k
         = if Z.testbit (Avr8Target.bitMask ocden) k then negb enable else Z.testbit old k.

Definition programmingModeRequested (log : list DebugCall) : bool :=
  existsb (fun c => match c with EnableProgrammingMode _ => true | _ => false end) log.

Definition endsLeavingProgrammingMode (log : list DebugCall) : bool :=
  match rev log with
  | DisableProgrammingMode _ :: _ => true
  | _ => false
  end.

End OcdenLog.

(** A return, or a Bloom exception: the outcomes a [catch (const
    Exception&)] clause sees or lets through as they are. *)
Definition returnsOrThrows {A} (r : Res A) : Prop :=
  match r with
  | Ok _ | Err (Exception _) => True
  | _ => False
  end.

(** *** Pin states, as seen through the debug interface *)

(** The calls that bring the bit of a pin in the byte at [address] to
    [wanted]: a read of the byte alone, when it failed or the bit is as
    wanted already; or, when the bit read differs from [wanted], the read
    and a write of the byte read with that bit changed and no other. *)
Definition readModifyWrite (address pin : Z) (wanted : bool)
    (l : list DebugInterface.DebugCall) : Prop :=
  (exists r,
      l = [DebugInterface.ReadMemory TargetMemoryType.RAM address 1 r]
      /\ forall byte rest, r = Ok (byte :: rest) -> pin < 8 ->
           Z.testbit (wrap8 byte) pin = wanted)
  \/ (exists byte rest updated r',
         l = [DebugInterface.ReadMemory TargetMemoryType.RAM address 1 (Ok (byte :: rest));
              DebugInterface.WriteMemory TargetMemoryType.RAM address [updated] r']
         /\ pin < 8
         /\ Z.testbit (wrap8 byte) pin = negb wanted
         /\ isByte updated
         /\ forall k, 0 <= k ->
              Z.testbit updated k
              = if k =? pin then wanted else Z.testbit (wrap8 byte) k).

(** The level [setPinState] gives the pin: LOW for an input, whatever was
    asked for; for an output the level asked for, if any. *)
Definition wantedLevel (state : TargetPinState.t)
    (direction : TargetPinState.IoDirection) : option bool :=
  match direction with
  | TargetPinState.INPUT => Some false
  | TargetPinState.OUTPUT => option_map TargetPinState.isHigh (TargetPinState.ioState state)
  end.

(** What [setPinState] needs to go ahead: a known variant and pad, a
    direction, and a pad with the two addresses and the pin number. *)
Definition pinRequest (members : Avr8Target.Members)
    (pinDescriptor : TargetPinDescriptor.t) (state : TargetPinState.t)
  : option (Z * Z * Z * TargetPinState.IoDirection) :=
  match map_find Z.eqb (TargetPinDescriptor.variantId pinDescriptor)
          (Avr8Target.targetVariantsById members),
        map_find String.eqb (TargetPinDescriptor.padName pinDescriptor)
          (Avr8Target.padDescriptorsByName members),
        TargetPinState.ioDirection state with
  | Some _, Some pad, Some direction =>
      match PadDescriptor.gpioDdrAddress pad, PadDescriptor.gpioPortAddress pad,
            PadDescriptor.gpioPinNumber pad with
      | Some ddrAddress, Some portAddress, Some pinNumber =>
          Some (ddrAddress, portAddress, pinNumber, direction)
      | _, _, _ => None
      end
  | _, _, _ => None
  end.

(** Reads of one byte of RAM, by address and outcome. *)
Definition byteReads (reads : list (Z * Res (list Z))) : list DebugInterface.DebugCall :=
  map (fun '(address, r) => DebugInterface.ReadMemory TargetMemoryType.RAM address 1 r)
    reads.

(** The keys of a cache. *)
Definition cached (cache : list (Z * list Z)) (address : Z) : bool :=
  match map_find Z.eqb address cache with
  | Some _ => true
  | None => false
  end.

(** What a stretch of [getPinStates] does to the cache and the calls: it
    reads addresses that were not cached, each once, and caches them. *)
Definition cachingReads {D} (cache : list (Z * list Z)) (s s1 : Avr8Target.Session D)
    (cache1 : option (list (Z * list Z))) : Prop :=
  exists reads,
    Avr8Target.calls s1 = Avr8Target.calls s ++ byteReads reads
    /\ NoDup (map fst reads)
    /\ (forall a, In a (map fst reads) -> cached cache a = false)
    /\ match cache1 with
       | Some cache' =>
           (forall a, cached cache a = true -> cached cache' a = true)
           /\ (forall a, In a (map fst reads) -> cached cache' a = true)
       | None => True
       end.

(** ** Vocabulary of the widened accesses *)

(** The content of a flash page, for running the widened accesses: every
    byte holds its offset in the page. *)
Definition examplePage : list Z := map Z.of_nat (seq 0 128).

Definition widenedInterface (rs : list Avr8ResponseFrame) : EdbgAvr8Interface :=
  exampleInterface Avr8ConfigVariant.DEBUG_WIRE TargetState.STOPPED false
    (exampleTool rs []).

(** ** The memory descriptors of the target (Avr8.cpp) *)

Module MemoryDescriptors.

Local Open Scope monad_scope.

(** The fields of [TargetParameters] that [loadTargetMemoryDescriptors]
    reads. *)
Record Parameters := {
  ramStartAddress : option Z;
  ramSize : option Z;
  flashStartAddress : option Z;
  flashSize : option Z;
  flashPageSize : option Z;
  eepromStartAddress : option Z;
  eepromSize : option Z
}.

(** [std::map::insert]: an entry under a key that is taken is left. *)
Definition insert (memoryType : TargetMemoryType.t) (descriptor : MemoryDescriptor.t)
  : M (list (TargetMemoryType.t * MemoryDescriptor.t)) unit :=
  modify (fun m =>
            match map_find TargetMemoryType.eqb memoryType m with
            | Some _ => m
            | None => m ++ [(memoryType, descriptor)]
            end).

(** [TargetMemoryAddressRange(start, start + size - 1)], in
    [std::uint32_t]. *)
Definition rangeOf (startAddress size : Z) : TargetMemoryAddressRange.t :=
  {| TargetMemoryAddressRange.startAddress := startAddress;
     TargetMemoryAddressRange.endAddress := wrap32 (wrap32 (startAddress + size) - 1) |}.

(** [Avr8::loadTargetMemoryDescriptors], on the member
    [targetMemoryDescriptorsByType]. *)
Definition loadTargetMemoryDescriptors (parameters : Parameters)
  : M (list (TargetMemoryType.t * MemoryDescriptor.t)) unit :=
  ramStart <- value (ramStartAddress parameters) ;;
  flashStart <- value (flashStartAddress parameters) ;;
  ramBytes <- value (ramSize parameters) ;;
  insert TargetMemoryType.RAM
    {| MemoryDescriptor.type := TargetMemoryType.RAM;
       MemoryDescriptor.addressRange := rangeOf ramStart ramBytes;
       MemoryDescriptor.access :=
         {| MemoryDescriptor.readable := true; MemoryDescriptor.writeable := true;
            MemoryDescriptor.writeableDuringDebugSession := true |};
       MemoryDescriptor.pageSize := None |} ;;;
  flashBytes <- value (flashSize parameters) ;;
  insert TargetMemoryType.FLASH
    {| MemoryDescriptor.type := TargetMemoryType.FLASH;
       MemoryDescriptor.addressRange := rangeOf flashStart flashBytes;
       MemoryDescriptor.access :=
         {| MemoryDescriptor.readable := true; MemoryDescriptor.writeable := true;
            MemoryDescriptor.writeableDuringDebugSession := false |};
       MemoryDescriptor.pageSize := flashPageSize parameters |} ;;;
  match eepromStartAddress parameters, eepromSize parameters with
  | Some eepromStart, Some eepromBytes =>
      insert TargetMemoryType.EEPROM
        {| MemoryDescriptor.type := TargetMemoryType.EEPROM;
           MemoryDescriptor.addressRange := rangeOf eepromStart eepromBytes;
           MemoryDescriptor.access :=
             {| MemoryDescriptor.readable := true; MemoryDescriptor.writeable := true;
                MemoryDescriptor.writeableDuringDebugSession := true |};
           MemoryDescriptor.pageSize := None |}
  | _, _ => ret tt
  end.

End MemoryDescriptors.

(** A segment of memory as the parameters give it: a start address and a
    size that fit [std::uint32_t]. *)
Definition isSegment (startAddress size : Z) : Prop :=
  is_u32 startAddress /\ is_u32 size.

(** The descriptor of a memory type holds the segment: it starts at the
    start address, [size()] returns the size, and when the segment has a
    byte and ends within the address space its range contains exactly the
    addresses of the segment. *)
Definition describes (descriptor : MemoryDescriptor.t) (startAddress size : Z) : Prop :=
  TargetMemoryAddressRange.startAddress (MemoryDescriptor.addressRange descriptor)
  = startAddress
  /\ MemoryDescriptor.size descriptor = size
  /\ (1 <= size -> startAddress + size <= 2 ^ 32 ->
      forall address,
        AddressRange.contains (MemoryDescriptor.addressRange descriptor) address = true
        <-> startAddress <= address < startAddress + size).

Definition exampleMemoryParameters : MemoryDescriptors.Parameters :=
  {| MemoryDescriptors.ramStartAddress := Some 256;
     MemoryDescriptors.ramSize := Some 2048;
     MemoryDescriptors.flashStartAddress := Some 0;
     MemoryDescriptors.flashSize := Some 32768;
     MemoryDescriptors.flashPageSize := Some 128;
     MemoryDescriptors.eepromStartAddress := Some 0;
     MemoryDescriptors.eepromSize := Some 1024 |}.

(** ** Vocabulary of the write-memory handler *)

(** What the handler did between two states of the session. *)
Definition actionsSince {T} (s s' : DebugSession T) : list HandlerAction :=
  skipn (length (actions s)) (actions s').

(** The replies among a handler's actions. *)
Definition replies (log : list HandlerAction) : list ResponsePacket :=
  flat_map (fun a => match a with WritePacket p => [p] | _ => [] end) log.

(** The lowest address the handler lets a write of a memory type start
    at: the start of the type's range, and 0 for RAM. *)
Definition lowestWritable (memoryType : TargetMemoryType.t)
    (descriptor : TargetMemoryDescriptor) : Z :=
  if TargetMemoryType.eqb memoryType TargetMemoryType.RAM then 0
  else TargetMemoryAddressRange.startAddress (addressRange descriptor).

(** ** Memory access on any number of frames: definitions *)

(** A routine that leaves every member of the interface but the tool
    behind it as it was. *)
Definition toolOnly (i i' : EdbgAvr8Interface) : Prop :=
  with_edbgInterface (edbgInterface i') i = i'
  /\ events (edbgInterface i') = events (edbgInterface i)
  /\ usbHidInputReportSize (edbgInterface i') = usbHidInputReportSize (edbgInterface i).

(** The state after the given frames went out and their responses came
    in. *)
Definition afterFrames (frames : list WireItem) (rest : list Avr8ResponseFrame)
    (i : EdbgAvr8Interface) : EdbgAvr8Interface :=
  with_edbgInterface
    {| responses := rest;
       events := events (edbgInterface i);
       usbHidInputReportSize := usbHidInputReportSize (edbgInterface i);
       wire := wire (edbgInterface i) ++ frames |} i.

Definition keeps {A} (m : M EdbgAvr8Interface A) : Prop :=
  forall i r i', m i = (r, i') -> toolOnly i i'.

(** The frames that write every answer of a chunked read back to the
    address of its chunk. *)
Definition restoreFrames (type : Avr8MemoryType.t) (cs : list (Z * Z))
    (rs : list Avr8ResponseFrame) : list WireItem :=
  map (fun p => Sent (CommandFrames.WriteMemory type (fst (fst p)) (memoryData (snd p))))
    (combine cs rs).

(** The memory type [readMemory] and [writeMemory] take for the EEPROM of
    a JTAG target. *)
Definition jtagEepromType (i : EdbgAvr8Interface) : Avr8MemoryType.t :=
  if programmingModeEnabled i then Avr8MemoryType.EEPROM_PAGE else Avr8MemoryType.EEPROM.

(** A JTAG target in its programming session, for the chip erase; the
    tool answers the reads of the two EEPROM pages, the erase and the two
    writes. *)
Definition erasingEdbg : Edbg.t :=
  exampleEdbg Avr8ConfigVariant.MEGAJTAG PhysicalInterface.JTAG true true true
    [dataResponse [1; 2; 3; 4]; dataResponse [5; 6; 7; 8]; okResponse; okResponse;
     okResponse] [].

(** An interface with a flash of 128-byte pages, for a write across a
    page boundary: the tool answers the reads of two pages and the two
    writes. *)
Definition twoPageInterface : EdbgAvr8Interface :=
  widenedInterface [dataResponse examplePage; dataResponse examplePage;
                    okResponse; okResponse].

(** * Properties *)

(** ** Config-variant resolution: properties *)

Lemma resolveConfigVariant_known_family (f : Family.t) (p : PhysicalInterface.t) :
  VariantResolution.resolveConfigVariant (Some f) p
  = VariantResolution.spec_variant_table f p.
Proof. destruct f, p; reflexivity. Qed.

Lemma resolveConfigVariant_unknown_family (p : PhysicalInterface.t) :
  VariantResolution.resolveConfigVariant None p = VariantResolution.spec_fallback p.
Proof. destruct p; reflexivity. Qed.

(** C3. For every (family, physical interface) pair of the fixed table,
    [resolveConfigVariant] returns the table's variant, which is the one
    the specification lists (MEGA/TINY + JTAG -> MEGAJTAG, + DEBUG_WIRE ->
    DEBUG_WIRE, + UPDI -> UPDI; XMEGA + JTAG/PDI -> XMEGA; DA/DB/DD/EA +
    UPDI -> UPDI); for a pair outside the table it returns nothing; and
    with no family the fallback map resolves DEBUG_WIRE, PDI and UPDI and
    returns nothing for JTAG. *)
Theorem resolveConfigVariant_matches_table :
  (forall f p,
      inVariantTable f p = true ->
      exists v, VariantResolution.resolveConfigVariant (Some f) p = Some v
                /\ VariantResolution.spec_variant_table f p = Some v)
  /\ (forall f p,
         inVariantTable f p = false ->
         VariantResolution.resolveConfigVariant (Some f) p = None)
  /\ (forall f p,
         inVariantTable f p = true <-> VariantResolution.spec_variant_table f p <> None)
  /\ VariantResolution.resolveConfigVariant None PhysicalInterface.DEBUG_WIRE
     = Some Avr8ConfigVariant.DEBUG_WIRE
  /\ VariantResolution.resolveConfigVariant None PhysicalInterface.PDI
     = Some Avr8ConfigVariant.XMEGA
  /\ VariantResolution.resolveConfigVariant None PhysicalInterface.UPDI
     = Some Avr8ConfigVariant.UPDI
  /\ VariantResolution.resolveConfigVariant None PhysicalInterface.JTAG = None.
Proof.
  repeat split.
  - intros f p H. rewrite resolveConfigVariant_known_family.
    destruct f, p; simpl in *; try discriminate; eexists; split; reflexivity.
  - destruct f, p; simpl; intro H; try discriminate; reflexivity.
  - destruct f, p; simpl; intros H; discriminate.
  - destruct f, p; simpl; intros H; try reflexivity; exfalso; apply H; reflexivity.
Qed.

(** ** Execution control and target state: properties *)

(** *** The state and exception monad: inversion *)

Lemma bind_inv {S A B} (m : M S A) (f : A -> M S B) s r s' :
  bind m f s = (r, s') ->
  (exists a s1, m s = (Ok a, s1) /\ f a s1 = (r, s'))
  \/ (exists e, m s = (Err e, s') /\ r = Err e)
  \/ (m s = (OutOfFuel, s') /\ r = OutOfFuel).
Proof.
  unfold bind. destruct (m s) as [[a | e |] s1]; intros H.
  - left. eauto.
  - right. left. inversion H; subst. eauto.
  - right. right. inversion H; subst. eauto.
Qed.

Lemma onEdbg_inv {A} (m : M EdbgInterface A) i r i' :
  onEdbg m i = (r, i') ->
  exists e', m (edbgInterface i) = (r, e') /\ i' = with_edbgInterface e' i.
Proof.
  unfold onEdbg. destruct (m (edbgInterface i)) as [r0 e'] eqn:E.
  intros H. inversion H; subst. eauto.
Qed.

Lemma send_inv frame i r i' :
  Avr8Interface.send frame i = (r, i') ->
  extends i i' [Sent frame] /\ targetState i' = targetState i.
Proof.
  unfold Avr8Interface.send. intros H.
  apply onEdbg_inv in H. destruct H as (e' & H & ->).
  unfold sendAvrCommandFrameAndWaitForResponseFrame in H.
  destruct (responses (edbgInterface i)); inversion H; subst; split; reflexivity.
Qed.

Lemma requestAvrEvent_inv e r e' :
  requestAvrEvent e = (r, e') ->
  exists p, r = Ok p /\ wire e' = wire e ++ [Polled p]
            /\ usbHidInputReportSize e' = usbHidInputReportSize e
            /\ responses e' = responses e.
Proof.
  unfold requestAvrEvent. intros H.
  destruct (events e) as [| ev rest]; inversion H; subst; eexists; repeat split.
Qed.

Lemma getAvrEvent_inv i r i' :
  Avr8Interface.getAvrEvent i = (r, i') ->
  exists p,
    extends i i' [Polled p] /\ targetState i' = targetState i
    /\ match r with
       | Ok (Some o) => p = Some (eventOf o) /\ isBreakEventObject o = isBreak p
       | Ok None => p = None
       | Err _ => True
       | OutOfFuel => False
       end.
Proof.
  unfold Avr8Interface.getAvrEvent. intros H.
  apply bind_inv in H. destruct H as [(a & i1 & H1 & H2) | [(e & H1 & ->) | (H1 & ->)]];
    apply onEdbg_inv in H1; destruct H1 as (e' & H1 & ->);
    apply requestAvrEvent_inv in H1; destruct H1 as (p & Hr & Hw & _); try discriminate.
  inversion Hr; subst a. exists p.
  destruct p as [[[eid |]] |]; simpl in H2.
  - destruct eid; inversion H2; subst; simpl; auto.
  - inversion H2; subst. auto.
  - inversion H2; subst. auto.
Qed.

Lemma extends_trans i i1 i2 d1 d2 :
  extends i i1 d1 -> extends i1 i2 d2 -> extends i i2 (d1 ++ d2).
Proof. unfold extends. intros H1 H2. rewrite H2, H1, app_assoc. reflexivity. Qed.

Lemma extends_refl i : extends i i [].
Proof. unfold extends. rewrite app_nil_r. reflexivity. Qed.

(** [waitForAvrEvent<BreakEvent>]: only event requests, the state is not
    touched, and a returned event is a Break event that came off the wire. *)
Lemma waitForBreakEvent_inv n : forall i r i',
  Avr8Interface.waitForBreakEvent n i = (r, i') ->
  exists ps,
    extends i i' (map Polled ps) /\ targetState i' = targetState i
    /\ r <> OutOfFuel
    /\ (forall ev, r = Ok (Some ev) -> existsb isBreak ps = true).
Proof.
  induction n as [| n IH]; intros i r i' H; simpl in H.
  - inversion H; subst. exists []. split; [apply extends_refl |].
    repeat split; try discriminate.
  - apply bind_inv in H.
    destruct H as [(a & i1 & H1 & H2) | [(e & H1 & ->) | (H1 & ->)]];
      apply getAvrEvent_inv in H1; destruct H1 as (p & Hx & Hs & Hr).
    + destruct a as [[ev | ev] |].
      * inversion H2; subst. exists [p]. destruct Hr as [-> Hb]. simpl in *.
        repeat split; auto; try discriminate.
        intros ev' _. rewrite <- Hb. reflexivity.
      * apply IH in H2. destruct H2 as (ps & Hx2 & Hs2 & Hn & Hb).
        exists (p :: ps). split; [exact (extends_trans _ _ _ _ _ Hx Hx2) |].
        split; [congruence |]. split; [exact Hn |].
        intros ev' Hev. simpl. rewrite (Hb ev' Hev). apply orb_true_r.
      * apply IH in H2. destruct H2 as (ps & Hx2 & Hs2 & Hn & Hb).
        exists (p :: ps). split; [exact (extends_trans _ _ _ _ _ Hx Hx2) |].
        split; [congruence |]. split; [exact Hn |].
        intros ev' Hev. simpl. rewrite (Hb ev' Hev). apply orb_true_r.
    + exists [p]. repeat split; auto; discriminate.
    + contradiction.
Qed.

Lemma existsb_polledBreak_map ps :
  existsb polledBreak (map Polled ps) = existsb isBreak ps.
Proof. induction ps as [| p ps IH]; simpl; [reflexivity | rewrite IH; reflexivity]. Qed.

Lemma state_eq_dec (a b : TargetState.t) : {a = b} + {a <> b}.
Proof. decide equality. Qed.

Lemma state_eqb_eq a b : TargetState.eqb a b = true <-> a = b.
Proof. destruct a, b; simpl; split; intros H; try reflexivity; discriminate. Qed.

Lemma state_eqb_neq a b : TargetState.eqb a b = false <-> a <> b.
Proof. destruct a, b; simpl; split; intros H; try reflexivity; try discriminate;
  try (exfalso; apply H; reflexivity). Qed.

(** [waitForStoppedEvent] either sees a Break event and sets STOPPED, or
    throws and leaves the state as it was. *)
Lemma waitForStoppedEvent_inv i r i' :
  Avr8Interface.waitForStoppedEvent i = (r, i') ->
  exists ps,
    extends i i' (map Polled ps)
    /\ ((r = Ok tt /\ targetState i' = TargetState.STOPPED /\ existsb isBreak ps = true)
        \/ (exists e, r = Err e /\ targetState i' = targetState i)).
Proof.
  unfold Avr8Interface.waitForStoppedEvent. intros H.
  apply bind_inv in H. destruct H as [(n & i1 & H1 & H) | [(e & H1 & _) | (H1 & _)]];
    try discriminate.
  inversion H1; subst i1; clear H1.
  apply bind_inv in H. destruct H as [(b & i1 & H1 & H) | [(e & H1 & ->) | (H1 & ->)]];
    apply waitForBreakEvent_inv in H1; destruct H1 as (ps & Hx & Hs & Hn & Hb);
    exists ps.
  - destruct b as [ev |]; inversion H; subst.
    + split; [exact Hx |]. left. repeat split. eauto.
    + split; [exact Hx |]. right. eauto.
  - split; [exact Hx |]. right. eauto.
  - contradiction.
Qed.

(** [refreshTargetState] makes one event request and sets STOPPED exactly
    when it yields a Break event. *)
Lemma refreshTargetState_inv i r i' :
  Avr8Interface.refreshTargetState i = (r, i') ->
  exists p,
    extends i i' [Polled p]
    /\ ((r = Ok tt
         /\ targetState i' = if isBreak p then TargetState.STOPPED else TargetState.RUNNING)
        \/ (exists e, r = Err e /\ targetState i' = targetState i)).
Proof.
  unfold Avr8Interface.refreshTargetState. intros H.
  apply bind_inv in H. destruct H as [(o & i1 & H1 & H) | [(e & H1 & ->) | (H1 & ->)]];
    apply getAvrEvent_inv in H1; destruct H1 as (p & Hx & Hs & Hr); exists p.
  - destruct o as [o |].
    + destruct Hr as [-> Hb]. unfold isBreak in *.
      destruct (eventId (eventOf o)) as [[| code] |] eqn:E.
      * rewrite Hb in H. inversion H; subst. split; [exact Hx | left; auto].
      * inversion H; subst. split; [exact Hx | left; auto].
      * inversion H; subst. split; [exact Hx | left; auto].
    + subst p. inversion H; subst. split; [exact Hx | left; auto].
  - split; [exact Hx | right; eauto].
  - contradiction.
Qed.

Lemma getTargetState_inv i r i' :
  Avr8Interface.getTargetState i = (r, i') ->
  (targetState i = TargetState.STOPPED /\ i' = i /\ r = Ok TargetState.STOPPED)
  \/ (targetState i <> TargetState.STOPPED
      /\ exists p,
           extends i i' [Polled p]
           /\ ((r = Ok (targetState i')
                /\ targetState i' = if isBreak p then TargetState.STOPPED
                                    else TargetState.RUNNING)
               \/ (exists e, r = Err e /\ targetState i' = targetState i))).
Proof.
  unfold Avr8Interface.getTargetState. intros H.
  apply bind_inv in H. destruct H as [(c & i1 & H1 & H) | [(e & H1 & _) | (H1 & _)]];
    try discriminate.
  inversion H1; subst; clear H1.
  destruct (TargetState.eqb (targetState i1) TargetState.STOPPED) eqn:E; simpl in H.
  - apply state_eqb_eq in E. left. inversion H; subst. rewrite E. auto.
  - apply state_eqb_neq in E. right. split; [exact E |].
    apply bind_inv in H. destruct H as [(u & i2 & H1 & H) | [(e & H1 & ->) | (H1 & ->)]];
      apply refreshTargetState_inv in H1; destruct H1 as (p & Hx & Hr); exists p.
    + inversion H; subst. destruct Hr as [(_ & Hs) | (e & He & _)]; [| discriminate].
      split; [exact Hx | left; auto].
    + destruct Hr as [(He & _) | (e' & He & Hs)]; [discriminate |].
      split; [exact Hx | right; exists e; auto].
    + destruct Hr as [(He & _) | (e' & He & Hs)]; discriminate.
Qed.

(** [stop]: the Stop frame, then only event requests; a normal return
    leaves the state STOPPED, and STOPPED is reached from another state
    only past a Break event. *)
Lemma stop_inv i r i' :
  Avr8Interface.stop i = (r, i') ->
  exists ps,
    extends i i' (Sent CommandFrames.Stop :: map Polled ps)
    /\ r <> OutOfFuel
    /\ (r = Ok tt -> targetState i' = TargetState.STOPPED)
    /\ (targetState i' = TargetState.STOPPED ->
        targetState i = TargetState.STOPPED \/ existsb isBreak ps = true)
    /\ keepsStopped i i'.
Proof.
  unfold Avr8Interface.stop, keepsStopped. intros H.
  apply bind_inv in H. destruct H as [(f & i1 & H1 & H) | [(e & H1 & ->) | (H1 & ->)]];
    pose proof H1 as Hsend; apply send_inv in H1; destruct H1 as (Hx & Hs).
  - destruct (failed f).
    + inversion H; subst. exists []. rewrite <- Hs.
      repeat split; auto; try discriminate.
    + apply bind_inv in H. destruct H as [(st & i2 & H1 & H) | [(e & H1 & ->) | (H1 & ->)]];
        apply getTargetState_inv in H1.
      * destruct H1 as [(Hst & -> & Hr) | (Hn & p & Hx2 & Hr)].
        -- inversion Hr; subst st. simpl in H. inversion H; subst.
           exists []. rewrite <- Hs. repeat split; auto; discriminate.
        -- destruct Hr as [(Hr & Hst) | (e & He & _)]; [| discriminate].
           inversion Hr; subst st.
           destruct (isBreak p) eqn:Eb; rewrite Hst in H; simpl in H.
           ++ inversion H; subst. exists [p]. simpl. rewrite Eb.
              split; [exact (extends_trans _ _ _ _ _ Hx Hx2) |].
              repeat split; auto; try discriminate.
           ++ apply waitForStoppedEvent_inv in H. destruct H as (ps & Hx3 & Hr3).
              exists (p :: ps). simpl. rewrite Eb. simpl.
              split.
              { pose proof (extends_trans _ _ _ _ _ (extends_trans _ _ _ _ _ Hx Hx2) Hx3) as Hall.
                exact Hall. }
              destruct Hr3 as [(-> & Hst3 & Hb) | (e & -> & Hst3)].
              ** repeat split; auto; discriminate.
              ** rewrite Hst3, Hst.
                 repeat split; try discriminate.
                 intros Hc. rewrite Hs in Hn. contradiction.
      * destruct H1 as [(Hst & -> & Hr) | (Hn & p & Hx2 & Hr)]; [discriminate |].
        destruct Hr as [(Hr & _) | (e' & He & Hst)]; [discriminate |].
        exists [p]. split; [exact (extends_trans _ _ _ _ _ Hx Hx2) |].
        rewrite Hst, Hs. repeat split; auto; try discriminate.
      * destruct H1 as [(Hst & -> & Hr) | (Hn & p & Hx2 & Hr)]; [discriminate |].
        destruct Hr as [(Hr & _) | (e' & He & Hst)]; discriminate.
  - exists []. rewrite Hs. repeat split; auto; discriminate.
  - unfold Avr8Interface.send in Hsend. apply onEdbg_inv in Hsend.
    destruct Hsend as (e' & Hsend & _).
    unfold sendAvrCommandFrameAndWaitForResponseFrame in Hsend.
    destruct (responses (edbgInterface i)); discriminate.
Qed.

Lemma tryCatch_inv {S A} (m : M S A) (h : string -> M S A) s r s' :
  tryCatch m h s = (r, s') ->
  (exists msg s1, m s = (Err (Exception msg), s1) /\ h msg s1 = (r, s'))
  \/ (m s = (r, s') /\ forall msg, r <> Err (Exception msg)).
Proof.
  unfold tryCatch. destruct (m s) as [[a | [msg | what | what] |] s1]; intros H.
  - right. split; [assumption |]. inversion H; subst. discriminate.
  - left. eauto.
  - right. split; [assumption |]. inversion H; subst. discriminate.
  - right. split; [assumption |]. inversion H; subst. discriminate.
  - right. split; [assumption |]. inversion H; subst. discriminate.
Qed.

Lemma send_not_OutOfFuel frame i i' :
  Avr8Interface.send frame i <> (OutOfFuel, i').
Proof.
  unfold Avr8Interface.send, onEdbg, sendAvrCommandFrameAndWaitForResponseFrame.
  destruct (responses (edbgInterface i)); discriminate.
Qed.

Lemma send_events frame i r i' :
  Avr8Interface.send frame i = (r, i') ->
  events (edbgInterface i') = events (edbgInterface i).
Proof.
  unfold Avr8Interface.send, onEdbg, sendAvrCommandFrameAndWaitForResponseFrame.
  destruct (responses (edbgInterface i)); intros H; inversion H; subst; reflexivity.
Qed.

(** [step]: a single Step frame and no event request, so whatever was
    pending stays pending. *)
Lemma step_inv i r i' :
  Avr8Interface.step i = (r, i') ->
  extends i i' [Sent CommandFrames.Step]
  /\ events (edbgInterface i') = events (edbgInterface i)
  /\ ((r = Ok tt /\ targetState i' = TargetState.RUNNING)
      \/ (exists e, r = Err e /\ targetState i' = targetState i)).
Proof.
  unfold Avr8Interface.step. intros H.
  apply bind_inv in H. destruct H as [(f & i1 & H1 & H) | [(e & H1 & ->) | (H1 & ->)]].
  - pose proof (send_events _ _ _ _ H1) as He.
    apply send_inv in H1. destruct H1 as (Hx & Hs).
    destruct (failed f); inversion H; subst.
    + repeat split; auto. right. eauto.
    + repeat split; auto.
  - pose proof (send_events _ _ _ _ H1) as He.
    apply send_inv in H1. destruct H1 as (Hx & Hs).
    repeat split; auto. right. eauto.
  - exfalso. exact (send_not_OutOfFuel _ _ _ H1).
Qed.

Lemma getAvrEvent_events i r i' :
  Avr8Interface.getAvrEvent i = (r, i') ->
  match events (edbgInterface i) with
  | [] => events (edbgInterface i') = []
          /\ extends i i' [Polled None] /\ r = Ok None
  | p :: rest => events (edbgInterface i') = rest /\ extends i i' [Polled p]
                 /\ (p = None -> r = Ok None)
                 /\ (r = Ok None -> p = None)
  end.
Proof.
  unfold Avr8Interface.getAvrEvent, bind, onEdbg, requestAvrEvent, extends, wireOf.
  destruct (events (edbgInterface i)) as [| [[[eid |]] |] rest]; simpl; intros H.
  - inversion H; subst. auto.
  - destruct eid; inversion H; subst; simpl; repeat split; discriminate.
  - inversion H; subst; simpl; repeat split; discriminate.
  - inversion H; subst; simpl; repeat split; auto.
Qed.

(** [clearEvents] requests events, and nothing else, until a request comes
    back empty: on a normal return every event that was pending has been
    taken off the tool. *)
Lemma clearEventsLoop_inv : forall pending i r i',
  pending = events (edbgInterface i) ->
  Avr8Interface.clearEventsLoop pending i = (r, i') ->
  targetState i' = targetState i
  /\ r <> OutOfFuel
  /\ exists stale,
       (r = Ok tt ->
        extends i i' (map (fun e => Polled (Some e)) stale ++ [Polled None])
        /\ (events (edbgInterface i) = map Some stale ++ None :: events (edbgInterface i')
            \/ (events (edbgInterface i) = map Some stale
                /\ events (edbgInterface i') = [])))
       /\ (forall e, r = Err e ->
           exists last, extends i i' (map (fun e => Polled (Some e)) (stale ++ [last]))).
Proof.
  induction pending as [| p rest IH]; intros i r i' Hp H; simpl in H;
    apply bind_inv in H;
    destruct H as [(o & i1 & H1 & H) | [(e & H1 & ->) | (H1 & ->)]];
    pose proof (getAvrEvent_events _ _ _ H1) as He;
    apply getAvrEvent_inv in H1; destruct H1 as (q & Hx & Hs & Hr);
    rewrite <- Hp in He; try contradiction.
  - destruct He as (He & Hx' & Ho). inversion Ho; subst o. inversion H; subst.
    split; [exact Hs |]. split; [discriminate |]. exists []. split.
    + intros _. split; [exact Hx' |]. right. rewrite <- Hp, He. auto.
    + intros e Habs. discriminate.
  - destruct He as (He & Hx' & Ho). discriminate.
  - destruct He as (He & Hx' & Hnone & Hnone').
    destruct o as [o |].
    + assert (IHu := IH i1 r i' (eq_sym He) H).
      destruct IHu as (Hs2 & Hn & stale & Hok & Herr).
      destruct Hr as (Hq & _).
      assert (Hpq : p = Some (eventOf o)).
      { unfold extends in Hx, Hx'. rewrite Hx in Hx'.
        apply app_inv_head in Hx'. inversion Hx'. congruence. }
      split; [congruence |]. split; [exact Hn |].
      exists (eventOf o :: stale). split.
      * intros Hr. destruct (Hok Hr) as (Hx2 & Hev). split.
        -- simpl. rewrite <- Hpq.
           exact (extends_trans _ _ _ _ _ Hx' Hx2).
        -- rewrite <- Hp. simpl. rewrite <- Hpq. rewrite <- He.
           destruct Hev as [Hev | (Hev & Hemp)].
           ++ left. rewrite Hev. reflexivity.
           ++ right. rewrite Hev. auto.
      * intros e Hr. destruct (Herr e Hr) as (last & Hx2). exists last.
        simpl. rewrite <- Hpq. exact (extends_trans _ _ _ _ _ Hx' Hx2).
    + injection H as <- <-. rewrite (Hnone' eq_refl) in *.
      split; [exact Hs |]. split; [discriminate |]. exists []. split.
      * intros _. split; [exact Hx' |]. left. rewrite <- Hp, He. reflexivity.
      * intros e Habs. discriminate.
  - destruct He as (He & Hx' & Hnone & Hnone').
    split; [exact Hs |]. split; [discriminate |]. exists []. split.
    + intros Habs. discriminate.
    + intros e' _. destruct p as [ev |].
      * exists ev. exact Hx'.
      * specialize (Hnone eq_refl). discriminate.
Qed.

Lemma clearEvents_inv i r i' :
  Avr8Interface.clearEvents i = (r, i') ->
  targetState i' = targetState i
  /\ r <> OutOfFuel
  /\ (exists d, extends i i' d)
  /\ exists stale,
       (r = Ok tt ->
        extends i i' (map (fun e => Polled (Some e)) stale ++ [Polled None])
        /\ (events (edbgInterface i) = map Some stale ++ None :: events (edbgInterface i')
            \/ (events (edbgInterface i) = map Some stale
                /\ events (edbgInterface i') = []))).
Proof.
  unfold Avr8Interface.clearEvents. intros H.
  apply clearEventsLoop_inv in H; [| reflexivity].
  destruct H as (Hs & Hn & stale & Hok & Herr).
  split; [exact Hs |]. split; [exact Hn |]. split.
  - destruct r as [[] | e |].
    + destruct (Hok eq_refl) as (Hx & _). eauto.
    + destruct (Herr e eq_refl) as (last & Hx). eauto.
    + contradiction.
  - exists stale. exact Hok.
Qed.

Lemma resume_shape frame msg i r i' :
  bind Avr8Interface.clearEvents
    (fun _ => bind (Avr8Interface.send frame)
       (fun responseFrame =>
          if failed responseFrame then throw msg
          else modify (with_targetState TargetState.RUNNING))) i = (r, i') ->
  resumeWith frame i r i'.
Proof.
  intros H. unfold resumeWith.
  apply bind_inv in H. destruct H as [(u & i1 & H1 & H) | [(e & H1 & ->) | (H1 & ->)]];
    apply clearEvents_inv in H1; destruct H1 as (Hs & Hn & (d & Hd) & stale & Hok).
  - destruct u. destruct (Hok eq_refl) as (Hx & Hev).
    apply bind_inv in H. destruct H as [(f & i2 & H1 & H) | [(e & H1 & ->) | (H1 & ->)]].
    + pose proof (send_events _ _ _ _ H1) as He.
      apply send_inv in H1. destruct H1 as (Hx2 & Hs2).
      pose proof (extends_trans _ _ _ _ _ Hx Hx2) as Hall. rewrite <- app_assoc in Hall.
      destruct (failed f); injection H as <- <-.
      * split; [discriminate |]. split; [eauto |]. split; [discriminate |].
        intros _. congruence.
      * split; [discriminate |]. split; [eauto |]. split.
        -- intros _. split; [reflexivity |]. exists stale. split; [exact Hall |].
           simpl. rewrite He. exact Hev.
        -- intros Habs. congruence.
    + apply send_inv in H1. destruct H1 as (Hx2 & Hs2).
      split; [discriminate |]. split; [eexists; exact (extends_trans _ _ _ _ _ Hx Hx2) |].
      split; [discriminate |]. intros _. congruence.
    + exfalso. exact (send_not_OutOfFuel _ _ _ H1).
  - split; [discriminate |]. split; [eauto |]. split; [discriminate |]. auto.
  - contradiction.
Qed.

Lemma run_inv i r i' :
  Avr8Interface.run i = (r, i') -> resumeWith CommandFrames.Run i r i'.
Proof. apply resume_shape. Qed.

Lemma runTo_inv address i r i' :
  Avr8Interface.runTo address i = (r, i') ->
  resumeWith (CommandFrames.RunTo address) i r i'.
Proof. apply resume_shape. Qed.

(** [reset] and [attach]: one frame, then the wait for the stop event. *)
Lemma reset_inv i r i' :
  Avr8Interface.reset i = (r, i') ->
  exists ps,
    extends i i' (Sent CommandFrames.Reset :: map Polled ps)
    /\ r <> OutOfFuel
    /\ ((r = Ok tt /\ targetState i' = TargetState.STOPPED /\ existsb isBreak ps = true)
        \/ (r <> Ok tt /\ targetState i' = targetState i)).
Proof.
  unfold Avr8Interface.reset. intros H.
  apply bind_inv in H. destruct H as [(f & i1 & H1 & H) | [(e & H1 & ->) | (H1 & ->)]].
  - apply send_inv in H1. destruct H1 as (Hx & Hs).
    destruct (failed f).
    + injection H as <- <-. exists []. repeat split; auto; try discriminate.
      right. split; [discriminate | exact Hs].
    + apply tryCatch_inv in H. destruct H as [(e & i2 & H1 & H) | (H1 & Hne)].
      * apply waitForStoppedEvent_inv in H1. destruct H1 as (ps & Hx2 & Hr).
        injection H as <- <-. exists ps.
        split; [exact (extends_trans _ _ _ _ _ Hx Hx2) |]. split; [discriminate |].
        destruct Hr as [(Hr & _) | (e' & _ & Hs2)]; [discriminate |].
        right. split; [discriminate | congruence].
      * apply waitForStoppedEvent_inv in H1. destruct H1 as (ps & Hx2 & Hr).
        exists ps. split; [exact (extends_trans _ _ _ _ _ Hx Hx2) |].
        destruct Hr as [(-> & Hs2 & Hb) | (e' & -> & Hs2)].
        -- split; [discriminate |]. left. auto.
        -- split; [discriminate |]. right. split; [discriminate | congruence].
  - apply send_inv in H1. destruct H1 as (Hx & Hs).
    exists []. repeat split; auto; try discriminate. right. split; [discriminate | exact Hs].
  - exfalso. exact (send_not_OutOfFuel _ _ _ H1).
Qed.

Lemma attach_inv i r i' :
  Avr8Interface.attach i = (r, i') ->
  exists d,
    extends i i' d
    /\ r <> OutOfFuel
    /\ ((targetState i' = TargetState.STOPPED /\ existsb polledBreak d = true)
        \/ targetState i' = targetState i).
Proof.
  unfold Avr8Interface.attach. intros H.
  apply bind_inv in H. destruct H as [(v & i0 & H1 & H) | [(e & H1 & _) | (H1 & _)]];
    try discriminate.
  injection H1 as <- <-.
  apply bind_inv in H. destruct H as [(f & i1 & H1 & H) | [(e & H1 & ->) | (H1 & ->)]].
  - apply send_inv in H1. destruct H1 as (Hx & Hs).
    destruct (failed f).
    + injection H as <- <-. eexists. split; [exact Hx |]. split; [discriminate | auto].
    + apply bind_inv in H. destruct H as [(u & i2 & H1 & H) | [(e & H1 & _) | (H1 & _)]];
        try discriminate.
      injection H1 as _ <-.
      assert (Hx1 : extends i (with_targetAttached true i1) [Sent (CommandFrames.Attach
                (negb (Avr8ConfigVariant.eqb (configVariant i) Avr8ConfigVariant.MEGAJTAG)))])
        by exact Hx.
      apply tryCatch_inv in H. destruct H as [(e & i3 & H1 & H) | (H1 & Hne)].
      * apply waitForStoppedEvent_inv in H1. destruct H1 as (ps & Hx2 & Hr).
        injection H as <- <-. eexists.
        split; [exact (extends_trans _ _ _ _ _ Hx1 Hx2) |]. split; [discriminate |].
        destruct Hr as [(Hr & _) | (e' & _ & Hs2)]; [discriminate |].
        right. rewrite Hs2. exact Hs.
      * apply waitForStoppedEvent_inv in H1. destruct H1 as (ps & Hx2 & Hr).
        eexists. split; [exact (extends_trans _ _ _ _ _ Hx1 Hx2) |].
        destruct Hr as [(-> & Hs2 & Hb) | (e' & -> & Hs2)].
        -- split; [discriminate |]. left. split; [exact Hs2 |].
           simpl. rewrite existsb_polledBreak_map. exact Hb.
        -- split; [discriminate |]. right. rewrite Hs2. exact Hs.
  - apply send_inv in H1. destruct H1 as (Hx & Hs).
    eexists. split; [exact Hx |]. split; [discriminate | auto].
  - exfalso. exact (send_not_OutOfFuel _ _ _ H1).
Qed.

Lemma when_stop_inv i r i' :
  when (negb (TargetState.eqb (targetState i) TargetState.STOPPED)) Avr8Interface.stop i
  = (r, i') ->
  (targetState i = TargetState.STOPPED /\ i' = i /\ r = Ok tt)
  \/ (targetState i <> TargetState.STOPPED
      /\ exists ps,
           extends i i' (Sent CommandFrames.Stop :: map Polled ps)
           /\ r <> OutOfFuel
           /\ (r = Ok tt -> targetState i' = TargetState.STOPPED)
           /\ (targetState i' = TargetState.STOPPED -> existsb isBreak ps = true)).
Proof.
  destruct (TargetState.eqb (targetState i) TargetState.STOPPED) eqn:E; simpl; intros H.
  - apply state_eqb_eq in E. injection H as <- <-. auto.
  - apply state_eqb_neq in E. right. split; [exact E |].
    apply stop_inv in H. destruct H as (ps & Hx & Hn & Hok & Hst & _).
    exists ps. repeat split; auto.
    intros Hs. destruct (Hst Hs) as [Habs | Hb]; [contradiction | exact Hb].
Qed.

Lemma pc_shape {A} frame msg (k : Avr8ResponseFrame -> A) i (r : Res A) i' :
  bind (gets targetState)
    (fun current =>
       bind (when (negb (TargetState.eqb current TargetState.STOPPED)) Avr8Interface.stop)
         (fun _ => bind (Avr8Interface.send frame)
            (fun responseFrame =>
               if failed responseFrame then throw msg else ret (k responseFrame)))) i
  = (r, i') ->
  pcAccess frame i (is_ok r) i' /\ r <> OutOfFuel.
Proof.
  intros H.
  apply bind_inv in H. destruct H as [(c & i0 & H1 & H) | [(e & H1 & _) | (H1 & _)]];
    try discriminate.
  injection H1 as <- <-.
  apply bind_inv in H. destruct H as [(u & i1 & H1 & H) | [(e & H1 & ->) | (H1 & ->)]];
    apply when_stop_inv in H1.
  - assert (Hsend : extends i1 i' [Sent frame] /\ targetState i' = targetState i1
                    /\ r <> OutOfFuel).
    { apply bind_inv in H.
      destruct H as [(f & i2 & H1' & H) | [(e & H1' & ->) | (H1' & ->)]].
      - apply send_inv in H1'. destruct H1' as (Hx & Hs).
        destruct (failed f); injection H as <- <-; repeat split; auto; discriminate.
      - apply send_inv in H1'. destruct H1' as (Hx & Hs). repeat split; auto; discriminate.
      - exfalso. exact (send_not_OutOfFuel _ _ _ H1'). }
    destruct Hsend as (Hx2 & Hs2 & Hn2). split; [| exact Hn2].
    destruct H1 as [(Hst & -> & _) | (Hne & ps & Hx & Hn & Hok & Hb)]; split.
    + intros _. split; [exact Hx2 | congruence].
    + intros Habs. contradiction.
    + intros Habs. contradiction.
    + intros _. exists ps. left.
      split; [exact (extends_trans _ _ _ _ _ Hx Hx2) |].
      destruct u. specialize (Hok eq_refl).
      split; [apply Hb; exact Hok | congruence].
  - destruct H1 as [(_ & _ & Habs) | (Hne & ps & Hx & Hn & Hok & Hb)]; [discriminate |].
    split; [| discriminate]. split.
    + intros Habs. contradiction.
    + intros _. exists ps. right. auto.
  - destruct H1 as [(_ & _ & Habs) | (Hne & ps & Hx & Hn & Hok & Hb)]; [discriminate |].
    contradiction.
Qed.

Lemma getProgramCounter_inv i r i' :
  Avr8Interface.getProgramCounter i = (r, i') ->
  pcAccess CommandFrames.GetProgramCounter i (is_ok r) i' /\ r <> OutOfFuel.
Proof. apply pc_shape. Qed.

Lemma setProgramCounter_inv pc i r i' :
  Avr8Interface.setProgramCounter pc i = (r, i') ->
  pcAccess (CommandFrames.SetProgramCounter (pc / 2)) i (is_ok r) i' /\ r <> OutOfFuel.
Proof. apply (pc_shape _ _ (fun _ => tt)). Qed.

Lemma discard_inv {S A} (m : M S A) s r s' :
  discard m s = (r, s') ->
  exists r0, m s = (r0, s') /\ is_ok r0 = is_ok r
             /\ (r0 = OutOfFuel <-> r = OutOfFuel).
Proof.
  unfold discard. destruct (m s) as [[a | e |] s1]; intros H; injection H as <- <-;
    eexists; (split; [reflexivity |]); split; try reflexivity; split; intros;
    try discriminate; reflexivity.
Qed.

Lemma perform_tracks op i r i' :
  perform op i = (r, i') ->
  exists d, extends i i' d /\ stoppedByBreak i i' d.
Proof.
  unfold stoppedByBreak. destruct op; simpl; intros H.
  - apply run_inv in H. destruct H as (_ & (d & Hx) & Hok & Herr).
    exists d. split; [exact Hx |]. intros Hs. left.
    destruct r as [[] | e |]; [| rewrite <- Herr by discriminate; exact Hs
                               | rewrite <- Herr by discriminate; exact Hs].
    destruct (Hok eq_refl) as (Hrun & _). congruence.
  - apply runTo_inv in H. destruct H as (_ & (d & Hx) & Hok & Herr).
    exists d. split; [exact Hx |]. intros Hs. left.
    destruct r as [[] | e |]; [| rewrite <- Herr by discriminate; exact Hs
                               | rewrite <- Herr by discriminate; exact Hs].
    destruct (Hok eq_refl) as (Hrun & _). congruence.
  - apply step_inv in H. destruct H as (Hx & _ & [(_ & Hs) | (e & _ & Hs)]);
      eexists; (split; [exact Hx |]); intros Hst; left; congruence.
  - apply stop_inv in H. destruct H as (ps & Hx & _ & _ & Hst & _).
    eexists. split; [exact Hx |]. intros Hs. destruct (Hst Hs) as [Hi | Hb]; [auto |].
    right. simpl. rewrite existsb_polledBreak_map. exact Hb.
  - apply reset_inv in H. destruct H as (ps & Hx & _ & [(_ & _ & Hb) | (_ & Hs)]);
      eexists; (split; [exact Hx |]); intros Hst.
    + right. simpl. rewrite existsb_polledBreak_map. exact Hb.
    + left. congruence.
  - apply attach_inv in H. destruct H as (d & Hx & _ & [(_ & Hb) | Hs]);
      exists d; (split; [exact Hx |]); intros Hst; [right; exact Hb | left; congruence].
  - apply discard_inv in H. destruct H as (r0 & H & _).
    apply getTargetState_inv in H.
    destruct H as [(Hs & -> & _) | (Hne & p & Hx & Hr)].
    + exists []. split; [apply extends_refl | auto].
    + exists [Polled p]. split; [exact Hx |]. intros Hst. right. simpl.
      destruct Hr as [(_ & Hs) | (e & _ & Hs)].
      * rewrite Hs in Hst. destruct (isBreak p); [reflexivity | discriminate].
      * exfalso. apply Hne. congruence.
  - apply discard_inv in H. destruct H as (r0 & H & _).
    apply getProgramCounter_inv in H. destruct H as ((Hstop & Hrun) & _).
    destruct (state_eq_dec (targetState i) TargetState.STOPPED) as [Hs | Hs].
    + destruct (Hstop Hs) as (Hx & _). eexists. split; [exact Hx | auto].
    + destruct (Hrun Hs) as (ps & [(Hx & Hb & _) | (Hx & _ & Hb)]);
        eexists; (split; [exact Hx |]); intros Hst; right; simpl.
      * rewrite existsb_app, existsb_polledBreak_map, Hb. reflexivity.
      * rewrite existsb_polledBreak_map. auto.
  - apply setProgramCounter_inv in H. destruct H as ((Hstop & Hrun) & _).
    destruct (state_eq_dec (targetState i) TargetState.STOPPED) as [Hs | Hs].
    + destruct (Hstop Hs) as (Hx & _). eexists. split; [exact Hx | auto].
    + destruct (Hrun Hs) as (ps & [(Hx & Hb & _) | (Hx & _ & Hb)]);
        eexists; (split; [exact Hx |]); intros Hst; right; simpl.
      * rewrite existsb_app, existsb_polledBreak_map, Hb. reflexivity.
      * rewrite existsb_polledBreak_map. auto.
Qed.

Lemma perform_keepsStopped op i r i' :
  perform op i = (r, i') ->
  targetState i = TargetState.STOPPED ->
  targetState i' = TargetState.STOPPED \/ resumes op.
Proof.
  unfold resumes. destruct op; simpl; intros H Hs; auto.
  - right. right. right. left. eauto.
  - apply stop_inv in H. destruct H as (ps & _ & _ & _ & _ & Hk). left. exact (Hk Hs).
  - apply attach_inv in H. destruct H as (d & _ & _ & [(Hst & _) | Hst]); left; congruence.
  - apply discard_inv in H. destruct H as (r0 & H & _).
    apply getTargetState_inv in H.
    destruct H as [(_ & -> & _) | (Hne & _)]; [auto | contradiction].
  - apply discard_inv in H. destruct H as (r0 & H & _).
    apply getProgramCounter_inv in H. destruct H as ((Hstop & _) & _).
    left. exact (proj2 (Hstop Hs)).
  - apply setProgramCounter_inv in H. destruct H as ((Hstop & _) & _).
    left. exact (proj2 (Hstop Hs)).
Qed.

(** C2. Over the operations that can assign the target state: the state
    goes from RUNNING to STOPPED only when a Break event came off the
    event stream in between (polled by a state query, or by the wait of an
    explicit stop); it goes from STOPPED to RUNNING only by run, step,
    run-to or reset; and a state query on a STOPPED interface changes
    nothing and polls nothing, while on any other state it polls the event
    stream exactly once. *)
Theorem target_state_transitions (op : Operation.t) (i i' : EdbgAvr8Interface)
    (r : Res unit) :
  perform op i = (r, i') ->
  exists d,
    extends i i' d
    /\ (targetState i = TargetState.RUNNING ->
        targetState i' = TargetState.STOPPED ->
        existsb polledBreak d = true)
    /\ (targetState i = TargetState.STOPPED ->
        targetState i' = TargetState.RUNNING ->
        resumes op)
    /\ (op = Operation.GetTargetState ->
        targetState i = TargetState.STOPPED ->
        i' = i /\ d = [])
    /\ (op = Operation.GetTargetState ->
        targetState i <> TargetState.STOPPED ->
        exists p, d = [Polled p]).
Proof.
  intros H.
  destruct (perform_tracks _ _ _ _ H) as (d & Hx & Hb).
  exists d. split; [exact Hx |]. split; [| split; [| split]].
  - intros Hrun Hst. destruct (Hb Hst) as [Habs | Hbreak]; [congruence | exact Hbreak].
  - intros Hst Hrun.
    destruct (perform_keepsStopped _ _ _ _ H Hst) as [Habs | Hres]; [congruence | exact Hres].
  - intros -> Hst. simpl in H. apply discard_inv in H. destruct H as (r0 & H & _).
    apply getTargetState_inv in H.
    destruct H as [(_ & -> & _) | (Hne & _)]; [| contradiction].
    split; [reflexivity |]. unfold extends in Hx.
    rewrite <- (app_nil_r (wireOf i)) in Hx at 1. apply app_inv_head in Hx. auto.
  - intros -> Hne. simpl in H. apply discard_inv in H. destruct H as (r0 & H & _).
    apply getTargetState_inv in H.
    destruct H as [(Habs & _) | (_ & p & Hx2 & _)]; [contradiction |].
    exists p. unfold extends in Hx, Hx2. rewrite Hx2 in Hx.
    apply app_inv_head in Hx. auto.
Qed.

Lemma withoutId_not_break p : withoutId p = true -> isBreak p = false.
Proof.
  destruct p as [[[eid |]] |]; simpl; intros H; try discriminate; reflexivity.
Qed.

(** One event request: what came off the wire decides the result. *)
Lemma getAvrEvent_polled i r i' :
  Avr8Interface.getAvrEvent i = (r, i') ->
  exists p,
    extends i i' [Polled p] /\ targetState i' = targetState i
    /\ eventWaitAttempts i' = eventWaitAttempts i
    /\ match r with
       | Ok (Some (BreakEvent _)) => isBreak p = true
       | Ok (Some (PlainEvent _)) => isBreak p = false
       | Ok None => isBreak p = false
       | Err _ => withoutId p = true
       | OutOfFuel => False
       end.
Proof.
  unfold Avr8Interface.getAvrEvent, bind, onEdbg, requestAvrEvent, extends, wireOf.
  destruct (events (edbgInterface i)) as [| [[[[| code] |]] |] rest];
    cbn; intros H; inversion H; subst; cbn; eexists; repeat split; reflexivity.
Qed.

Lemma waitForBreakEvent_waits n : forall i r i',
  Avr8Interface.waitForBreakEvent n i = (r, i') ->
  exists ps,
    extends i i' (map Polled ps) /\ targetState i' = targetState i
    /\ (length ps <= n)%nat
    /\ match r with
       | Ok (Some _) =>
           exists quiet b,
             ps = quiet ++ [b] /\ existsb isBreak quiet = false /\ isBreak b = true
       | Ok None => existsb isBreak ps = false /\ length ps = n
       | Err _ =>
           existsb isBreak ps = false
           /\ exists quiet p, ps = quiet ++ [p] /\ withoutId p = true
       | OutOfFuel => False
       end.
Proof.
  induction n as [| n IH]; intros i r i' H; simpl in H.
  - inversion H; subst. exists []. split; [apply extends_refl |].
    repeat split; auto.
  - apply bind_inv in H.
    destruct H as [(a & i1 & H1 & H2) | [(e & H1 & ->) | (H1 & ->)]];
      apply getAvrEvent_polled in H1; destruct H1 as (p & Hx & Hs & _ & Hr).
    + assert (Hrec : forall (Hq : isBreak p = false),
                 Avr8Interface.waitForBreakEvent n i1 = (r, i') ->
                 exists ps,
                   extends i i' (map Polled ps) /\ targetState i' = targetState i
                   /\ (length ps <= S n)%nat
                   /\ match r with
                      | Ok (Some _) =>
                          exists quiet b,
                            ps = quiet ++ [b] /\ existsb isBreak quiet = false
                            /\ isBreak b = true
                      | Ok None => existsb isBreak ps = false /\ length ps = S n
                      | Err _ =>
                          existsb isBreak ps = false
                          /\ exists quiet p, ps = quiet ++ [p] /\ withoutId p = true
                      | OutOfFuel => False
                      end).
      { intros Hq H3. apply IH in H3. destruct H3 as (ps & Hx2 & Hs2 & Hl & Hr2).
        exists (p :: ps). split; [exact (extends_trans _ _ _ _ _ Hx Hx2) |].
        split; [congruence |]. split; [simpl; lia |].
        destruct r as [[ev |] | e |]; simpl; rewrite ?Hq; simpl.
        - destruct Hr2 as (quiet & b & -> & Hqs & Hb).
          exists (p :: quiet), b. simpl. rewrite Hq. auto.
        - destruct Hr2 as (Hnb & Hlen). split; [exact Hnb | lia].
        - destruct Hr2 as (Hnb & quiet & p' & -> & Hw). split; [exact Hnb |].
          exists (p :: quiet), p'. auto.
        - exact Hr2. }
      destruct a as [[ev | ev] |].
      * inversion H2; subst. exists [p]. split; [exact Hx |]. split; [exact Hs |].
        split; [simpl; lia |]. exists [], p. auto.
      * apply Hrec; assumption.
      * apply Hrec; assumption.
    + exists [p]. split; [exact Hx |]. split; [exact Hs |]. split; [simpl; lia |].
      split; [simpl; rewrite (withoutId_not_break _ Hr); reflexivity |].
      exists [], p. auto.
    + contradiction.
Qed.

Lemma waitForBreakEvent_attempts n : forall i r i',
  Avr8Interface.waitForBreakEvent n i = (r, i') ->
  eventWaitAttempts i' = eventWaitAttempts i.
Proof.
  induction n as [| n IH]; intros i r i' H; simpl in H.
  - inversion H; subst. reflexivity.
  - apply bind_inv in H.
    destruct H as [(a & i1 & H1 & H2) | [(e & H1 & ->) | (H1 & ->)]];
      apply getAvrEvent_polled in H1; destruct H1 as (p & _ & _ & Ha & Hr);
      try exact Ha; try contradiction.
    destruct a as [[ev | ev] |].
    + inversion H2; subst. exact Ha.
    + apply IH in H2. congruence.
    + apply IH in H2. congruence.
Qed.


Lemma getTargetState_polled i r i' :
  targetState i <> TargetState.STOPPED ->
  Avr8Interface.getTargetState i = (r, i') ->
  exists p,
    extends i i' [Polled p] /\ eventWaitAttempts i' = eventWaitAttempts i
    /\ match r with
       | Ok state =>
           state = targetState i'
           /\ targetState i'
              = if isBreak p then TargetState.STOPPED else TargetState.RUNNING
       | Err _ => withoutId p = true /\ targetState i' = targetState i
       | OutOfFuel => False
       end.
Proof.
  intros Hne.
  unfold Avr8Interface.getTargetState, Avr8Interface.refreshTargetState,
    Avr8Interface.getAvrEvent, bind, gets, when, onEdbg, requestAvrEvent, extends, wireOf.
  destruct (TargetState.eqb (targetState i) TargetState.STOPPED) eqn:E;
    [apply state_eqb_eq in E; contradiction |].
  cbn [negb].
  destruct (events (edbgInterface i)) as [| [[[[| code] |]] |] rest];
    cbn; intros H; inversion H; subst; cbn; eexists; repeat split; reflexivity.
Qed.

Lemma waitForStoppedEvent_waits i r i' :
  Avr8Interface.waitForStoppedEvent i = (r, i') ->
  exists ps,
    extends i i' (map Polled ps)
    /\ (length ps <= eventWaitAttempts i)%nat
    /\ match r with
       | Ok _ =>
           targetState i' = TargetState.STOPPED
           /\ exists quiet b,
                ps = quiet ++ [b] /\ existsb isBreak quiet = false /\ isBreak b = true
       | Err _ =>
           targetState i' = targetState i
           /\ existsb isBreak ps = false
           /\ ((exists quiet p, ps = quiet ++ [p] /\ withoutId p = true)
               \/ length ps = eventWaitAttempts i)
       | OutOfFuel => False
       end.
Proof.
  unfold Avr8Interface.waitForStoppedEvent. unfold bind at 1, gets at 1.
  unfold bind.
  destruct (Avr8Interface.waitForBreakEvent (eventWaitAttempts i) i) as [w i1] eqn:Ew.
  apply waitForBreakEvent_waits in Ew. destruct Ew as (ps & Hx & Hs & Hl & Hw).
  destruct w as [[ev |] | e |]; cbn; intros H; inversion H; subst; exists ps;
    (split; [exact Hx |]); (split; [exact Hl |]).
  - split; [reflexivity | exact Hw].
  - destruct Hw as (Hnb & Hlen). auto.
  - destruct Hw as (Hnb & Hlast). auto.
  - contradiction.
Qed.

(** [stop] on a target that is not STOPPED: it returns exactly when the
    Break event came within the requests it makes for it. *)
Lemma stop_waits i r i' :
  targetState i <> TargetState.STOPPED ->
  Avr8Interface.stop i = (r, i') ->
  exists ps,
    extends i i' (Sent CommandFrames.Stop :: map Polled ps)
    /\ ((r = Ok tt /\ awaitedBreak (eventWaitAttempts i) ps
         /\ targetState i' = TargetState.STOPPED)
        \/ (is_ok r = false /\ gaveUp (eventWaitAttempts i) i ps
            /\ targetState i' <> TargetState.STOPPED)).
Proof.
  intros Hne H. unfold Avr8Interface.stop in H. unfold bind at 1 in H.
  destruct (Avr8Interface.send CommandFrames.Stop i) as [sent i1] eqn:Esend.
  assert (Hsent : extends i i1 [Sent CommandFrames.Stop]
                  /\ targetState i1 = targetState i
                  /\ eventWaitAttempts i1 = eventWaitAttempts i
                  /\ match sent with
                     | Ok f => failed f = true -> stopRefused i
                     | Err _ => stopRefused i
                     | OutOfFuel => False
                     end).
  { unfold Avr8Interface.send, onEdbg, sendAvrCommandFrameAndWaitForResponseFrame in Esend.
    unfold stopRefused, extends, wireOf.
    destruct (responses (edbgInterface i)) as [| f0 rest]; inversion Esend; subst;
      cbn; repeat split; auto. }
  destruct Hsent as (Hx & Hs & Ha & Hrefused).
  assert (Hrefusal : stopRefused i -> is_ok r = false -> i' = i1 ->
                     exists ps,
                       extends i i' (Sent CommandFrames.Stop :: map Polled ps)
                       /\ ((r = Ok tt /\ awaitedBreak (eventWaitAttempts i) ps
                            /\ targetState i' = TargetState.STOPPED)
                           \/ (is_ok r = false /\ gaveUp (eventWaitAttempts i) i ps
                               /\ targetState i' <> TargetState.STOPPED))).
  { intros Href Hr ->. exists []. split; [exact Hx |]. right.
    split; [exact Hr |]. split; [| congruence].
    split; [reflexivity |]. split; [simpl; lia |]. left. auto. }
  destruct sent as [f | e |]; [| inversion H; subst; apply Hrefusal; auto | contradiction].
  destruct (failed f) eqn:Ef.
  { inversion H; subst. apply Hrefusal; auto. }
  clear Hrefusal Hrefused. unfold bind at 1 in H.
  destruct (Avr8Interface.getTargetState i1) as [got i2] eqn:Eget.
  apply getTargetState_polled in Eget; [| congruence].
  destruct Eget as (p & Hx2 & Ha2 & Hgot).
  pose proof (extends_trans _ _ _ _ _ Hx Hx2) as Hx12. simpl in Hx12.
  destruct got as [state | e |]; [| | contradiction].
  2:{ destruct Hgot as (Hw & Hst). inversion H; subst. exists [p].
      split; [exact Hx12 |]. right. split; [reflexivity |]. split; [| congruence].
      split; [simpl; rewrite (withoutId_not_break _ Hw); reflexivity |].
      split; [simpl; lia |]. right. left. exists [], p. auto. }
  destruct Hgot as (-> & Hst).
  destruct (isBreak p) eqn:Ep; rewrite Hst in H; cbn in H.
  - inversion H; subst. exists [p]. split; [exact Hx12 |]. left.
    split; [reflexivity |]. split; [| exact Hst].
    split; [simpl; lia |]. exists [], p. auto.
  - apply waitForStoppedEvent_waits in H. destruct H as (ps & Hx3 & Hl & Hr).
    exists (p :: ps).
    split; [exact (extends_trans _ _ _ _ _ Hx12 Hx3) |].
    rewrite Ha2, Ha in Hl.
    destruct r as [[] | e |]; [| | contradiction].
    + destruct Hr as (Hstopped & quiet & b & -> & Hq & Hb). left.
      split; [reflexivity |]. split; [| exact Hstopped].
      split; [simpl; lia |]. exists (p :: quiet), b. simpl. rewrite Ep. auto.
    + destruct Hr as (Hkept & Hnb & Hwhy). right.
      split; [reflexivity |]. split; [| rewrite Hkept, Hst; discriminate].
      split; [simpl; rewrite Ep; exact Hnb |]. split; [simpl; lia |].
      destruct Hwhy as [(quiet & p' & -> & Hw) | Hlen].
      * right. left. exists (p :: quiet), p'. auto.
      * right. right. simpl. rewrite Ha2, Ha in Hlen. lia.
Qed.

Lemma accessor_stops_and_waits {A} frame msg (k : Avr8ResponseFrame -> A) i (r : Res A) i' :
  bind (gets targetState)
    (fun current =>
       bind (when (negb (TargetState.eqb current TargetState.STOPPED)) Avr8Interface.stop)
         (fun _ => bind (Avr8Interface.send frame)
            (fun responseFrame =>
               if failed responseFrame then throw msg else ret (k responseFrame)))) i
  = (r, i') ->
  stopsAndWaits frame i (is_ok r) i'.
Proof.
  unfold bind at 1, gets at 1.
  assert (Hframe : forall j,
             bind (Avr8Interface.send frame)
               (fun responseFrame =>
                  if failed responseFrame then throw msg else ret (k responseFrame)) j
             = (r, i') ->
             extends j i' [Sent frame] /\ targetState i' = targetState j).
  { intros j Hj. apply bind_inv in Hj.
    destruct Hj as [(f & j1 & H1 & Hj) | [(e & H1 & _) | (H1 & _)]].
    - apply send_inv in H1. destruct (failed f); inversion Hj; subst; exact H1.
    - apply send_inv in H1. exact H1.
    - exfalso. exact (send_not_OutOfFuel _ _ _ H1). }
  destruct (TargetState.eqb (targetState i) TargetState.STOPPED) eqn:E; cbn [negb when].
  - apply state_eqb_eq in E. unfold bind at 1, ret at 1. intros H.
    apply Hframe in H. destruct H as (Hx & Hs). split.
    + intros _. split; [exact Hx | congruence].
    + intros Hne. contradiction.
  - apply state_eqb_neq in E. unfold bind at 1. intros H.
    destruct (Avr8Interface.stop i) as [stopped i1] eqn:Estop.
    apply (stop_waits _ _ _ E) in Estop. destruct Estop as (ps & Hx & Hcase).
    split; [intros Habs; contradiction |]. intros _. exists ps.
    destruct Hcase as [(-> & Hwait & Hst) | (Hfail & Hgave & Hst)].
    + left. apply Hframe in H. destruct H as (Hx2 & Hs2).
      split; [exact Hwait |]. split; [| congruence].
      exact (extends_trans _ _ _ _ _ Hx Hx2).
    + right. destruct stopped as [[] | e |]; try discriminate; inversion H; subst.
      * auto.
      * auto.
Qed.

(** C10. When [getProgramCounter] or [setProgramCounter] is called while
    the target state is not STOPPED, a Stop frame goes out first and the
    event stream is polled for the Break event: once by [getTargetState]
    and then up to [eventWaitAttempts] times by the wait. The
    GetProgramCounter / SetProgramCounter frame follows the Break event,
    which is the last event polled, with the state STOPPED. No such frame
    is sent, and the call fails with the state other than STOPPED, only
    when the tool refused Stop, or an event without an id was polled, or
    all these requests went by without a Break event. On a STOPPED
    interface the frame is all that is sent. *)
Theorem program_counter_access_stops_first (op : Operation.t) (frame : CommandFrames.t)
    (i i' : EdbgAvr8Interface) (r : Res unit) :
  pcOperation op frame ->
  perform op i = (r, i') ->
  stopsAndWaits frame i (is_ok r) i'.
Proof.
  intros [(-> & ->) | (pc & -> & ->)] H; simpl in H.
  - apply discard_inv in H. destruct H as (r0 & H & Hok & _).
    rewrite <- Hok. exact (accessor_stops_and_waits _ _ _ _ _ _ H).
  - exact (accessor_stops_and_waits _ _ (fun _ => tt) _ _ _ H).
Qed.

Lemma program_counter_access_stops_first_witness :
  stopsAndWaits CommandFrames.GetProgramCounter runningInterface
    (is_ok (fst (perform Operation.GetProgramCounter runningInterface)))
    (snd (perform Operation.GetProgramCounter runningInterface))
  /\ stopsAndWaits CommandFrames.GetProgramCounter lateBreakInterface
       (is_ok (fst (perform Operation.GetProgramCounter lateBreakInterface)))
       (snd (perform Operation.GetProgramCounter lateBreakInterface)).
Proof.
  split; apply (program_counter_access_stops_first Operation.GetProgramCounter);
    try (left; split; reflexivity); vm_compute; reflexivity.
Defined.

(** The two runs of the witness: the Break event within the wait, then the
    frame; the Break event too late, and no frame. *)
Example program_counter_access_examples :
  wireOf (snd (perform Operation.GetProgramCounter runningInterface))
  = [Sent CommandFrames.Stop; Polled None; Polled None; Polled (Some breakEvent);
     Sent CommandFrames.GetProgramCounter]
  /\ wireOf (snd (perform Operation.GetProgramCounter lateBreakInterface))
     = Sent CommandFrames.Stop :: repeat (Polled None) 11
  /\ is_ok (fst (perform Operation.GetProgramCounter lateBreakInterface)) = false.
Proof. repeat split; reflexivity. Qed.

Lemma wrap32_double_half x :
  0 <= x < 2 ^ 32 -> Z.even x = true -> wrap32 (x / 2 * 2) = x.
Proof.
  intros Hx He. unfold wrap32.
  apply Zeven_bool_iff in He. apply Zeven_div2 in He.
  rewrite Z.div2_div in He.
  replace (x / 2 * 2) with x by lia.
  apply Z.mod_small. exact Hx.
Qed.

(** C6. [setProgramCounter x] sends the word address [x / 2];
    [getProgramCounter] returns twice the word address of the tool's
    answer; so for an even byte address [x] up to the end of flash, when
    the tool answers with the word address it was given, the program
    counter read after [setProgramCounter x] is [x]. *)
Theorem program_counter_roundtrip (x flashEnd : Z) (i i1 : EdbgAvr8Interface) :
  0 <= x <= flashEnd -> flashEnd < 2 ^ 32 -> Z.even x = true ->
  Avr8Interface.setProgramCounter x i = (Ok tt, i1) ->
  (exists d, extends i i1 (d ++ [Sent (CommandFrames.SetProgramCounter (x / 2))]))
  /\ (forall response rest,
         responses (edbgInterface i1) = response :: rest ->
         failed response = false ->
         exists i2,
           Avr8Interface.getProgramCounter i1
           = (Ok (wrap32 (payloadProgramCounter response * 2)), i2)
           /\ (payloadProgramCounter response = x / 2 ->
               Avr8Interface.getProgramCounter i1 = (Ok x, i2))).
Proof.
  intros Hx Hend Heven H.
  apply setProgramCounter_inv in H. destruct H as ((Hstop & Hrun) & _).
  assert (Hs1 : targetState i1 = TargetState.STOPPED
                /\ exists d, extends i i1 (d ++ [Sent (CommandFrames.SetProgramCounter (x / 2))])).
  { destruct (state_eq_dec (targetState i) TargetState.STOPPED) as [Hs | Hs].
    - destruct (Hstop Hs) as (Hx1 & Hs1). split; [exact Hs1 |]. exists []. exact Hx1.
    - destruct (Hrun Hs) as (ps & [(Hx1 & _ & Hs1) | (_ & Habs & _)]); [| discriminate].
      split; [exact Hs1 |]. exists (Sent CommandFrames.Stop :: map Polled ps). exact Hx1. }
  destruct Hs1 as (Hs1 & Hd). split; [exact Hd |].
  intros response rest Hresp Hok.
  unfold Avr8Interface.getProgramCounter, bind, gets, when. rewrite Hs1. simpl.
  unfold Avr8Interface.send, onEdbg, sendAvrCommandFrameAndWaitForResponseFrame.
  rewrite Hresp, Hok. unfold ret, Avr8Interface.extractProgramCounter.
  eexists. split; [reflexivity |].
  intros ->. rewrite wrap32_double_half; [reflexivity | lia | exact Heven].
Qed.

Lemma program_counter_roundtrip_witness :
  (exists d, extends stoppedInterface
               (snd (Avr8Interface.setProgramCounter 512 stoppedInterface))
               (d ++ [Sent (CommandFrames.SetProgramCounter (512 / 2))]))
  /\ (forall response rest,
         responses (edbgInterface (snd (Avr8Interface.setProgramCounter 512 stoppedInterface)))
         = response :: rest ->
         failed response = false ->
         exists i2,
           Avr8Interface.getProgramCounter
             (snd (Avr8Interface.setProgramCounter 512 stoppedInterface))
           = (Ok (wrap32 (payloadProgramCounter response * 2)), i2)
           /\ (payloadProgramCounter response = 512 / 2 ->
               Avr8Interface.getProgramCounter
                 (snd (Avr8Interface.setProgramCounter 512 stoppedInterface))
               = (Ok 512, i2))).
Proof.
  apply (program_counter_roundtrip 512 32767 stoppedInterface).
  - lia.
  - lia.
  - reflexivity.
  - vm_compute. reflexivity.
Defined.

Example program_counter_roundtrip_example :
  fst (Avr8Interface.getProgramCounter
         (snd (Avr8Interface.setProgramCounter 512 stoppedInterface))) = Ok 512.
Proof. vm_compute. reflexivity. Qed.

(** C7. [step] does not drain the event queue. On a STOPPED interface
    with a stale Break event pending, [step] succeeds with the Step frame
    as all its traffic: no event was requested, the Break event is still
    pending, the state is RUNNING, and the next state query takes the
    stale event for a stop. ([run] and [runTo] drain first.) *)
Theorem step_leaves_events_pending :
  exists i',
    Avr8Interface.step staleBreakInterface = (Ok tt, i')
    /\ wireOf i' = [Sent CommandFrames.Step]
    /\ events (edbgInterface i') = [Some breakEvent]
    /\ targetState i' = TargetState.RUNNING
    /\ fst (Avr8Interface.getTargetState i') = Ok TargetState.STOPPED.
Proof.
  eexists. split; [vm_compute; reflexivity |].
  repeat split.
Qed.

(** [run] and [runTo] request events until none is pending, then send
    their frame; on a successful response the state is RUNNING. *)
Theorem run_and_runTo_drain_events :
  (forall i r i',
      Avr8Interface.run i = (r, i') -> resumeWith CommandFrames.Run i r i')
  /\ (forall address i r i',
         Avr8Interface.runTo address i = (r, i') ->
         resumeWith (CommandFrames.RunTo address) i r i').
Proof. split; [exact run_inv | exact runTo_inv]. Qed.

(** [step] sends the Step frame and requests no event: what was pending
    stays pending; on a successful response the state is RUNNING. *)
Theorem step_sends_one_frame :
  forall i, exists r i',
    Avr8Interface.step i = (r, i')
    /\ extends i i' [Sent CommandFrames.Step]
    /\ events (edbgInterface i') = events (edbgInterface i)
    /\ (r = Ok tt -> targetState i' = TargetState.RUNNING).
Proof.
  intros i. destruct (Avr8Interface.step i) as [r i'] eqn:H.
  exists r, i'. split; [reflexivity |].
  apply step_inv in H. destruct H as (Hx & He & [(_ & Hs) | (e & -> & _)]).
  - auto.
  - repeat split; auto. discriminate.
Qed.

Lemma target_state_transitions_witness :
  exists d,
    extends runningInterface (snd (perform Operation.Stop runningInterface)) d
    /\ (targetState runningInterface = TargetState.RUNNING ->
        targetState (snd (perform Operation.Stop runningInterface)) = TargetState.STOPPED ->
        existsb polledBreak d = true)
    /\ (targetState runningInterface = TargetState.STOPPED ->
        targetState (snd (perform Operation.Stop runningInterface)) = TargetState.RUNNING ->
        resumes Operation.Stop)
    /\ (Operation.Stop = Operation.GetTargetState ->
        targetState runningInterface = TargetState.STOPPED ->
        snd (perform Operation.Stop runningInterface) = runningInterface /\ d = [])
    /\ (Operation.Stop = Operation.GetTargetState ->
        targetState runningInterface <> TargetState.STOPPED ->
        exists p, d = [Polled p]).
Proof.
  apply (target_state_transitions Operation.Stop runningInterface _
           (fst (perform Operation.Stop runningInterface))).
  vm_compute. reflexivity.
Defined.


(** ** The DWEN fuse update: properties *)

Section Dwen.
Context {D : Type} {isp : AvrIspInterface D}.

Lemma call_inv {A} (m : M D A) (record : Res A -> IspCall) s r s1 :
  Avr8.call m record s = (r, s1) ->
  exists d1, s1 = {| device := d1; calls := calls s ++ [record r] |}.
Proof.
  unfold Avr8.call. destruct (m (device s)) as [r0 d1]. intros H.
  injection H as <- <-. eauto.
Qed.

(** One call through the ISP interface, in a hypothesis [H] that runs a
    [bind]: the three outcomes of the call, with the state it leaves. *)
Ltac step_call H :=
  let a := fresh "a" in
  let s := fresh "s" in
  let Hc := fresh "Hc" in
  let e := fresh "e" in
  let d := fresh "d" in
  apply bind_inv in H;
  destruct H as [(a & s & Hc & H) | [(e & Hc & ?) | (Hc & ?)]];
  apply call_inv in Hc; destruct Hc as (d & Hc); subst; simpl in *.

Lemma bind_assoc {S A B C} (m : M S A) (f : A -> M S B) (g : B -> M S C) s :
  bind (bind m f) g s = bind m (fun x => bind (f x) g) s.
Proof. unfold bind. destruct (m s) as [[a | e |] s1]; reflexivity. Qed.

Lemma ret_bind {S A B} (a : A) (f : A -> M S B) s : bind (ret a) f s = f a s.
Proof. reflexivity. Qed.

(** Runs the procedure in [H] to the end of every path. *)
Ltac run H :=
  repeat first
    [ rewrite bind_assoc in H
    | rewrite ret_bind in H
    | match type of H with
      | bind (Avr8.call _ _) _ _ = _ => step_call H
      | bind (if ?b then _ else _) _ _ = _ => destruct b eqn:?
      | (if ?b then _ else _) _ = _ => destruct b eqn:?
      | Avr8.call _ _ _ = _ =>
          let d := fresh "d" in
          apply call_inv in H; destruct H as (d & H); subst; simpl in *
      | throw _ _ = _ => unfold throw in H; injection H as ? ?; subst; simpl in *
      | ret _ _ = _ => unfold ret in H; injection H as ? ?; subst; simpl in *
      end ].

(** A path on which a fuse was written passed the three checks. *)
Ltac refute_guards dwenType spienType :=
  destruct dwenType, spienType; simpl in *; try discriminate;
  repeat match goal with
         | H : negb _ = false |- _ => apply negb_false_iff in H
         end;
  intros [Hg | [Hg | Hg]]; congruence.

(** Every write on the path is followed by its read-back. *)
Ltac check_followup :=
  eexists; simpl; split; [reflexivity |]; split;
  [ intros back Hback Hdiff; try discriminate; try reflexivity;
    injection Hback as <-;
    repeat match goal with
           | H : negb _ = false |- _ => apply negb_false_iff in H
           end;
    exfalso; apply Hdiff; apply Z.eqb_eq; assumption
  | intros Hok;
    first [ discriminate
          | eexists; split; [reflexivity |];
            repeat match goal with
                   | H : negb _ = false |- _ => apply negb_false_iff in H
                   end;
            apply Z.eqb_eq; assumption ] ].

Ltac check_followups :=
  lazymatch goal with
  | |- Forall _ nil => apply Forall_nil
  | |- Forall _ (cons _ nil) => apply Forall_cons; [check_followup | apply Forall_nil]
  end.

(** C1. In a DWEN fuse update through the ISP interface: if the signature
    read does not equal the target's, or the SPIEN bit of the fuse byte
    read is not programmed, or the lock-bit byte read is not 0xFF (or the
    procedure did not get as far as that read), then no [programFuse]
    call is made; and every successful [programFuse] is followed at once
    by a read of the same fuse, the procedure failing when the byte read
    back differs from the byte written and returning normally only when
    they are equal. *)
Theorem dwen_update_guards (t : Avr8.Target) (enable : bool) (d : D)
    (r : Res unit) (s' : IspSession D) :
  Avr8.updateDwenFuseBit t enable {| device := d; calls := [] |} = (r, s') ->
  ((Avr8.signatureConfirmed t (calls s') = false
    \/ Avr8.spienProgrammed t (calls s') = false
    \/ Avr8.lockBitsCleared (calls s') = false) ->
   Avr8.fuseWrites (calls s') = [])
  /\ Forall (verifiedBy r) (writeFollowUps (calls s')).
Proof.
  unfold Avr8.updateDwenFuseBit. intros H.
  destruct (negb (Avr8.hasAvrIspInterface t));
    [injection H as <- <-; simpl; auto |].
  destruct (Avr8.hasTargetDescriptionFile t);
    [| injection H as <- <-; simpl; auto].
  destruct (Avr8.id t) as [targetId |] eqn:Eid;
    [| injection H as <- <-; simpl; auto].
  destruct (negb (existsb _ _));
    [injection H as <- <-; simpl; auto |].
  destruct (Avr8.dwenFuseBitsDescriptor t) as [[dwenType dwenMask] |] eqn:Edwen;
    [| injection H as <- <-; simpl; auto].
  destruct (Avr8.spienFuseBitsDescriptor t) as [[spienType spienMask] |] eqn:Espien;
    [| injection H as <- <-; simpl; auto].
  unfold Avr8.signatureConfirmed, Avr8.spienProgrammed, Avr8.lockBitsCleared.
  rewrite Eid, Espien. simpl FuseBitsDescriptor.fuseType. simpl FuseBitsDescriptor.bitMask.
  step_call H; [| split; [reflexivity | constructor] ..].
  step_call H; [| split; [reflexivity | constructor] ..].
  apply tryCatch_inv in H. destruct H as [(e & s1 & Hb & H) | (Hb & Hne)];
    unfold Avr8.updateDwenFuseBitGuarded in Hb; simpl in Hb.
  - run Hb. all: run H.
    all: split; [first [intros _; reflexivity | refute_guards dwenType spienType]
                | check_followups].
  - run Hb.
    all: split; [first [intros _; reflexivity | refute_guards dwenType spienType]
                | check_followups].
Qed.
End Dwen.

Lemma dwen_update_guards_witness :
  ((Avr8.signatureConfirmed exampleTarget (calls (snd dwenRun)) = false
    \/ Avr8.spienProgrammed exampleTarget (calls (snd dwenRun)) = false
    \/ Avr8.lockBitsCleared (calls (snd dwenRun)) = false) ->
   Avr8.fuseWrites (calls (snd dwenRun)) = [])
  /\ Forall (verifiedBy (fst dwenRun)) (writeFollowUps (calls (snd dwenRun))).
Proof.
  apply (dwen_update_guards exampleTarget true exampleDevice).
  vm_compute. reflexivity.
Defined.

Example dwen_update_example :
  fst dwenRun = Ok tt
  /\ Avr8.fuseWrites (calls (snd dwenRun))
     = [{| Fuse.type := FuseType.HIGH; Fuse.value := 153 |}]
  /\ map fst (writeFollowUps (calls (snd dwenRun)))
     = [{| Fuse.type := FuseType.HIGH; Fuse.value := 153 |}].
Proof. repeat split; vm_compute; reflexivity. Qed.


(** ** Chunked memory access: properties *)

Section Chunking.

Import MemoryAccess Alignment.

Lemma chunks_length : forall n address remaining maximum,
  0 < maximum -> 0 <= remaining -> (Z.to_nat remaining <= n)%nat ->
  Z.of_nat (length (chunks n address remaining maximum)) = ceilDiv remaining maximum.
Proof.
  unfold ceilDiv.
  induction n as [| n IH]; intros address remaining maximum Hm Hr Hn; simpl.
  - assert (remaining = 0) by lia. subst. symmetry. apply Z.div_small. lia.
  - destruct (0 <? remaining) eqn:E.
    + apply Z.ltb_lt in E. cbn [length]. rewrite Nat2Z.inj_succ, IH by lia.
      destruct (Z.le_gt_cases remaining maximum) as [Hle | Hgt].
      * rewrite Z.min_l by lia. replace (remaining - remaining) with 0 by lia.
        replace (0 + maximum - 1) with (maximum - 1) by lia.
        rewrite Z.div_small by lia.
        replace (remaining + maximum - 1) with (1 * maximum + (remaining - 1)) by lia.
        rewrite Z.div_add_l by lia. rewrite Z.div_small by lia. lia.
      * rewrite Z.min_r by lia.
        replace (remaining + maximum - 1)
          with (1 * maximum + (remaining - maximum + maximum - 1)) by lia.
        rewrite Z.div_add_l by lia. lia.
    + apply Z.ltb_ge in E. assert (remaining = 0) by lia. subst.
      simpl. symmetry. apply Z.div_small. lia.
Qed.

Lemma chunks_bounded : forall n address remaining maximum,
  0 < maximum ->
  Forall (fun c => 0 < snd c <= maximum) (chunks n address remaining maximum).
Proof.
  induction n as [| n IH]; intros address remaining maximum Hm; simpl.
  - constructor.
  - destruct (0 <? remaining) eqn:E; [| constructor].
    apply Z.ltb_lt in E. constructor; [simpl; lia | apply IH; exact Hm].
Qed.

Lemma maximumMemoryAccessSize_state type i :
  snd (maximumMemoryAccessSize type i) = i.
Proof.
  unfold maximumMemoryAccessSize, bind, gets, value, ret, throw. simpl.
  destruct (_ || _); [destruct (flashPageSize _); reflexivity |].
  destruct (_ || _); [destruct (eepromPageSize _); reflexivity |].
  destruct (maximumMemoryAccessSizePerRequest i); reflexivity.
Qed.

Lemma maximumMemoryAccessSize_settings type i j :
  settingsOf i = settingsOf j ->
  fst (maximumMemoryAccessSize type i) = fst (maximumMemoryAccessSize type j).
Proof.
  unfold settingsOf. intros H. injection H as Hv Htp Ha Hp Hh.
  unfold maximumMemoryAccessSize, bind, gets, value, ret, throw. simpl.
  rewrite Hv, Htp, Hp, Hh.
  destruct (_ || _); [destruct (flashPageSize _); reflexivity |].
  destruct (_ || _); [destruct (eepromPageSize _); reflexivity |].
  destruct (maximumMemoryAccessSizePerRequest j); reflexivity.
Qed.

Lemma maximumMemoryAccessSize_transfer type i j maximum :
  settingsOf i = settingsOf j ->
  maximumMemoryAccessSize type i = (Ok maximum, i) ->
  maximumMemoryAccessSize type j = (Ok maximum, j).
Proof.
  intros Hs Hi.
  rewrite (surjective_pairing (maximumMemoryAccessSize type j)).
  rewrite maximumMemoryAccessSize_state.
  rewrite <- (maximumMemoryAccessSize_settings type i j Hs), Hi. reflexivity.
Qed.

Lemma plainAccess_transfer i j type excl :
  settingsOf i = settingsOf j -> plainAccess i type excl -> plainAccess j type excl.
Proof.
  unfold settingsOf, plainAccess. intros H. injection H as Hv Htp Ha Hp Hh.
  rewrite Hv, Ha. auto.
Qed.

Lemma wrap32_small x : 0 <= x < 2 ^ 32 -> wrap32 x = x.
Proof. intros H. unfold wrap32. apply Z.mod_small. exact H. Qed.

Lemma send_answered frame i response rest :
  responses (edbgInterface i) = response :: rest ->
  Avr8Interface.send frame i = (Ok response, afterFrame frame rest i).
Proof.
  intros H. unfold Avr8Interface.send, onEdbg, sendAvrCommandFrameAndWaitForResponseFrame.
  rewrite H. reflexivity.
Qed.

Lemma alignment_noop tp type startAddress bytes maximum :
  noWidening tp type startAddress bytes maximum ->
  alignmentRequired type = true ->
  0 < maximum -> 0 <= bytes < 2 ^ 32 ->
  alignMemoryAddress tp type startAddress = Ok startAddress
  /\ alignMemoryBytes tp type (wrap32 (bytes + wrap32 (startAddress - startAddress)))
     = Ok bytes.
Proof.
  intros [Hno | (Ha & Hs & Hb)] Hreq Hm Hbytes; [congruence |].
  unfold alignMemoryAddress, alignMemoryBytes. rewrite Ha.
  replace (startAddress - startAddress) with 0 by lia.
  change (wrap32 0) with 0. rewrite Z.add_0_r, (wrap32_small bytes) by exact Hbytes.
  destruct (maximum =? 0) eqn:E; [apply Z.eqb_eq in E; lia |].
  rewrite Hs, Hb. simpl. auto.
Qed.

Lemma readMemory_unfold fuel type startAddress bytes excludedAddresses :
  readMemory (S fuel) type startAddress bytes excludedAddresses
  = bind (fusesGuard type) (fun _ =>
      bind (gets avoidMaskedMemoryRead) (fun avoid =>
        if driverSideMasking avoid type excludedAddresses
        then
          let endAddress := wrap32 (startAddress + bytes - 1) in
          bind (readSegments (fun address size => readMemory fuel type address size [])
                  startAddress endAddress excludedAddresses [] startAddress)
            (fun r =>
               let '(output, segmentStartAddress) := r in
               let finalReadBytes :=
                 wrap32 (wrap32 (endAddress - segmentStartAddress) + 1) in
               if 0 <? finalReadBytes
               then bind (readMemory fuel type segmentStartAddress finalReadBytes [])
                      (fun segmentBuffer => ret (output ++ segmentBuffer))
               else ret output)
        else
          let chunked : M EdbgAvr8Interface (list Z) :=
            bind (maximumMemoryAccessSize type) (fun maximumReadSize =>
              if maximumReadSize <? bytes
              then readChunks (fun address size =>
                                 readMemory fuel type address size excludedAddresses)
                     startAddress bytes maximumReadSize fuel []
              else readMemoryFrame type startAddress bytes excludedAddresses) in
          if alignmentRequired type
          then
            bind (gets targetParameters) (fun tp =>
              bind (liftRes (alignMemoryAddress tp type startAddress))
                (fun alignedStartAddress =>
                   bind (liftRes (alignMemoryBytes tp type
                                    (wrap32 (bytes + wrap32 (startAddress - alignedStartAddress)))))
                     (fun alignedBytes =>
                        if negb (alignedStartAddress =? startAddress)
                           || negb (alignedBytes =? bytes)
                        then
                          bind (readMemory fuel type alignedStartAddress alignedBytes
                                  excludedAddresses)
                            (fun memoryBuffer =>
                               slice memoryBuffer
                                 (wrap32 (startAddress - alignedStartAddress)) bytes)
                        else chunked)))
          else chunked)).
Proof. reflexivity. Qed.

(** What is left of [readMemory] for a request that takes neither the
    driver-side masked read nor a widening. *)
Lemma readMemory_plain fuel type startAddress bytes excl i maximum :
  plainAccess i type excl ->
  noWidening (targetParameters i) type startAddress bytes maximum ->
  0 < maximum -> 0 <= bytes < 2 ^ 32 ->
  readMemory (S fuel) type startAddress bytes excl i
  = bind (maximumMemoryAccessSize type) (fun maximumReadSize =>
      if maximumReadSize <? bytes
      then readChunks (fun address size => readMemory fuel type address size excl)
             startAddress bytes maximumReadSize fuel []
      else readMemoryFrame type startAddress bytes excl) i.
Proof.
  intros (Hf & Hmask) Hw Hm Hb.
  rewrite readMemory_unfold.
  unfold bind at 1. unfold fusesGuard, bind at 1, gets at 1.
  rewrite Hf. unfold ret at 1. unfold bind at 1, gets at 1. rewrite Hmask.
  destruct (alignmentRequired type) eqn:Ereq; [| reflexivity].
  destruct (alignment_noop _ _ _ _ _ Hw Ereq Hm Hb) as (Ha & Hbts).
  unfold bind at 1, gets at 1. unfold bind at 1, liftRes at 1. rewrite Ha.
  unfold bind at 1, liftRes at 1. rewrite Hbts.
  rewrite !Z.eqb_refl. reflexivity.
Qed.

(** A request that fits one access and needs no widening is one frame. *)
Lemma readMemory_one_frame fuel type startAddress bytes excl i maximum response rest :
  plainAccess i type excl ->
  noWidening (targetParameters i) type startAddress bytes maximum ->
  maximumMemoryAccessSize type i = (Ok maximum, i) ->
  0 < maximum -> 0 <= bytes <= maximum -> bytes < 2 ^ 32 ->
  responses (edbgInterface i) = response :: rest ->
  failed response = false ->
  Z.of_nat (length (memoryData response)) = bytes ->
  readMemory (S fuel) type startAddress bytes excl i
  = (Ok (memoryData response),
     afterFrame (CommandFrames.ReadMemory type startAddress bytes excl) rest i).
Proof.
  intros Hp Hw Hmax Hm Hb Hb32 Hr Hok Hlen.
  rewrite (readMemory_plain fuel type startAddress bytes excl i maximum Hp Hw Hm)
    by lia.
  unfold bind at 1. rewrite Hmax.
  destruct (maximum <? bytes) eqn:E; [apply Z.ltb_lt in E; lia |].
  unfold readMemoryFrame, bind.
  rewrite (send_answered _ _ _ _ Hr), Hok.
  rewrite Hlen, Z.eqb_refl. reflexivity.
Qed.

Lemma settingsOf_afterFrame frame rest i :
  settingsOf (afterFrame frame rest i) = settingsOf i.
Proof. reflexivity. Qed.

Lemma aligned_chunk type tp startAddress bytes maximum done :
  noWidening tp type startAddress bytes maximum ->
  0 < maximum -> 0 <= done < bytes -> done mod maximum = 0 ->
  noWidening tp type (startAddress + done) (Z.min (bytes - done) maximum) maximum
  /\ (alignmentRequired type = true -> Z.min (bytes - done) maximum = maximum).
Proof.
  intros [Hno | (Ha & Hs & Hb)] Hm Hd Hdm.
  - split; [left; exact Hno | congruence].
  - assert (Hrem : (bytes - done) mod maximum = 0).
    { rewrite Zminus_mod, Hb, Hdm. simpl. apply Z.mod_0_l. lia. }
    assert (Hge : maximum <= bytes - done).
    { apply Z.mod_divide in Hrem; [| lia]. destruct Hrem as (q & Hq).
      assert (0 < q) by nia. nia. }
    rewrite Z.min_r by lia. split; [| reflexivity].
    right. split; [exact Ha |]. split.
    + rewrite Zplus_mod, Hs, Hdm. simpl. apply Z.mod_0_l. lia.
    + apply Z.mod_same. lia.
Qed.

(** The chunking loop of [readMemory]: one frame for every chunk that is
    left, each answered by the next response. *)
Lemma readChunks_frames fuel type excl startAddress bytes maximum rest :
  0 < maximum -> 0 <= startAddress -> startAddress + bytes <= 2 ^ 32 ->
  bytes < 2 ^ 32 ->
  forall n rs i output turns,
    plainAccess i type excl ->
    noWidening (targetParameters i) type startAddress bytes maximum ->
    maximumMemoryAccessSize type i = (Ok maximum, i) ->
    0 <= Z.of_nat (length output) <= bytes ->
    (alignmentRequired type = true -> Z.of_nat (length output) mod maximum = 0) ->
    (Z.to_nat (bytes - Z.of_nat (length output)) <= n)%nat ->
    answersReads rs (chunks n (startAddress + Z.of_nat (length output))
                       (bytes - Z.of_nat (length output)) maximum) ->
    responses (edbgInterface i) = rs ++ rest ->
    (length rs <= turns)%nat ->
    exists i',
      readChunks (fun address size => readMemory (S fuel) type address size excl)
        startAddress bytes maximum turns output i
      = (Ok (output ++ concat (map memoryData rs)), i')
      /\ wireOf i' = wireOf i
                     ++ map (readFrameOf type excl)
                          (chunks n (startAddress + Z.of_nat (length output))
                             (bytes - Z.of_nat (length output)) maximum)
      /\ settingsOf i' = settingsOf i
      /\ responses (edbgInterface i') = rest
      /\ targetState i' = targetState i.
Proof.
  intros Hm Hs0 Hs32 Hb32.
  induction n as [| n IH]; intros rs i output turns Hp Hw Hmax Hout Hal Hn Hans Hr Ht.
  - assert (Hdone : Z.of_nat (length output) = bytes) by lia.
    simpl in Hans. inversion Hans; subst rs. simpl in Hr.
    exists i. destruct turns; simpl; rewrite Hdone, Z.ltb_irrefl;
      unfold ret; simpl; rewrite !app_nil_r; auto.
  - cbn [chunks] in Hans |- *.
    destruct (0 <? bytes - Z.of_nat (length output)) eqn:E.
    + apply Z.ltb_lt in E.
      inversion Hans as [| r c rs' cs' (Hok & Hlen) Hans' Hrs Hcs]; subst rs.
      simpl in Hlen, Hr, Ht.
      destruct turns as [| turns]; [lia |].
      cbn [readChunks].
      destruct (Z.of_nat (length output) <? bytes) eqn:E2; [| apply Z.ltb_ge in E2; lia].
      rewrite (wrap32_small (bytes - _)) by lia.
      rewrite (wrap32_small (startAddress + _)) by lia.
      assert (Hchunk : noWidening (targetParameters i) type
                         (startAddress + Z.of_nat (length output))
                         (Z.min (bytes - Z.of_nat (length output)) maximum) maximum
                       /\ (alignmentRequired type = true ->
                           Z.min (bytes - Z.of_nat (length output)) maximum = maximum)).
      { destruct (alignmentRequired type) eqn:Ereq.
        - rewrite <- Ereq at 1. apply aligned_chunk; auto; lia.
        - split; [left; exact Ereq | discriminate]. }
      destruct Hchunk as (Hchunk & Hfull).
      unfold bind at 1.
      rewrite (readMemory_one_frame fuel type _ _ excl i maximum r (rs' ++ rest)
                 Hp Hchunk Hmax Hm) by (auto; lia).
      set (i1 := afterFrame _ _ i).
      assert (Hlen1 : Z.of_nat (length (output ++ memoryData r))
                      = Z.of_nat (length output)
                        + Z.min (bytes - Z.of_nat (length output)) maximum).
      { rewrite length_app, Nat2Z.inj_add, Hlen. reflexivity. }
      destruct (IH rs' i1 (output ++ memoryData r) turns) as (i' & Hrun & Hwire & Hset & Hresp & Hst).
      * exact (plainAccess_transfer i i1 _ _ eq_refl Hp).
      * exact Hw.
      * exact (maximumMemoryAccessSize_transfer _ i i1 _ eq_refl Hmax).
      * rewrite Hlen1. lia.
      * intros Ereq. rewrite Hlen1, (Hfull Ereq).
        rewrite Zplus_mod, (Hal Ereq), Z.mod_same by lia. reflexivity.
      * rewrite Hlen1. lia.
      * rewrite Hlen1.
        replace (startAddress + (Z.of_nat (length output)
                                 + Z.min (bytes - Z.of_nat (length output)) maximum))
          with (startAddress + Z.of_nat (length output)
                + Z.min (bytes - Z.of_nat (length output)) maximum) by lia.
        replace (bytes - (Z.of_nat (length output)
                          + Z.min (bytes - Z.of_nat (length output)) maximum))
          with (bytes - Z.of_nat (length output)
                - Z.min (bytes - Z.of_nat (length output)) maximum) by lia.
        exact Hans'.
      * reflexivity.
      * lia.
      * exists i'. rewrite Hrun. split.
        { simpl. rewrite <- app_assoc. reflexivity. }
        split.
        { rewrite Hwire. unfold i1, wireOf, afterFrame. simpl.
          rewrite <- app_assoc. simpl. rewrite Hlen1.
          replace (startAddress + (Z.of_nat (length output)
                                   + Z.min (bytes - Z.of_nat (length output)) maximum))
            with (startAddress + Z.of_nat (length output)
                  + Z.min (bytes - Z.of_nat (length output)) maximum) by lia.
          replace (bytes - (Z.of_nat (length output)
                            + Z.min (bytes - Z.of_nat (length output)) maximum))
            with (bytes - Z.of_nat (length output)
                  - Z.min (bytes - Z.of_nat (length output)) maximum) by lia.
          reflexivity. }
        split; [rewrite Hset; reflexivity |]. split; [exact Hresp | rewrite Hst; reflexivity].
    + apply Z.ltb_ge in E. inversion Hans; subst rs. simpl in Hr.
      assert (Hdone : Z.of_nat (length output) = bytes) by lia.
      exists i. destruct turns; simpl; rewrite Hdone, Z.ltb_irrefl;
        unfold ret; simpl; rewrite !app_nil_r; auto.
Qed.

Lemma chunksOf_length address bytes maximum :
  0 < maximum -> 0 <= bytes ->
  Z.of_nat (length (chunksOf address bytes maximum)) = ceilDiv bytes maximum.
Proof. intros Hm Hb. apply chunks_length; auto. Qed.

Lemma answersReads_length rs cs : answersReads rs cs -> length rs = length cs.
Proof. intros H. induction H; simpl; congruence. Qed.

(** A read that needs no widening and is longer than the maximum access
    size goes out as the frames of its chunks, and returns what they
    brought in. *)
Lemma readMemory_chunked fuel type startAddress bytes excl i maximum rs rest :
  plainAccess i type excl ->
  noWidening (targetParameters i) type startAddress bytes maximum ->
  maximumMemoryAccessSize type i = (Ok maximum, i) ->
  0 < maximum < bytes ->
  0 <= startAddress -> startAddress + bytes <= 2 ^ 32 -> bytes < 2 ^ 32 ->
  responses (edbgInterface i) = rs ++ rest ->
  answersReads rs (chunksOf startAddress bytes maximum) ->
  (length rs + 2 <= fuel)%nat ->
  exists i',
    readMemory fuel type startAddress bytes excl i
    = (Ok (concat (map memoryData rs)), i')
    /\ wireOf i' = wireOf i ++ map (readFrameOf type excl)
                                 (chunksOf startAddress bytes maximum)
    /\ settingsOf i' = settingsOf i
    /\ responses (edbgInterface i') = rest.
Proof.
  intros Hp Hw Hmax Hm Hs0 Hs32 Hb32 Hr Hans Hfuel.
  destruct fuel as [| [| fuel]]; try lia.
  destruct (readChunks_frames fuel type excl startAddress bytes maximum rest
              (proj1 Hm) Hs0 Hs32 Hb32 (Z.to_nat bytes) rs i [] (S fuel))
    as (i' & Hrun & Hwire & Hset & Hresp & _); auto.
  all: try (simpl; lia).
  - simpl. unfold chunksOf in Hans. rewrite Z.add_0_r, Z.sub_0_r. exact Hans.
  - exists i'. simpl in Hrun, Hwire. rewrite Z.add_0_r, Z.sub_0_r in Hwire.
    split; [| unfold chunksOf; auto].
    rewrite (readMemory_plain (S fuel) type startAddress bytes excl i maximum Hp Hw)
      by lia.
    unfold bind at 1. rewrite Hmax.
    destruct (maximum <? bytes) eqn:E; [| apply Z.ltb_ge in E; lia].
    exact Hrun.
Qed.

Lemma writeMemory_unfold fuel type startAddress buffer :
  writeMemory (S fuel) type startAddress buffer
  = bind (fusesGuard type) (fun _ =>
      let bytes := wrap32 (Z.of_nat (length buffer)) in
      let chunked : M EdbgAvr8Interface unit :=
        bind (maximumMemoryAccessSize type) (fun maximumWriteSize =>
          if maximumWriteSize <? Z.of_nat (length buffer)
          then writeChunks (fun address chunk => writeMemory fuel type address chunk)
                 startAddress buffer maximumWriteSize fuel 0
          else writeMemoryFrame type startAddress buffer) in
      if alignmentRequired type
      then
        bind (gets targetParameters) (fun tp =>
          bind (liftRes (alignMemoryAddress tp type startAddress))
            (fun alignedStartAddress =>
               bind (liftRes (alignMemoryBytes tp type
                                (wrap32 (bytes + wrap32 (startAddress - alignedStartAddress)))))
                 (fun alignedBytes =>
                    if negb (alignedStartAddress =? startAddress)
                       || negb (alignedBytes =? bytes)
                    then
                      let readMemoryType :=
                        if Avr8MemoryType.eqb type Avr8MemoryType.EEPROM_ATOMIC
                        then Avr8MemoryType.EEPROM else type in
                      bind (readMemory fuel readMemoryType alignedStartAddress
                              alignedBytes [])
                        (fun alignedBuffer =>
                           bind (overlay alignedBuffer
                                   (wrap32 (startAddress - alignedStartAddress)) buffer)
                             (fun merged =>
                                writeMemory fuel type alignedStartAddress merged))
                    else chunked)))
      else chunked).
Proof. reflexivity. Qed.

Lemma writeMemory_plain fuel type startAddress buffer i maximum :
  plainAccess i type [] ->
  noWidening (targetParameters i) type startAddress (Z.of_nat (length buffer)) maximum ->
  0 < maximum -> Z.of_nat (length buffer) < 2 ^ 32 ->
  writeMemory (S fuel) type startAddress buffer i
  = bind (maximumMemoryAccessSize type) (fun maximumWriteSize =>
      if maximumWriteSize <? Z.of_nat (length buffer)
      then writeChunks (fun address chunk => writeMemory fuel type address chunk)
             startAddress buffer maximumWriteSize fuel 0
      else writeMemoryFrame type startAddress buffer) i.
Proof.
  intros (Hf & _) Hw Hm Hb.
  rewrite writeMemory_unfold.
  unfold bind at 1. unfold fusesGuard, bind at 1, gets at 1.
  rewrite Hf. unfold ret at 1. cbv zeta.
  destruct (alignmentRequired type) eqn:Ereq; [| reflexivity].
  rewrite (wrap32_small (Z.of_nat (length buffer))) by lia.
  destruct (alignment_noop _ _ _ _ _ Hw Ereq Hm) as (Ha & Hbts); [lia |].
  unfold bind at 1, gets at 1. unfold bind at 1, liftRes at 1. rewrite Ha.
  unfold bind at 1, liftRes at 1. rewrite Hbts.
  rewrite !Z.eqb_refl. reflexivity.
Qed.

Lemma writeMemory_one_frame fuel type startAddress buffer i maximum response rest :
  plainAccess i type [] ->
  noWidening (targetParameters i) type startAddress (Z.of_nat (length buffer)) maximum ->
  maximumMemoryAccessSize type i = (Ok maximum, i) ->
  0 < maximum -> Z.of_nat (length buffer) <= maximum ->
  Z.of_nat (length buffer) < 2 ^ 32 ->
  responses (edbgInterface i) = response :: rest ->
  failed response = false ->
  writeMemory (S fuel) type startAddress buffer i
  = (Ok tt, afterFrame (CommandFrames.WriteMemory type startAddress buffer) rest i).
Proof.
  intros Hp Hw Hmax Hm Hb Hb32 Hr Hok.
  rewrite (writeMemory_plain fuel type startAddress buffer i maximum Hp Hw Hm Hb32).
  unfold bind at 1. rewrite Hmax.
  destruct (maximum <? _) eqn:E; [apply Z.ltb_lt in E; lia |].
  unfold writeMemoryFrame, bind.
  rewrite (send_answered _ _ _ _ Hr), Hok. reflexivity.
Qed.

Lemma chunk_length (buffer : list Z) written size :
  0 <= written -> 0 <= size -> written + size <= Z.of_nat (length buffer) ->
  Z.of_nat (length (firstn (Z.to_nat size) (skipn (Z.to_nat written) buffer))) = size.
Proof.
  intros Hw Hs Hle. rewrite length_firstn, length_skipn. lia.
Qed.

(** The chunking loop of [writeMemory]: one frame for every chunk that is
    left, each acknowledged by the next response. *)
Lemma writeChunks_frames fuel type startAddress buffer maximum rest :
  0 < maximum -> 0 <= startAddress ->
  startAddress + Z.of_nat (length buffer) <= 2 ^ 32 ->
  Z.of_nat (length buffer) < 2 ^ 32 ->
  forall n rs i written turns,
    plainAccess i type [] ->
    noWidening (targetParameters i) type startAddress (Z.of_nat (length buffer)) maximum ->
    maximumMemoryAccessSize type i = (Ok maximum, i) ->
    0 <= written <= Z.of_nat (length buffer) ->
    (alignmentRequired type = true -> written mod maximum = 0) ->
    (Z.to_nat (Z.of_nat (length buffer) - written) <= n)%nat ->
    answersWrites rs (chunks n (startAddress + written)
                        (Z.of_nat (length buffer) - written) maximum) ->
    responses (edbgInterface i) = rs ++ rest ->
    (length rs <= turns)%nat ->
    exists i',
      writeChunks (fun address chunk => writeMemory (S fuel) type address chunk)
        startAddress buffer maximum turns written i
      = (Ok tt, i')
      /\ wireOf i' = wireOf i
                     ++ map (writeFrameOf type startAddress buffer)
                          (chunks n (startAddress + written)
                             (Z.of_nat (length buffer) - written) maximum)
      /\ settingsOf i' = settingsOf i
      /\ responses (edbgInterface i') = rest
      /\ targetState i' = targetState i.
Proof.
  intros Hm Hs0 Hs32 Hb32.
  set (len := Z.of_nat (length buffer)) in *.
  induction n as [| n IH]; intros rs i written turns Hp Hw Hmax Hout Hal Hn Hans Hr Ht.
  - assert (Hdone : written = len) by lia.
    simpl in Hans. inversion Hans; subst rs. simpl in Hr.
    exists i. destruct turns; simpl; fold len; rewrite Hdone, Z.ltb_irrefl;
      unfold ret; simpl; rewrite !app_nil_r; auto.
  - cbn [chunks] in Hans |- *.
    destruct (0 <? len - written) eqn:E.
    + apply Z.ltb_lt in E.
      inversion Hans as [| r c rs' cs' Hok Hans' Hrs Hcs]; subst rs.
      simpl in Hr, Ht.
      destruct turns as [| turns]; [lia |].
      cbn [writeChunks]. fold len.
      destruct (written <? len) eqn:E2; [| apply Z.ltb_ge in E2; lia].
      rewrite (wrap32_small (len - _)) by lia.
      rewrite (wrap32_small (startAddress + _)) by lia.
      set (size := Z.min (len - written) maximum) in *.
      rewrite (wrap32_small (written + size)) by lia.
      set (chunk := firstn (Z.to_nat size) (skipn (Z.to_nat written) buffer)).
      assert (Hlen : Z.of_nat (length chunk) = size).
      { apply chunk_length; fold len; lia. }
      assert (Hchunk : noWidening (targetParameters i) type
                         (startAddress + written) size maximum
                       /\ (alignmentRequired type = true -> size = maximum)).
      { destruct (alignmentRequired type) eqn:Ereq.
        - rewrite <- Ereq at 1. apply aligned_chunk; auto; lia.
        - split; [left; exact Ereq | discriminate]. }
      destruct Hchunk as (Hchunk & Hfull).
      rewrite <- Hlen in Hchunk.
      unfold bind at 1.
      rewrite (writeMemory_one_frame fuel type _ chunk i maximum r (rs' ++ rest)
                 Hp Hchunk Hmax Hm) by (auto; lia).
      set (i1 := afterFrame _ _ i).
      destruct (IH rs' i1 (written + size) turns)
        as (i' & Hrun & Hwire & Hset & Hresp & Hst).
      * exact (plainAccess_transfer i i1 _ _ eq_refl Hp).
      * exact Hw.
      * exact (maximumMemoryAccessSize_transfer _ i i1 _ eq_refl Hmax).
      * lia.
      * intros Ereq. rewrite (Hfull Ereq).
        rewrite Zplus_mod, (Hal Ereq), Z.mod_same by lia. reflexivity.
      * lia.
      * replace (startAddress + (written + size))
          with (startAddress + written + size) by lia.
        replace (len - (written + size)) with (len - written - size) by lia.
        exact Hans'.
      * reflexivity.
      * lia.
      * exists i'. rewrite Hrun. split; [reflexivity |].
        split.
        { rewrite Hwire. unfold i1, wireOf, afterFrame. simpl.
          rewrite <- app_assoc. simpl.
          replace (startAddress + (written + size))
            with (startAddress + written + size) by lia.
          replace (len - (written + size)) with (len - written - size) by lia.
          unfold writeFrameOf at 2. simpl fst. simpl snd.
          replace (startAddress + written - startAddress) with written by lia.
          reflexivity. }
        split; [rewrite Hset; reflexivity |]. split; [exact Hresp | rewrite Hst; reflexivity].
    + apply Z.ltb_ge in E. inversion Hans; subst rs. simpl in Hr.
      assert (Hdone : written = len) by lia.
      exists i. destruct turns; simpl; fold len; rewrite Hdone, Z.ltb_irrefl;
        unfold ret; simpl; rewrite !app_nil_r; auto.
Qed.

Lemma answersWrites_length rs cs : answersWrites rs cs -> length rs = length cs.
Proof. intros H. induction H; simpl; congruence. Qed.

Lemma writeMemory_chunked fuel type startAddress buffer i maximum rs rest :
  plainAccess i type [] ->
  noWidening (targetParameters i) type startAddress (Z.of_nat (length buffer)) maximum ->
  maximumMemoryAccessSize type i = (Ok maximum, i) ->
  0 < maximum < Z.of_nat (length buffer) ->
  0 <= startAddress -> startAddress + Z.of_nat (length buffer) <= 2 ^ 32 ->
  Z.of_nat (length buffer) < 2 ^ 32 ->
  responses (edbgInterface i) = rs ++ rest ->
  answersWrites rs (chunksOf startAddress (Z.of_nat (length buffer)) maximum) ->
  (length rs + 2 <= fuel)%nat ->
  exists i',
    writeMemory fuel type startAddress buffer i = (Ok tt, i')
    /\ wireOf i' = wireOf i ++ map (writeFrameOf type startAddress buffer)
                                 (chunksOf startAddress (Z.of_nat (length buffer)) maximum)
    /\ settingsOf i' = settingsOf i
    /\ responses (edbgInterface i') = rest.
Proof.
  intros Hp Hw Hmax Hm Hs0 Hs32 Hb32 Hr Hans Hfuel.
  destruct fuel as [| [| fuel]]; try lia.
  destruct (writeChunks_frames fuel type startAddress buffer maximum rest
              (proj1 Hm) Hs0 Hs32 Hb32 (Z.to_nat (Z.of_nat (length buffer))) rs i 0 (S fuel))
    as (i' & Hrun & Hwire & Hset & Hresp & _); auto.
  all: try (simpl; lia).
  - unfold chunksOf in Hans. rewrite Z.add_0_r, Z.sub_0_r. exact Hans.
  - exists i'. rewrite Z.add_0_r, Z.sub_0_r in Hwire.
    split; [| unfold chunksOf; auto].
    rewrite (writeMemory_plain (S fuel) type startAddress buffer i maximum Hp Hw)
      by lia.
    unfold bind at 1. rewrite Hmax.
    destruct (maximum <? _) eqn:E; [| apply Z.ltb_ge in E; lia].
    exact Hrun.
Qed.

Lemma chunks_in_range : forall n address remaining maximum,
  0 < maximum -> 0 <= remaining ->
  Forall (fun c => address <= fst c /\ fst c + snd c <= address + remaining)
    (chunks n address remaining maximum).
Proof.
  induction n as [| n IH]; intros address remaining maximum Hm Hr; simpl.
  - constructor.
  - destruct (0 <? remaining) eqn:E; [| constructor].
    apply Z.ltb_lt in E. constructor; [simpl; lia |].
    eapply Forall_impl; [| apply IH; lia]. simpl. intros c Hc. lia.
Qed.

Lemma readFrames_within type excl cs maximum :
  Forall (fun c => 0 < snd c <= maximum) cs ->
  Forall (transactionWithin maximum) (map (readFrameOf type excl) cs).
Proof.
  intros H. apply Forall_map. eapply Forall_impl; [| exact H].
  intros c Hc. exists (snd c). split; [reflexivity | exact Hc].
Qed.

Lemma writeFrames_within type startAddress (buffer : list Z) cs maximum :
  Forall (fun c => 0 < snd c <= maximum) cs ->
  Forall (fun c => startAddress <= fst c
                   /\ fst c + snd c <= startAddress + Z.of_nat (length buffer)) cs ->
  Forall (transactionWithin maximum) (map (writeFrameOf type startAddress buffer) cs).
Proof.
  intros H R. apply Forall_map. rewrite Forall_forall in *.
  intros c Hin. specialize (H c Hin). specialize (R c Hin).
  exists (snd c). split; [| exact H].
  unfold writeFrameOf, transactionLength. f_equal.
  apply chunk_length; lia.
Qed.

(** C5 (amended). A memory read or write that is longer than the maximum
    access size of its memory type, and that is neither widened to page
    boundaries (the type is not page-aligned, or the start address and
    the length are multiples of the page size) nor a driver-side masked
    read nor refused by the fuses guard, goes out, when the tool answers
    every frame, as exactly ceil(len / max) memory frames, each moving at
    most max bytes; the read returns the bytes of the answers in order.
    [max] is what [maximumMemoryAccessSize] returns for the type. *)
Theorem chunked_access_transactions
    fuel type startAddress bytes excl i maximum rest :
  plainAccess i type excl ->
  noWidening (targetParameters i) type startAddress bytes maximum ->
  maximumMemoryAccessSize type i = (Ok maximum, i) ->
  0 < maximum < bytes ->
  0 <= startAddress -> startAddress + bytes <= 2 ^ 32 -> bytes < 2 ^ 32 ->
  (Z.to_nat (ceilDiv bytes maximum) + 2 <= fuel)%nat ->
  (forall rs,
     responses (edbgInterface i) = rs ++ rest ->
     answersReads rs (chunksOf startAddress bytes maximum) ->
     exists i',
       readMemory fuel type startAddress bytes excl i
       = (Ok (concat (map memoryData rs)), i')
       /\ splitInto maximum bytes i i')
  /\ (forall buffer rs,
        Z.of_nat (length buffer) = bytes ->
        responses (edbgInterface i) = rs ++ rest ->
        answersWrites rs (chunksOf startAddress bytes maximum) ->
        exists i',
          writeMemory fuel type startAddress buffer i = (Ok tt, i')
          /\ splitInto maximum bytes i i').
Proof.
  intros Hp Hw Hmax Hm Hs0 Hs32 Hb32 Hfuel.
  assert (Hcount := chunksOf_length startAddress bytes maximum (proj1 Hm) ltac:(lia)).
  assert (Hbound : Forall (fun c => 0 < snd c <= maximum)
                     (chunksOf startAddress bytes maximum))
    by (apply chunks_bounded; lia).
  split.
  - intros rs Hr Hans.
    assert (Hlen := answersReads_length _ _ Hans).
    destruct (readMemory_chunked fuel type startAddress bytes excl i maximum rs rest)
      as (i' & Hrun & Hwire & _); auto; [lia |].
    exists i'. split; [exact Hrun |].
    eexists. split; [exact Hwire |]. split.
    + rewrite length_map. exact Hcount.
    + apply readFrames_within. exact Hbound.
  - intros buffer rs Hbuf Hr Hans. subst bytes.
    assert (Hlen := answersWrites_length _ _ Hans).
    destruct (writeMemory_chunked fuel type startAddress buffer i maximum rs rest)
      as (i' & Hrun & Hwire & _); auto; [| lia |].
    { destruct Hp as (Hf & _). split; [exact Hf | reflexivity]. }
    exists i'. split; [exact Hrun |].
    eexists. split; [exact Hwire |]. split.
    + rewrite length_map. exact Hcount.
    + apply writeFrames_within; [exact Hbound |].
      apply chunks_in_range; lia.
Qed.

Lemma chunked_access_transactions_witness :
  (exists i',
     readMemory 5 Avr8MemoryType.SRAM 127 150 [] chunkedInterface
     = (Ok (repeat 0 150), i')
     /\ splitInto 68 150 chunkedInterface i')
  /\ (exists i',
        writeMemory 5 Avr8MemoryType.SRAM 127 (repeat 7 150) chunkedInterface
        = (Ok tt, i')
        /\ splitInto 68 150 chunkedInterface i').
Proof.
  destruct (chunked_access_transactions 5 Avr8MemoryType.SRAM 127 150 []
              chunkedInterface 68 [])
    as (Hread & Hwrite).
  - split; reflexivity.
  - left. reflexivity.
  - reflexivity.
  - lia.
  - lia.
  - lia.
  - lia.
  - vm_compute. lia.
  - split.
    + apply (Hread (responses chunkedReadTool)); [reflexivity |].
      repeat constructor.
    + apply (Hwrite (repeat 7 150) (responses chunkedReadTool));
        [reflexivity | reflexivity |].
      repeat constructor.
Defined.

(** C5, as the specification words it, fails. With a flash page of 128
    bytes, a 130-byte read of FLASH_PAGE at address 127 is longer than the
    maximum access size, and ceil(130 / 128) = 2; the read is first widened
    to the pages it touches (addresses 0 to 383) and goes out as three
    frames of one page each. For a type that has no page, the maximum is
    the per-request limit the interface was configured with (here 16)
    where there is one, not (64 - 30) * 2. And a 100-byte read of SRAM
    with address 10 excluded, on an interface that masks on the driver
    side, is cut at the excluded address before it is chunked: three
    frames for ceil(100 / 68) = 2. *)
Lemma reads_that_take_more_transactions :
  (maximumOf pagedInterface Avr8MemoryType.FLASH_PAGE = Ok 128
   /\ ceilDiv 130 128 = 2
   /\ exists i',
        readMemory 10 Avr8MemoryType.FLASH_PAGE 127 130 [] pagedInterface
        = (Ok (repeat 0 130), i')
        /\ wireOf i'
           = [Sent (CommandFrames.ReadMemory Avr8MemoryType.FLASH_PAGE 0 128 []);
              Sent (CommandFrames.ReadMemory Avr8MemoryType.FLASH_PAGE 128 128 []);
              Sent (CommandFrames.ReadMemory Avr8MemoryType.FLASH_PAGE 256 128 [])]
        /\ ~ splitInto 128 130 pagedInterface i')
  /\ (maximumOf limitedInterface Avr8MemoryType.SRAM = Ok 16
      /\ wrap32 ((usbHidInputReportSize (edbgInterface limitedInterface) - 30) * 2) = 68)
  /\ (maximumOf maskedInterface Avr8MemoryType.SRAM = Ok 68
      /\ ceilDiv 100 68 = 2
      /\ exists i',
           readMemory 10 Avr8MemoryType.SRAM 0 100 [10] maskedInterface
           = (Ok (repeat 0 100), i')
           /\ wireOf i'
              = [Sent (CommandFrames.ReadMemory Avr8MemoryType.SRAM 0 10 []);
                 Sent (CommandFrames.ReadMemory Avr8MemoryType.SRAM 11 68 []);
                 Sent (CommandFrames.ReadMemory Avr8MemoryType.SRAM 79 21 [])]
           /\ ~ splitInto 68 100 maskedInterface i').
Proof.
  split; [| split].
  - split; [reflexivity |]. split; [reflexivity |].
    eexists. split; [vm_compute; reflexivity |]. split; [reflexivity |].
    intros (frames & Hwire & Hcount & _).
    change (wireOf pagedInterface ++ frames) with frames in Hwire. subst frames.
    vm_compute in Hcount. discriminate.
  - split; reflexivity.
  - split; [reflexivity |]. split; [reflexivity |].
    eexists. split; [vm_compute; reflexivity |]. split; [reflexivity |].
    intros (frames & Hwire & Hcount & _).
    change (wireOf maskedInterface ++ frames) with frames in Hwire. subst frames.
    vm_compute in Hcount. discriminate.
Qed.

End Chunking.

(** ** Alignment: properties *)

(** ** Single-precision arithmetic on 24-bit integers *)

Section Binary32.

Import Float32.

Lemma digits2_pos_bounds p :
  2 ^ (Z.pos (digits2_pos p) - 1) <= Z.pos p < 2 ^ Z.pos (digits2_pos p).
Proof.
  induction p as [p IH | p IH |]; cbn [digits2_pos].
  - rewrite Pos2Z.inj_succ.
    replace (Z.succ (Z.pos (digits2_pos p)) - 1) with (Z.succ (Z.pos (digits2_pos p) - 1))
      by lia.
    rewrite !Z.pow_succ_r by lia. lia.
  - rewrite Pos2Z.inj_succ.
    replace (Z.succ (Z.pos (digits2_pos p)) - 1) with (Z.succ (Z.pos (digits2_pos p) - 1))
      by lia.
    rewrite !Z.pow_succ_r by lia. lia.
  - simpl. lia.
Qed.

Lemma Zdigits2_bounds m :
  0 < m -> 2 ^ (Zdigits2 m - 1) <= m < 2 ^ Zdigits2 m.
Proof.
  destruct m as [| p | p]; try lia. intros _. apply digits2_pos_bounds.
Qed.

Lemma Zdigits2_pos m : 0 < m -> 0 < Zdigits2 m.
Proof. destruct m; simpl; lia. Qed.

Lemma Zdigits2_unique m d :
  0 < d -> 2 ^ (d - 1) <= m < 2 ^ d -> Zdigits2 m = d.
Proof.
  intros Hd Hm.
  assert (Hpos : 0 < m) by (pose proof (Z.pow_pos_nonneg 2 (d - 1)); lia).
  pose proof (Zdigits2_bounds m Hpos) as Hb.
  pose proof (Zdigits2_pos m Hpos) as Hp.
  destruct (Z.lt_trichotomy (Zdigits2 m) d) as [Hlt | [Heq | Hgt]]; [| exact Heq |].
  - assert (2 ^ Zdigits2 m <= 2 ^ (d - 1)) by (apply Z.pow_le_mono_r; lia). lia.
  - assert (2 ^ d <= 2 ^ (Zdigits2 m - 1)) by (apply Z.pow_le_mono_r; lia). lia.
Qed.

Lemma iter_xO m k : Z.pos (Pos.iter xO m k) = Z.pos m * 2 ^ Z.pos k.
Proof.
  revert m. induction k using Pos.peano_ind; intros m.
  - simpl. lia.
  - rewrite Pos.iter_succ, Pos2Z.inj_succ, Z.pow_succ_r by lia.
    change (Z.pos (Pos.iter xO m k)~0) with (2 * Z.pos (Pos.iter xO m k)).
    rewrite IHk. lia.
Qed.


Lemma digits_small n : 0 < n < 2 ^ 24 -> 1 <= Zdigits2 n <= 24.
Proof.
  intros Hn. pose proof (Zdigits2_bounds n ltac:(lia)) as Hb.
  pose proof (Zdigits2_pos n ltac:(lia)) as Hp. split; [lia |].
  destruct (Z_le_gt_dec (Zdigits2 n) 24) as [H | H]; [exact H | exfalso].
  assert (2 ^ 24 <= 2 ^ (Zdigits2 n - 1)) by (apply Z.pow_le_mono_r; lia). lia.
Qed.

Lemma mantissa_bounds n : 0 < n < 2 ^ 24 -> 2 ^ 23 <= mantissa n < 2 ^ 24.
Proof.
  intros Hn. pose proof (Zdigits2_bounds n ltac:(lia)) as Hb.
  pose proof (digits_small n Hn) as Hd. unfold mantissa.
  set (d := Zdigits2 n) in *.
  assert (H23 : 2 ^ 23 = 2 ^ (d - 1) * 2 ^ (24 - d))
    by (rewrite <- Z.pow_add_r by lia; f_equal; lia).
  assert (H24 : 2 ^ 24 = 2 ^ d * 2 ^ (24 - d))
    by (rewrite <- Z.pow_add_r by lia; f_equal; lia).
  assert (Hp : 0 < 2 ^ (24 - d)) by (apply Z.pow_pos_nonneg; lia).
  rewrite H23, H24. split.
  - apply Z.mul_le_mono_nonneg_r; lia.
  - apply Z.mul_lt_mono_pos_r; lia.
Qed.

Lemma shr_fexp_fits m e l :
  2 ^ 23 <= m < 2 ^ 24 -> -149 <= e ->
  shr_fexp prec emax m e l = (shr_record_of_loc m l, e).
Proof.
  intros Hm He. unfold shr_fexp.
  rewrite (Zdigits2_unique m 24) by lia.
  unfold fexp, emin, prec, emax.
  replace (Z.max (24 + e - 24) (3 - 128 - 24) - e) with 0 by lia. reflexivity.
Qed.

Lemma loc_of_shr_record_of_loc m l :
  loc_of_shr_record (shr_record_of_loc m l) = l.
Proof. destruct l as [| []]; reflexivity. Qed.

Lemma binary_round_aux_exact m e :
  2 ^ 23 <= m < 2 ^ 24 -> -149 <= e <= 104 ->
  binary_round_aux prec emax false m e loc_Exact = S754_finite false (Z.to_pos m) e.
Proof.
  intros Hm He. unfold binary_round_aux.
  rewrite shr_fexp_fits by lia.
  cbn [shr_record_of_loc shr_m loc_of_shr_record round_nearest_even].
  rewrite shr_fexp_fits by lia. cbn [shr_record_of_loc shr_m].
  destruct m as [| p | p]; try lia.
  unfold prec, emax. destruct (Z.leb_spec e (128 - 24)); [reflexivity | lia].
Qed.

(** [static_cast<float>(n)] is exact below 2^24. *)
Lemma of_Z_normal n :
  0 < n < 2 ^ 24 -> of_Z n = S754_finite false (Z.to_pos (mantissa n)) (exponent n).
Proof.
  intros Hn. pose proof (digits_small n Hn) as Hd.
  pose proof (mantissa_bounds n Hn) as Hm.
  unfold mantissa, exponent in *.
  destruct n as [| p | p]; try lia.
  unfold of_Z, binary_normalize, binary_round, shl_align.
  change (Zdigits2 (Z.pos p)) with (Z.pos (digits2_pos p)) in *.
  set (d := Z.pos (digits2_pos p)) in *.
  assert (Hf : fexp prec emax (d + 0) = d - 24)
    by (unfold fexp, emin, prec, emax; lia).
  rewrite Hf.
  destruct (d - 24 - 0) as [| k | k] eqn:Ek; try lia.
  - replace (24 - d) with 0 in Hm by lia. rewrite Z.mul_1_r in Hm.
    rewrite binary_round_aux_exact by lia.
    replace (24 - d) with 0 by lia. rewrite Z.mul_1_r.
    replace (d - 24) with 0 by lia. reflexivity.
  - assert (Hk : Z.pos k = 24 - d) by lia.
    rewrite <- Hk in *.
    rewrite binary_round_aux_exact by (rewrite ?iter_xO; lia).
    rewrite iter_xO. reflexivity.
Qed.


(** [static_cast<std::uint32_t>] takes the integer back out. *)
Lemma to_u32_of_Z n : 0 <= n < 2 ^ 24 -> to_u32 (of_Z n) = Some n.
Proof.
  intros Hn. destruct (Z.eq_dec n 0) as [-> | Hz]; [reflexivity |].
  rewrite of_Z_normal by lia.
  pose proof (digits_small n ltac:(lia)) as Hd.
  pose proof (mantissa_bounds n ltac:(lia)) as Hm.
  unfold to_u32, signed, exponent.
  assert (Ht : (if 0 <=? Zdigits2 n - 24
                then Z.pos (Z.to_pos (mantissa n)) * 2 ^ (Zdigits2 n - 24)
                else Z.quot (Z.pos (Z.to_pos (mantissa n))) (2 ^ (- (Zdigits2 n - 24))))
               = n).
  { rewrite Z2Pos.id by lia. unfold mantissa.
    destruct (Z.leb_spec 0 (Zdigits2 n - 24)).
    - replace (Zdigits2 n) with 24 by lia. simpl. lia.
    - replace (- (Zdigits2 n - 24)) with (24 - Zdigits2 n) by lia.
      apply Z.quot_mul. apply Z.pow_nonzero; lia. }
  rewrite Ht.
  destruct (Z.leb_spec 0 n); [| lia].
  destruct (Z.ltb_spec n (2 ^ 32)); [reflexivity | lia].
Qed.

Lemma shr_1_exact m :
  0 < m ->
  shr_1 {| shr_m := 2 * m; shr_r := false; shr_s := false |}
  = {| shr_m := m; shr_r := false; shr_s := false |}.
Proof. destruct m as [| p | p]; try lia. reflexivity. Qed.

Lemma iter_shr_exact k : forall m,
  0 < m ->
  iter_pos shr_1 k {| shr_m := m * 2 ^ Z.pos k; shr_r := false; shr_s := false |}
  = {| shr_m := m; shr_r := false; shr_s := false |}.
Proof.
  induction k as [k IH | k IH |]; intros m Hm; cbn [iter_pos].
  - replace (m * 2 ^ Z.pos k~1) with (2 * ((m * 2 ^ Z.pos k) * 2 ^ Z.pos k)).
    + assert (0 < 2 ^ Z.pos k) by (apply Z.pow_pos_nonneg; lia).
      rewrite shr_1_exact by nia. rewrite IH by nia. apply IH. exact Hm.
    + assert (E : 2 ^ Z.pos k~1 = 2 * (2 ^ Z.pos k * 2 ^ Z.pos k)).
      { rewrite <- Z.pow_add_r by lia.
        rewrite <- (Z.pow_succ_r 2 (Z.pos k + Z.pos k)) by lia. f_equal. lia. }
      rewrite E. ring.
  - replace (m * 2 ^ Z.pos k~0) with ((m * 2 ^ Z.pos k) * 2 ^ Z.pos k).
    + assert (0 < 2 ^ Z.pos k) by (apply Z.pow_pos_nonneg; lia).
      rewrite IH by nia. apply IH. exact Hm.
    + assert (E : 2 ^ Z.pos k~0 = 2 ^ Z.pos k * 2 ^ Z.pos k)
        by (rewrite <- Z.pow_add_r by lia; f_equal; lia).
      rewrite E. ring.
  - change (2 ^ 1) with 2. rewrite Z.mul_comm. apply shr_1_exact. exact Hm.
Qed.

(** Rounding a significand that ends in [s] zero bits drops them. *)
Lemma binary_round_aux_shift T s e :
  2 ^ 23 <= T < 2 ^ 24 -> 0 < s -> -149 <= e + s <= 104 ->
  binary_round_aux prec emax false (T * 2 ^ s) e loc_Exact
  = S754_finite false (Z.to_pos T) (e + s).
Proof.
  intros HT Hs He.
  assert (Hp : 0 < 2 ^ s) by (apply Z.pow_pos_nonneg; lia).
  assert (Hd : Zdigits2 (T * 2 ^ s) = 24 + s).
  { apply Zdigits2_unique; [lia |].
    replace (24 + s - 1) with (23 + s) by lia.
    rewrite !Z.pow_add_r by lia. split.
    - apply Z.mul_le_mono_nonneg_r; lia.
    - apply Z.mul_lt_mono_pos_r; lia. }
  unfold binary_round_aux. unfold shr_fexp at 1. rewrite Hd.
  assert (Hf : fexp prec emax (24 + s + e) - e = s)
    by (unfold fexp, emin, prec, emax; lia).
  rewrite Hf. destruct s as [| ps | ps]; try lia.
  cbn [shr shr_record_of_loc]. rewrite iter_shr_exact by lia.
  cbn [shr_m loc_of_shr_record round_nearest_even].
  rewrite shr_fexp_fits by lia. cbn [shr_record_of_loc shr_m].
  destruct T as [| p | p]; try lia.
  unfold prec, emax. destruct (Z.leb_spec (e + Z.pos ps) (128 - 24)); [reflexivity | lia].
Qed.

Lemma digits_of_product x y :
  0 < x -> 0 < y -> Zdigits2 x + Zdigits2 y - 1 <= Zdigits2 (x * y).
Proof.
  intros Hx Hy.
  pose proof (Zdigits2_bounds x Hx) as Bx. pose proof (Zdigits2_bounds y Hy) as By.
  pose proof (Zdigits2_bounds (x * y) ltac:(nia)) as Bxy.
  pose proof (Zdigits2_pos x Hx). pose proof (Zdigits2_pos y Hy).
  pose proof (Zdigits2_pos (x * y) ltac:(nia)).
  destruct (Z_le_gt_dec (Zdigits2 x + Zdigits2 y - 1) (Zdigits2 (x * y)))
    as [H' | H']; [exact H' | exfalso].
  assert (Hpow : 2 ^ Zdigits2 (x * y) <= 2 ^ (Zdigits2 x - 1 + (Zdigits2 y - 1)))
    by (apply Z.pow_le_mono_r; lia).
  rewrite Z.pow_add_r in Hpow by lia.
  assert (0 < 2 ^ (Zdigits2 x - 1)) by (apply Z.pow_pos_nonneg; lia).
  assert (0 < 2 ^ (Zdigits2 y - 1)) by (apply Z.pow_pos_nonneg; lia).
  nia.
Qed.

(** The product of two floats that hold integers is exact while it stays
    below 2^24. *)
Lemma mul_exact x y :
  0 <= x -> 0 < y < 2 ^ 24 -> x * y < 2 ^ 24 -> mul (of_Z x) (of_Z y) = of_Z (x * y).
Proof.
  intros Hx (Hy & Hy24) Hxy.
  destruct (Z.eq_dec x 0) as [-> | Hz].
  { rewrite (of_Z_normal y) by lia. reflexivity. }
  assert (Hx24 : x < 2 ^ 24) by nia.
  rewrite (of_Z_normal x), (of_Z_normal y), (of_Z_normal (x * y)) by nia.
  pose proof (mantissa_bounds x ltac:(lia)) as Mx.
  pose proof (mantissa_bounds y ltac:(lia)) as My.
  pose proof (mantissa_bounds (x * y) ltac:(nia)) as Mxy.
  pose proof (digits_small x ltac:(lia)) as Dx.
  pose proof (digits_small y ltac:(lia)) as Dy.
  pose proof (digits_small (x * y) ltac:(nia)) as Dxy.
  pose proof (digits_of_product x y ltac:(lia) Hy) as Dp.
  unfold mul, SFmul. cbn [xorb].
  rewrite Pos2Z.inj_mul, !Z2Pos.id by lia.
  set (s := 24 + Zdigits2 (x * y) - Zdigits2 x - Zdigits2 y).
  assert (Hprod : mantissa x * mantissa y = mantissa (x * y) * 2 ^ s).
  { unfold mantissa, s.
    assert (E : 2 ^ (24 - Zdigits2 x) * 2 ^ (24 - Zdigits2 y)
                = 2 ^ (24 - Zdigits2 (x * y))
                  * 2 ^ (24 + Zdigits2 (x * y) - Zdigits2 x - Zdigits2 y)).
    { rewrite <- !Z.pow_add_r by lia. f_equal. lia. }
    transitivity (x * y * (2 ^ (24 - Zdigits2 x) * 2 ^ (24 - Zdigits2 y))); [ring |].
    rewrite E. ring. }
  rewrite Hprod.
  rewrite binary_round_aux_shift by (unfold exponent, s; lia).
  f_equal. unfold exponent, s. lia.
Qed.


Lemma shr_fexp_25 m e l :
  2 ^ 24 <= m < 2 ^ 25 -> -150 <= e ->
  shr_fexp prec emax m e l = (shr_1 (shr_record_of_loc m l), e + 1).
Proof.
  intros Hm He. unfold shr_fexp.
  rewrite (Zdigits2_unique m 25) by lia.
  unfold fexp, emin, prec, emax.
  replace (Z.max (25 + e - 24) (3 - 128 - 24) - e) with 1 by lia. reflexivity.
Qed.

Lemma shr_1_halves m r s :
  1 < m ->
  shr_1 {| shr_m := m; shr_r := r; shr_s := s |}
  = {| shr_m := m / 2; shr_r := Z.odd m; shr_s := r || s |}.
Proof.
  intros Hm. rewrite <- Z.div2_div.
  destruct m as [| [p | p |] | p]; try lia; reflexivity.
Qed.

Lemma round_nearest_even_bounds m l :
  m <= round_nearest_even m l <= m + 1.
Proof. destruct l as [| []]; simpl; try destruct (Z.even m); lia. Qed.

(** The second half of [binary_round_aux]: a rounded significand that
    reached 2^24 is renormalised, and keeps its value. *)
Lemma round_finish M1 e1 :
  2 ^ 23 <= M1 <= 2 ^ 24 -> -149 <= e1 <= 102 ->
  exists M E,
    (let '(mrs, e2) := shr_fexp prec emax M1 e1 loc_Exact in
     match shr_m mrs with
     | Z0 => S754_zero false
     | Z.pos m => if e2 <=? emax - prec then S754_finite false m e2
                  else S754_infinity false
     | Z.neg _ => S754_nan
     end) = S754_finite false M E
    /\ e1 <= E /\ Z.pos M * 2 ^ (E - e1) = M1.
Proof.
  intros HM He. destruct (Z.eq_dec M1 (2 ^ 24)) as [-> | Hne].
  - rewrite shr_fexp_25 by lia. cbn [shr_record_of_loc].
    rewrite shr_1_halves by lia. cbn [shr_m].
    change (2 ^ 24 / 2) with (Z.pos (Z.to_pos (2 ^ 23))). cbv iota beta.
    unfold prec, emax. destruct (Z.leb_spec (e1 + 1) (128 - 24)); [| lia].
    eexists _, _. split; [reflexivity |]. split; [lia |].
    replace (e1 + 1 - e1) with 1 by lia. reflexivity.
  - rewrite shr_fexp_fits by lia. cbn [shr_record_of_loc shr_m].
    destruct M1 as [| p | p]; try lia.
    unfold prec, emax. destruct (Z.leb_spec e1 (128 - 24)); [| lia].
    eexists _, _. split; [reflexivity |]. split; [lia |].
    rewrite Z.sub_diag. lia.
Qed.

(** Rounding a quotient of 24 or 25 bits to 24: the result, scaled back,
    is the quotient itself or one of its neighbours. *)
Lemma binary_round_aux_quotient q e l :
  2 ^ 23 <= q < 2 ^ 25 -> -149 <= e <= 100 ->
  exists M E W,
    binary_round_aux prec emax false q e l = S754_finite false M E
    /\ e <= E /\ Z.pos M * 2 ^ (E - e) = W
    /\ ((q < 2 ^ 24 /\ W = round_nearest_even q l)
        \/ (2 ^ 24 <= q
            /\ ((Z.odd q = false /\ W = q)
                \/ (Z.odd q = true /\ W = q + 1)
                \/ (Z.odd q = true /\ l = loc_Exact /\ W = q - 1)))).
Proof.
  intros Hq He. unfold binary_round_aux.
  destruct (Z_lt_ge_dec q (2 ^ 24)) as [H24 | H24].
  - rewrite shr_fexp_fits by lia. rewrite loc_of_shr_record_of_loc.
    replace (shr_m (shr_record_of_loc q l)) with q by (destruct l as [| []]; reflexivity).
    pose proof (round_nearest_even_bounds q l) as Hb.
    destruct (round_finish (round_nearest_even q l) e ltac:(lia) ltac:(lia))
      as (M & E & Heq & HE & HM).
    exists M, E, (round_nearest_even q l).
    split; [exact Heq |]. split; [exact HE |]. split; [exact HM |]. left. auto.
  - rewrite shr_fexp_25 by lia.
    assert (Hshift : shr_1 (shr_record_of_loc q l)
                     = {| shr_m := q / 2; shr_r := Z.odd q;
                          shr_s := match l with loc_Exact => false | _ => true end |}).
    { destruct l as [| []]; cbn [shr_record_of_loc]; rewrite shr_1_halves by lia;
        reflexivity. }
    rewrite Hshift. cbn [shr_m].
    set (l2 := loc_of_shr_record _).
    assert (Hhalf : 2 ^ 23 <= q / 2 < 2 ^ 24).
    { split; [apply Z.div_le_lower_bound; lia | apply Z.div_lt_upper_bound; lia]. }
    pose proof (round_nearest_even_bounds (q / 2) l2) as Hb.
    destruct (round_finish (round_nearest_even (q / 2) l2) (e + 1) ltac:(lia) ltac:(lia))
      as (M & E & Heq & HE & HM).
    exists M, E, (2 * round_nearest_even (q / 2) l2).
    split; [exact Heq |]. split; [lia |]. split.
    { replace (E - e) with (E - (e + 1) + 1) by lia.
      rewrite Z.pow_add_r by lia. change (2 ^ 1) with 2. lia. }
    right. split; [lia |].
    pose proof (Z.div_mod q 2 ltac:(lia)) as Hdm.
    pose proof (Zmod_odd q) as Hodd.
    subst l2. destruct (Z.odd q) eqn:Eo.
    + destruct l as [| c].
      * cbn [loc_of_shr_record round_nearest_even].
        destruct (Z.even (q / 2)); [right; right | right; left]; repeat split; lia.
      * right. left. split; [reflexivity |].
        destruct c; cbn [loc_of_shr_record round_nearest_even]; lia.
    + left. split; [reflexivity |].
      destruct l as [| c]; [| destruct c];
        cbn [loc_of_shr_record round_nearest_even]; lia.
Qed.


Lemma digits_of_page a : 0 < a < 2 ^ 16 -> 1 <= Zdigits2 a <= 16.
Proof.
  intros Ha. pose proof (Zdigits2_bounds a ltac:(lia)) as Hb.
  pose proof (Zdigits2_pos a ltac:(lia)) as Hp. split; [lia |].
  destruct (Z_le_gt_dec (Zdigits2 a) 16) as [H | H]; [exact H | exfalso].
  assert (2 ^ 16 <= 2 ^ (Zdigits2 a - 1)) by (apply Z.pow_le_mono_r; lia). lia.
Qed.

Lemma quotient_scale n a :
  0 < n < 2 ^ 24 -> 0 < a < 2 ^ 16 ->
  let k := 24 + Zdigits2 a - Zdigits2 n in
  1 <= k <= 40 /\ a < 2 ^ k /\ 2 ^ 23 <= n * 2 ^ k / a < 2 ^ 25
  /\ mantissa n * 2 ^ 24 = n * 2 ^ k * 2 ^ (24 - Zdigits2 a).
Proof.
  intros Hn Ha k.
  pose proof (digits_small n Hn) as Dn.
  pose proof (digits_of_page a Ha) as Da.
  pose proof (Zdigits2_bounds n ltac:(lia)) as Bn.
  pose proof (Zdigits2_bounds a ltac:(lia)) as Ba.
  assert (Hk : 1 <= k <= 40) by (unfold k; lia).
  assert (Hak : a < 2 ^ k).
  { assert (2 ^ Zdigits2 a <= 2 ^ k) by (apply Z.pow_le_mono_r; unfold k; lia). lia. }
  split; [exact Hk |]. split; [exact Hak |].
  assert (Hpk : 0 < 2 ^ k) by (apply Z.pow_pos_nonneg; lia).
  assert (Hlow : 2 ^ 23 * 2 ^ Zdigits2 a <= n * 2 ^ k).
  { assert (E : 2 ^ 23 * 2 ^ Zdigits2 a = 2 ^ (Zdigits2 n - 1) * 2 ^ k)
      by (rewrite <- !Z.pow_add_r by lia; f_equal; unfold k; lia).
    rewrite E. apply Z.mul_le_mono_nonneg_r; lia. }
  assert (Hhigh : n * 2 ^ k < 2 ^ 25 * 2 ^ (Zdigits2 a - 1)).
  { assert (E : 2 ^ 25 * 2 ^ (Zdigits2 a - 1) = 2 ^ Zdigits2 n * 2 ^ k)
      by (rewrite <- !Z.pow_add_r by lia; f_equal; unfold k; lia).
    rewrite E. apply Z.mul_lt_mono_pos_r; lia. }
  split.
  - split.
    + apply Z.div_le_lower_bound; [lia |]. nia.
    + apply Z.div_lt_upper_bound; [lia |]. nia.
  - unfold mantissa.
    assert (E : 2 ^ (24 - Zdigits2 n) * 2 ^ 24 = 2 ^ k * 2 ^ (24 - Zdigits2 a))
      by (rewrite <- !Z.pow_add_r by lia; f_equal; unfold k; lia).
    rewrite <- !Z.mul_assoc, E. reflexivity.
Qed.

(** The quotient of two floats that hold integers: the integer quotient
    at the scale of the result, and where the remainder lies. *)
Lemma div_of_Z n a :
  0 < n < 2 ^ 24 -> 0 < a < 2 ^ 16 ->
  let k := 24 + Zdigits2 a - Zdigits2 n in
  div (of_Z n) (of_Z a)
  = binary_round_aux prec emax false (n * 2 ^ k / a) (- k)
      (if (n * 2 ^ k) mod a =? 0 then loc_Exact
       else loc_Inexact (2 * ((n * 2 ^ k) mod a) ?= a)).
Proof.
  intros Hn Ha k.
  destruct (quotient_scale n a Hn Ha) as (Hk & Hak & Hq & Hscale). fold k in Hk, Hak, Hq, Hscale.
  pose proof (digits_small n Hn) as Dn.
  pose proof (digits_of_page a Ha) as Da.
  pose proof (mantissa_bounds n Hn) as Mn.
  pose proof (mantissa_bounds a ltac:(lia)) as Ma.
  rewrite (of_Z_normal n), (of_Z_normal a) by lia.
  unfold div, SFdiv, SFdiv_core_binary. cbn [xorb].
  rewrite !Z2Pos.id by lia.
  rewrite (Zdigits2_unique (mantissa n) 24), (Zdigits2_unique (mantissa a) 24) by lia.
  assert (He : Z.min (fexp prec emax (24 + exponent n - (24 + exponent a)))
                 (exponent n - exponent a) = - k)
    by (unfold fexp, emin, prec, emax, exponent, k; lia).
  rewrite He.
  replace (exponent n - exponent a - - k) with 24 by (unfold exponent, k; lia).
  cbv iota. rewrite Z.shiftl_mul_pow2 by lia.
  set (c := 2 ^ (24 - Zdigits2 a)) in *.
  assert (Hc : 0 < c) by (apply Z.pow_pos_nonneg; lia).
  assert (Hma : mantissa a = a * c) by reflexivity.
  rewrite Hscale, Hma.
  destruct (Z.div_eucl (n * 2 ^ k * c) (a * c)) as [q r] eqn:Ediv.
  assert (Eq : q = n * 2 ^ k / a).
  { rewrite <- (Z.div_mul_cancel_r (n * 2 ^ k) a c) by lia.
    unfold Z.div. rewrite Ediv. reflexivity. }
  assert (Er : r = (n * 2 ^ k) mod a * c).
  { rewrite <- Z.mul_mod_distr_r by lia.
    unfold Z.modulo. rewrite Ediv. reflexivity. }
  assert (Heven : Z.even (a * c) = true).
  { unfold c. replace (24 - Zdigits2 a) with (Z.succ (23 - Zdigits2 a)) by lia.
    rewrite Z.pow_succ_r by lia. rewrite Z.even_mul, Z.even_mul. simpl.
    apply orb_true_r. }
  subst q. f_equal.
  unfold new_location. rewrite Heven. unfold new_location_even. rewrite Er.
  set (rho := (n * 2 ^ k) mod a).
  destruct (Z.eqb_spec rho 0) as [-> | Hrho].
  - reflexivity.
  - destruct (Z.eqb_spec (rho * c) 0) as [Habs | _]; [nia |].
    f_equal. rewrite Z.mul_assoc. symmetry. apply Zmult_compare_compat_r. lia.
Qed.

Lemma floorZ_scaled M E k :
  0 <= k -> - k <= E -> floorZ false M E = Z.pos M * 2 ^ (E + k) / 2 ^ k.
Proof.
  intros Hk HE. unfold floorZ, signed.
  assert (Hp : 0 < 2 ^ k) by (apply Z.pow_pos_nonneg; lia).
  destruct (Z.leb_spec 0 E).
  - rewrite Z.pow_add_r, Z.mul_assoc by lia. rewrite Z.div_mul by lia. reflexivity.
  - assert (E2 : 2 ^ k = 2 ^ (- E) * 2 ^ (E + k))
      by (rewrite <- Z.pow_add_r by lia; f_equal; lia).
    rewrite E2. rewrite Z.div_mul_cancel_r; [reflexivity | |];
      apply Z.pow_nonzero; lia.
Qed.

Lemma ceilZ_scaled M E k :
  0 <= k -> - k <= E -> ceilZ false M E = - (- (Z.pos M * 2 ^ (E + k)) / 2 ^ k).
Proof.
  intros Hk HE. unfold ceilZ, signed.
  assert (Hp : 0 < 2 ^ k) by (apply Z.pow_pos_nonneg; lia).
  destruct (Z.leb_spec 0 E).
  - rewrite Z.pow_add_r, Z.mul_assoc by lia.
    rewrite <- Z.mul_opp_l, Z.div_mul by lia. lia.
  - assert (E2 : 2 ^ k = 2 ^ (- E) * 2 ^ (E + k))
      by (rewrite <- Z.pow_add_r by lia; f_equal; lia).
    rewrite E2. rewrite <- Z.mul_opp_l.
    rewrite Z.div_mul_cancel_r; [reflexivity | |]; apply Z.pow_nonzero; lia.
Qed.


(** What the rounding of the quotient leaves of the integer part: below
    2^24 a page size is smaller than the scale of the quotient, so that
    no rounding crosses an integer. *)
Lemma rounded_quotient n a k W l :
  0 <= n < 2 ^ 24 -> 1 <= k -> 0 < a < 2 ^ k ->
  l = (if (n * 2 ^ k) mod a =? 0 then loc_Exact
       else loc_Inexact (2 * ((n * 2 ^ k) mod a) ?= a)) ->
  ((n * 2 ^ k / a < 2 ^ 24 /\ W = round_nearest_even (n * 2 ^ k / a) l)
   \/ (2 ^ 24 <= n * 2 ^ k / a
       /\ ((Z.odd (n * 2 ^ k / a) = false /\ W = n * 2 ^ k / a)
           \/ (Z.odd (n * 2 ^ k / a) = true /\ W = n * 2 ^ k / a + 1)
           \/ (Z.odd (n * 2 ^ k / a) = true /\ l = loc_Exact
               /\ W = n * 2 ^ k / a - 1)))) ->
  W / 2 ^ k = n / a /\ (n mod a <> 0 -> - (- W / 2 ^ k) = n / a + 1).
Proof.
  intros Hn Hk Ha Hl Hcases.
  assert (Hp : 0 < 2 ^ k) by (apply Z.pow_pos_nonneg; lia).
  pose proof (Z.div_mod n a ltac:(lia)) as Hdm.
  pose proof (Z.mod_pos_bound n a ltac:(lia)) as Hs.
  set (F := n / a) in *. set (s := n mod a) in *.
  assert (HF : 0 <= F) by (apply Z.div_pos; lia).
  assert (Hscaled : n * 2 ^ k = F * 2 ^ k * a + s * 2 ^ k) by (rewrite Hdm; ring).
  assert (Hq : n * 2 ^ k / a = F * 2 ^ k + s * 2 ^ k / a)
    by (rewrite Hscaled; apply Z.div_add_l; lia).
  assert (Hrho : (n * 2 ^ k) mod a = (s * 2 ^ k) mod a).
  { rewrite Hscaled. rewrite Z.add_comm. apply Z.mod_add. lia. }
  rewrite Hq, Hrho in *. clear Hq Hrho Hscaled.
  pose proof (Z.div_mod (s * 2 ^ k) a ltac:(lia)) as Hdm2.
  pose proof (Z.mod_pos_bound (s * 2 ^ k) a ltac:(lia)) as Hr.
  set (t := s * 2 ^ k / a) in *. set (rho := (s * 2 ^ k) mod a) in *.
  assert (Ht0 : 0 <= t) by (apply Z.div_pos; nia).
  assert (Hodd : Z.odd (F * 2 ^ k + t) = Z.odd t).
  { rewrite Z.add_comm, Z.mul_comm.
    replace k with (Z.succ (k - 1)) by lia. rewrite Z.pow_succ_r by lia.
    rewrite <- Z.mul_assoc. apply Z.odd_add_mul_2. }
  assert (Hdelta : W = F * 2 ^ k + t
                   \/ (W = F * 2 ^ k + t + 1 /\ (rho <> 0 \/ Z.odd t = true))
                   \/ (W = F * 2 ^ k + t - 1 /\ Z.odd t = true /\ rho = 0)).
  { rewrite Hodd in Hcases.
    destruct Hcases as [(_ & HW) | (_ & [(_ & HW) | [(Ho & HW) | (Ho & Hex & HW)]])].
    - subst l. destruct (Z.eqb_spec rho 0) as [E0 | E0].
      + left. exact HW.
      + pose proof (round_nearest_even_bounds (F * 2 ^ k + t)
                      (loc_Inexact (2 * rho ?= a))) as Hb.
        rewrite <- HW in Hb.
        destruct (Z.eq_dec W (F * 2 ^ k + t)) as [E | E]; [left; exact E |].
        right. left. split; [lia | left; exact E0].
    - left. exact HW.
    - right. left. split; [exact HW | right; exact Ho].
    - right. right. split; [exact HW |]. split; [exact Ho |].
      subst l. destruct (Z.eqb_spec rho 0); [assumption | discriminate]. }
  clear Hcases Hl.
  destruct (Z.eq_dec s 0) as [Hs0 | Hs0].
  - assert (Et : t = 0) by (unfold t; rewrite Hs0; reflexivity).
    assert (Erho : rho = 0) by (unfold rho; rewrite Hs0; reflexivity).
    rewrite Et in *. simpl in Hdelta.
    destruct Hdelta as [HW | [(_ & [Hc | Hc]) | (_ & Hc & _)]];
      try contradiction; try discriminate.
    split; [| intros Hc; contradiction].
    rewrite HW, Z.add_0_r. apply Z.div_mul. lia.
  - assert (Ht1 : 1 <= t).
    { unfold t. apply Z.div_le_lower_bound; [lia |]. nia. }
    assert (Ht2 : t <= 2 ^ k - 2).
    { assert (t < 2 ^ k - 1); [| lia].
      unfold t. apply Z.div_lt_upper_bound; [lia |]. nia. }
    assert (Hu : exists u, W = F * 2 ^ k + u /\ 1 <= u <= 2 ^ k - 1).
    { destruct Hdelta as [HW | [(HW & _) | (HW & _ & Hz)]].
      - exists t. split; [exact HW | lia].
      - exists (t + 1). split; [lia | lia].
      - exists (t - 1). split; [lia |].
        assert (t <> 1); [| lia]. intros E1. rewrite E1, Hz in Hdm2. nia. }
    destruct Hu as (u & HW & Hu). split.
    + symmetry. apply (Z.div_unique W (2 ^ k) F u); [left; lia | lia].
    + intros _.
      assert (E : - W / 2 ^ k = - (F + 1)).
      { symmetry. apply (Z.div_unique (- W) (2 ^ k) (- (F + 1)) (2 ^ k - u));
          [left; lia | lia]. }
      rewrite E. lia.
Qed.

(** Below 2^24 the float computation of [alignMemoryAddress] is the
    integer one. *)
Lemma floorToMultiple_exact n a :
  0 < n < 2 ^ 24 -> 0 < a < 2 ^ 16 ->
  Alignment.floorToMultiple n a = Some (n / a * a).
Proof.
  intros Hn Ha. unfold Alignment.floorToMultiple.
  rewrite (div_of_Z n a Hn Ha). cbv zeta.
  destruct (quotient_scale n a Hn Ha) as (Hk & Hak & Hq & _).
  set (k := 24 + Zdigits2 a - Zdigits2 n) in *.
  set (l := if (n * 2 ^ k) mod a =? 0 then _ else _).
  destruct (binary_round_aux_quotient (n * 2 ^ k / a) (- k) l Hq ltac:(lia))
    as (M & E & W & Heq & HE & HW & Hcases).
  rewrite Heq.
  destruct (rounded_quotient n a k W l ltac:(lia) ltac:(lia) ltac:(lia) eq_refl Hcases)
    as (Hfloor & _).
  unfold floor. rewrite (floorZ_scaled M E k) by lia.
  replace (E + k) with (E - - k) by lia. rewrite HW, Hfloor.
  change (binary_normalize prec emax (n / a) 0 false) with (of_Z (n / a)).
  pose proof (Z.div_mod n a ltac:(lia)) as Hdm.
  pose proof (Z.mod_pos_bound n a ltac:(lia)) as Hs.
  assert (HF : 0 <= n / a) by (apply Z.div_pos; lia).
  rewrite mul_exact by nia. apply to_u32_of_Z. nia.
Qed.

(** And so is that of [alignMemoryBytes], while the result stays below
    2^24. *)
Lemma ceilToMultiple_exact n a :
  0 < n -> 0 < a < 2 ^ 16 -> n mod a <> 0 -> n + a <= 2 ^ 24 ->
  Alignment.ceilToMultiple n a = Some ((n / a + 1) * a).
Proof.
  intros Hn0 Ha Hmod Hsum.
  assert (Hn : 0 < n < 2 ^ 24) by lia.
  unfold Alignment.ceilToMultiple.
  rewrite (div_of_Z n a Hn Ha). cbv zeta.
  destruct (quotient_scale n a Hn Ha) as (Hk & Hak & Hq & _).
  set (k := 24 + Zdigits2 a - Zdigits2 n) in *.
  set (l := if (n * 2 ^ k) mod a =? 0 then _ else _).
  destruct (binary_round_aux_quotient (n * 2 ^ k / a) (- k) l Hq ltac:(lia))
    as (M & E & W & Heq & HE & HW & Hcases).
  rewrite Heq.
  destruct (rounded_quotient n a k W l ltac:(lia) ltac:(lia) ltac:(lia) eq_refl Hcases)
    as (_ & Hceil).
  unfold ceil. rewrite (ceilZ_scaled M E k) by lia.
  replace (E + k) with (E - - k) by lia. rewrite HW, (Hceil Hmod).
  change (binary_normalize prec emax (n / a + 1) 0 false) with (of_Z (n / a + 1)).
  pose proof (Z.div_mod n a ltac:(lia)) as Hdm.
  pose proof (Z.mod_pos_bound n a ltac:(lia)) as Hs.
  assert (HF : 0 <= n / a) by (apply Z.div_pos; lia).
  rewrite mul_exact by nia. apply to_u32_of_Z. nia.
Qed.

End Binary32.

Lemma pageSizeOf_alignTo tp type alignment :
  pageSizeOf tp type = Some alignment -> 0 < alignment < 2 ^ 16 ->
  Alignment.alignTo tp type = Ok alignment
  /\ Alignment.alignmentRequired type = true.
Proof.
  intros Hp Ha.
  assert (Hw : wrap16 alignment = alignment) by (apply Z.mod_small; lia).
  destruct type; simpl in Hp; try discriminate; simpl; rewrite Hp, Hw; auto.
Qed.

Lemma alignMemoryAddress_exact tp type alignment address :
  Alignment.alignTo tp type = Ok alignment -> 0 < alignment < 2 ^ 16 ->
  0 <= address < 2 ^ 24 ->
  Alignment.alignMemoryAddress tp type address = Ok (address / alignment * alignment).
Proof.
  intros Hto Ha Hn. unfold Alignment.alignMemoryAddress. rewrite Hto.
  destruct (Z.eqb_spec alignment 0); [lia |].
  pose proof (Z.div_mod address alignment ltac:(lia)) as Hdm.
  destruct (Z.eqb_spec (address mod alignment) 0) as [E | E]; cbn [negb].
  - f_equal. lia.
  - assert (address <> 0) by (intros ->; apply E; reflexivity).
    rewrite floorToMultiple_exact by lia. reflexivity.
Qed.

Lemma alignMemoryBytes_exact tp type alignment bytes :
  Alignment.alignTo tp type = Ok alignment -> 0 < alignment < 2 ^ 16 ->
  0 <= bytes -> bytes + alignment <= 2 ^ 24 ->
  Alignment.alignMemoryBytes tp type bytes
  = Ok (if bytes mod alignment =? 0 then bytes
        else (bytes / alignment + 1) * alignment).
Proof.
  intros Hto Ha Hn Hsum. unfold Alignment.alignMemoryBytes. rewrite Hto.
  destruct (Z.eqb_spec alignment 0); [lia |].
  destruct (Z.eqb_spec (bytes mod alignment) 0) as [E | E]; cbn [negb].
  - reflexivity.
  - assert (bytes <> 0) by (intros ->; apply E; reflexivity).
    rewrite ceilToMultiple_exact by lia. reflexivity.
Qed.

(** C4. For a memory type that requires alignment, with its page size of
    at least one byte (held in a [std::uint16_t]), and an access that lies
    with the page after it within a 24-bit address space, the largest an
    AVR8 target has: [alignMemoryAddress] returns an address that is not
    above the address and a multiple of the page size, and
    [alignMemoryBytes], on the length the memory routines hand it, returns
    a length that is not below that length and a multiple of the page
    size. Both are the nearest such multiples. *)
Theorem alignment_within_24_bits
    (tp : TargetParameters) (type : Avr8MemoryType.t) (alignment address len : Z) :
  pageSizeOf tp type = Some alignment ->
  0 < alignment < 2 ^ 16 ->
  0 <= address -> 0 <= len -> address + len + alignment <= 2 ^ 24 ->
  exists address' len',
    Alignment.alignMemoryAddress tp type address = Ok address'
    /\ Alignment.alignMemoryBytes tp type (wrap32 (len + wrap32 (address - address')))
       = Ok len'
    /\ address' <= address /\ address' mod alignment = 0
    /\ len + (address - address') <= len' /\ len' mod alignment = 0
    /\ address - address' < alignment
    /\ len' - (len + (address - address')) < alignment.
Proof.
  intros Hpage Ha Haddr Hlen Hsum.
  destruct (pageSizeOf_alignTo tp type alignment Hpage Ha) as (Hto & _).
  pose proof (Z.div_mod address alignment ltac:(lia)) as Hdm.
  pose proof (Z.mod_pos_bound address alignment ltac:(lia)) as Hs.
  set (address' := address / alignment * alignment).
  assert (Hdown : 0 <= address - address' < alignment) by (unfold address'; lia).
  assert (Hnonneg : 0 <= address')
    by (unfold address'; apply Z.mul_nonneg_nonneg; [apply Z.div_pos |]; lia).
  set (bytes := len + (address - address')).
  assert (Hwrap : wrap32 (len + wrap32 (address - address')) = bytes).
  { unfold wrap32, bytes. rewrite (Z.mod_small (address - address')) by lia.
    apply Z.mod_small. lia. }
  exists address',
    (if bytes mod alignment =? 0 then bytes else (bytes / alignment + 1) * alignment).
  split; [apply alignMemoryAddress_exact; auto; lia |].
  split; [rewrite Hwrap; apply alignMemoryBytes_exact; auto; unfold bytes; lia |].
  split; [lia |].
  split; [unfold address'; apply Z.mod_mul; lia |].
  pose proof (Z.div_mod bytes alignment ltac:(lia)) as Hdm2.
  pose proof (Z.mod_pos_bound bytes alignment ltac:(lia)) as Hs2.
  fold bytes.
  destruct (Z.eqb_spec (bytes mod alignment) 0) as [E | E].
  - repeat split; solve [lia | exact E].
  - repeat split; solve [lia | apply Z.mod_mul; lia].
Qed.

Lemma alignment_within_24_bits_witness :
  exists address' len',
    Alignment.alignMemoryAddress exampleParameters Avr8MemoryType.FLASH_PAGE 130
    = Ok address'
    /\ Alignment.alignMemoryBytes exampleParameters Avr8MemoryType.FLASH_PAGE
         (wrap32 (300 + wrap32 (130 - address'))) = Ok len'
    /\ address' <= 130 /\ address' mod 128 = 0
    /\ 300 + (130 - address') <= len' /\ len' mod 128 = 0
    /\ 130 - address' < 128
    /\ len' - (300 + (130 - address')) < 128.
Proof.
  apply (alignment_within_24_bits exampleParameters Avr8MemoryType.FLASH_PAGE 128 130 300);
    [reflexivity | lia | lia | lia | lia].
Defined.

(** The run of the witness, and the largest access the theorem covers. *)
Example alignment_examples :
  Alignment.alignMemoryAddress exampleParameters Avr8MemoryType.FLASH_PAGE 130 = Ok 128
  /\ Alignment.alignMemoryBytes exampleParameters Avr8MemoryType.FLASH_PAGE 302 = Ok 384
  /\ Alignment.alignMemoryAddress exampleParameters Avr8MemoryType.FLASH_PAGE
       (2 ^ 24 - 129) = Ok (2 ^ 24 - 256)
  /\ Alignment.alignMemoryBytes exampleParameters Avr8MemoryType.FLASH_PAGE
       (2 ^ 24 - 129) = Ok (2 ^ 24 - 128).
Proof. repeat split; vm_compute; reflexivity. Qed.

(** The bound is the width of the significand of a [float]. Past it,
    with a flash page of 128 bytes, the address 16777343 (2^24 + 127) is
    aligned to 16777344, above the address; and the length 16777217
    (2^24 + 1) is aligned to 16777216, below the length. *)
Example alignment_rounds_the_wrong_way_above_2_24 :
  Alignment.alignMemoryAddress exampleParameters Avr8MemoryType.FLASH_PAGE 16777343
  = Ok 16777344
  /\ alignedDown 16777343 128
       (Alignment.alignMemoryAddress exampleParameters Avr8MemoryType.FLASH_PAGE 16777343)
     = false
  /\ Alignment.alignMemoryBytes exampleParameters Avr8MemoryType.FLASH_PAGE 16777217
     = Ok 16777216
  /\ alignedUp 16777217 128
       (Alignment.alignMemoryBytes exampleParameters Avr8MemoryType.FLASH_PAGE 16777217)
     = false.
Proof. repeat split; vm_compute; reflexivity. Qed.


(** ** Memory access and the programming mode: properties *)

Lemma onDebugInterface_run {A} (m : M EdbgAvr8Interface A) t :
  Avr8.onDebugInterface m t
  = (fst (m (Avr8.avr8DebugInterface t)),
     {| Avr8.avr8DebugInterface := snd (m (Avr8.avr8DebugInterface t));
        Avr8.progModeEnabled := Avr8.progModeEnabled t |}).
Proof. unfold Avr8.onDebugInterface. destruct (m _). reflexivity. Qed.

(** A RAM read is refused while the programming-mode flag of the debug
    interface is set; nothing goes on the wire. *)
Lemma ram_read_refused_in_programming_mode fuel startAddress bytes excluded t :
  programmingModeEnabled (Avr8.avr8DebugInterface t) = true ->
  Avr8.readMemory fuel TargetMemoryType.RAM startAddress bytes excluded t
  = (Err (Exception "Cannot access RAM when programming mode is enabled"), t).
Proof.
  intros H. unfold Avr8.readMemory. rewrite onDebugInterface_run.
  unfold TargetMemoryAccess.readMemory, bind, gets. rewrite H. simpl.
  destruct t; reflexivity.
Qed.

(** A FLASH write is refused while the target's programming-mode flag is
    clear; the target is left as it was. *)
Lemma flash_write_refused_outside_programming_mode fuel startAddress buffer t :
  Avr8.progModeEnabled t = false ->
  Avr8.writeMemory fuel TargetMemoryType.FLASH startAddress buffer t
  = (Err (Exception "Attempted FLASH memory write with no active programming session."), t).
Proof.
  intros H. unfold Avr8.writeMemory, bind, gets. rewrite H. reflexivity.
Qed.

Lemma processCommand_rejects_debug_commands {A} command (handler : M Avr8.Avr8 A) c :
  Commands.requiresDebugMode command = true ->
  Avr8.progModeEnabled (TargetController.target c) = true ->
  rejected (TargetController.processCommand command handler c) c.
Proof.
  intros Hd Hp. unfold rejected, TargetController.processCommand. rewrite Hd, Hp.
  destruct (_ && _); [eexists; reflexivity |].
  destruct (_ && _); eexists; reflexivity.
Qed.

Lemma processCommand_refused_handler {A} command (handler : M Avr8.Avr8 A) c message :
  handler (TargetController.target c)
  = (Err (Exception message), TargetController.target c) ->
  rejected (TargetController.processCommand command handler c) c.
Proof.
  intros Hh. unfold rejected, TargetController.processCommand. rewrite Hh.
  destruct (_ && _); [eexists; reflexivity |].
  destruct (_ && _); [eexists; reflexivity |].
  destruct (_ && _); [eexists; reflexivity |].
  destruct c; eexists; reflexivity.
Qed.

(** C8. While the target's programming-mode flag is set, a RAM write and
    a RAM read requested of the service are rejected with an error before
    they are dispatched (the commands declare that they need debug mode
    for RAM), and a RAM read that reaches the debug interface with its
    flag set is refused there too. A FLASH write requested while the flag
    is clear is rejected with an error: the broker may refuse it, and
    [Avr8::writeMemory] does. Every one of them leaves the target, and the
    wire, as they were. *)
Theorem programming_mode_memory_guards :
  (forall fuel startAddress buffer c,
      Avr8.progModeEnabled (TargetController.target c) = true ->
      rejected (TargetController.writeMemory fuel TargetMemoryType.RAM
                  startAddress buffer c) c)
  /\ (forall fuel startAddress bytes excluded c,
         Avr8.progModeEnabled (TargetController.target c) = true ->
         rejected (TargetController.readMemory fuel TargetMemoryType.RAM
                     startAddress bytes excluded c) c)
  /\ (forall fuel startAddress bytes excluded t,
         programmingModeEnabled (Avr8.avr8DebugInterface t) = true ->
         Avr8.readMemory fuel TargetMemoryType.RAM startAddress bytes excluded t
         = (Err (Exception "Cannot access RAM when programming mode is enabled"), t))
  /\ (forall fuel startAddress buffer c,
         Avr8.progModeEnabled (TargetController.target c) = false ->
         rejected (TargetController.writeMemory fuel TargetMemoryType.FLASH
                     startAddress buffer c) c)
  /\ (forall fuel startAddress buffer t,
         Avr8.progModeEnabled t = false ->
         Avr8.writeMemory fuel TargetMemoryType.FLASH startAddress buffer t
         = (Err (Exception
                   "Attempted FLASH memory write with no active programming session."), t)).
Proof.
  split; [| split; [| split; [| split]]].
  - intros fuel startAddress buffer c Hp.
    apply processCommand_rejects_debug_commands; [reflexivity | exact Hp].
  - intros fuel startAddress bytes excluded c Hp.
    apply processCommand_rejects_debug_commands; [reflexivity | exact Hp].
  - exact ram_read_refused_in_programming_mode.
  - intros fuel startAddress buffer c Hp.
    eapply processCommand_refused_handler.
    apply flash_write_refused_outside_programming_mode. exact Hp.
  - exact flash_write_refused_outside_programming_mode.
Qed.

Lemma programming_mode_memory_guards_witness :
  rejected (TargetController.writeMemory 10 TargetMemoryType.RAM 256 [1; 2; 3]
              programmingController) programmingController
  /\ rejected (TargetController.readMemory 10 TargetMemoryType.RAM 256 3 []
                 programmingController) programmingController
  /\ rejected (TargetController.writeMemory 10 TargetMemoryType.FLASH 0 [1; 2; 3]
                 debuggingController) debuggingController.
Proof.
  destruct programming_mode_memory_guards as (Hwrite & Hread & _ & Hflash & _).
  split; [apply Hwrite; reflexivity |].
  split; [apply Hread; reflexivity | apply Hflash; reflexivity].
Defined.

(** The runs of the witness, with the errors they end in; the last is the
    same RAM write handed to [Avr8::writeMemory] past the broker, where no
    test stops it. *)
Example programming_mode_memory_examples :
  fst (TargetController.writeMemory 10 TargetMemoryType.RAM 256 [1; 2; 3]
         programmingController)
  = Err (Exception "Command rejected - target is in programming mode")
  /\ fst (TargetController.writeMemory 10 TargetMemoryType.FLASH 0 [1; 2; 3]
            debuggingController)
     = Err (Exception "Attempted FLASH memory write with no active programming session.")
  /\ wireOf (Avr8.avr8DebugInterface
               (snd (Avr8.writeMemory 10 TargetMemoryType.RAM 256 [1; 2; 3]
                       programmingTarget)))
     = [Sent (CommandFrames.WriteMemory Avr8MemoryType.SRAM 256 [1; 2; 3])].
Proof. repeat split; vm_compute; reflexivity. Qed.

(** ** The RSP 'M' packet: properties *)

Section WriteMemoryPacket.

Import GdbWriteMemory.

Context {T : Type} {service : TargetControllerService T}.

(** A packet that resolved to FLASH gets the error response, whatever the
    descriptors hold; the controller is not called. *)
Lemma handle_flash descriptors (packet : GdbWriteMemory.t) (s : DebugSession T) :
  memoryType packet = TargetMemoryType.FLASH ->
  handle descriptors packet s
  = (Ok tt, {| controller := controller s;
               actions := actions s ++ [WritePacket ErrorResponsePacket] |}).
Proof.
  intros Hflash. unfold handle, tryCatch. rewrite Hflash.
  destruct (map_find _ _ _); reflexivity.
Qed.

Lemma targetWrites_app l1 l2 :
  targetWrites (l1 ++ l2) = targetWrites l1 ++ targetWrites l2.
Proof. apply filter_app. Qed.

End WriteMemoryPacket.

Section WriteMemoryParse.

Import GdbWriteMemory.

Variable toUInt : string -> option Z.
Variable getMemoryTypeFromGdbAddress : Z -> TargetMemoryType.t.
Variable getMemoryOffset : TargetMemoryType.t -> Z.
Variable hexToData : string -> Res (list Z).

(** The constructor only returns when the decoded buffer is as long as
    the stated length. *)
Lemma parse_ok_inv data packet :
  parse toUInt getMemoryTypeFromGdbAddress getMemoryOffset hexToData data = Ok packet ->
  exists addressSegment lengthSegment bufferSegment bufferSize,
    segments data = Some (addressSegment, lengthSegment, bufferSegment)
    /\ toUInt lengthSegment = Some bufferSize
    /\ hexToData bufferSegment = Ok (buffer packet)
    /\ Z.of_nat (length (buffer packet)) = bufferSize.
Proof.
  unfold parse, segments.
  destruct (_ <? 4); [discriminate |].
  destruct (split "," (dropFirst data)) as [| a [| lb [| ? ?]]]; try discriminate.
  destruct (toUInt a) as [address |]; [| discriminate].
  destruct (split ":" lb) as [| l [| h [| ? ?]]]; try discriminate.
  destruct (toUInt l) as [size |] eqn:El; [| discriminate].
  destruct (hexToData h) as [bytes | e |] eqn:Eh; try discriminate.
  destruct (Z.of_nat (length bytes) =? size) eqn:E; [| discriminate].
  intros H. injection H as <-. simpl.
  apply Z.eqb_eq in E. exists a, l, h, size. auto.
Qed.

Lemma parse_not_OutOfFuel data :
  pairwiseDecoder hexToData ->
  parse toUInt getMemoryTypeFromGdbAddress getMemoryOffset hexToData data <> OutOfFuel.
Proof.
  intros Hdec. unfold parse.
  destruct (_ <? 4); [discriminate |].
  destruct (split "," (dropFirst data)) as [| a [| lb [| ? ?]]]; try discriminate.
  destruct (toUInt a) as [address |]; [| discriminate].
  destruct (split ":" lb) as [| l [| h [| ? ?]]]; try discriminate.
  destruct (toUInt l) as [size |]; [| discriminate].
  specialize (Hdec h).
  destruct (hexToData h) as [bytes | e |]; [| discriminate | contradiction].
  destruct (negb _); discriminate.
Qed.

End WriteMemoryParse.

Lemma hexPairs_pairwise : GdbWriteMemory.pairwiseDecoder GdbWriteMemory.hexPairs.
Proof.
  assert (H : forall n s, (String.length s <= n)%nat ->
              match GdbWriteMemory.hexPairs s with
              | Ok bytes => Z.of_nat (String.length s) = 2 * Z.of_nat (length bytes)
              | Err _ => True
              | OutOfFuel => False
              end).
  { induction n as [| n IH]; intros s Hs.
    - destruct s; [reflexivity | simpl in Hs; lia].
    - destruct s as [| hi [| lo rest]]; [reflexivity | exact I |].
      simpl in Hs. cbn [GdbWriteMemory.hexPairs].
      destruct (GdbWriteMemory.hexDigit hi); [| exact I].
      destruct (GdbWriteMemory.hexDigit lo); [| exact I].
      specialize (IH rest ltac:(lia)).
      destruct (GdbWriteMemory.hexPairs rest); [| exact I | contradiction].
      cbn [String.length length]. lia. }
  intros s. apply (H (String.length s)). lia.
Qed.

(** C9. A write memory packet that resolved to FLASH is not forwarded: the
    handler answers with the error response, the controller is left as it
    was and no target write is among the handler's actions. And, with a
    decoder that yields a byte to every two nibbles, a packet whose data
    does not have twice as many nibbles as its stated length fails in the
    constructor. *)
Theorem write_memory_packet_guards :
  (forall (T : Type) (service : TargetControllerService T) descriptors
          (packet : GdbWriteMemory.t) (s : DebugSession T),
      GdbWriteMemory.memoryType packet = TargetMemoryType.FLASH ->
      exists s',
        GdbWriteMemory.handle descriptors packet s = (Ok tt, s')
        /\ controller s' = controller s
        /\ actions s' = actions s ++ [WritePacket ErrorResponsePacket]
        /\ GdbWriteMemory.targetWrites (actions s')
           = GdbWriteMemory.targetWrites (actions s))
  /\ (forall toUInt getMemoryTypeFromGdbAddress getMemoryOffset hexToData,
         GdbWriteMemory.pairwiseDecoder hexToData ->
         forall data addressSegment lengthSegment bufferSegment bufferSize,
           GdbWriteMemory.segments data
           = Some (addressSegment, lengthSegment, bufferSegment) ->
           toUInt lengthSegment = Some bufferSize ->
           Z.of_nat (String.length bufferSegment) <> 2 * bufferSize ->
           exists e,
             GdbWriteMemory.parse toUInt getMemoryTypeFromGdbAddress getMemoryOffset
               hexToData data = Err e).
Proof.
  split.
  - intros T service descriptors packet s Hflash.
    eexists. split; [apply handle_flash; exact Hflash |].
    simpl. split; [reflexivity |]. split; [reflexivity |].
    rewrite targetWrites_app. simpl. apply app_nil_r.
  - intros toUInt getType getOffset hexToData Hdec data a l h size Hseg Hl Hne.
    destruct (GdbWriteMemory.parse toUInt getType getOffset hexToData data)
      as [packet | e |] eqn:E.
    + exfalso. apply parse_ok_inv in E.
      destruct E as (a' & l' & h' & size' & Hseg' & Hl' & Hh & Hlen).
      rewrite Hseg in Hseg'. injection Hseg' as <- <- <-.
      rewrite Hl in Hl'. injection Hl' as <-.
      specialize (Hdec h). rewrite Hh in Hdec. lia.
    + eauto.
    + exfalso. exact (parse_not_OutOfFuel _ _ _ _ _ Hdec E).
Qed.

Lemma write_memory_packet_guards_witness :
  (exists s',
     GdbWriteMemory.handle exampleDescriptors
       {| GdbWriteMemory.memoryType := TargetMemoryType.FLASH;
          GdbWriteMemory.startAddress := 256;
          GdbWriteMemory.buffer := [171; 205] |} exampleSession
     = (Ok tt, s')
     /\ controller s' = controller exampleSession
     /\ actions s' = actions exampleSession ++ [WritePacket ErrorResponsePacket]
     /\ GdbWriteMemory.targetWrites (actions s')
        = GdbWriteMemory.targetWrites (actions exampleSession))
  /\ (exists e, exampleParse "M800100,2:abc" = Err e)
  /\ (exists e, exampleParse "M800100,2:abcdef" = Err e).
Proof.
  destruct write_memory_packet_guards as (Hflash & Hparse).
  split; [apply Hflash; reflexivity |].
  split.
  - apply (Hparse _ _ _ _ hexPairs_pairwise
             "M800100,2:abc"%string "800100"%string "2"%string "abc"%string 2);
      [reflexivity | reflexivity | simpl; lia].
  - apply (Hparse _ _ _ _ hexPairs_pairwise
             "M800100,2:abcdef"%string "800100"%string "2"%string "abcdef"%string 2);
      [reflexivity | reflexivity | simpl; lia].
Defined.

Example write_memory_packet_examples :
  exampleParse "M800100,2:abcd"
  = Ok {| GdbWriteMemory.memoryType := TargetMemoryType.RAM;
          GdbWriteMemory.startAddress := 256;
          GdbWriteMemory.buffer := [171; 205] |}
  /\ exampleParse "M100,2:abcd"
     = Ok {| GdbWriteMemory.memoryType := TargetMemoryType.FLASH;
             GdbWriteMemory.startAddress := 256;
             GdbWriteMemory.buffer := [171; 205] |}
  /\ actions (snd (GdbWriteMemory.handle exampleDescriptors
                     {| GdbWriteMemory.memoryType := TargetMemoryType.RAM;
                        GdbWriteMemory.startAddress := 256;
                        GdbWriteMemory.buffer := [171; 205] |} exampleSession))
     = [ServiceWriteMemory TargetMemoryType.RAM 256 [171; 205] (Ok tt);
        WritePacket OkResponsePacket].
Proof. repeat split; vm_compute; reflexivity. Qed.

(** * The rest of the sources: properties *)

(** ** Address ranges *)

Section AddressRanges.

Import TargetMemoryAddressRange.

Lemma contains_spec (r : t) (x : Z) :
  AddressRange.contains r x = true <-> startAddress r <= x <= endAddress r.
Proof.
  unfold AddressRange.contains.
  rewrite andb_true_iff, Z.geb_le, Z.leb_le. lia.
Qed.

(** Two ranges that each hold an address intersect, by [intersectsWith],
    exactly when some address lies in both; the test is then symmetric. *)
Theorem intersectsWith_common_address (this other : t)
    (Hthis : AddressRange.inhabited this) (Hother : AddressRange.inhabited other) :
  (AddressRange.intersectsWith this other = true
   <-> exists address, AddressRange.contains this address = true
                       /\ AddressRange.contains other address = true)
  /\ AddressRange.intersectsWith this other = AddressRange.intersectsWith other this.
Proof.
  unfold AddressRange.inhabited in *.
  assert (Hiff : forall a b : t, startAddress a <= endAddress a ->
            startAddress b <= endAddress b ->
            (AddressRange.intersectsWith a b = true
             <-> exists x, AddressRange.contains a x = true
                           /\ AddressRange.contains b x = true)).
  { intros a b Ha Hb. unfold AddressRange.intersectsWith.
    rewrite orb_true_iff, !andb_true_iff, !Z.geb_le, !Z.leb_le. split.
    - intros [[H1 H2] | [H1 H2]].
      + exists (startAddress a). rewrite !contains_spec. lia.
      + exists (startAddress b). rewrite !contains_spec. lia.
    - intros (x & H1 & H2). rewrite contains_spec in H1, H2. lia. }
  split; [exact (Hiff this other Hthis Hother) |].
  apply eq_true_iff_eq. rewrite (Hiff this other), (Hiff other this) by assumption.
  split; intros (x & H1 & H2); exists x; auto.
Qed.

Lemma intersectsWith_common_address_witness :
  let a := {| startAddress := 16; endAddress := 31 |} in
  let b := {| startAddress := 31; endAddress := 40 |} in
  (AddressRange.intersectsWith a b = true
   <-> exists address, AddressRange.contains a address = true
                       /\ AddressRange.contains b address = true)
  /\ AddressRange.intersectsWith a b = AddressRange.intersectsWith b a.
Proof.
  intros a b. apply (intersectsWith_common_address a b);
    unfold AddressRange.inhabited; simpl; lia.
Defined.

(** A range contains, by [contains(const TargetMemoryAddressRange&)], a
    range that holds an address exactly when it contains each of its
    addresses. *)
Theorem containsRange_every_address (this addressRange : t)
    (Hinner : AddressRange.inhabited addressRange) :
  AddressRange.containsRange this addressRange = true
  <-> forall address, AddressRange.contains addressRange address = true ->
                      AddressRange.contains this address = true.
Proof.
  unfold AddressRange.inhabited in Hinner. unfold AddressRange.containsRange.
  rewrite andb_true_iff, Z.geb_le, Z.leb_le. split.
  - intros [H1 H2] x Hx. rewrite contains_spec in *. lia.
  - intros H.
    pose proof (H (startAddress addressRange)) as Hs.
    pose proof (H (endAddress addressRange)) as He.
    rewrite !contains_spec in Hs, He. lia.
Qed.

Lemma containsRange_every_address_witness :
  let outer := {| startAddress := 0; endAddress := 255 |} in
  let inner := {| startAddress := 32; endAddress := 95 |} in
  AddressRange.containsRange outer inner = true
  <-> forall address, AddressRange.contains inner address = true ->
                      AddressRange.contains outer address = true.
Proof.
  intros outer inner. apply (containsRange_every_address outer inner).
  unfold AddressRange.inhabited. simpl. lia.
Defined.

End AddressRanges.

(** ** The life cycle of the debug interface (EdbgAvr8Interface.cpp) *)

Lemma trafficSince_app d d' l : Edbg.traffic d' = Edbg.traffic d ++ l -> trafficSince d d' = l.
Proof.
  unfold trafficSince. intros ->. rewrite skipn_app, skipn_all, Nat.sub_diag. reflexivity.
Qed.

(** What the event requests leave alone. *)
Lemma getAvrEvent_keeps i r i' :
  Avr8Interface.getAvrEvent i = (r, i') ->
  targetAttached i' = targetAttached i
  /\ programmingModeEnabled i' = programmingModeEnabled i
  /\ configVariant i' = configVariant i
  /\ eventWaitAttempts i' = eventWaitAttempts i.
Proof.
  unfold Avr8Interface.getAvrEvent, bind, onEdbg, requestAvrEvent.
  destruct (events (edbgInterface i)) as [| [[[eid |]] |] rest]; simpl;
    try destruct eid; intros H; inversion H; subst; simpl; auto.
Qed.

Lemma waitForBreakEvent_keeps n : forall i r i',
  Avr8Interface.waitForBreakEvent n i = (r, i') ->
  targetAttached i' = targetAttached i
  /\ programmingModeEnabled i' = programmingModeEnabled i
  /\ configVariant i' = configVariant i.
Proof.
  induction n as [| n IH]; intros i r i' H; simpl in H.
  - inversion H; subst. auto.
  - apply bind_inv in H. destruct H as [(a & i1 & H1 & H) | [(e & H1 & _) | (H1 & _)]];
      apply getAvrEvent_keeps in H1; destruct H1 as (Ha & Hp & Hv & _).
    + destruct a as [[ev | ev] |].
      * inversion H; subst. auto.
      * apply IH in H. destruct H as (Ha' & Hp' & Hv'). repeat split; congruence.
      * apply IH in H. destruct H as (Ha' & Hp' & Hv'). repeat split; congruence.
    + auto.
    + auto.
Qed.

Lemma waitForStoppedEvent_keeps i r i' :
  Avr8Interface.waitForStoppedEvent i = (r, i') ->
  targetAttached i' = targetAttached i
  /\ programmingModeEnabled i' = programmingModeEnabled i
  /\ configVariant i' = configVariant i.
Proof.
  unfold Avr8Interface.waitForStoppedEvent. intros H.
  apply bind_inv in H. destruct H as [(n & i1 & H1 & H) | [(e & H1 & _) | (H1 & _)]];
    try discriminate.
  inversion H1; subst i1; clear H1.
  apply bind_inv in H. destruct H as [(b & i1 & H1 & H) | [(e & H1 & _) | (H1 & _)]];
    apply waitForBreakEvent_keeps in H1; destruct H1 as (Ha & Hp & Hv); auto.
  destruct b; inversion H; subst; simpl; auto.
Qed.

(** [attach] returns with the target attached or throws. *)
Lemma attach_attached i r i' :
  Avr8Interface.attach i = (r, i') ->
  programmingModeEnabled i' = programmingModeEnabled i
  /\ configVariant i' = configVariant i
  /\ (r = Ok tt -> targetAttached i' = true).
Proof.
  unfold Avr8Interface.attach. intros H.
  apply bind_inv in H. destruct H as [(v & i0 & H1 & H) | [(e & H1 & _) | (H1 & _)]];
    try discriminate.
  injection H1 as <- <-.
  unfold bind at 1, Avr8Interface.send, onEdbg, sendAvrCommandFrameAndWaitForResponseFrame in H.
  destruct (responses (edbgInterface i)) as [| f rest].
  - inversion H; subst. simpl. repeat split. discriminate.
  - destruct (failed f).
    + inversion H; subst. simpl. repeat split. discriminate.
    + unfold bind at 1, modify in H.
      apply tryCatch_inv in H. destruct H as [(msg & i2 & H1 & H) | (H1 & _)];
        apply waitForStoppedEvent_keeps in H1; destruct H1 as (Ha & Hp & Hv).
      * inversion H; subst. simpl in *. auto.
      * simpl in *. auto.
Qed.

Lemma onInterface_inv {A} (m : M EdbgAvr8Interface A) d r d' :
  Edbg.onInterface m d = (r, d') ->
  exists i', m (Edbg.interface d) = (r, i')
    /\ Edbg.interface d' = i'
    /\ Edbg.physicalInterfaceActivated d' = Edbg.physicalInterfaceActivated d
    /\ Edbg.reactivateJtagTargetPostProgrammingMode d'
       = Edbg.reactivateJtagTargetPostProgrammingMode d
    /\ Edbg.targetConfig d' = Edbg.targetConfig d
    /\ Edbg.furtherParameters d' = Edbg.furtherParameters d
    /\ Edbg.traffic d'
       = Edbg.traffic d
         ++ map Edbg.Avr8 (skipn (length (wireOf (Edbg.interface d))) (wireOf i')).
Proof.
  unfold Edbg.onInterface. destruct (m (Edbg.interface d)) as [r0 i'] eqn:E.
  intros H. inversion H; subst. exists i'. repeat split.
Qed.

(** A call that is known by its result. *)
Lemma ran_to {S A} (p : Res A * S) (r : Res A) : fst p = r -> p = (r, snd p).
Proof. destruct p. simpl. intros ->. reflexivity. Qed.

Ltac by_running :=
  match goal with
  | |- ?call = (?r, _) => exact (ran_to call r eq_refl)
  end.

Lemma trafficSince_refl d : trafficSince d d = [].
Proof. unfold trafficSince. apply skipn_all. Qed.

(** A call that leaves the interface as it was leaves the object as it
    was. *)
Lemma onInterface_unchanged {A} (m : M EdbgAvr8Interface A) d r :
  m (Edbg.interface d) = (r, Edbg.interface d) -> Edbg.onInterface m d = (r, d).
Proof.
  intros H. unfold Edbg.onInterface. rewrite H.
  rewrite skipn_all, app_nil_r. destruct d; reflexivity.
Qed.

Lemma commandsOf_app l1 l2 : commandsOf (l1 ++ l2) = commandsOf l1 ++ commandsOf l2.
Proof. unfold commandsOf. apply flat_map_app. Qed.

Lemma commandsOf_Avr8 l : commandsOf (map Edbg.Avr8 l) = [].
Proof. induction l; simpl; auto. Qed.

Lemma commandsOf_Command l : commandsOf (map Edbg.Command l) = l.
Proof. induction l; simpl; congruence. Qed.

Lemma memoryTrafficOf_app l1 l2 :
  memoryTrafficOf (l1 ++ l2) = memoryTrafficOf l1 ++ memoryTrafficOf l2.
Proof. unfold memoryTrafficOf. apply flat_map_app. Qed.

Lemma memoryTrafficOf_Command l : memoryTrafficOf (map Edbg.Command l) = [].
Proof. induction l; simpl; auto. Qed.

Lemma memoryTrafficOf_Avr8 l : memoryTrafficOf (map Edbg.Avr8 l) = l.
Proof. induction l; simpl; congruence. Qed.

(** [activatePhysical] sends the frame once, and once more with the external
    reset applied when the tool refuses the first: never a third time. It
    returns with the physical interface marked activated, or throws and
    leaves the mark as it was. *)
Theorem activatePhysical_retries_once (d d' : Edbg.t) (r : Res unit)
    (Hcall : Edbg.activatePhysical false d = (r, d')) :
  r <> OutOfFuel
  /\ (r = Ok tt -> Edbg.physicalInterfaceActivated d' = true)
  /\ (r <> Ok tt -> Edbg.physicalInterfaceActivated d' = Edbg.physicalInterfaceActivated d)
  /\ match pendingResponses d with
     | first :: _ =>
         if failed first
         then trafficSince d d' = [Edbg.Command (Edbg.ActivatePhysical false);
                                   Edbg.Command (Edbg.ActivatePhysical true)]
         else trafficSince d d' = [Edbg.Command (Edbg.ActivatePhysical false)] /\ r = Ok tt
     | [] => trafficSince d d' = [Edbg.Command (Edbg.ActivatePhysical false)]
     end.
Proof.
  unfold pendingResponses.
  unfold Edbg.activatePhysical, Edbg.activatePhysicalAttempt, bind, Edbg.sendFrame in Hcall.
  destruct (responses (edbgInterface (Edbg.interface d))) as [| r1 rs] eqn:E.
  - injection Hcall as <- <-. repeat split; try discriminate; try reflexivity.
    apply trafficSince_app. reflexivity.
  - destruct (failed r1) eqn:F1; simpl in Hcall.
    + destruct rs as [| r2 rs].
      * injection Hcall as <- <-. repeat split; try discriminate; try reflexivity.
        apply trafficSince_app. simpl. rewrite <- app_assoc. reflexivity.
      * destruct (failed r2) eqn:F2; simpl in Hcall; injection Hcall as <- <-;
          repeat split; try discriminate; try reflexivity; try congruence;
          apply trafficSince_app; simpl; rewrite <- app_assoc; reflexivity.
    + injection Hcall as <- <-. repeat split; try discriminate; try reflexivity; try congruence.
      apply trafficSince_app. reflexivity.
Qed.

Lemma activatePhysical_retries_once_witness :
  let d := exampleEdbg Avr8ConfigVariant.DEBUG_WIRE PhysicalInterface.DEBUG_WIRE
             false false false [failedResponse; okResponse] [] in
  let d' := snd (Edbg.activatePhysical false d) in
  Edbg.activatePhysical false d = (Ok tt, d')
  /\ Edbg.physicalInterfaceActivated d' = true
  /\ trafficSince d d' = [Edbg.Command (Edbg.ActivatePhysical false);
                          Edbg.Command (Edbg.ActivatePhysical true)].
Proof.
  intros d d'.
  assert (Hcall : Edbg.activatePhysical false d = (Ok tt, d'))
    by by_running.
  split; [exact Hcall |].
  destruct (activatePhysical_retries_once d d' (Ok tt) Hcall) as (_ & H1 & _ & H2).
  split; [exact (H1 eq_refl) | exact H2].
Defined.

Section ActivationProperties.

Variable failureCode : Avr8ResponseFrame -> Avr8CommandFailureCode.t.

Lemma activate_nothing_to_do d :
  Edbg.physicalInterfaceActivated d = true ->
  targetAttached (Edbg.interface d) = true ->
  Edbg.activate failureCode d = (Ok tt, d).
Proof.
  intros Ha Ht. unfold Edbg.activate, bind, gets. rewrite Ha. simpl. rewrite Ht. reflexivity.
Qed.

Lemma activatePhysicalAttempt_inv d r d' :
  Edbg.activatePhysicalAttempt 2 false d = (r, d') ->
  r <> OutOfFuel
  /\ (r = Ok None -> Edbg.physicalInterfaceActivated d' = true)
  /\ targetAttached (Edbg.interface d') = targetAttached (Edbg.interface d)
  /\ programmingModeEnabled (Edbg.interface d') = programmingModeEnabled (Edbg.interface d)
  /\ configVariant (Edbg.interface d') = configVariant (Edbg.interface d)
  /\ (exists l, Edbg.traffic d'
                = Edbg.traffic d ++ Edbg.Command (Edbg.ActivatePhysical false) :: l).
Proof.
  unfold Edbg.activatePhysicalAttempt, bind, Edbg.sendFrame.
  destruct (responses (edbgInterface (Edbg.interface d))) as [| r1 [| r2 rs]];
    try destruct (failed r1); simpl; try destruct (failed r2); simpl;
    intros H; inversion H; subst; simpl; repeat split; try discriminate; auto;
    try (eexists; rewrite <- ?app_assoc; reflexivity).
Qed.

(** [activate] returns with the interface activated and the target
    attached, and leaves the programming mode alone. *)
Lemma activate_inv d r d' :
  Edbg.activate failureCode d = (r, d') ->
  programmingModeEnabled (Edbg.interface d') = programmingModeEnabled (Edbg.interface d)
  /\ (Edbg.physicalInterfaceActivated d = false ->
      exists l, Edbg.traffic d'
                = Edbg.traffic d ++ Edbg.Command (Edbg.ActivatePhysical false) :: l)
  /\ (r = Ok tt -> Edbg.physicalInterfaceActivated d' = true
                   /\ targetAttached (Edbg.interface d') = true).
Proof.
  intros Hcall. unfold Edbg.activate in Hcall.
  apply bind_inv in Hcall.
  destruct Hcall as [(a & d0 & H0 & Hcall) | [(e & H0 & _) | (H0 & _)]]; try discriminate.
  injection H0 as <- <-.
  assert (Hfirst : forall r1 d1,
            (if negb (Edbg.physicalInterfaceActivated d)
             then bind (Edbg.activatePhysicalAttempt 2 false)
                    (fun failure =>
                       match failure with
                       | Some responseFrame =>
                           bind (gets Edbg.targetConfig) (fun config =>
                             if PhysicalInterface.eqb (Edbg.physicalInterface config)
                                  PhysicalInterface.DEBUG_WIRE
                                && match failureCode responseFrame with
                                   | Avr8CommandFailureCode.DEBUGWIRE_PHYSICAL_ERROR
                                   | Avr8CommandFailureCode.FAILED_TO_ENABLE_OCD => true
                                   | _ => false
                                   end
                             then throw "Failed to activate the debugWire physical interface - check target connection."
                             else throw "AVR8 Activate physical interface command failed")
                       | None => ret tt
                       end)
             else ret tt) d = (r1, d1) ->
            programmingModeEnabled (Edbg.interface d1)
            = programmingModeEnabled (Edbg.interface d)
            /\ targetAttached (Edbg.interface d1) = targetAttached (Edbg.interface d)
            /\ (Edbg.physicalInterfaceActivated d = false ->
                exists l, Edbg.traffic d1
                          = Edbg.traffic d ++ Edbg.Command (Edbg.ActivatePhysical false) :: l)
            /\ (r1 = Ok tt -> Edbg.physicalInterfaceActivated d1 = true)).
  { intros r1 d1 H1.
    destruct (Edbg.physicalInterfaceActivated d) eqn:Ea; simpl in H1.
    - inversion H1; subst. repeat split; auto. discriminate.
    - apply bind_inv in H1.
      destruct H1 as [(f & d2 & H1 & H2) | [(e & H1 & ->) | (H1 & ->)]];
        apply activatePhysicalAttempt_inv in H1;
        destruct H1 as (_ & Hok & Hatt & Hprog & _ & Htr).
      + destruct f as [f |].
        * unfold bind, gets in H2.
          destruct (_ && _); inversion H2; subst; repeat split; auto; discriminate.
        * inversion H2; subst. repeat split; auto.
      + repeat split; auto. discriminate.
      + repeat split; auto. discriminate. }
  apply bind_inv in Hcall.
  destruct Hcall as [([] & d1 & H1 & Hcall) | [(e & H1 & ->) | (H1 & ->)]];
    apply Hfirst in H1; destruct H1 as (Hprog & Hatt & Htr & Hact);
    try (repeat split; auto; discriminate).
  apply bind_inv in Hcall.
  destruct Hcall as [(t & d2 & H2 & Hcall) | [(e & H2 & _) | (H2 & _)]]; try discriminate.
  injection H2 as <- <-.
  destruct (targetAttached (Edbg.interface d1)) eqn:Et; simpl in Hcall.
  - inversion Hcall; subst. repeat split; auto.
  - apply onInterface_inv in Hcall.
    destruct Hcall as (i' & Hrun & Hi & Hp & _ & _ & _ & Htr2).
    apply attach_attached in Hrun. destruct Hrun as (Hprog2 & _ & Hrun).
    split; [rewrite Hi; congruence |]. split.
    + intros Hd. destruct (Htr Hd) as (l & Hl). eexists.
      rewrite Htr2, Hl, <- app_assoc. reflexivity.
    + intros ->. split; [rewrite Hp; auto |]. rewrite Hi. auto.
Qed.

(** When [activate] returns, the physical interface is activated and the
    target is attached, and activating again sends nothing. *)
Theorem activate_establishes_and_is_idempotent (d d' : Edbg.t)
    (Hcall : Edbg.activate failureCode d = (Ok tt, d')) :
  Edbg.physicalInterfaceActivated d' = true
  /\ targetAttached (Edbg.interface d') = true
  /\ Edbg.activate failureCode d' = (Ok tt, d').
Proof.
  apply activate_inv in Hcall. destruct Hcall as (_ & _ & H).
  destruct (H eq_refl) as (Ha & Ht). repeat split; auto.
  apply activate_nothing_to_do; assumption.
Qed.

(** Once [enableProgrammingMode] has returned, the mode is on, enabling it
    again sends nothing, and a read of RAM is refused before anything goes
    to the tool. *)
Theorem enableProgrammingMode_blocks_ram (d d' : Edbg.t)
    (Hcall : Edbg.enableProgrammingMode d = (Ok tt, d')) :
  programmingModeEnabled (Edbg.interface d') = true
  /\ Edbg.enableProgrammingMode d' = (Ok tt, d')
  /\ forall fuel startAddress bytes excludedAddressRanges,
       Edbg.onInterface
         (TargetMemoryAccess.readMemory fuel TargetMemoryType.RAM startAddress bytes
            excludedAddressRanges) d'
       = (Err (Exception "Cannot access RAM when programming mode is enabled"), d').
Proof.
  assert (Hon : programmingModeEnabled (Edbg.interface d') = true).
  { unfold Edbg.enableProgrammingMode, bind, gets, Edbg.sendFrame in Hcall.
    destruct (programmingModeEnabled (Edbg.interface d)) eqn:E.
    - inversion Hcall; subst. exact E.
    - destruct (responses (edbgInterface (Edbg.interface d))) as [| r1 rs];
        [discriminate |].
      destruct (failed r1); [discriminate |].
      inversion Hcall; subst. reflexivity. }
  split; [exact Hon |]. split.
  - unfold Edbg.enableProgrammingMode, bind, gets. rewrite Hon. reflexivity.
  - intros fuel startAddress bytes excl. apply onInterface_unchanged.
    unfold TargetMemoryAccess.readMemory, bind, gets. rewrite Hon. reflexivity.
Qed.

(** [disableProgrammingMode] does nothing when the mode is off. When it
    returns, the mode is off; and on a JTAG target with the reactivation
    flag set it has then deactivated the physical interface, activated it
    again and attached to the target. *)
Theorem disableProgrammingMode_reactivates (d d' : Edbg.t) (r : Res unit)
    (Hcall : Edbg.disableProgrammingMode failureCode d = (r, d')) :
  (programmingModeEnabled (Edbg.interface d) = false -> r = Ok tt /\ d' = d)
  /\ (r = Ok tt -> programmingModeEnabled (Edbg.interface d') = false)
  /\ (programmingModeEnabled (Edbg.interface d) = true ->
      configVariant (Edbg.interface d) = Avr8ConfigVariant.MEGAJTAG ->
      Edbg.reactivateJtagTargetPostProgrammingMode d = true ->
      r = Ok tt ->
      Edbg.physicalInterfaceActivated d' = true
      /\ targetAttached (Edbg.interface d') = true
      /\ exists rest,
           trafficSince d d'
           = Edbg.Command Edbg.LeaveProgrammingMode
             :: Edbg.Command Edbg.DeactivatePhysical
             :: Edbg.Command (Edbg.ActivatePhysical false) :: rest).
Proof.
  unfold Edbg.disableProgrammingMode in Hcall.
  unfold bind at 1, gets at 1 in Hcall.
  destruct (programmingModeEnabled (Edbg.interface d)) eqn:Eprog; simpl in Hcall.
  2:{ inversion Hcall; subst. repeat split; auto; discriminate. }
  split; [discriminate |].
  unfold bind at 1, Edbg.sendFrame at 1 in Hcall.
  destruct (responses (edbgInterface (Edbg.interface d))) as [| r1 rs] eqn:Ers.
  { inversion Hcall; subst. split; [discriminate |]. intros _ _ _ ?. discriminate. }
  destruct (failed r1).
  { inversion Hcall; subst. split; [discriminate |]. intros _ _ _ ?. discriminate. }
  unfold bind at 1, modify at 1 in Hcall.
  unfold bind at 1, gets at 1 in Hcall.
  unfold bind at 1, gets at 1 in Hcall.
  cbn [Edbg.interface Edbg.with_interface Edbg.with_traffic configVariant
       with_programmingModeEnabled with_edbgInterface
       Edbg.reactivateJtagTargetPostProgrammingMode] in Hcall.
  destruct (Avr8ConfigVariant.eqb (configVariant (Edbg.interface d))
              Avr8ConfigVariant.MEGAJTAG
            && Edbg.reactivateJtagTargetPostProgrammingMode d) eqn:Ere.
  2:{ inversion Hcall; subst. split; [reflexivity |].
      intros _ Hv Hf _. rewrite Hv, Hf in Ere. discriminate. }
  unfold bind at 1, Edbg.deactivatePhysical, bind at 1, Edbg.sendFrame at 1 in Hcall.
  cbn [Edbg.interface Edbg.with_interface Edbg.with_traffic edbgInterface responses
       with_programmingModeEnabled with_edbgInterface] in Hcall.
  destruct rs as [| r2 rs].
  { inversion Hcall; subst. split; [discriminate |]. intros _ _ _ ?. discriminate. }
  destruct (failed r2).
  { inversion Hcall; subst. split; [discriminate |]. intros _ _ _ ?. discriminate. }
  unfold modify at 1, bind at 1, modify at 1 in Hcall.
  apply activate_inv in Hcall. destruct Hcall as (Hprog & Htr & Hok).
  cbn in Hprog. split; [intros _; exact Hprog |].
  intros _ _ _ Hr. destruct (Hok Hr) as (Ha & Ht). repeat split; auto.
  destruct (Htr eq_refl) as (l & Hl). cbn in Hl. exists l.
  apply trafficSince_app. rewrite Hl, <- !app_assoc. reflexivity.
Qed.

End ActivationProperties.

Lemma activate_establishes_and_is_idempotent_witness :
  let d := exampleEdbg Avr8ConfigVariant.DEBUG_WIRE PhysicalInterface.DEBUG_WIRE
             false false false [okResponse; okResponse] [Some breakEvent] in
  let d' := snd (Edbg.activate exampleFailureCode d) in
  Edbg.activate exampleFailureCode d = (Ok tt, d')
  /\ Edbg.physicalInterfaceActivated d' = true
  /\ targetAttached (Edbg.interface d') = true
  /\ Edbg.activate exampleFailureCode d' = (Ok tt, d').
Proof.
  intros d d'.
  assert (Hcall : Edbg.activate exampleFailureCode d = (Ok tt, d'))
    by by_running.
  split; [exact Hcall |].
  exact (activate_establishes_and_is_idempotent exampleFailureCode d d' Hcall).
Defined.

Lemma enableProgrammingMode_blocks_ram_witness :
  let d := exampleEdbg Avr8ConfigVariant.UPDI PhysicalInterface.UPDI
             true true false [okResponse] [] in
  let d' := snd (Edbg.enableProgrammingMode d) in
  Edbg.enableProgrammingMode d = (Ok tt, d')
  /\ programmingModeEnabled (Edbg.interface d') = true
  /\ Edbg.onInterface
       (TargetMemoryAccess.readMemory 4 TargetMemoryType.RAM 256 2 []) d'
     = (Err (Exception "Cannot access RAM when programming mode is enabled"), d').
Proof.
  intros d d'.
  assert (Hcall : Edbg.enableProgrammingMode d = (Ok tt, d'))
    by by_running.
  split; [exact Hcall |].
  destruct (enableProgrammingMode_blocks_ram d d' Hcall) as (H1 & _ & H2).
  split; [exact H1 | apply H2].
Defined.

Lemma disableProgrammingMode_reactivates_witness :
  let d := exampleEdbg Avr8ConfigVariant.MEGAJTAG PhysicalInterface.JTAG
             true true true [okResponse; okResponse; okResponse; okResponse]
             [Some breakEvent] in
  let d' := snd (Edbg.disableProgrammingMode exampleFailureCode d) in
  Edbg.disableProgrammingMode exampleFailureCode d = (Ok tt, d')
  /\ programmingModeEnabled (Edbg.interface d') = false
  /\ Edbg.physicalInterfaceActivated d' = true
  /\ targetAttached (Edbg.interface d') = true.
Proof.
  intros d d'.
  assert (Hcall : Edbg.disableProgrammingMode exampleFailureCode d = (Ok tt, d'))
    by by_running.
  split; [exact Hcall |].
  destruct (disableProgrammingMode_reactivates exampleFailureCode d d' (Ok tt) Hcall)
    as (_ & H1 & H2).
  split; [exact (H1 eq_refl) |].
  destruct (H2 eq_refl eq_refl eq_refl eq_refl) as (Ha & Ht & _). auto.
Defined.

(** [deactivate] on an attached target always sends the Detach frame: a
    failure to disable debugWire, refused by the tool or lost in transport,
    does not prevent it. When it returns, the target is detached and the
    physical interface deactivated. *)
Theorem deactivate_always_detaches (d d' : Edbg.t) (r : Res unit)
    (Hattached : targetAttached (Edbg.interface d) = true)
    (Hcall : Edbg.deactivate d = (r, d')) :
  (exists rest,
      commandsOf (trafficSince d d') = detachFrames (Edbg.targetConfig d) ++ rest
      /\ (rest = [] \/ rest = [Edbg.DeactivatePhysical]))
  /\ memoryTrafficOf (trafficSince d d') = []
  /\ (r = Ok tt -> targetAttached (Edbg.interface d') = false
                   /\ Edbg.physicalInterfaceActivated d' = false).
Proof.
  unfold Edbg.deactivate, Edbg.disableDebugWire, Edbg.detach, Edbg.deactivatePhysical,
    tryCatch, when, bind, gets, modify, ret, throw, raise, Edbg.sendFrame, detachFrames in *.
  rewrite Hattached in Hcall.
  destruct (PhysicalInterface.eqb _ _ && _); cbn beta iota in Hcall;
    destruct (Edbg.physicalInterfaceActivated d) eqn:Ea;
    destruct (responses (edbgInterface (Edbg.interface d))) as [| r1 [| r2 [| r3 rs]]];
    cbn in Hcall;
    try destruct (failed r1); cbn in Hcall; try destruct (failed r2); cbn in Hcall;
    try destruct (failed r3); cbn in Hcall;
    try rewrite Ea in Hcall; cbn in Hcall;
    try destruct (failed r1); cbn in Hcall; try destruct (failed r2); cbn in Hcall;
    try destruct (failed r3); cbn in Hcall;
    inversion Hcall; subst; clear Hcall.
  all: match goal with
       | |- context [trafficSince ?a ?b] =>
           erewrite (trafficSince_app a b)
             by (cbn; rewrite <- ?app_assoc; reflexivity)
       end.
  all: cbn.
  all: split; [eexists; split; [reflexivity | auto] |].
  all: split; [reflexivity |].
  all: try (intros ?; discriminate).
  all: auto.
Qed.

Lemma deactivate_always_detaches_witness :
  let d := exampleEdbg Avr8ConfigVariant.DEBUG_WIRE PhysicalInterface.DEBUG_WIRE
             true true false [failedResponse; okResponse; okResponse] [] in
  let d' := snd (Edbg.deactivate d) in
  Edbg.deactivate d = (Ok tt, d')
  /\ (exists rest,
         commandsOf (trafficSince d d') = [Edbg.DisableDebugWire; Edbg.Detach] ++ rest
         /\ (rest = [] \/ rest = [Edbg.DeactivatePhysical]))
  /\ targetAttached (Edbg.interface d') = false
  /\ Edbg.physicalInterfaceActivated d' = false.
Proof.
  intros d d'.
  assert (Hcall : Edbg.deactivate d = (Ok tt, d'))
    by by_running.
  split; [exact Hcall |].
  destruct (deactivate_always_detaches d d' (Ok tt) eq_refl Hcall) as (H1 & _ & H2).
  split; [exact H1 | exact (H2 eq_refl)].
Defined.

Lemma onInterface_afterFrame {A} (m : M EdbgAvr8Interface A) d r frame rest :
  m (Edbg.interface d) = (r, afterFrame frame rest (Edbg.interface d)) ->
  Edbg.onInterface m d
  = (r, Edbg.with_interface (afterFrame frame rest (Edbg.interface d))
          (Edbg.with_traffic (Edbg.traffic d ++ [Edbg.Avr8 (Sent frame)]) d)).
Proof.
  intros H. unfold Edbg.onInterface. rewrite H.
  unfold wireOf, afterFrame. cbn [edbgInterface with_edbgInterface wire].
  rewrite skipn_app, skipn_all, Nat.sub_diag. reflexivity.
Qed.

(** [eraseProgramMemory] sends no erase command to a debugWire target, and
    to an XMEGA target only the section erases asked for, with no memory
    access: the chip erase, which takes the EEPROM with it, goes to the
    other targets alone. *)
Theorem eraseProgramMemory_by_variant (fuel : nat)
    (section : option ProgramMemorySection.t) (d d' : Edbg.t) (r : Res unit)
    (Hcall : Edbg.eraseProgramMemory fuel section d = (r, d')) :
  (configVariant (Edbg.interface d) = Avr8ConfigVariant.DEBUG_WIRE ->
   commandsOf (trafficSince d d') = [])
  /\ (configVariant (Edbg.interface d) = Avr8ConfigVariant.XMEGA ->
      memoryTrafficOf (trafficSince d d') = []
      /\ (exists n, commandsOf (trafficSince d d')
                    = map Edbg.EraseMemory (firstn n (sectionModes section)))
      /\ (r = Ok tt ->
          commandsOf (trafficSince d d') = map Edbg.EraseMemory (sectionModes section))).
Proof.
  unfold Edbg.eraseProgramMemory in Hcall.
  unfold bind at 1, gets at 1 in Hcall. unfold bind at 1, gets at 1 in Hcall.
  split; intros Hv; rewrite Hv in Hcall; cbn [Avr8ConfigVariant.eqb] in Hcall.
  - unfold value in Hcall.
    destruct (Edbg.flashStartAddress (Edbg.furtherParameters d)) as [a |].
    2:{ inversion Hcall; subst. rewrite trafficSince_refl. reflexivity. }
    destruct (Edbg.flashSize (Edbg.furtherParameters d)) as [n |].
    2:{ inversion Hcall; subst. rewrite trafficSince_refl. reflexivity. }
    unfold bind, ret in Hcall.
    apply onInterface_inv in Hcall.
    destruct Hcall as (i' & _ & _ & _ & _ & _ & _ & Htr).
    rewrite (trafficSince_app _ _ _ Htr). apply commandsOf_Avr8.
  - unfold bind, Edbg.sendFrame, ret, throw, raise in Hcall.
    destruct section as [[|] |];
      destruct (responses (edbgInterface (Edbg.interface d))) as [| r1 [| r2 rs]];
      cbn in Hcall;
      try destruct (failed r1); cbn in Hcall; try destruct (failed r2); cbn in Hcall;
      inversion Hcall; subst; clear Hcall;
      try rewrite trafficSince_refl;
      try match goal with
          | |- context [trafficSince ?a ?b] =>
              erewrite (trafficSince_app a b)
                by (cbn; rewrite <- ?app_assoc; reflexivity)
          end;
      cbn; (split; [reflexivity |]);
      (split; [first [exists 2%nat; reflexivity | exists 1%nat; reflexivity
                     | exists 0%nat; reflexivity] |]);
      intros Hr; try discriminate; reflexivity.
Qed.

Lemma eraseProgramMemory_by_variant_witness :
  let d := exampleEdbg Avr8ConfigVariant.XMEGA PhysicalInterface.PDI
             true true true [okResponse; okResponse] [] in
  let d' := snd (Edbg.eraseProgramMemory 4 None d) in
  Edbg.eraseProgramMemory 4 None d = (Ok tt, d')
  /\ memoryTrafficOf (trafficSince d d') = []
  /\ commandsOf (trafficSince d d')
     = [Edbg.EraseMemory Avr8EraseMemoryMode.BOOT_SECTION;
        Edbg.EraseMemory Avr8EraseMemoryMode.APPLICATION_SECTION].
Proof.
  intros d d'.
  assert (Hcall : Edbg.eraseProgramMemory 4 None d = (Ok tt, d'))
    by by_running.
  split; [exact Hcall |].
  destruct (eraseProgramMemory_by_variant 4 None d d' (Ok tt) Hcall) as (_ & H).
  destruct (H eq_refl) as (H1 & _ & H2). split; [exact H1 | exact (H2 eq_refl)].
Defined.

(** ** Register access *)

Section RegisterWrites.

Import MemoryAccess.

Lemma memoryTypeOf_cases variant registerType :
  Registers.memoryTypeOf variant registerType = Avr8MemoryType.SRAM
  \/ Registers.memoryTypeOf variant registerType = Avr8MemoryType.REGISTER_FILE.
Proof.
  unfold Registers.memoryTypeOf. destruct (_ && _); auto.
Qed.

Lemma storedForm_spec size (registerValue : list Z) :
  Z.of_nat (length registerValue) <= size ->
  Registers.storedForm size registerValue = rev (zeroExtended size registerValue)
  /\ Z.of_nat (length (zeroExtended size registerValue)) = size.
Proof.
  intros Hle. unfold Registers.storedForm, zeroExtended.
  destruct (Z.of_nat (length registerValue) <? size) eqn:E.
  - apply Z.ltb_lt in E.
    assert (Hlen : Z.of_nat (length (repeat 0 (Z.to_nat (size - Z.of_nat (length registerValue)))
                                     ++ registerValue)) = size)
      by (rewrite length_app, repeat_length; lia).
    split; [| exact Hlen].
    destruct (1 <? _) eqn:E1; [reflexivity |].
    apply Z.ltb_ge in E1.
    destruct (repeat 0 _ ++ registerValue) as [| x [| y l]]; simpl in *; try reflexivity; lia.
  - apply Z.ltb_ge in E. assert (Hsz : size = Z.of_nat (length registerValue)) by lia.
    rewrite Hsz, Z.sub_diag. simpl. split; [| reflexivity].
    destruct (1 <? _) eqn:E1; [reflexivity |].
    apply Z.ltb_ge in E1.
    destruct registerValue as [| x [| y l]]; simpl in *; try reflexivity; lia.
Qed.

Lemma registerAccess_plain i registerType excl :
  avoidMaskedMemoryRead i = false \/ excl = [] ->
  plainAccess i (Registers.memoryTypeOf (configVariant i) registerType)
    (if Avr8MemoryType.eqb (Registers.memoryTypeOf (configVariant i) registerType)
          Avr8MemoryType.SRAM
     then excl else []).
Proof.
  intros H. unfold plainAccess, driverSideMasking.
  destruct (memoryTypeOf_cases (configVariant i) registerType) as [-> | ->]; simpl.
  - split; [reflexivity |]. destruct H as [-> | ->]; [| reflexivity].
    destruct excl; reflexivity.
  - split; reflexivity.
Qed.

Lemma writeRegister_frame fuel reg i maximum response rest :
  writable maximum reg ->
  maximumMemoryAccessSize
    (Registers.memoryTypeOf (configVariant i)
       (TargetRegisterDescriptor.type (TargetRegister.descriptor reg))) i
  = (Ok maximum, i) ->
  maximum < 2 ^ 32 ->
  responses (edbgInterface i) = response :: rest ->
  failed response = false ->
  Registers.writeRegister (S fuel) reg i
  = (Ok tt, afterFrame (registerWrite (configVariant i) reg) rest i).
Proof.
  intros (Haddress & Hone & Hsize & Hfits) Hmax H32 Hresponse Hok.
  unfold TargetRegister.size in *.
  destruct (storedForm_spec (TargetRegisterDescriptor.size (TargetRegister.descriptor reg))
              (TargetRegister.value reg) Hsize) as (Hstored & Hlen).
  unfold Registers.writeRegister, registerWrite, startOf.
  destruct (length (TargetRegister.value reg) =? 0)%nat eqn:E0;
    [apply Nat.eqb_eq in E0; lia |].
  destruct (_ <? Z.of_nat (length (TargetRegister.value reg))) eqn:E1;
    [apply Z.ltb_lt in E1; lia |].
  unfold bind at 1, gets at 1.
  destruct (TargetRegisterDescriptor.startAddress (TargetRegister.descriptor reg))
    as [startAddress |]; [| congruence].
  unfold bind at 1, value at 1, ret at 1. rewrite Hstored.
  apply (writeMemory_one_frame fuel _ startAddress _ i maximum response rest);
    try assumption; try (rewrite length_rev, Hlen; lia).
  - pose proof (registerAccess_plain i
                  (TargetRegisterDescriptor.type (TargetRegister.descriptor reg)) []
                  (or_intror eq_refl)) as Hp.
    destruct (Avr8MemoryType.eqb _ _); exact Hp.
  - left. destruct (memoryTypeOf_cases (configVariant i)
                (TargetRegisterDescriptor.type (TargetRegister.descriptor reg))) as [-> | ->];
      reflexivity.
  - lia.
Qed.

Lemma writeRegister_refused fuel reg i :
  refused reg ->
  exists msg, Registers.writeRegister fuel reg i = (Err (Exception msg), i).
Proof.
  unfold refused, TargetRegister.size, Registers.writeRegister.
  intros [Hempty | Hlarge].
  - rewrite Hempty. simpl. eexists. reflexivity.
  - destruct (length (TargetRegister.value reg) =? 0)%nat; [eexists; reflexivity |].
    apply Z.ltb_lt in Hlarge. rewrite Hlarge. eexists. reflexivity.
Qed.

(** [writeRegisters] writes the registers in order, one access each: to
    the register file of an XMEGA or UPDI target for a general purpose
    register and to SRAM otherwise, at the register's address, the value
    filled with 0x00 at its most significant end and turned least
    significant byte first. It stops at the first register it refuses (an
    empty value, or one longer than the register): the registers before it
    have been written, the ones after it are not. *)
Theorem writeRegisters_one_write_each (fuel : nat) (maximum : Z)
    (accepted others : list TargetRegister.t) :
  forall (i : EdbgAvr8Interface) (rs rest : list Avr8ResponseFrame)
    (Haccepted : Forall (writable maximum) accepted)
    (Hothers : match others with [] => True | reg :: _ => refused reg end)
    (Hmax : forall registerType,
        maximumMemoryAccessSize (Registers.memoryTypeOf (configVariant i) registerType) i
        = (Ok maximum, i))
    (Hlimit : maximum < 2 ^ 32)
    (Hresponses : responses (edbgInterface i) = rs ++ rest)
    (Hanswered : length rs = length accepted /\ Forall (fun r => failed r = false) rs),
  exists r i',
    Registers.writeRegisters (S fuel) (accepted ++ others) i = (r, i')
    /\ wireOf i' = wireOf i ++ map (fun reg => Sent (registerWrite (configVariant i) reg))
                                  accepted
    /\ match others with
       | [] => r = Ok tt
       | _ :: _ => exists msg, r = Err (Exception msg)
       end.
Proof.
  induction accepted as [| reg regs IH]; intros i rs rest Hacc Hoth Hmax Hlimit Hresp (Hlen & Hok).
  - simpl. rewrite app_nil_r. destruct others as [| bad tail].
    + eexists _, _. split; [reflexivity | auto].
    + destruct (writeRegister_refused (S fuel) bad i Hoth) as (msg & Hbad).
      exists (Err (Exception msg)), i. simpl Registers.writeRegisters.
      unfold bind. rewrite Hbad. repeat split. eauto.
  - inversion Hacc as [| ? ? Hreg Hregs]; subst.
    destruct rs as [| response rs]; [discriminate |].
    inversion Hok as [| ? ? Hr Hrs]; subst. simpl in Hresp.
    pose proof (writeRegister_frame fuel reg i maximum response (rs ++ rest) Hreg
                  (Hmax _) Hlimit Hresp Hr) as Hstep.
    set (i1 := afterFrame (registerWrite (configVariant i) reg) (rs ++ rest) i) in *.
    destruct (IH i1 rs rest Hregs Hoth) as (r & i' & Hrun & Hwire & Hres); auto.
    + intros registerType.
      apply (maximumMemoryAccessSize_transfer _ i i1 maximum); [reflexivity | apply Hmax].
    + exists r, i'. split; [| split; [| exact Hres]].
      * change ((reg :: regs) ++ others) with (reg :: (regs ++ others)).
        change (Registers.writeRegisters (S fuel) (reg :: regs ++ others))
          with (bind (Registers.writeRegister (S fuel) reg)
                  (fun _ => Registers.writeRegisters (S fuel) (regs ++ others))).
        unfold bind at 1. rewrite Hstep. exact Hrun.
      * rewrite Hwire. unfold i1, wireOf, afterFrame. simpl.
        rewrite <- app_assoc. reflexivity.
Qed.

End RegisterWrites.

Section RegisterReads.

Import MemoryAccess.

Lemma placed_end descriptor address :
  placed descriptor ->
  TargetRegisterDescriptor.startAddress descriptor = Some address ->
  wrap32 (address + wrap32 (TargetRegisterDescriptor.size descriptor - 1))
  = endOf descriptor
  /\ startOf descriptor = address /\ 0 <= address <= endOf descriptor
  /\ endOf descriptor < 2 ^ 32.
Proof.
  unfold placed, endOf, startOf. intros Hp Ha. rewrite Ha in *.
  destruct Hp as (H0 & H1 & H2).
  rewrite (wrap32_small (TargetRegisterDescriptor.size descriptor - 1)) by lia.
  rewrite wrap32_small by lia. lia.
Qed.

Lemma groupOf_spec registerType :
  forall descriptors members (range : option Registers.AddressRange),
  Forall placed descriptors ->
  Forall placed members ->
  Forall (fun m => eligible registerType m = true) members ->
  spanned members range ->
  let result := Registers.groupOf registerType descriptors members range in
  fst result = members ++ filter (eligible registerType) descriptors
  /\ spanned (fst result) (snd result).
Proof.
  induction descriptors as [| descriptor rest IH]; intros members range Hds Hms Hel Hsp.
  - simpl. rewrite app_nil_r. auto.
  - inversion Hds as [| ? ? Hd Hrest]; subst.
    cbn [Registers.groupOf filter].
    assert (Hcase : eligible registerType descriptor
                    = match TargetRegisterDescriptor.startAddress descriptor with
                      | Some _ => TargetRegisterType.eqb
                                    (TargetRegisterDescriptor.type descriptor) registerType
                      | None => false
                      end) by reflexivity.
    destruct (TargetRegisterDescriptor.startAddress descriptor) as [address |] eqn:Ea;
      rewrite Hcase; clear Hcase.
    + destruct (TargetRegisterType.eqb (TargetRegisterDescriptor.type descriptor)
                  registerType) eqn:Et.
      * destruct (placed_end descriptor address Hd Ea) as (Hend & Hstart & Hrange & H32).
        rewrite Hend.
        assert (Hmember : eligible registerType descriptor = true)
          by (unfold eligible; rewrite Ea; exact Et).
        cbv zeta.
        specialize (IH (members ++ [descriptor])
                      (Some (Registers.grow range address (endOf descriptor))) Hrest).
        cbv zeta in IH. rewrite <- app_assoc in IH. apply IH.
        -- apply Forall_app. auto.
        -- apply Forall_app. auto.
        -- unfold spanned, Registers.grow.
           destruct range as [[first last] |]; simpl in Hsp.
           ++ destruct Hsp as (Hall & Hlo & Hhi).
              split; [| split].
              ** apply Forall_app. split.
                 --- eapply Forall_impl; [| exact Hall]. intros m (H1 & H2).
                     destruct (address <? first) eqn:E1; destruct (last <? endOf descriptor) eqn:E2;
                       try apply Z.ltb_lt in E1; try apply Z.ltb_lt in E2;
                       try apply Z.ltb_ge in E1; try apply Z.ltb_ge in E2; lia.
                 --- constructor; [| constructor].
                     destruct (address <? first) eqn:E1; destruct (last <? endOf descriptor) eqn:E2;
                       try apply Z.ltb_lt in E1; try apply Z.ltb_lt in E2;
                       try apply Z.ltb_ge in E1; try apply Z.ltb_ge in E2; lia.
              ** apply Exists_app. destruct (address <? first) eqn:E1.
                 --- right. constructor. exact Hstart.
                 --- left. exact Hlo.
              ** apply Exists_app. destruct (last <? endOf descriptor) eqn:E2.
                 --- right. constructor. reflexivity.
                 --- left. exact Hhi.
           ++ subst members. simpl. repeat split.
              ** constructor; [lia | constructor].
              ** constructor. exact Hstart.
              ** constructor. reflexivity.
      * apply IH; auto.
    + apply IH; auto.
Qed.

Lemma extractAll_ok memory first : forall (l : list TargetRegisterDescriptor.t) i,
  Forall (fun m => TargetRegisterDescriptor.startAddress m <> None
                   /\ first <= startOf m
                   /\ startOf m - first < 2 ^ 32
                   /\ startOf m - first + TargetRegisterDescriptor.size m
                      <= Z.of_nat (length memory)) l ->
  Registers.extractAll memory first l i = (Ok (map (valueIn memory first) l), i).
Proof.
  induction l as [| m l IH]; intros i Hall; [reflexivity |].
  inversion Hall as [| ? ? (Ha & Hlo & H32 & Hin) Hrest]; subst.
  cbn [Registers.extractAll map]. unfold bind at 1, Registers.extract at 1.
  unfold startOf in *.
  destruct (TargetRegisterDescriptor.startAddress m) as [a |] eqn:Ea; [| congruence].
  unfold bind at 1, value at 1, ret at 1.
  rewrite (wrap32_small (a - first)) by lia.
  destruct (_ <=? _) eqn:E; [| apply Z.leb_gt in E; lia].
  unfold ret at 1. unfold bind at 1. rewrite (IH i Hrest). unfold ret, valueIn, startOf.
  rewrite Ea. reflexivity.
Qed.

Variable byPointer : list TargetRegisterDescriptor.t -> list TargetRegisterDescriptor.t.
Hypothesis HbyPointer : forall l, Permutation (byPointer l) l.

Lemma readGroup_frame fuel further registerType members first last i maximum response rest :
  Forall placed members ->
  Forall (fun m => eligible registerType m = true) members ->
  spanned members (Some (first, last)) ->
  avoidMaskedMemoryRead i = false ->
  maximumMemoryAccessSize (Registers.memoryTypeOf (configVariant i) registerType) i
  = (Ok maximum, i) ->
  span (first, last) <= maximum -> maximum < 2 ^ 32 ->
  responses (edbgInterface i) = response :: rest ->
  failed response = false ->
  Z.of_nat (length (memoryData response)) = span (first, last) ->
  Registers.readGroup byPointer (S fuel) further registerType members (first, last) i
  = (Ok (map (valueIn (memoryData response) first) (byPointer members)),
     afterFrame (groupRead (configVariant i) further (registerType, members, (first, last)))
       rest i).
Proof.
  intros Hplaced Hel (Hall & Hlo & Hhi) Hmask Hmax Hfits H32 Hresp Hok Hlen.
  unfold span in *. cbn [fst snd] in *.
  assert (Hbounds : 0 <= first <= last /\ last < 2 ^ 32).
  { apply Exists_exists in Hlo. destruct Hlo as (m1 & Hin1 & H1).
    apply Exists_exists in Hhi. destruct Hhi as (m2 & Hin2 & H2).
    rewrite Forall_forall in Hplaced, Hel, Hall.
    pose proof (Hplaced m1 Hin1) as Hp1. pose proof (Hel m1 Hin1) as He1.
    pose proof (Hplaced m2 Hin2) as Hp2. pose proof (Hel m2 Hin2) as He2.
    pose proof (Hall m2 Hin2) as Ha2.
    unfold eligible in He1, He2.
    destruct (TargetRegisterDescriptor.startAddress m1) as [a1 |] eqn:E1; [| discriminate].
    destruct (TargetRegisterDescriptor.startAddress m2) as [a2 |] eqn:E2; [| discriminate].
    destruct (placed_end m1 a1 Hp1 E1) as (_ & Hs1 & Hr1 & _).
    destruct (placed_end m2 a2 Hp2 E2) as (_ & Hs2 & Hr2 & Hl2).
    lia. }
  unfold Registers.readGroup.
  rewrite (wrap32_small (last - first)) by lia.
  rewrite (wrap32_small (last - first + 1)) by lia.
  unfold bind at 1, gets at 1. unfold bind at 1.
  rewrite (readMemory_one_frame fuel _ first (last - first + 1) _ i maximum response rest);
    try assumption; try lia.
  - rewrite Hlen, Z.eqb_refl. cbn [negb].
    rewrite extractAll_ok; [reflexivity |].
    rewrite Forall_forall. intros m Hin.
    apply (Permutation_in _ (HbyPointer members)) in Hin.
    rewrite Forall_forall in Hplaced, Hel, Hall.
    pose proof (Hplaced m Hin) as Hp. pose proof (Hel m Hin) as He.
    destruct (Hall m Hin) as (H1 & H2).
    unfold eligible in He.
    destruct (TargetRegisterDescriptor.startAddress m) as [a |] eqn:Ea; [| discriminate].
    destruct (placed_end m a Hp Ea) as (_ & Hs & Hr & Hl).
    unfold endOf in *. repeat split; try lia. congruence.
  - unfold Registers.excludedAddressesFor.
    destruct (Edbg.ocdDataRegister further) as [ocd |].
    + apply (registerAccess_plain i registerType _ (or_introl Hmask)).
    + pose proof (registerAccess_plain i registerType [] (or_intror eq_refl)) as Hp.
      destruct (Avr8MemoryType.eqb _ _); exact Hp.
  - left. destruct (memoryTypeOf_cases (configVariant i) registerType) as [-> | ->];
      reflexivity.
Qed.

Lemma group_of_type registerType descriptors :
  Forall placed descriptors ->
  let result := Registers.groupOf registerType descriptors [] None in
  fst result = filter (eligible registerType) descriptors
  /\ Forall placed (fst result)
  /\ Forall (fun m => eligible registerType m = true) (fst result)
  /\ spanned (fst result) (snd result).
Proof.
  intros Hds.
  destruct (groupOf_spec registerType descriptors [] None Hds) as (Hfst & Hsp);
    [constructor | constructor | reflexivity |].
  cbv zeta. rewrite app_nil_l in Hfst. rewrite Hfst in *. repeat split; auto.
  - rewrite Forall_forall in *. intros m Hin. apply filter_In in Hin. apply Hds, Hin.
  - rewrite Forall_forall. intros m Hin. apply filter_In in Hin. apply Hin.
Qed.

Lemma readGroups_frames fuel further descriptors maximum :
  Forall placed descriptors ->
  maximum < 2 ^ 32 ->
  forall types i rs rest,
    let groups :=
      flat_map (fun registerType =>
                  match Registers.groupOf registerType descriptors [] None with
                  | (members, Some range) => [(registerType, members, range)]
                  | (_, None) => []
                  end) types in
    avoidMaskedMemoryRead i = false ->
    (forall registerType,
        maximumMemoryAccessSize (Registers.memoryTypeOf (configVariant i) registerType) i
        = (Ok maximum, i)) ->
    Forall (fun group => span (snd group) <= maximum) groups ->
    responses (edbgInterface i) = rs ++ rest ->
    answersGroups rs groups ->
    exists i',
      Registers.readGroups byPointer (S fuel) further types descriptors i
      = (Ok (registersFrom byPointer groups rs), i')
      /\ wireOf i' = wireOf i
                     ++ map (fun group => Sent (groupRead (configVariant i) further group))
                          groups.
Proof.
  intros Hds H32. induction types as [| registerType types IH];
    intros i rs rest groups Hmask Hmax Hfits Hresp Hans.
  - exists i. subst groups. simpl. inversion Hans; subst. simpl.
    rewrite app_nil_r. auto.
  - subst groups. cbn [flat_map Registers.readGroups] in *.
    destruct (group_of_type registerType descriptors Hds) as (_ & Hpl & Hel & Hsp).
    destruct (Registers.groupOf registerType descriptors [] None)
      as [members [[first last] |]] eqn:Egroup; cbn [fst snd] in *.
    + cbn [app] in *.
      inversion Hans as [| response ? rs' ? (Hok & Hlen) Hans']; subst.
      inversion Hfits as [| ? ? Hfit Hfits']; subst. cbn [fst snd] in *.
      simpl in Hresp.
      pose proof (readGroup_frame fuel further registerType members first last i maximum
                    response (rs' ++ rest) Hpl Hel Hsp Hmask (Hmax registerType) Hfit H32
                    Hresp Hok Hlen) as Hstep.
      set (i1 := afterFrame (groupRead (configVariant i) further
                               (registerType, members, (first, last))) (rs' ++ rest) i) in *.
      destruct (IH i1 rs' rest) as (i' & Hrun & Hwire); auto.
      * intros t. apply (maximumMemoryAccessSize_transfer _ i i1 maximum);
          [reflexivity | apply Hmax].
      * exists i'. split.
        -- unfold bind at 1. rewrite Hstep. unfold bind at 1. rewrite Hrun. reflexivity.
        -- rewrite Hwire. unfold i1 at 1. unfold wireOf, afterFrame.
           cbn [edbgInterface with_edbgInterface wire map].
           rewrite <- app_assoc. reflexivity.
    + cbn [app] in *. apply (IH i rs rest); auto.
Qed.

(** On an interface that leaves the masking of excluded addresses to the
    tool ([avoidMaskedMemoryRead] off), for descriptors whose registers lie
    within the 32-bit address space and whose span, for every register
    type, is no longer than one memory access, from a tool that answers
    every read with as many bytes as were asked for: [readRegisters] makes
    one read for every register type of which a descriptor has a start
    address, over the range that the registers of the type span, and takes
    every register out of the answer, most significant byte first.
    Descriptors without a start address are passed over. *)
Theorem readRegisters_one_read_per_type (fuel : nat) (further : Edbg.FurtherParameters)
    (descriptors : list TargetRegisterDescriptor.t) (maximum : Z)
    (i : EdbgAvr8Interface) (rs rest : list Avr8ResponseFrame)
    (Hplaced : Forall placed descriptors)
    (Hmask : avoidMaskedMemoryRead i = false)
    (Hmax : forall registerType,
        maximumMemoryAccessSize (Registers.memoryTypeOf (configVariant i) registerType) i
        = (Ok maximum, i))
    (Hfits : Forall (fun group => span (snd group) <= maximum) (groupsOf descriptors)
             /\ maximum < 2 ^ 32)
    (Hresponses : responses (edbgInterface i) = rs ++ rest)
    (Hanswers : answersGroups rs (groupsOf descriptors)) :
  exists i',
    Registers.readRegisters byPointer (S fuel) further descriptors i
    = (Ok (registersFrom byPointer (groupsOf descriptors) rs), i')
    /\ wireOf i' = wireOf i
                   ++ map (fun group => Sent (groupRead (configVariant i) further group))
                        (groupsOf descriptors).
Proof.
  destruct Hfits as (Hfits & H32).
  exact (readGroups_frames fuel further descriptors maximum Hplaced H32
           TargetRegisterType.all i rs rest Hmask Hmax Hfits Hresponses Hanswers).
Qed.

(** The range [readRegisters] reads for a register type runs from the
    least start address to the greatest end address of the descriptors of
    the type that have a start address, which are the members of the
    group. *)
Theorem groupsOf_spans (descriptors : list TargetRegisterDescriptor.t)
    (Hplaced : Forall placed descriptors) :
  Forall (fun '(registerType, members, range) =>
            members = filter (eligible registerType) descriptors
            /\ members <> []
            /\ spanned members (Some range))
    (groupsOf descriptors).
Proof.
  unfold groupsOf. generalize TargetRegisterType.all. intros types.
  induction types as [| registerType types IH]; [constructor |].
  cbn [flat_map].
  destruct (group_of_type registerType descriptors Hplaced) as (Hfst & _ & _ & Hsp).
  destruct (Registers.groupOf registerType descriptors [] None)
    as [members [range |]]; cbn [fst snd app] in *; [| exact IH].
  constructor; [| exact IH].
  split; [exact Hfst |]. split; [| exact Hsp].
  destruct range as [first last]. destruct Hsp as (_ & Hex & _).
  intros ->. inversion Hex.
Qed.

End RegisterReads.

Lemma writeRegisters_one_write_each_witness :
  let i := registerInterface [okResponse; okResponse] in
  let r1 := {| TargetRegister.descriptor :=
                 exampleRegister TargetRegisterType.GENERAL_PURPOSE_REGISTER (Some 1) 1;
               TargetRegister.value := [7] |} in
  let sp := {| TargetRegister.descriptor :=
                 exampleRegister TargetRegisterType.STACK_POINTER (Some 93) 2;
               TargetRegister.value := [8] |} in
  let none := {| TargetRegister.descriptor :=
                   exampleRegister TargetRegisterType.STATUS_REGISTER (Some 95) 1;
                 TargetRegister.value := [] |} in
  exists r i',
    Registers.writeRegisters 4 ([r1; sp] ++ [none; r1]) i = (r, i')
    /\ wireOf i'
       = wireOf i
         ++ [Sent (CommandFrames.WriteMemory Avr8MemoryType.REGISTER_FILE 1 [7]);
             Sent (CommandFrames.WriteMemory Avr8MemoryType.SRAM 93 [8; 0])]
    /\ exists msg, r = Err (Exception msg).
Proof.
  intros i r1 sp none.
  apply (writeRegisters_one_write_each 3 68 [r1; sp] [none; r1] i
           [okResponse; okResponse] []).
  - repeat constructor; try discriminate; unfold TargetRegister.size; simpl; lia.
  - left. reflexivity.
  - intros []; reflexivity.
  - lia.
  - reflexivity.
  - split; [reflexivity | repeat constructor].
Defined.

Lemma readRegisters_one_read_per_type_witness :
  let i := registerInterface [dataResponse [10; 11]; dataResponse [255; 8];
                              dataResponse [128]] in
  exists i',
    Registers.readRegisters inListOrder 4 exampleFurther exampleRegisters i
    = (Ok (registersFrom inListOrder (groupsOf exampleRegisters)
             [dataResponse [10; 11]; dataResponse [255; 8]; dataResponse [128]]), i')
    /\ wireOf i'
       = wireOf i
         ++ [Sent (CommandFrames.ReadMemory Avr8MemoryType.REGISTER_FILE 0 2 []);
             Sent (CommandFrames.ReadMemory Avr8MemoryType.SRAM 93 2 [81]);
             Sent (CommandFrames.ReadMemory Avr8MemoryType.SRAM 95 1 [81])].
Proof.
  intros i.
  apply (readRegisters_one_read_per_type inListOrder (fun l => Permutation_refl l)
           3 exampleFurther exampleRegisters 68 i
           [dataResponse [10; 11]; dataResponse [255; 8]; dataResponse [128]] []).
  - repeat constructor; unfold placed; simpl; lia.
  - reflexivity.
  - intros []; reflexivity.
  - split; [repeat constructor; vm_compute; discriminate | lia].
  - reflexivity.
  - repeat constructor.
Defined.

Lemma groupsOf_spans_witness :
  Forall (fun '(registerType, members, range) =>
            members = filter (eligible registerType) exampleRegisters
            /\ members <> []
            /\ spanned members (Some range))
    (groupsOf exampleRegisters).
Proof.
  apply (groupsOf_spans exampleRegisters).
  repeat constructor; unfold placed; simpl; lia.
Defined.

Lemma groupsOf_single descriptor address :
  placed descriptor ->
  TargetRegisterDescriptor.startAddress descriptor = Some address ->
  groupsOf [descriptor]
  = [(TargetRegisterDescriptor.type descriptor, [descriptor], (address, endOf descriptor))].
Proof.
  intros Hp Ha. destruct (placed_end descriptor address Hp Ha) as (Hend & _).
  unfold groupsOf, TargetRegisterType.all. cbn [flat_map Registers.groupOf].
  rewrite Ha, Hend.
  destruct (TargetRegisterDescriptor.type descriptor); reflexivity.
Qed.

(** On an interface that leaves the masking of excluded addresses to the
    tool ([avoidMaskedMemoryRead] off): a register with a start address,
    within the 32-bit address space and no longer than one memory access,
    given a value of at least one byte and no more bytes than the register
    has, written by [writeRegisters] and read back by [readRegisters] from
    a tool that accepts the write and answers the read with the bytes it
    was given, has the value that was written, filled with 0x00 at its
    most significant end up to the size of the register. *)
Theorem register_write_then_read
    (byPointer : list TargetRegisterDescriptor.t -> list TargetRegisterDescriptor.t)
    (HbyPointer : forall l, Permutation (byPointer l) l)
    (fuel : nat) (further : Edbg.FurtherParameters) (reg : TargetRegister.t)
    (maximum : Z) (i : EdbgAvr8Interface)
    (written echo : Avr8ResponseFrame) (rest : list Avr8ResponseFrame)
    (Hwritable : writable maximum reg)
    (Hplaced : placed (TargetRegister.descriptor reg))
    (Hmask : avoidMaskedMemoryRead i = false)
    (Hmax : forall registerType,
        MemoryAccess.maximumMemoryAccessSize
          (Registers.memoryTypeOf (configVariant i) registerType) i
        = (Ok maximum, i))
    (Hlimit : maximum < 2 ^ 32)
    (Hresponses : responses (edbgInterface i) = written :: echo :: rest)
    (Hwritten : failed written = false)
    (Hecho : failed echo = false
             /\ CommandFrames.WriteMemory
                  (Registers.memoryTypeOf (configVariant i)
                     (TargetRegisterDescriptor.type (TargetRegister.descriptor reg)))
                  (startOf (TargetRegister.descriptor reg)) (memoryData echo)
                = registerWrite (configVariant i) reg) :
  exists i1 i2,
    Registers.writeRegisters (S fuel) [reg] i = (Ok tt, i1)
    /\ Registers.readRegisters byPointer (S fuel) further [TargetRegister.descriptor reg] i1
       = (Ok [{| TargetRegister.descriptor := TargetRegister.descriptor reg;
                 TargetRegister.value :=
                   zeroExtended (TargetRegisterDescriptor.size (TargetRegister.descriptor reg))
                     (TargetRegister.value reg) |}], i2).
Proof.
  destruct Hecho as (Hok & Hsame).
  pose proof (writeRegister_frame fuel reg i maximum written (echo :: rest)
                Hwritable (Hmax _) Hlimit Hresponses Hwritten) as Hwrite.
  set (i1 := afterFrame (registerWrite (configVariant i) reg) (echo :: rest) i) in *.
  destruct Hwritable as (Haddress & Hone & Hsize & Hfits).
  unfold TargetRegister.size in *.
  set (descriptor := TargetRegister.descriptor reg) in *.
  destruct (TargetRegisterDescriptor.startAddress descriptor) as [address |] eqn:Ea;
    [| congruence].
  destruct (storedForm_spec (TargetRegisterDescriptor.size descriptor)
              (TargetRegister.value reg) Hsize) as (_ & Hlen).
  assert (Hdata : memoryData echo
                  = rev (zeroExtended (TargetRegisterDescriptor.size descriptor)
                           (TargetRegister.value reg))).
  { unfold registerWrite in Hsame. fold descriptor in Hsame. congruence. }
  destruct (placed_end descriptor address Hplaced Ea) as (_ & Hstart & Hrange & H32).
  pose proof (groupsOf_single descriptor address Hplaced Ea) as Hgroups.
  pose proof (readGroups_frames byPointer HbyPointer fuel further [descriptor] maximum
                (Forall_cons _ Hplaced (Forall_nil _)) Hlimit TargetRegisterType.all
                i1 [echo] rest) as Hread.
  cbv zeta in Hread. fold (groupsOf [descriptor]) in Hread. rewrite Hgroups in Hread.
  destruct Hread as (i2 & Hread & _).
  - exact Hmask.
  - intros t. apply (maximumMemoryAccessSize_transfer _ i i1 maximum);
      [reflexivity | apply Hmax].
  - constructor; [| constructor]. unfold span, endOf. cbn [fst snd]. lia.
  - reflexivity.
  - constructor; [| constructor]. split; [exact Hok |].
    rewrite Hdata, length_rev, Hlen. unfold span, endOf. cbn [fst snd]. lia.
  - exists i1, i2. split.
    + cbn [Registers.writeRegisters]. unfold bind. rewrite Hwrite. reflexivity.
    + unfold Registers.readRegisters. rewrite Hread. unfold registersFrom. cbn [combine flat_map fst snd].
      rewrite (Permutation_length_1_inv (Permutation_sym (HbyPointer [descriptor]))).
      cbn [map app]. unfold valueIn. rewrite Hstart, Z.sub_diag. cbn [Z.to_nat skipn].
      rewrite Hdata, firstn_all2, rev_involutive; [reflexivity |].
      rewrite length_rev. lia.
Qed.

Lemma register_write_then_read_witness :
  let sp := {| TargetRegister.descriptor :=
                 exampleRegister TargetRegisterType.STACK_POINTER (Some 93) 2;
               TargetRegister.value := [8] |} in
  let i := registerInterface [okResponse; dataResponse [8; 0]] in
  exists i1 i2,
    Registers.writeRegisters 4 [sp] i = (Ok tt, i1)
    /\ Registers.readRegisters inListOrder 4 exampleFurther [TargetRegister.descriptor sp] i1
       = (Ok [{| TargetRegister.descriptor := TargetRegister.descriptor sp;
                 TargetRegister.value := [0; 8] |}], i2).
Proof.
  intros sp i.
  apply (register_write_then_read inListOrder (fun l => Permutation_refl l) 3
           exampleFurther sp 68 i okResponse (dataResponse [8; 0]) []).
  - repeat split; try discriminate; unfold TargetRegister.size; simpl; lia.
  - unfold placed; simpl; lia.
  - reflexivity.
  - intros []; reflexivity.
  - lia.
  - reflexivity.
  - reflexivity.
  - split; reflexivity.
Defined.

(** ** The target over its debug interface *)

Lemma lor_disjoint k n b :
  0 <= n -> 0 <= b < 2 ^ n -> Z.lor (k * 2 ^ n) b = k * 2 ^ n + b.
Proof.
  intros Hn Hb.
  assert (Hland : Z.land (k * 2 ^ n) b = 0).
  { apply Z.bits_inj'. intros i Hi. rewrite Z.land_spec, Z.bits_0.
    destruct (Z.lt_ge_cases i n) as [Hlt | Hge].
    - rewrite Z.mul_pow2_bits_low by lia. reflexivity.
    - rewrite <- (Z.mod_small b (2 ^ n)) by lia.
      rewrite Z.mod_pow2_bits_high by lia. apply andb_false_r. }
  rewrite <- Z.lxor_lor by exact Hland. symmetry. apply Z.add_nocarry_lxor. exact Hland.
Qed.

Lemma programCounter_of_bytes b0 b1 b2 b3 :
  isByte b0 -> isByte b1 -> isByte b2 -> isByte b3 ->
  wrap32 (Z.lor (Z.lor (Z.lor (Avr8Target.toInt (Z.shiftl b0 24))
                          (Avr8Target.toInt (Z.shiftl b1 16)))
                   (Avr8Target.toInt (Z.shiftl b2 8))) b3)
  = bigEndian [b0; b1; b2; b3].
Proof.
  unfold isByte, bigEndian. intros H0 H1 H2 H3. cbn [fold_left].
  rewrite !Z.shiftl_mul_pow2 by lia.
  assert (Hb : Avr8Target.toInt (b1 * 2 ^ 16) = b1 * 2 ^ 16)
    by (unfold Avr8Target.toInt; rewrite Z.mod_small; lia).
  assert (Hc : Avr8Target.toInt (b2 * 2 ^ 8) = b2 * 2 ^ 8)
    by (unfold Avr8Target.toInt; rewrite Z.mod_small; lia).
  assert (Ha : exists k, Avr8Target.toInt (b0 * 2 ^ 24) = k * 2 ^ 24
                         /\ (k = b0 \/ k = b0 - 256)).
  { unfold Avr8Target.toInt. destruct (Z.lt_ge_cases b0 128).
    - exists b0. rewrite Z.mod_small by lia. split; lia.
    - exists (b0 - 256). split; [| lia].
      replace (b0 * 2 ^ 24 + 2 ^ 31) with ((b0 * 2 ^ 24 - 2 ^ 31) + 1 * 2 ^ 32) by lia.
      rewrite Z.mod_add by lia. rewrite Z.mod_small by lia. lia. }
  destruct Ha as (k & -> & Hk). rewrite Hb, Hc.
  rewrite (lor_disjoint k 24 (b1 * 2 ^ 16)) by lia.
  replace (k * 2 ^ 24 + b1 * 2 ^ 16) with ((k * 2 ^ 8 + b1) * 2 ^ 16) by lia.
  rewrite (lor_disjoint _ 16 (b2 * 2 ^ 8)) by lia.
  replace ((k * 2 ^ 8 + b1) * 2 ^ 16 + b2 * 2 ^ 8)
    with (((k * 2 ^ 8 + b1) * 2 ^ 8 + b2) * 2 ^ 8) by lia.
  rewrite (lor_disjoint _ 8 b3) by lia.
  unfold wrap32. destruct Hk as [-> | ->].
  - rewrite Z.mod_small; lia.
  - replace ((((b0 - 256) * 2 ^ 8 + b1) * 2 ^ 8 + b2) * 2 ^ 8 + b3)
      with ((((b0 * 256 + b1) * 256 + b2) * 256 + b3) + (-1) * 2 ^ 32) by lia.
    rewrite Z.mod_add by lia. rewrite Z.mod_small; lia.
Qed.

Lemma programCounter_bytes programCounter :
  0 <= programCounter < 2 ^ 32 ->
  let bytes := [wrap8 (Z.shiftr programCounter 24); wrap8 (Z.shiftr programCounter 16);
                wrap8 (Z.shiftr programCounter 8); wrap8 programCounter] in
  Forall isByte bytes /\ bigEndian bytes = programCounter.
Proof.
  intros Hpc bytes. subst bytes. unfold wrap8, isByte, bigEndian. cbn [fold_left].
  rewrite !Z.shiftr_div_pow2 by lia.
  split.
  - repeat constructor; apply Z.mod_pos_bound; lia.
  - change (2 ^ 24) with 16777216. change (2 ^ 16) with 65536. change (2 ^ 8) with 256.
    Z.div_mod_to_equations. lia.
Qed.

Lemma callsSince_app {D} (s s' : Avr8Target.Session D) l :
  Avr8Target.calls s' = Avr8Target.calls s ++ l -> callsSince s s' = l.
Proof.
  unfold callsSince. intros ->. rewrite skipn_app, skipn_all, Nat.sub_diag. reflexivity.
Qed.

Section Target.

Context {D : Type} {avr8DebugInterface : DebugInterface.Avr8DebugInterface D}.

Lemma debugCall_inv {A} (m : M D A) (record : Res A -> DebugInterface.DebugCall) s r s' :
  Avr8Target.call m record s = (r, s') ->
  Avr8Target.calls s' = Avr8Target.calls s ++ [record r]
  /\ Avr8Target.progModeEnabled s' = Avr8Target.progModeEnabled s.
Proof.
  unfold Avr8Target.call. destruct (m (Avr8Target.debugInterface s)) as [r0 d].
  intros H. inversion H; subst. split; reflexivity.
Qed.

Lemma programCounterOf_padded (registerValue : list Z) (s : Avr8Target.Session D) :
  Forall isByte registerValue ->
  Avr8Target.programCounterOf
    (if Z.of_nat (length registerValue) <? 4
     then repeat 0 (4 - length registerValue) ++ registerValue
     else registerValue) s
  = (Ok (bigEndian (firstn 4 registerValue)), s).
Proof.
  intros Hbytes.
  assert (Hzero : isByte 0) by (unfold isByte; lia).
  destruct registerValue as [| b0 [| b1 [| b2 [| b3 rest]]]];
    repeat (let Hb := fresh "Hb" in
            apply Forall_cons_iff in Hbytes; destruct Hbytes as [Hb Hbytes]);
    match goal with
    | |- context [Z.of_nat (length ?v) <? 4] =>
        destruct (Z.of_nat (length v) <? 4) eqn:E;
        [apply Z.ltb_lt in E | apply Z.ltb_ge in E];
        cbn [length] in E; try lia
    end;
    cbn [length repeat app Nat.sub firstn Avr8Target.programCounterOf];
    unfold ret; rewrite programCounter_of_bytes by assumption;
    unfold bigEndian; cbn [fold_left]; do 2 f_equal; lia.
Qed.

Lemma routeProgramCounter_inv registers : forall s r s1,
  Forall (fun reg => Forall isByte (TargetRegister.value reg)) registers ->
  Avr8Target.routeProgramCounter registers s = (r, s1) ->
  exists results,
    Avr8Target.calls s1 = Avr8Target.calls s ++ setProgramCounterCalls results
    /\ match r with
       | Ok others =>
           others = filter (fun reg => negb (isProgramCounter reg)) registers
           /\ map fst results = map programCounterIn (filter isProgramCounter registers)
           /\ Forall (fun result => snd result = Ok tt) results
       | _ =>
           exists n, map fst results
                     = firstn n (map programCounterIn (filter isProgramCounter registers))
       end.
Proof.
  induction registers as [| reg rest IH]; intros s r s1 Hbytes Hrun.
  - inversion Hrun; subst. exists []. simpl. rewrite app_nil_r. auto.
  - inversion Hbytes as [| ? ? Hreg Hrest]; subst.
    cbn [Avr8Target.routeProgramCounter filter] in *.
    fold (isProgramCounter reg) in *.
    destruct (isProgramCounter reg) eqn:Epc; cbn [negb].
    + unfold bind at 1 in Hrun. rewrite (programCounterOf_padded _ s Hreg) in Hrun.
      apply bind_inv in Hrun.
      destruct Hrun as [([] & s2 & Hcall & Hrun) | [(e & Hcall & ->) | (Hcall & ->)]].
      * apply debugCall_inv in Hcall. destruct Hcall as (Hcalls & _).
        destruct (IH s2 r s1 Hrest Hrun) as (results & Hlog & Hres).
        exists ((programCounterIn reg, Ok tt) :: results). split.
        -- rewrite Hlog, Hcalls, <- app_assoc. reflexivity.
        -- destruct r as [others | e |].
           ++ destruct Hres as (-> & Hpcs & Hok). repeat split.
              ** cbn [map fst]. rewrite Hpcs. reflexivity.
              ** constructor; [reflexivity | exact Hok].
           ++ destruct Hres as (n & Hn). exists (S n). cbn [map fst firstn]. congruence.
           ++ destruct Hres as (n & Hn). exists (S n). cbn [map fst firstn]. congruence.
      * apply debugCall_inv in Hcall. destruct Hcall as (Hcalls & _).
        exists [(programCounterIn reg, Err e)]. split; [exact Hcalls |].
        exists 1%nat. reflexivity.
      * apply debugCall_inv in Hcall. destruct Hcall as (Hcalls & _).
        exists [(programCounterIn reg, OutOfFuel)]. split; [exact Hcalls |].
        exists 1%nat. reflexivity.
    + apply bind_inv in Hrun.
      destruct Hrun as [(others & s2 & Hrest' & Hrun) | [(e & Hrest' & ->) | (Hrest' & ->)]].
      * inversion Hrun; subst.
        destruct (IH s (Ok others) s1 Hrest Hrest') as (results & Hlog & -> & Hpcs & Hok).
        exists results. auto.
      * exact (IH s (Err e) s1 Hrest Hrest').
      * exact (IH s OutOfFuel s1 Hrest Hrest').
Qed.

(** [Avr8::writeRegisters] sets the program counter for every program
    counter register, in order, to the number its first four bytes write
    most significant byte first, and then hands the other registers to the
    debug interface in one call, which it does not make when there are
    none. *)
Theorem writeRegisters_routes_program_counter (registers : list TargetRegister.t)
    (s s' : Avr8Target.Session D) (r : Res unit)
    (Hbytes : Forall (fun reg => Forall isByte (TargetRegister.value reg)) registers)
    (Hcall : Avr8Target.writeRegisters registers s = (r, s')) :
  let programCounters := map programCounterIn (filter isProgramCounter registers) in
  let others := filter (fun reg => negb (isProgramCounter reg)) registers in
  exists results written,
    callsSince s s' = setProgramCounterCalls results ++ written
    /\ (exists n, map fst results = firstn n programCounters)
    /\ (written = [] \/ written = [DebugInterface.WriteRegisters others r])
    /\ (r = Ok tt -> map fst results = programCounters /\ (written = [] <-> others = [])).
Proof.
  intros programCounters others. unfold Avr8Target.writeRegisters in Hcall.
  apply bind_inv in Hcall.
  destruct Hcall as [(rest & s1 & Hroute & Hcall) | [(e & Hroute & ->) | (Hroute & ->)]];
    destruct (routeProgramCounter_inv registers _ _ _ Hbytes Hroute) as (results & Hlog & Hres).
  - destruct Hres as (Hrest & Hpcs & _). fold others in Hrest. fold programCounters in Hpcs.
    destruct rest as [| reg rest'].
    + inversion Hcall; subst s' r. exists results, []. rewrite app_nil_r.
      split; [exact (callsSince_app _ _ _ Hlog) |].
      split; [exists (length programCounters); rewrite firstn_all; exact Hpcs |].
      split; [auto |]. intros _. split; [exact Hpcs |]. split; auto.
    + apply debugCall_inv in Hcall. destruct Hcall as (Hcalls & _).
      exists results, [DebugInterface.WriteRegisters (reg :: rest') r].
      split; [apply callsSince_app; rewrite Hcalls, Hlog, <- app_assoc; reflexivity |].
      split; [exists (length programCounters); rewrite firstn_all; exact Hpcs |].
      split; [right; rewrite Hrest; reflexivity |].
      intros _. split; [exact Hpcs |]. rewrite <- Hrest. split; discriminate.
  - destruct Hres as (n & Hn). exists results, []. rewrite app_nil_r.
    split; [exact (callsSince_app _ _ _ Hlog) |]. split; [eauto |]. split; [auto |].
    discriminate.
  - destruct Hres as (n & Hn). exists results, []. rewrite app_nil_r.
    split; [exact (callsSince_app _ _ _ Hlog) |]. split; [eauto |]. split; [auto |].
    discriminate.
Qed.

(** The register [Avr8::getProgramCounterRegister] returns holds the
    program counter of the debug interface in four bytes; written back
    through [Avr8::writeRegisters], it sets the program counter to that
    value and nothing else reaches the debug interface. *)
Theorem program_counter_register_round_trip (s s1 s2 : Avr8Target.Session D)
    (reg : TargetRegister.t)
    (Hread : Avr8Target.getProgramCounterRegister s = (Ok reg, s1)) :
  exists programCounter,
    callsSince s s1 = [DebugInterface.GetProgramCounter (Ok programCounter)]
    /\ length (TargetRegister.value reg) = 4%nat
    /\ (0 <= programCounter < 2 ^ 32 ->
        programCounterIn reg = programCounter
        /\ exists r s3,
             Avr8Target.writeRegisters [reg] s2 = (r, s3)
             /\ callsSince s2 s3 = [DebugInterface.SetProgramCounter programCounter r]).
Proof.
  unfold Avr8Target.getProgramCounterRegister in Hread.
  apply bind_inv in Hread.
  destruct Hread as [(pc & s0 & Hcall & Hret) | [(e & _ & ?) | (_ & ?)]]; try discriminate.
  destruct (Avr8Target.call DebugInterface.getProgramCounter DebugInterface.GetProgramCounter s)
    as [r0 s0'] eqn:Ecall.
  pose proof (debugCall_inv _ _ _ _ _ Ecall) as (Hcalls & _).
  inversion Hcall; subst r0 s0'. inversion Hret; subst reg s1. clear Hcall Hret.
  exists pc. split; [exact (callsSince_app _ _ _ Hcalls) |]. split; [reflexivity |].
  intros Hpc. destruct (programCounter_bytes pc Hpc) as (Hbytes & Hvalue).
  split; [exact Hvalue |].
  cbn [Avr8Target.writeRegisters Avr8Target.routeProgramCounter TargetRegister.descriptor
       TargetRegisterDescriptor.type TargetRegisterDescriptor.ofType TargetRegisterType.eqb
       TargetRegister.value].
  unfold Avr8Target.writeRegisters, Avr8Target.routeProgramCounter.
  cbn [TargetRegister.descriptor TargetRegisterDescriptor.type
       TargetRegisterDescriptor.ofType TargetRegisterType.eqb TargetRegister.value].
  unfold bind at 1. unfold bind at 1.
  rewrite (programCounterOf_padded _ s2 Hbytes).
  change (firstn 4 [wrap8 (Z.shiftr pc 24); wrap8 (Z.shiftr pc 16);
                    wrap8 (Z.shiftr pc 8); wrap8 pc])
    with [wrap8 (Z.shiftr pc 24); wrap8 (Z.shiftr pc 16); wrap8 (Z.shiftr pc 8); wrap8 pc].
  rewrite Hvalue. unfold bind at 1.
  destruct (Avr8Target.call (DebugInterface.setProgramCounter pc)
              (DebugInterface.SetProgramCounter pc) s2) as [r3 s3] eqn:Eset.
  pose proof (debugCall_inv _ _ _ _ _ Eset) as (Hset & _).
  destruct r3 as [[] | e |]; eexists _, _; (split; [reflexivity |]);
    exact (callsSince_app _ _ _ Hset).
Qed.

Lemma stackPointerFrom_cases (registerValue : list Z) :
  Forall isByte registerValue ->
  (Z.of_nat (length registerValue) <= 2 ->
   Avr8Target.stackPointerFrom registerValue 0 0 = bigEndian registerValue)
  /\ (forall a b c, registerValue = [a; b; c] ->
      Avr8Target.stackPointerFrom registerValue 0 0 = a * 2 ^ 24 + b * 2 ^ 16 + c).
Proof.
  intros Hbytes. unfold isByte in Hbytes. split.
  - intros Hlen. destruct registerValue as [| a [| b [| c rest]]];
      repeat (let Hb := fresh "Hb" in
              apply Forall_cons_iff in Hbytes; destruct Hbytes as [Hb Hbytes]);
      cbn [length] in Hlen; try lia;
      cbn [Avr8Target.stackPointerFrom Nat.ltb Nat.leb bigEndian fold_left];
      change (8 * Z.of_nat 0) with 0; change (8 * Z.of_nat 1) with 8.
    + reflexivity.
    + rewrite Z.shiftl_0_l. change (wrap32 0) with 0. rewrite Z.lor_0_l.
      rewrite wrap32_small by lia. reflexivity.
    + rewrite Z.shiftl_0_l. change (wrap32 0) with 0. rewrite Z.lor_0_l.
      rewrite (wrap32_small a) by lia.
      rewrite Z.shiftl_mul_pow2 by lia.
      rewrite (wrap32_small (a * 2 ^ 8)) by lia.
      rewrite (lor_disjoint a 8 b) by lia. rewrite wrap32_small by lia. lia.
  - intros a b c ->.
    repeat (let Hb := fresh "Hb" in
            apply Forall_cons_iff in Hbytes; destruct Hbytes as [Hb Hbytes]).
    cbn [Avr8Target.stackPointerFrom Nat.ltb Nat.leb].
    change (8 * Z.of_nat 0) with 0.
    rewrite Z.shiftl_0_l. change (wrap32 0) with 0. rewrite Z.lor_0_l.
    rewrite (wrap32_small a) by lia.
    change (8 * Z.of_nat 1) with 8. change (8 * Z.of_nat 2) with 16.
    rewrite !Z.shiftl_mul_pow2 by lia.
    rewrite (wrap32_small (a * 2 ^ 8)) by lia.
    rewrite (lor_disjoint a 8 b) by lia. rewrite (wrap32_small (a * 2 ^ 8 + b)) by lia.
    rewrite (wrap32_small ((a * 2 ^ 8 + b) * 2 ^ 16)) by lia.
    rewrite (lor_disjoint _ 16 c) by lia. rewrite wrap32_small by lia. lia.
Qed.

(** [Avr8::getStackPointer] reads the stack pointer registers and takes
    the first register of the answer: for a value of one or two bytes the
    result is the number the bytes write, most significant byte first.
    For a value [a; b; c] of three bytes it is a * 2^24 + b * 2^16 + c. *)
Theorem getStackPointer_of_two_bytes (members : Avr8Target.Members)
    (s s' : Avr8Target.Session D) (stackPointer : Z)
    (Hcall : Avr8Target.getStackPointer members s = (Ok stackPointer, s')) :
  exists descriptors reg rest,
    map_find TargetRegisterType.eqb TargetRegisterType.STACK_POINTER
      (Avr8Target.targetRegisterDescriptorsByType members) = Some descriptors
    /\ Avr8Target.readRegisters descriptors s = (Ok (reg :: rest), s')
    /\ (Forall isByte (TargetRegister.value reg) ->
        (TargetRegister.size reg <= 2 ->
         stackPointer = bigEndian (TargetRegister.value reg))
        /\ (forall a b c, TargetRegister.value reg = [a; b; c] ->
            stackPointer = a * 2 ^ 24 + b * 2 ^ 16 + c)).
Proof.
  unfold Avr8Target.getStackPointer in Hcall.
  destruct (map_find _ _ _) as [descriptors |]; [| discriminate].
  apply bind_inv in Hcall.
  destruct Hcall as [(registers & s1 & Hread & Hret) | [(e & _ & ?) | (_ & ?)]];
    try discriminate.
  destruct registers as [| reg rest]; [discriminate |].
  inversion Hret; subst. exists descriptors, reg, rest.
  split; [reflexivity |]. split; [exact Hread |].
  intros Hbytes. exact (stackPointerFrom_cases _ Hbytes).
Qed.

End Target.

Lemma writeRegisters_routes_program_counter_witness :
  let registers :=
    [{| TargetRegister.descriptor :=
          TargetRegisterDescriptor.ofType TargetRegisterType.PROGRAM_COUNTER;
        TargetRegister.value := [1; 0] |};
     {| TargetRegister.descriptor :=
          exampleRegister TargetRegisterType.GENERAL_PURPOSE_REGISTER (Some 1) 1;
        TargetRegister.value := [7] |}] in
  let s := simulatedSession exampleTargetDevice in
  let s' := snd (Avr8Target.writeRegisters registers s) in
  exists results written,
    callsSince s s' = setProgramCounterCalls results ++ written
    /\ (exists n, map fst results = firstn n [256])
    /\ (written = []
        \/ written = [DebugInterface.WriteRegisters
                        (filter (fun reg => negb (isProgramCounter reg)) registers) (Ok tt)])
    /\ (Ok tt = Ok tt ->
        map fst results = [256]
        /\ (written = [] <-> filter (fun reg => negb (isProgramCounter reg)) registers = [])).
Proof.
  intros registers s s'.
  apply (writeRegisters_routes_program_counter registers s s' (Ok tt)).
  - repeat constructor; unfold isByte; lia.
  - by_running.
Defined.

Lemma program_counter_register_round_trip_witness :
  let s := simulatedSession exampleTargetDevice in
  let reg := {| TargetRegister.descriptor :=
                  TargetRegisterDescriptor.ofType TargetRegisterType.PROGRAM_COUNTER;
                TargetRegister.value := [0; 0; 4; 210] |} in
  let s1 := snd (Avr8Target.getProgramCounterRegister s) in
  exists programCounter,
    callsSince s s1 = [DebugInterface.GetProgramCounter (Ok programCounter)]
    /\ length (TargetRegister.value reg) = 4%nat
    /\ (0 <= programCounter < 2 ^ 32 ->
        programCounterIn reg = programCounter
        /\ exists r s3,
             Avr8Target.writeRegisters [reg] s = (r, s3)
             /\ callsSince s s3 = [DebugInterface.SetProgramCounter programCounter r]).
Proof.
  intros s reg s1.
  apply (program_counter_register_round_trip s s1 s reg).
  by_running.
Defined.

Lemma getStackPointer_of_two_bytes_witness :
  let s := simulatedSession exampleTargetDevice in
  let s' := snd (Avr8Target.getStackPointer exampleMembers s) in
  Avr8Target.getStackPointer exampleMembers s = (Ok 2303, s')
  /\ exists descriptors reg rest,
       map_find TargetRegisterType.eqb TargetRegisterType.STACK_POINTER
         (Avr8Target.targetRegisterDescriptorsByType exampleMembers) = Some descriptors
       /\ Avr8Target.readRegisters descriptors s = (Ok (reg :: rest), s')
       /\ (Forall isByte (TargetRegister.value reg) ->
           (TargetRegister.size reg <= 2 -> 2303 = bigEndian (TargetRegister.value reg))
           /\ (forall a b c, TargetRegister.value reg = [a; b; c] ->
               2303 = a * 2 ^ 24 + b * 2 ^ 16 + c)).
Proof.
  intros s s'.
  assert (Hcall : Avr8Target.getStackPointer exampleMembers s = (Ok 2303, s'))
    by by_running.
  split; [exact Hcall |].
  exact (getStackPointer_of_two_bytes exampleMembers s s' 2303 Hcall).
Defined.

Section Ocden.

Context {D : Type} {avr8DebugInterface : DebugInterface.Avr8DebugInterface D}.

Lemma debugCall_state {A} (m : M D A) (record : Res A -> DebugInterface.DebugCall) s r s1 :
  Avr8Target.call m record s = (r, s1) ->
  exists d1,
    s1 = {| Avr8Target.debugInterface := d1;
            Avr8Target.progModeEnabled := Avr8Target.progModeEnabled s;
            Avr8Target.calls := Avr8Target.calls s ++ [record r] |}.
Proof.
  unfold Avr8Target.call. destruct (m (Avr8Target.debugInterface s)) as [r0 d1].
  intros H. injection H as <- <-. eauto.
Qed.

Ltac step_debug H :=
  let a := fresh "a" in
  let s := fresh "s" in
  let Hc := fresh "Hc" in
  let e := fresh "e" in
  let d := fresh "d" in
  apply bind_inv in H;
  destruct H as [(a & s & Hc & H) | [(e & Hc & ?) | (Hc & ?)]];
  apply debugCall_state in Hc; destruct Hc as (d & Hc); subst;
  cbn [Avr8Target.calls Avr8Target.progModeEnabled Avr8Target.debugInterface] in *.

(** Runs the procedure in [H] to the end of every path. *)
Ltac run_debug H :=
  repeat first
    [ rewrite bind_assoc in H
    | rewrite ret_bind in H
    | match type of H with
      | bind (Avr8Target.call _ _) _ _ = _ => step_debug H
      | bind (if ?b then _ else _) _ _ = _ => destruct b eqn:?
      | bind (match ?l with [] => _ | _ :: _ => _ end) _ _ = _ => destruct l
      | bind (raise _) _ _ = _ => unfold bind at 1, raise at 1 in H
      | bind (throw _) _ _ = _ => unfold bind at 1, throw at 1, raise at 1 in H
      | bind (Avr8Target.setProgModeEnabled _) _ _ = _ =>
          unfold bind at 1, Avr8Target.setProgModeEnabled at 1, modify at 1 in H;
          cbn [Avr8Target.calls Avr8Target.progModeEnabled Avr8Target.debugInterface] in H
      | (if ?b then _ else _) _ = _ => destruct b eqn:?
      | (match ?l with [] => _ | _ :: _ => _ end) _ = _ => destruct l
      | Avr8Target.call _ _ _ = _ =>
          let d := fresh "d" in
          apply debugCall_state in H; destruct H as (d & H); subst;
          cbn [Avr8Target.calls Avr8Target.progModeEnabled Avr8Target.debugInterface] in *
      | Avr8Target.setProgModeEnabled _ _ = _ =>
          unfold Avr8Target.setProgModeEnabled, modify in H; injection H as ? ?; subst;
          cbn [Avr8Target.calls Avr8Target.progModeEnabled Avr8Target.debugInterface] in *
      | throw _ _ = _ => unfold throw, raise in H; injection H as ? ?; subst;
          cbn [Avr8Target.calls Avr8Target.progModeEnabled Avr8Target.debugInterface] in *
      | raise _ _ = _ => unfold raise in H; injection H as ? ?; subst;
          cbn [Avr8Target.calls Avr8Target.progModeEnabled Avr8Target.debugInterface] in *
      | ret _ _ = _ => unfold ret in H; injection H as ? ?; subst;
          cbn [Avr8Target.calls Avr8Target.progModeEnabled Avr8Target.debugInterface] in *
      | (_, _) = (_, _) => injection H as ? ?; subst;
          cbn [Avr8Target.calls Avr8Target.progModeEnabled Avr8Target.debugInterface] in *
      end ].

Ltac since :=
  match goal with
  | |- context [callsSince ?s ?s'] =>
      erewrite (callsSince_app s s')
        by (cbn [Avr8Target.calls]; rewrite <- ?app_assoc; cbn [app]; reflexivity)
  end.

(** [Avr8::updateOcdenFuseBit] leaves the programming mode it asked for:
    whenever it returns or throws a Bloom exception after it has called
    [enableProgrammingMode], its last call through the debug interface is
    [disableProgrammingMode]; when it returns, the target's programming
    mode flag is clear. It writes nothing but fuse bytes. *)
Theorem ocden_update_leaves_programming_mode (members : Avr8Target.Members)
    (enable : bool) (s s' : Avr8Target.Session D) (r : Res unit)
    (Hcall : Avr8Target.updateOcdenFuseBit members enable s = (r, s')) :
  (OcdenLog.programmingModeRequested (callsSince s s') = true ->
   returnsOrThrows r ->
   OcdenLog.endsLeavingProgrammingMode (callsSince s s') = true)
  /\ (r = Ok tt -> Avr8Target.progModeEnabled s' = false)
  /\ existsb OcdenLog.otherWrite (callsSince s s') = false.
Proof.
  unfold Avr8Target.updateOcdenFuseBit in Hcall.
  destruct (Avr8Target.hasTargetDescriptionFile members);
    [| injection Hcall as <- <-; unfold callsSince; rewrite skipn_all; repeat split; discriminate].
  destruct (Avr8Target.id members) as [targetId |];
    [| injection Hcall as <- <-; unfold callsSince; rewrite skipn_all; repeat split; discriminate].
  destruct (negb (existsb _ _));
    [injection Hcall as <- <-; unfold callsSince; rewrite skipn_all; repeat split; discriminate |].
  step_debug Hcall; [| since; repeat split; discriminate ..].
  destruct (negb (TargetSignature_eqb _ _));
    [injection Hcall as <- <-; since; repeat split; discriminate |].
  destruct (Avr8Target.getOcdenFuseBitsDescriptor members) as [[ocdenAddress ocdenMask] |];
    [| injection Hcall as <- <-; since; repeat split; discriminate].
  destruct (Avr8Target.getJtagenFuseBitsDescriptor members) as [[jtagenAddress jtagenMask] |];
    [| injection Hcall as <- <-; since; repeat split; discriminate].
  apply tryCatch_inv in Hcall. destruct Hcall as [(msg & s1 & Hb & H) | (Hb & Hne)];
    unfold Avr8Target.updateOcdenFuseBitGuarded, Avr8Target.enableProgrammingMode,
      Avr8Target.disableProgrammingMode, Avr8Target.readFuseByte in Hb;
    cbn [Avr8Target.byteAddress Avr8Target.bitMask] in Hb.
  - unfold Avr8Target.disableProgrammingMode in H.
    run_debug Hb. all: run_debug H.
    all: since; repeat split; try discriminate; try reflexivity;
      try (intros _ []; fail).
  - run_debug Hb.
    all: since; repeat split; try discriminate; try reflexivity;
      try (intros _ []; fail);
      try (exfalso; eapply Hne; reflexivity);
      try (intros _ Hr;
           match type of Hr with
           | returnsOrThrows (Err ?e) =>
               destruct e; [exfalso; eapply Hne; reflexivity | destruct Hr ..]
           end).
Qed.

Lemma ocden_byte_bits (old mask : Z) (enable : bool) (k : Z) :
  0 <= k < 8 ->
  Z.testbit (if enable then wrap8 (Z.land old (Z.lnot mask)) else wrap8 (Z.lor old mask)) k
  = if Z.testbit mask k then negb enable else Z.testbit old k.
Proof.
  intros Hk. unfold wrap8.
  destruct enable; rewrite Z.mod_pow2_bits_low by lia.
  - rewrite Z.land_spec, Z.lnot_spec by lia.
    destruct (Z.testbit mask k); simpl; [apply andb_false_r | apply andb_true_r].
  - rewrite Z.lor_spec.
    destruct (Z.testbit mask k); simpl; [apply orb_true_r | apply orb_false_r].
Qed.

(** A path on which a fuse byte was written passed the two checks. *)
Ltac refute_ocden_guards Esig :=
  let Hg := fresh "Hg" in
  intros [Hg | Hg]; [congruence |];
  repeat match goal with
         | H : negb _ = false |- _ => apply negb_false_iff in H
         end;
  match type of Hg with
  | context [?a =? ?b] =>
      match goal with
      | H : (b =? a) = _ |- _ => rewrite (Z.eqb_sym a b) in Hg; rewrite H in Hg
      end
  end;
  rewrite ?Z.eqb_refl in Hg; congruence.

Ltac check_ocden_bits :=
  lazymatch goal with
  | |- Forall _ nil => apply Forall_nil
  | |- Forall _ (cons _ nil) =>
      apply Forall_cons; [| apply Forall_nil];
      eexists _, _, _; split; [reflexivity |]; split; [reflexivity |];
      split; [cbn [OcdenLog.observedFuseByte Avr8Target.byteAddress];
              rewrite Z.eqb_refl; reflexivity |];
      split; [reflexivity |];
      intros k Hk; apply ocden_byte_bits; exact Hk
  end.

Ltac check_ocden_followups :=
  lazymatch goal with
  | |- Forall _ nil => apply Forall_nil
  | |- Forall _ (cons _ nil) =>
      apply Forall_cons; [| apply Forall_nil];
      eexists; split; [reflexivity |];
      intros Hok;
      first [ discriminate
            | eexists _, _; split; [reflexivity |];
              repeat match goal with
                     | H : negb _ = false |- _ => apply negb_false_iff in H
                     end;
              cbn [fst snd]; f_equal; symmetry; apply Z.eqb_eq; assumption ]
  end.

Ltac close_ocden Esig :=
  split; [first [intros _; reflexivity | refute_ocden_guards Esig] |];
  split; [check_ocden_bits | check_ocden_followups].

(** In an OCDEN fuse update: if the signature read does not equal that
    of the target description, or the JTAGEN bit of the fuse byte read is
    not programmed, no fuse byte is written. A byte that is written is the
    OCDEN fuse byte as it was read, with the OCDEN bits programmed to
    enable and unprogrammed to disable and every other bit unchanged. Every
    successful write is followed at once by a read of the same byte, and
    the procedure only returns normally when that read returned the byte
    written. *)
Theorem ocden_update_guards (members : Avr8Target.Members)
    (enable : bool) (s s' : Avr8Target.Session D) (r : Res unit)
    (Hcall : Avr8Target.updateOcdenFuseBit members enable s = (r, s')) :
  ((OcdenLog.signatureConfirmed members (callsSince s s') = false
    \/ OcdenLog.jtagenProgrammed members (callsSince s s') = false) ->
   OcdenLog.fuseWrites (callsSince s s') = [])
  /\ Forall (OcdenLog.onlyOcdenBits members enable (callsSince s s'))
       (OcdenLog.fuseWrites (callsSince s s'))
  /\ Forall (OcdenLog.verifiedBy r) (OcdenLog.writeFollowUps (callsSince s s')).
Proof.
  unfold Avr8Target.updateOcdenFuseBit in Hcall.
  destruct (Avr8Target.hasTargetDescriptionFile members);
    [| injection Hcall as <- <-; unfold callsSince; rewrite skipn_all;
       repeat split; constructor].
  destruct (Avr8Target.id members) as [targetId |];
    [| injection Hcall as <- <-; unfold callsSince; rewrite skipn_all;
       repeat split; constructor].
  destruct (negb (existsb _ _));
    [injection Hcall as <- <-; unfold callsSince; rewrite skipn_all;
     repeat split; constructor |].
  step_debug Hcall; [| since; repeat split; constructor ..].
  destruct (negb (TargetSignature_eqb _ _)) eqn:Esig;
    [injection Hcall as <- <-; since; repeat split; constructor |].
  apply negb_false_iff in Esig.
  destruct (Avr8Target.getOcdenFuseBitsDescriptor members)
    as [[ocdenAddress ocdenMask] |] eqn:Eocden;
    [| injection Hcall as <- <-; since; repeat split; constructor].
  destruct (Avr8Target.getJtagenFuseBitsDescriptor members)
    as [[jtagenAddress jtagenMask] |] eqn:Ejtagen;
    [| injection Hcall as <- <-; since; repeat split; constructor].
  unfold OcdenLog.signatureConfirmed, OcdenLog.jtagenProgrammed, OcdenLog.onlyOcdenBits.
  rewrite Eocden, Ejtagen.
  apply tryCatch_inv in Hcall. destruct Hcall as [(msg & s1 & Hb & H) | (Hb & Hne)];
    unfold Avr8Target.updateOcdenFuseBitGuarded, Avr8Target.enableProgrammingMode,
      Avr8Target.disableProgrammingMode, Avr8Target.readFuseByte in Hb;
    cbn [Avr8Target.byteAddress Avr8Target.bitMask] in Hb.
  - unfold Avr8Target.disableProgrammingMode in H.
    run_debug Hb. all: run_debug H.
    all: since; cbn [OcdenLog.fuseWrites OcdenLog.writeFollowUps OcdenLog.observedSignature
                     OcdenLog.observedFuseByte Avr8Target.byteAddress Avr8Target.bitMask
                     fst snd].
    all: close_ocden Esig.
  - run_debug Hb.
    all: since; cbn [OcdenLog.fuseWrites OcdenLog.writeFollowUps OcdenLog.observedSignature
                     OcdenLog.observedFuseByte Avr8Target.byteAddress Avr8Target.bitMask
                     fst snd].
    all: close_ocden Esig.
Qed.

End Ocden.

Lemma ocden_update_leaves_programming_mode_witness :
  let s := simulatedSession exampleTargetDevice in
  let s' := snd (Avr8Target.updateOcdenFuseBit exampleMembers true s) in
  Avr8Target.updateOcdenFuseBit exampleMembers true s = (Ok tt, s')
  /\ (OcdenLog.programmingModeRequested (callsSince s s') = true ->
      returnsOrThrows (Ok tt) ->
      OcdenLog.endsLeavingProgrammingMode (callsSince s s') = true)
  /\ (Ok tt = Ok tt -> Avr8Target.progModeEnabled s' = false)
  /\ existsb OcdenLog.otherWrite (callsSince s s') = false.
Proof.
  intros s s'.
  assert (Hcall : Avr8Target.updateOcdenFuseBit exampleMembers true s = (Ok tt, s'))
    by by_running.
  split; [exact Hcall |].
  exact (ocden_update_leaves_programming_mode exampleMembers true s s' (Ok tt) Hcall).
Defined.

Lemma ocden_update_guards_witness :
  let s := simulatedSession exampleTargetDevice in
  let s' := snd (Avr8Target.updateOcdenFuseBit exampleMembers true s) in
  OcdenLog.fuseWrites (callsSince s s') = [(1, [25])]
  /\ ((OcdenLog.signatureConfirmed exampleMembers (callsSince s s') = false
       \/ OcdenLog.jtagenProgrammed exampleMembers (callsSince s s') = false) ->
      OcdenLog.fuseWrites (callsSince s s') = [])
  /\ Forall (OcdenLog.onlyOcdenBits exampleMembers true (callsSince s s'))
       (OcdenLog.fuseWrites (callsSince s s'))
  /\ Forall (OcdenLog.verifiedBy (Ok tt)) (OcdenLog.writeFollowUps (callsSince s s')).
Proof.
  intros s s'.
  assert (Hcall : Avr8Target.updateOcdenFuseBit exampleMembers true s = (Ok tt, s'))
    by by_running.
  split; [reflexivity |].
  exact (ocden_update_guards exampleMembers true s s' (Ok tt) Hcall).
Defined.

Section Pins.

Context {D : Type} {avr8DebugInterface : DebugInterface.Avr8DebugInterface D}.

Lemma wrap8_bits x k : 0 <= k ->
  Z.testbit (wrap8 x) k = (k <? 8) && Z.testbit x k.
Proof.
  intros Hk. unfold wrap8. destruct (k <? 8) eqn:E.
  - apply Z.ltb_lt in E. rewrite Z.mod_pow2_bits_low by lia. reflexivity.
  - apply Z.ltb_ge in E. rewrite Z.mod_pow2_bits_high by lia. reflexivity.
Qed.

Lemma wrap8_byte x : isByte (wrap8 x).
Proof. unfold isByte, wrap8. apply Z.mod_pos_bound. lia. Qed.

Lemma updateBit_inv address pin wanted failure (s s1 : Avr8Target.Session D) r :
  0 <= pin ->
  Avr8Target.updateBit address pin wanted failure s = (r, s1) ->
  exists l, Avr8Target.calls s1 = Avr8Target.calls s ++ l
            /\ readModifyWrite address pin wanted l.
Proof.
  intros Hpin H. unfold Avr8Target.updateBit, Avr8Target.readMemory in H.
  apply bind_inv in H.
  destruct H as [(buffer & s2 & Hc & H) | [(e & Hc & ->) | (Hc & ->)]];
    apply debugCall_inv in Hc; destruct Hc as (Hcalls & Hflag).
  - destruct buffer as [| front rest].
    + inversion H; subst. eexists. split; [exact Hcalls |]. left. eexists.
      split; [reflexivity |]. discriminate.
    + unfold Bitset.test, Bitset.ofByte in H.
      destruct (pin <? 8) eqn:E8.
      * apply Z.ltb_lt in E8. rewrite ret_bind in H.
        destruct (negb (eqb (Z.testbit (wrap8 front) pin) wanted)) eqn:Ediff.
        -- unfold Bitset.set in H. apply Z.ltb_lt in E8. rewrite E8 in H.
           rewrite ret_bind in H. unfold Avr8Target.writeMemory in H.
           unfold bind at 1, gets at 1 in H. cbn [TargetMemoryType.eqb andb] in H.
           destruct (Avr8Target.call _ _ s2) as [r2 s3] eqn:Ewrite.
           pose proof (debugCall_inv _ _ _ _ _ Ewrite) as (Hcalls2 & _).
           inversion H; subst r2 s3. eexists. split.
           ++ rewrite Hcalls2, Hcalls, <- app_assoc. reflexivity.
           ++ right. eexists _, _, _, _. split; [reflexivity |].
              split; [apply Z.ltb_lt; exact E8 |].
              split; [destruct (Z.testbit (wrap8 front) pin), wanted;
                      simpl in Ediff; try discriminate; reflexivity |].
              split; [apply wrap8_byte |].
              intros k Hk. rewrite wrap8_bits by lia.
              apply negb_true_iff in Ediff. apply eqb_false_iff in Ediff.
              apply Z.ltb_lt in E8.
              destruct (k =? pin) eqn:Ek.
              ** apply Z.eqb_eq in Ek. subst k.
                 assert (Hlt : (pin <? 8) = true) by (apply Z.ltb_lt; lia).
                 rewrite Hlt. cbn [andb].
                 destruct wanted.
                 --- apply Z.setbit_eq. lia.
                 --- apply Z.clearbit_eq.
              ** apply Z.eqb_neq in Ek.
                 assert (Hother : Z.testbit (if wanted then Z.setbit (wrap8 front) pin
                                             else Z.clearbit (wrap8 front) pin) k
                                  = Z.testbit (wrap8 front) k).
                 { destruct wanted; [apply Z.setbit_neq; lia | apply Z.clearbit_neq; lia]. }
                 rewrite Hother, (wrap8_bits front k) by lia.
                 destruct (k <? 8); reflexivity.
        -- inversion H; subst. eexists. split; [exact Hcalls |]. left. eexists.
           split; [reflexivity |]. intros byte rest' Hbuf _. inversion Hbuf; subst.
           apply negb_false_iff in Ediff. apply eqb_prop in Ediff. exact Ediff.
      * apply Z.ltb_ge in E8. inversion H; subst. eexists. split; [exact Hcalls |].
        left. eexists. split; [reflexivity |]. intros; lia.
  - eexists. split; [exact Hcalls |]. left. eexists. split; [reflexivity |]. discriminate.
  - eexists. split; [exact Hcalls |]. left. eexists. split; [reflexivity |]. discriminate.
Qed.

(** [Avr8::setPinState] makes no call through the debug interface when
    the variant or the pad is unknown, the direction is missing or the pad
    lacks an address or the pin number. Otherwise it reads the data
    direction register and writes it back only if the bit of the pin
    differs from the direction asked for, with that bit changed and no
    other; then it does the same for the port register and the level,
    which for an input is LOW whatever level was asked for. *)
Theorem setPinState_changes_one_bit (members : Avr8Target.Members)
    (pinDescriptor : TargetPinDescriptor.t) (state : TargetPinState.t)
    (s s' : Avr8Target.Session D) (r : Res unit)
    (Hcall : Avr8Target.setPinState members pinDescriptor state s = (r, s')) :
  match pinRequest members pinDescriptor state with
  | None => callsSince s s' = [] /\ exists message, r = Err (Exception message)
  | Some (ddrAddress, portAddress, pinNumber, direction) =>
      0 <= pinNumber ->
      exists ddrCalls portCalls,
        callsSince s s' = ddrCalls ++ portCalls
        /\ readModifyWrite ddrAddress pinNumber (TargetPinState.isOutput direction) ddrCalls
        /\ match wantedLevel state direction with
           | Some level =>
               portCalls = [] \/ readModifyWrite portAddress pinNumber level portCalls
           | None => portCalls = []
           end
        /\ (r = Ok tt -> wantedLevel state direction <> None -> portCalls <> [])
  end.
Proof.
  unfold Avr8Target.setPinState, pinRequest in *.
  destruct (map_find Z.eqb _ _) as [variant |];
    [| inversion Hcall; subst; unfold callsSince; rewrite skipn_all; eauto].
  destruct (map_find String.eqb _ _) as [pad |];
    [| inversion Hcall; subst; unfold callsSince; rewrite skipn_all; eauto].
  destruct (TargetPinState.ioDirection state) as [direction |];
    [| inversion Hcall; subst; unfold callsSince; rewrite skipn_all; eauto].
  destruct (PadDescriptor.gpioDdrAddress pad) as [ddrAddress |];
    [| inversion Hcall; subst; unfold callsSince; rewrite skipn_all; eauto].
  destruct (PadDescriptor.gpioPortAddress pad) as [portAddress |];
    [| inversion Hcall; subst; unfold callsSince; rewrite skipn_all; eauto].
  destruct (PadDescriptor.gpioPinNumber pad) as [pinNumber |];
    [| inversion Hcall; subst; unfold callsSince; rewrite skipn_all; eauto].
  intros Hpin.
  apply bind_inv in Hcall.
  destruct Hcall as [([] & s1 & Hddr & Hport) | [(e & Hddr & ->) | (Hddr & ->)]];
    destruct (updateBit_inv _ _ _ _ _ _ _ Hpin Hddr) as (ddrCalls & Hcalls1 & Hrmw1).
  - assert (Hlevel : match direction with
                     | TargetPinState.INPUT => Some TargetPinState.LOW
                     | TargetPinState.OUTPUT => TargetPinState.ioState state
                     end
                     = match wantedLevel state direction with
                       | Some true => Some TargetPinState.HIGH
                       | Some false => Some TargetPinState.LOW
                       | None => None
                       end).
    { unfold wantedLevel. destruct direction; [reflexivity |].
      destruct (TargetPinState.ioState state) as [[|] |]; reflexivity. }
    rewrite Hlevel in Hport. clear Hlevel.
    destruct (wantedLevel state direction) as [level |].
    + assert (Hhigh : TargetPinState.isHigh (if level then TargetPinState.HIGH
                                             else TargetPinState.LOW) = level)
        by (destruct level; reflexivity).
      destruct level; cbn [TargetPinState.isHigh] in Hport;
        destruct (updateBit_inv _ _ _ _ _ _ _ Hpin Hport) as (portCalls & Hcalls2 & Hrmw2);
        exists ddrCalls, portCalls;
        (split; [apply callsSince_app; rewrite Hcalls2, Hcalls1, <- app_assoc; reflexivity |]);
        (split; [exact Hrmw1 |]); (split; [right; exact Hrmw2 |]);
        intros _ _ ->; destruct Hrmw2 as [(? & Hx & _) | (? & ? & ? & ? & Hx & _)];
        discriminate.
    + inversion Hport; subst. exists ddrCalls, []. rewrite app_nil_r.
      split; [exact (callsSince_app _ _ _ Hcalls1) |]. split; [exact Hrmw1 |].
      split; [reflexivity |]. intros _ Hx. congruence.
  - exists ddrCalls, []. rewrite app_nil_r.
    split; [exact (callsSince_app _ _ _ Hcalls1) |]. split; [exact Hrmw1 |].
    split; [destruct (wantedLevel state direction); auto |]. discriminate.
  - exists ddrCalls, []. rewrite app_nil_r.
    split; [exact (callsSince_app _ _ _ Hcalls1) |]. split; [exact Hrmw1 |].
    split; [destruct (wantedLevel state direction); auto |]. discriminate.
Qed.

Lemma map_find_app {V} k (l1 l2 : list (Z * V)) :
  map_find Z.eqb k (l1 ++ l2)
  = match map_find Z.eqb k l1 with
    | Some v => Some v
    | None => map_find Z.eqb k l2
    end.
Proof.
  induction l1 as [| [k' v] l1 IH]; [reflexivity |].
  simpl. destruct (k =? k'); [reflexivity | exact IH].
Qed.

Lemma cachingReads_refl cache (s : Avr8Target.Session D) : cachingReads cache s s (Some cache).
Proof.
  exists []. simpl. rewrite app_nil_r. repeat split; auto; try constructor; contradiction.
Qed.

Lemma cachingReads_stop cache (s s1 : Avr8Target.Session D) cache1 :
  cachingReads cache s s1 cache1 -> cachingReads cache s s1 None.
Proof.
  intros (reads & H1 & H2 & H3 & _). exists reads. auto.
Qed.

Lemma cachingReads_trans cache (s s1 s2 : Avr8Target.Session D) cache1 cache2 :
  cachingReads cache s s1 (Some cache1) ->
  cachingReads cache1 s1 s2 cache2 ->
  cachingReads cache s s2 cache2.
Proof.
  intros (l1 & Hc1 & Hn1 & Hf1 & Hm1 & Hk1) (l2 & Hc2 & Hn2 & Hf2 & Hlast).
  exists (l1 ++ l2). split; [| split; [| split]].
  - rewrite Hc2, Hc1, <- app_assoc. unfold byteReads. rewrite map_app. reflexivity.
  - rewrite map_app. apply NoDup_app; auto.
    intros a Ha1 Ha2. specialize (Hk1 a Ha1). specialize (Hf2 a Ha2). congruence.
  - intros a Ha. rewrite map_app in Ha. apply in_app_or in Ha. destruct Ha as [Ha | Ha].
    + exact (Hf1 a Ha).
    + specialize (Hf2 a Ha). destruct (cached cache a) eqn:E; [| reflexivity].
      specialize (Hm1 a E). congruence.
  - destruct cache2 as [cache2 |]; [| exact I]. destruct Hlast as (Hm2 & Hk2). split.
    + intros a Ha. auto.
    + intros a Ha. rewrite map_app in Ha. apply in_app_or in Ha. destruct Ha as [Ha | Ha]; auto.
Qed.

Lemma readMemoryBitset_inv cache address (s s1 : Avr8Target.Session D) r :
  Avr8Target.readMemoryBitset cache address s = (r, s1) ->
  cachingReads cache s s1 (match r with Ok result => Some (snd result) | _ => None end).
Proof.
  unfold Avr8Target.readMemoryBitset. intros H.
  destruct (map_find Z.eqb (wrap16 address) cache) as [buffer |] eqn:Efind.
  - rewrite ret_bind in H. cbn [fst snd] in H.
    destruct buffer; inversion H; subst; cbn [snd];
      first [apply cachingReads_refl | exact (cachingReads_stop _ _ _ _ (cachingReads_refl cache s1))].
  - rewrite bind_assoc in H. unfold Avr8Target.readMemory in H.
    apply bind_inv in H.
    destruct H as [(buffer & s2 & Hc & H) | [(e & Hc & ->) | (Hc & ->)]];
      apply debugCall_inv in Hc; destruct Hc as (Hcalls & _).
    + rewrite ret_bind in H. cbn [fst snd] in H.
      assert (Hreads : cachingReads cache s s2
                         (Some (cache ++ [(wrap16 address, buffer)]))).
      { exists [(wrap16 address, Ok buffer)]. split; [exact Hcalls |].
        split; [repeat constructor; simpl; tauto |].
        split; [intros a Ha; simpl in Ha; destruct Ha as [<- | []];
                unfold cached; rewrite Efind; reflexivity |].
        split.
        - intros a Ha. unfold cached in *. rewrite map_find_app.
          destruct (map_find Z.eqb a cache); [reflexivity | discriminate].
        - intros a Ha. simpl in Ha. destruct Ha as [<- | []].
          unfold cached. rewrite map_find_app, Efind. simpl.
          rewrite Z.eqb_refl. reflexivity. }
      destruct buffer; inversion H; subst; cbn [snd];
        [exact (cachingReads_stop _ _ _ _ Hreads) | exact Hreads].
    + exists [(wrap16 address, Err e)]. split; [exact Hcalls |].
      split; [repeat constructor; simpl; tauto |].
      split; [intros a Ha; simpl in Ha; destruct Ha as [<- | []];
                unfold cached; rewrite Efind; reflexivity | exact I].
    + exists [(wrap16 address, OutOfFuel)]. split; [exact Hcalls |].
      split; [repeat constructor; simpl; tauto |].
      split; [intros a Ha; simpl in Ha; destruct Ha as [<- | []];
                unfold cached; rewrite Efind; reflexivity | exact I].
Qed.

Lemma pinStateOf_inv pad pinNumber cache (s s1 : Avr8Target.Session D) r :
  Avr8Target.pinStateOf pad pinNumber cache s = (r, s1) ->
  cachingReads cache s s1 (match r with Ok result => Some (snd result) | _ => None end).
Proof.
  unfold Avr8Target.pinStateOf. intros H.
  destruct (PadDescriptor.gpioDdrAddress pad) as [ddrAddress |].
  2:{ inversion H; subst. apply cachingReads_refl. }
  apply bind_inv in H.
  destruct H as [([bits cache1] & s2 & Hddr & H) | [(e & Hddr & ->) | (Hddr & ->)]];
    apply readMemoryBitset_inv in Hddr; cbn [snd fst] in *; try exact Hddr.
  unfold Bitset.test in H at 1.
  destruct (pinNumber <? 8).
  2:{ inversion H; subst. exact (cachingReads_stop _ _ _ _ Hddr). }
  rewrite ret_bind in H.
  destruct (if Z.testbit bits pinNumber then PadDescriptor.gpioPortAddress pad
            else PadDescriptor.gpioPortInputAddress pad) as [address |].
  2:{ inversion H; subst. exact Hddr. }
  apply bind_inv in H.
  destruct H as [([bits2 cache2] & s3 & Hport & H) | [(e & Hport & ->) | (Hport & ->)]];
    apply readMemoryBitset_inv in Hport; cbn [snd fst] in *;
    try exact (cachingReads_trans _ _ _ _ _ _ Hddr Hport).
  unfold Bitset.test in H.
  destruct (pinNumber <? 8); inversion H; subst; cbn [snd].
  - exact (cachingReads_trans _ _ _ _ _ _ Hddr Hport).
  - exact (cachingReads_trans _ _ _ _ _ _ Hddr (cachingReads_stop _ _ _ _ Hport)).
Qed.

Lemma pinStatesOf_inv members pins : forall cache output (s s1 : Avr8Target.Session D) r,
  Avr8Target.pinStatesOf members pins cache output s = (r, s1) ->
  cachingReads cache s s1 None.
Proof.
  induction pins as [| [pinNumber pinDescriptor] rest IH]; intros cache output s s1 r H.
  - inversion H; subst. exact (cachingReads_stop _ _ _ _ (cachingReads_refl cache s1)).
  - cbn [Avr8Target.pinStatesOf] in H.
    destruct (map_find String.eqb _ _) as [pad |]; [| exact (IH _ _ _ _ _ H)].
    destruct (PadDescriptor.gpioPinNumber pad) as [gpioPinNumber |];
      [| exact (IH _ _ _ _ _ H)].
    apply bind_inv in H.
    destruct H as [([state cache1] & s2 & Hpin & H) | [(e & Hpin & ->) | (Hpin & ->)]];
      apply pinStateOf_inv in Hpin; cbn [snd fst] in *; try exact Hpin.
    exact (cachingReads_trans _ _ _ _ _ _ Hpin (IH _ _ _ _ _ H)).
Qed.

(** [Avr8::getPinStates] only reads: single bytes of RAM, and no address
    twice, however many pins share a register. An unknown variant is
    refused before any read. *)
Theorem getPinStates_reads_each_address_once (members : Avr8Target.Members)
    (variantId : Z) (s s' : Avr8Target.Session D)
    (r : Res (list (Z * TargetPinState.t)))
    (Hcall : Avr8Target.getPinStates members variantId s = (r, s')) :
  (exists reads, callsSince s s' = byteReads reads /\ NoDup (map fst reads))
  /\ (map_find Z.eqb variantId (Avr8Target.targetVariantsById members) = None ->
      callsSince s s' = [] /\ r = Err (Exception "Invalid target variant ID")).
Proof.
  unfold Avr8Target.getPinStates in Hcall.
  destruct (map_find Z.eqb variantId _) as [variant |].
  - apply pinStatesOf_inv in Hcall. destruct Hcall as (reads & Hcalls & Hnodup & _).
    split; [| discriminate]. exists reads.
    split; [exact (callsSince_app _ _ _ Hcalls) | exact Hnodup].
  - inversion Hcall; subst. unfold callsSince. rewrite skipn_all.
    split; [exists []; split; [reflexivity | constructor] | auto].
Qed.

End Pins.

Lemma setPinState_changes_one_bit_witness :
  let s := simulatedSession exampleTargetDevice in
  let pin := {| TargetPinDescriptor.variantId := 0; TargetPinDescriptor.padName := "PB2" |} in
  let state := {| TargetPinState.ioDirection := Some TargetPinState.INPUT;
                  TargetPinState.ioState := Some TargetPinState.HIGH |} in
  let s' := snd (Avr8Target.setPinState exampleMembers pin state s) in
  callsSince s s'
  = [DebugInterface.ReadMemory TargetMemoryType.RAM 36 1 (Ok [5]);
     DebugInterface.WriteMemory TargetMemoryType.RAM 36 [1] (Ok tt);
     DebugInterface.ReadMemory TargetMemoryType.RAM 37 1 (Ok [4]);
     DebugInterface.WriteMemory TargetMemoryType.RAM 37 [0] (Ok tt)]
  /\ (0 <= 2 ->
      exists ddrCalls portCalls,
        callsSince s s' = ddrCalls ++ portCalls
        /\ readModifyWrite 36 2 false ddrCalls
        /\ (portCalls = [] \/ readModifyWrite 37 2 false portCalls)
        /\ (Ok tt = Ok tt -> Some false <> None -> portCalls <> [])).
Proof.
  intros s pin state s'. split; [reflexivity |].
  assert (Hcall : Avr8Target.setPinState exampleMembers pin state s = (Ok tt, s'))
    by by_running.
  exact (setPinState_changes_one_bit exampleMembers pin state s s' (Ok tt) Hcall).
Defined.

Lemma getPinStates_reads_each_address_once_witness :
  let s := simulatedSession exampleTargetDevice in
  let s' := snd (Avr8Target.getPinStates exampleMembers 0 s) in
  length (callsSince s s') = 2%nat
  /\ (exists reads, callsSince s s' = byteReads reads /\ NoDup (map fst reads))
  /\ (map_find Z.eqb 0 (Avr8Target.targetVariantsById exampleMembers) = None ->
      callsSince s s' = []
      /\ fst (Avr8Target.getPinStates exampleMembers 0 s)
         = Err (Exception "Invalid target variant ID")).
Proof.
  intros s s'. split; [reflexivity |].
  exact (getPinStates_reads_each_address_once exampleMembers 0 s s' _
           (ran_to _ _ eq_refl)).
Defined.

(** ** Widened memory access *)

Section Widening.

Import MemoryAccess Alignment.

Variables (fuel : nat) (type : Avr8MemoryType.t) (startAddress : Z).
Variables (i : EdbgAvr8Interface) (alignedStartAddress alignedBytes : Z).

Hypothesis Hguard :
  Avr8MemoryType.eqb type Avr8MemoryType.FUSES
  && Avr8ConfigVariant.eqb (configVariant i) Avr8ConfigVariant.DEBUG_WIRE = false.
Hypothesis Hrequired : alignmentRequired type = true.
Hypothesis Hstart :
  alignMemoryAddress (targetParameters i) type startAddress = Ok alignedStartAddress.

(** A read that is widened to page boundaries returns the bytes that were
    asked for: the tool is asked for the widened range, and the bytes of
    the request are cut out of its answer. *)
Theorem widened_read_returns_slice (bytes maximum : Z) (excludedAddresses : list Z)
    (response : Avr8ResponseFrame) (rest : list Avr8ResponseFrame)
    (Hmask : driverSideMasking (avoidMaskedMemoryRead i) type excludedAddresses = false)
    (Hbytes : alignMemoryBytes (targetParameters i) type
                (wrap32 (bytes + wrap32 (startAddress - alignedStartAddress)))
              = Ok alignedBytes)
    (Hwidened : alignedStartAddress <> startAddress \/ alignedBytes <> bytes)
    (Hpage : noWidening (targetParameters i) type alignedStartAddress alignedBytes maximum)
    (Hmax : maximumMemoryAccessSize type i = (Ok maximum, i))
    (Hfits : 0 <= alignedBytes <= maximum /\ 0 < maximum /\ alignedBytes < 2 ^ 32)
    (Hwithin : alignedStartAddress <= startAddress
               /\ startAddress - alignedStartAddress + bytes <= alignedBytes
               /\ 0 <= bytes)
    (Hresponses : responses (edbgInterface i) = response :: rest)
    (Hanswer : failed response = false
               /\ Z.of_nat (length (memoryData response)) = alignedBytes) :
  readMemory (S (S fuel)) type startAddress bytes excludedAddresses i
  = (Ok (firstn (Z.to_nat bytes)
           (skipn (Z.to_nat (startAddress - alignedStartAddress)) (memoryData response))),
     afterFrame (CommandFrames.ReadMemory type alignedStartAddress alignedBytes
                   excludedAddresses) rest i).
Proof.
  destruct Hfits as (Hf1 & Hf2 & Hf3). destruct Hwithin as (Hw1 & Hw2 & Hw3).
  destruct Hanswer as (Hok & Hlen).
  rewrite readMemory_unfold.
  unfold bind at 1. unfold fusesGuard, bind at 1, gets at 1. rewrite Hguard.
  unfold ret at 1. unfold bind at 1, gets at 1. rewrite Hmask, Hrequired.
  unfold bind at 1, gets at 1. unfold bind at 1, liftRes at 1. rewrite Hstart.
  unfold bind at 1, liftRes at 1. rewrite Hbytes.
  assert (Hdiff : negb (alignedStartAddress =? startAddress)
                  || negb (alignedBytes =? bytes) = true).
  { destruct Hwidened as [H | H]; apply Z.eqb_neq in H; rewrite H;
      [reflexivity | apply orb_true_r]. }
  rewrite Hdiff. unfold bind at 1.
  rewrite (readMemory_one_frame fuel type alignedStartAddress alignedBytes excludedAddresses
             i maximum response rest); auto; try lia.
  - unfold slice. rewrite (wrap32_small (startAddress - alignedStartAddress)) by lia.
    rewrite Hlen. destruct (_ <=? _) eqn:E; [reflexivity | apply Z.leb_gt in E; lia].
  - split; assumption.
Qed.

End Widening.

Lemma widened_read_returns_slice_witness :
  let i := widenedInterface [dataResponse examplePage] in
  MemoryAccess.readMemory 2 Avr8MemoryType.FLASH_PAGE 130 4 [] i
  = (Ok (firstn 4 (skipn 2 examplePage)),
     afterFrame (CommandFrames.ReadMemory Avr8MemoryType.FLASH_PAGE 128 128 []) [] i).
Proof.
  intros i.
  apply (widened_read_returns_slice 0 Avr8MemoryType.FLASH_PAGE 130 i 128 128
           eq_refl eq_refl ltac:(vm_compute; reflexivity) 4 128 []
           (dataResponse examplePage) []).
  - reflexivity.
  - vm_compute. reflexivity.
  - left. lia.
  - right. repeat split.
  - reflexivity.
  - lia.
  - lia.
  - reflexivity.
  - split; reflexivity.
Defined.

Section MaskedRead.

Import MemoryAccess Alignment.

(** A read of a memory type that needs no alignment (and is not the fuses
    of a debugWire target, which are refused), within the 32-bit address
    space and no longer than one memory access, that the driver masks
    itself, around one excluded address strictly inside the range, from a
    tool that answers both reads in full: the bytes before and after the address are read from
    the tool in two accesses, the address itself is never asked for, and
    its place in the result holds 0x00. *)
Theorem masked_read_zeroes_excluded_address (fuel : nat) (type : Avr8MemoryType.t)
    (startAddress bytes excludedAddress maximum : Z) (i : EdbgAvr8Interface)
    (before after : Avr8ResponseFrame) (rest : list Avr8ResponseFrame)
    (Hguard : Avr8MemoryType.eqb type Avr8MemoryType.FUSES
              && Avr8ConfigVariant.eqb (configVariant i) Avr8ConfigVariant.DEBUG_WIRE
              = false)
    (Hmasking : driverSideMasking (avoidMaskedMemoryRead i) type [excludedAddress] = true)
    (Hplain : alignmentRequired type = false)
    (Hmax : maximumMemoryAccessSize type i = (Ok maximum, i))
    (Hinside : 0 <= startAddress /\ startAddress < excludedAddress
               /\ excludedAddress < startAddress + bytes - 1
               /\ startAddress + bytes <= 2 ^ 32)
    (Hfits : bytes <= maximum)
    (Hresponses : responses (edbgInterface i) = before :: after :: rest)
    (Hbefore : failed before = false
               /\ Z.of_nat (length (memoryData before)) = excludedAddress - startAddress)
    (Hafter : failed after = false
              /\ Z.of_nat (length (memoryData after))
                 = startAddress + bytes - 1 - excludedAddress) :
  let result := memoryData before ++ [0] ++ memoryData after in
  Z.of_nat (length result) = bytes
  /\ exists i',
       readMemory (S (S fuel)) type startAddress bytes [excludedAddress] i = (Ok result, i')
       /\ wireOf i'
          = wireOf i
            ++ [Sent (CommandFrames.ReadMemory type startAddress
                        (excludedAddress - startAddress) []);
                Sent (CommandFrames.ReadMemory type (excludedAddress + 1)
                        (startAddress + bytes - 1 - excludedAddress) [])].
Proof.
  intros result. destruct Hinside as (H0 & H1 & H2 & H3).
  destruct Hbefore as (Hok1 & Hlen1). destruct Hafter as (Hok2 & Hlen2).
  split; [unfold result; rewrite !length_app; cbn [length]; lia |].
  rewrite readMemory_unfold.
  unfold bind at 1. unfold fusesGuard, bind at 1, gets at 1. rewrite Hguard.
  unfold ret at 1. unfold bind at 1, gets at 1. rewrite Hmasking. cbv zeta.
  rewrite (wrap32_small (startAddress + bytes - 1)) by lia.
  cbn [readSegments].
  assert (Hin : (excludedAddress <? startAddress)
                || (startAddress + bytes - 1 <? excludedAddress) = false).
  { apply orb_false_iff. split; apply Z.ltb_ge; lia. }
  rewrite Hin. rewrite (wrap32_small (excludedAddress - startAddress)) by lia.
  assert (Hpos : (0 <? excludedAddress - startAddress) = true) by (apply Z.ltb_lt; lia).
  rewrite Hpos.
  assert (Hp : forall j, settingsOf i = settingsOf j -> plainAccess j type []).
  { intros j Hj. apply (plainAccess_transfer i j type [] Hj). split; [exact Hguard | reflexivity]. }
  unfold bind at 1. unfold bind at 1. unfold bind at 1.
  rewrite (readMemory_one_frame fuel type startAddress (excludedAddress - startAddress) []
             i maximum before (after :: rest)); auto; try lia.
  2:{ left. exact Hplain. }
  unfold ret at 1. unfold ret at 1. cbv iota beta.
  rewrite (wrap32_small (excludedAddress + 1)) by lia.
  replace (startAddress + bytes - 1 - (excludedAddress + 1))
    with (startAddress + bytes - 1 - excludedAddress - 1) by lia.
  rewrite (wrap32_small (startAddress + bytes - 1 - excludedAddress - 1)) by lia.
  replace (startAddress + bytes - 1 - excludedAddress - 1 + 1)
    with (startAddress + bytes - 1 - excludedAddress) by lia.
  rewrite (wrap32_small (startAddress + bytes - 1 - excludedAddress)) by lia.
  assert (Hpos2 : (0 <? startAddress + bytes - 1 - excludedAddress) = true)
    by (apply Z.ltb_lt; lia).
  rewrite Hpos2.
  set (i1 := afterFrame (CommandFrames.ReadMemory type startAddress
                           (excludedAddress - startAddress) []) (after :: rest) i).
  unfold bind at 1.
  rewrite (readMemory_one_frame fuel type (excludedAddress + 1)
             (startAddress + bytes - 1 - excludedAddress) [] i1 maximum after rest);
    auto; try lia.
  - eexists. split.
    + unfold ret, result. cbn [app]. rewrite <- app_assoc. reflexivity.
    + unfold i1, wireOf, afterFrame. cbn [edbgInterface with_edbgInterface wire].
      rewrite <- app_assoc. reflexivity.
  - left. exact Hplain.
  - apply (maximumMemoryAccessSize_transfer type i i1 maximum); [reflexivity | exact Hmax].
Qed.

End MaskedRead.

Lemma masked_read_zeroes_excluded_address_witness :
  let result := [1; 2] ++ [0] ++ [4; 5; 6] in
  Z.of_nat (length result) = 6
  /\ exists i',
       MemoryAccess.readMemory 2 Avr8MemoryType.SRAM 256 6 [258]
         (with_edbgInterface
            (exampleTool [dataResponse [1; 2]; dataResponse [4; 5; 6]] []) maskedInterface)
       = (Ok result, i')
       /\ wireOf i'
          = wireOf (with_edbgInterface
                      (exampleTool [dataResponse [1; 2]; dataResponse [4; 5; 6]] [])
                      maskedInterface)
            ++ [Sent (CommandFrames.ReadMemory Avr8MemoryType.SRAM 256 (258 - 256) []);
                Sent (CommandFrames.ReadMemory Avr8MemoryType.SRAM (258 + 1)
                        (256 + 6 - 1 - 258) [])].
Proof.
  apply (masked_read_zeroes_excluded_address 0 Avr8MemoryType.SRAM 256 6 258 68
           (with_edbgInterface
              (exampleTool [dataResponse [1; 2]; dataResponse [4; 5; 6]] []) maskedInterface)
           (dataResponse [1; 2]) (dataResponse [4; 5; 6]) []);
    try reflexivity; try lia; split; reflexivity.
Defined.

(** ** Memory descriptors *)

Lemma rangeOf_describes memoryType startAddress size access pageSize :
  isSegment startAddress size ->
  describes {| MemoryDescriptor.type := memoryType;
               MemoryDescriptor.addressRange := MemoryDescriptors.rangeOf startAddress size;
               MemoryDescriptor.access := access;
               MemoryDescriptor.pageSize := pageSize |} startAddress size.
Proof.
  unfold isSegment, is_u32, describes, MemoryDescriptor.size, MemoryDescriptors.rangeOf.
  intros (Hs & Hn). cbn [MemoryDescriptor.addressRange TargetMemoryAddressRange.startAddress
                         TargetMemoryAddressRange.endAddress].
  split; [reflexivity |]. split.
  - unfold wrap32. change (2 ^ 32) with 4294967296 in *.
    Z.div_mod_to_equations. lia.
  - intros H1 H2 address. rewrite contains_spec.
    cbn [TargetMemoryAddressRange.startAddress TargetMemoryAddressRange.endAddress].
    destruct (Z.eq_dec (startAddress + size) (2 ^ 32)) as [Heq | Hne].
    + rewrite Heq. unfold wrap32 at 2. rewrite Z.mod_same by lia.
      change (wrap32 (0 - 1)) with (2 ^ 32 - 1). lia.
    + rewrite (wrap32_small (startAddress + size)) by lia.
      rewrite wrap32_small by lia. lia.
Qed.

(** [loadTargetMemoryDescriptors] on an empty map: the RAM and the FLASH
    descriptor hold the segments the parameters give, with [size()]
    returning the size parameter; the EEPROM descriptor is there exactly
    when its start address and its size both are; FLASH is not writeable
    during a debug session, and carries the flash page size. *)
Theorem loadTargetMemoryDescriptors_sizes (parameters : MemoryDescriptors.Parameters)
    (ramStart ramBytes flashStart flashBytes : Z)
    (Hram : MemoryDescriptors.ramStartAddress parameters = Some ramStart
            /\ MemoryDescriptors.ramSize parameters = Some ramBytes
            /\ isSegment ramStart ramBytes)
    (Hflash : MemoryDescriptors.flashStartAddress parameters = Some flashStart
              /\ MemoryDescriptors.flashSize parameters = Some flashBytes
              /\ isSegment flashStart flashBytes) :
  exists descriptors,
    MemoryDescriptors.loadTargetMemoryDescriptors parameters [] = (Ok tt, descriptors)
    /\ (exists ram,
           map_find TargetMemoryType.eqb TargetMemoryType.RAM descriptors = Some ram
           /\ describes ram ramStart ramBytes)
    /\ (exists flash,
           map_find TargetMemoryType.eqb TargetMemoryType.FLASH descriptors = Some flash
           /\ describes flash flashStart flashBytes
           /\ MemoryDescriptor.pageSize flash = MemoryDescriptors.flashPageSize parameters
           /\ MemoryDescriptor.writeableDuringDebugSession (MemoryDescriptor.access flash)
              = false)
    /\ match MemoryDescriptors.eepromStartAddress parameters,
             MemoryDescriptors.eepromSize parameters with
       | Some eepromStart, Some eepromBytes =>
           isSegment eepromStart eepromBytes ->
           exists eeprom,
             map_find TargetMemoryType.eqb TargetMemoryType.EEPROM descriptors = Some eeprom
             /\ describes eeprom eepromStart eepromBytes
       | _, _ => map_find TargetMemoryType.eqb TargetMemoryType.EEPROM descriptors = None
       end.
Proof.
  destruct Hram as (Hrs & Hrb & Hrseg). destruct Hflash as (Hfs & Hfb & Hfseg).
  unfold MemoryDescriptors.loadTargetMemoryDescriptors.
  rewrite Hrs, Hrb, Hfs, Hfb.
  destruct (MemoryDescriptors.eepromStartAddress parameters) as [eepromStart |];
    [destruct (MemoryDescriptors.eepromSize parameters) as [eepromBytes |] |];
    eexists; (split; [reflexivity |]); cbn [map_find TargetMemoryType.eqb app].
  - split; [eexists; split; [reflexivity | apply rangeOf_describes; exact Hrseg] |].
    split; [eexists; split; [reflexivity |];
            split; [apply rangeOf_describes; exact Hfseg | split; reflexivity] |].
    intros Heseg. eexists. split; [reflexivity | apply rangeOf_describes; exact Heseg].
  - split; [eexists; split; [reflexivity | apply rangeOf_describes; exact Hrseg] |].
    split; [eexists; split; [reflexivity |];
            split; [apply rangeOf_describes; exact Hfseg | split; reflexivity] |].
    reflexivity.
  - split; [eexists; split; [reflexivity | apply rangeOf_describes; exact Hrseg] |].
    split; [eexists; split; [reflexivity |];
            split; [apply rangeOf_describes; exact Hfseg | split; reflexivity] |].
    reflexivity.
Qed.

Lemma loadTargetMemoryDescriptors_sizes_witness :
  exists descriptors,
    MemoryDescriptors.loadTargetMemoryDescriptors exampleMemoryParameters []
    = (Ok tt, descriptors)
    /\ (exists ram,
           map_find TargetMemoryType.eqb TargetMemoryType.RAM descriptors = Some ram
           /\ describes ram 256 2048)
    /\ (exists flash,
           map_find TargetMemoryType.eqb TargetMemoryType.FLASH descriptors = Some flash
           /\ describes flash 0 32768
           /\ MemoryDescriptor.pageSize flash = Some 128
           /\ MemoryDescriptor.writeableDuringDebugSession (MemoryDescriptor.access flash)
              = false)
    /\ (isSegment 0 1024 ->
        exists eeprom,
          map_find TargetMemoryType.eqb TargetMemoryType.EEPROM descriptors = Some eeprom
          /\ describes eeprom 0 1024).
Proof.
  apply (loadTargetMemoryDescriptors_sizes exampleMemoryParameters 256 2048 0 32768);
    repeat split; unfold is_u32; lia.
Defined.

(** ** The write-memory handler *)

Section WriteMemoryRange.

Import GdbWriteMemory.

Context {T : Type} {service : TargetControllerService T}.

Lemma actionsSince_app (s s' : DebugSession T) l :
  actions s' = actions s ++ l -> actionsSince s s' = l.
Proof.
  unfold actionsSince. intros ->. rewrite skipn_app, skipn_all, Nat.sub_diag. reflexivity.
Qed.

(** [WriteMemory::handle] calls the target controller at most once, and
    only for a memory type of the target other than FLASH, a buffer that
    is not empty, and a range of addresses that lies within the range of
    the memory type (for RAM: that starts at 0 or above and ends within
    it), an EEPROM address being taken relative to the start of the
    EEPROM. When it returns it has sent exactly one reply: OK for an empty
    buffer or a write that the controller carried out, the error reply
    otherwise. *)
Theorem write_packet_stays_in_range
    (memoryDescriptorsByType : list (TargetMemoryType.t * TargetMemoryDescriptor))
    (packet : GdbWriteMemory.t) (s s' : DebugSession T) (r : Res unit)
    (Hcall : handle memoryDescriptorsByType packet s = (r, s')) :
  (length (targetWrites (actionsSince s s')) <= 1)%nat
  /\ (forall memoryType startAddress buffer written,
         In (ServiceWriteMemory memoryType startAddress buffer written)
           (actionsSince s s') ->
         exists descriptor,
           map_find TargetMemoryType.eqb memoryType memoryDescriptorsByType = Some descriptor
           /\ memoryType = GdbWriteMemory.memoryType packet
           /\ memoryType <> TargetMemoryType.FLASH
           /\ buffer = GdbWriteMemory.buffer packet /\ buffer <> []
           /\ startAddress
              = (if TargetMemoryType.eqb memoryType TargetMemoryType.EEPROM
                 then wrap32 (TargetMemoryAddressRange.startAddress (addressRange descriptor)
                              + GdbWriteMemory.startAddress packet)
                 else GdbWriteMemory.startAddress packet)
           /\ lowestWritable memoryType descriptor <= startAddress
           /\ startAddress + Z.of_nat (length buffer) - 1
              <= TargetMemoryAddressRange.endAddress (addressRange descriptor))
  /\ (r = Ok tt ->
      exists reply,
        replies (actionsSince s s') = [reply]
        /\ (reply = OkResponsePacket <->
            (exists descriptor,
                map_find TargetMemoryType.eqb (GdbWriteMemory.memoryType packet)
                  memoryDescriptorsByType = Some descriptor)
            /\ GdbWriteMemory.memoryType packet <> TargetMemoryType.FLASH
            /\ (GdbWriteMemory.buffer packet = []
                \/ exists memoryType startAddress buffer,
                     In (ServiceWriteMemory memoryType startAddress buffer (Ok tt))
                       (actionsSince s s')))).
Proof.
  unfold handle in Hcall.
  destruct (map_find TargetMemoryType.eqb (memoryType packet) memoryDescriptorsByType)
    as [descriptor |] eqn:Efind.
  2:{ cbn in Hcall. inversion Hcall; subst.
      erewrite actionsSince_app by (cbn; reflexivity). cbn.
      split; [lia |]. split; [intros ? ? ? ? [H | []]; discriminate |].
      intros _. exists ErrorResponsePacket. split; [reflexivity |].
      split; [discriminate |]. intros ((d & Hd) & _). discriminate. }
  destruct (TargetMemoryType.eqb (memoryType packet) TargetMemoryType.FLASH) eqn:Eflash.
  { cbn in Hcall. inversion Hcall; subst.
    erewrite actionsSince_app by (cbn; reflexivity). cbn.
    split; [lia |]. split; [intros ? ? ? ? [H | []]; discriminate |].
    intros _. exists ErrorResponsePacket. split; [reflexivity |].
    split; [discriminate |]. intros (_ & Hne & _).
    destruct (memoryType packet); try discriminate. congruence. }
  assert (Hnotflash : memoryType packet <> TargetMemoryType.FLASH)
    by (intros H; rewrite H in Eflash; discriminate).
  destruct (length (buffer packet) =? 0)%nat eqn:Eempty.
  { cbn in Hcall. inversion Hcall; subst.
    erewrite actionsSince_app by (cbn; reflexivity). cbn.
    split; [lia |]. split; [intros ? ? ? ? [H | []]; discriminate |].
    intros _. exists OkResponsePacket. split; [reflexivity |].
    split; [| reflexivity]. intros _. split; [eauto |]. split; [exact Hnotflash |].
    left. apply Nat.eqb_eq in Eempty. destruct (buffer packet); [reflexivity | discriminate]. }
  assert (Hnonempty : buffer packet <> [])
    by (intros H; rewrite H in Eempty; discriminate).
  cbv zeta in Hcall.
  destruct ((_ <? _) || (_ <? _)) eqn:Erange.
  { cbn in Hcall. inversion Hcall; subst.
    erewrite actionsSince_app by (cbn; reflexivity). cbn.
    split; [lia |]. split; [intros ? ? ? ? [H | []]; discriminate |].
    intros _. exists ErrorResponsePacket. split; [reflexivity |].
    split; [discriminate |]. intros (_ & _ & [H | (? & ? & ? & [H | []])]);
      [contradiction | discriminate]. }
  apply orb_false_iff in Erange. destruct Erange as (Elow & Ehigh).
  apply Z.ltb_ge in Elow. apply Z.ltb_ge in Ehigh.
  unfold tryCatch, bind, callWriteMemory, writePacket, modify in Hcall.
  destruct (serviceWriteMemory _ _ _ (controller s)) as [[[] | [msg | what | what] |] c] eqn:Eservice;
    cbn in Hcall; inversion Hcall; subst;
    erewrite actionsSince_app by (cbn; rewrite <- ?app_assoc; reflexivity); cbn.
  all: split; [lia |].
  all: split;
    [ intros type start bytes written Hin;
      destruct Hin as [Hin | Hin]; [| try (destruct Hin as [Hin | []]; discriminate);
                                       try contradiction];
      inversion Hin; subst; exists descriptor;
      repeat split; auto; unfold lowestWritable; try lia |].
  - intros _. exists OkResponsePacket. split; [reflexivity |]. split; [| reflexivity].
    intros _. split; [eauto |]. split; [exact Hnotflash |]. right. eauto.
  - intros _. exists ErrorResponsePacket. split; [reflexivity |]. split; [discriminate |].
    intros (_ & _ & [H | (? & ? & ? & [H | [H | []]])]);
      [contradiction | discriminate | discriminate].
  - discriminate.
  - discriminate.
  - discriminate.
Qed.

End WriteMemoryRange.

Lemma write_packet_stays_in_range_witness :
  let packet := {| GdbWriteMemory.memoryType := TargetMemoryType.RAM;
                   GdbWriteMemory.startAddress := 256;
                   GdbWriteMemory.buffer := [1; 2] |} in
  let s := exampleSession in
  let s' := snd (GdbWriteMemory.handle exampleDescriptors packet s) in
  GdbWriteMemory.handle exampleDescriptors packet s = (Ok tt, s')
  /\ (length (GdbWriteMemory.targetWrites (actionsSince s s')) <= 1)%nat
  /\ (forall memoryType startAddress buffer written,
         In (ServiceWriteMemory memoryType startAddress buffer written)
           (actionsSince s s') ->
         exists descriptor,
           map_find TargetMemoryType.eqb memoryType exampleDescriptors = Some descriptor
           /\ memoryType = TargetMemoryType.RAM
           /\ memoryType <> TargetMemoryType.FLASH
           /\ buffer = [1; 2] /\ buffer <> []
           /\ startAddress
              = (if TargetMemoryType.eqb memoryType TargetMemoryType.EEPROM
                 then wrap32 (TargetMemoryAddressRange.startAddress (addressRange descriptor)
                              + 256)
                 else 256)
           /\ lowestWritable memoryType descriptor <= startAddress
           /\ startAddress + Z.of_nat (length buffer) - 1
              <= TargetMemoryAddressRange.endAddress (addressRange descriptor))
  /\ (Ok tt = Ok tt ->
      exists reply,
        replies (actionsSince s s') = [reply]
        /\ (reply = OkResponsePacket <->
            (exists descriptor,
                map_find TargetMemoryType.eqb TargetMemoryType.RAM exampleDescriptors
                = Some descriptor)
            /\ TargetMemoryType.RAM <> TargetMemoryType.FLASH
            /\ ([1; 2] = []
                \/ exists memoryType startAddress buffer,
                     In (ServiceWriteMemory memoryType startAddress buffer (Ok tt))
                       (actionsSince s s')))).
Proof.
  intros packet s s'.
  assert (Hcall : GdbWriteMemory.handle exampleDescriptors packet s = (Ok tt, s'))
    by by_running.
  split; [exact Hcall |].
  exact (write_packet_stays_in_range exampleDescriptors packet s s' (Ok tt) Hcall).
Defined.

(** ** Memory access on any number of frames *)

Section ToolOnly.

Import MemoryAccess.

Lemma toolOnly_refl i : toolOnly i i.
Proof. destruct i; repeat split. Qed.

Lemma toolOnly_trans i i1 i2 : toolOnly i i1 -> toolOnly i1 i2 -> toolOnly i i2.
Proof.
  unfold toolOnly. intros (H1 & E1 & U1) (H2 & E2 & U2).
  split; [rewrite <- H2, <- H1; reflexivity | split; congruence].
Qed.

Lemma keeps_ret {A} (a : A) : keeps (ret a).
Proof. intros i r i' H. inversion H; subst. apply toolOnly_refl. Qed.

Lemma keeps_raise {A} e : keeps (@raise _ A e).
Proof. intros i r i' H. inversion H; subst. apply toolOnly_refl. Qed.

Lemma keeps_gets {A} (f : EdbgAvr8Interface -> A) : keeps (gets f).
Proof. intros i r i' H. inversion H; subst. apply toolOnly_refl. Qed.

Lemma keeps_liftRes {A} (x : Res A) : keeps (liftRes x).
Proof. intros i r i' H. inversion H; subst. apply toolOnly_refl. Qed.

Lemma keeps_outOfFuel {A} : keeps (@outOfFuel _ A).
Proof. intros i r i' H. inversion H; subst. apply toolOnly_refl. Qed.

Lemma keeps_bind {A B} (m : M EdbgAvr8Interface A) (f : A -> M EdbgAvr8Interface B) :
  keeps m -> (forall a, keeps (f a)) -> keeps (bind m f).
Proof.
  intros Hm Hf i r i' H. unfold bind in H.
  destruct (m i) as [[a | e |] i1] eqn:Em.
  - exact (toolOnly_trans _ _ _ (Hm _ _ _ Em) (Hf a _ _ _ H)).
  - inversion H; subst. exact (Hm _ _ _ Em).
  - inversion H; subst. exact (Hm _ _ _ Em).
Qed.

Lemma keeps_send frame : keeps (Avr8Interface.send frame).
Proof.
  intros i r i' H. pose proof (send_events _ _ _ _ H) as He.
  apply onEdbg_inv in H. destruct H as (e' & H & ->).
  split; [destruct i; reflexivity |]. split; [exact He |].
  unfold sendAvrCommandFrameAndWaitForResponseFrame in H.
  destruct (responses (edbgInterface i)); inversion H; subst; reflexivity.
Qed.

Ltac keeps_step :=
  match goal with
  | |- keeps (bind _ _) => apply keeps_bind; [| intros ?]
  | |- keeps (ret _) => apply keeps_ret
  | |- keeps (throw _) => apply keeps_raise
  | |- keeps (raise _) => apply keeps_raise
  | |- keeps (gets _) => apply keeps_gets
  | |- keeps (liftRes _) => apply keeps_liftRes
  | |- keeps outOfFuel => apply keeps_outOfFuel
  | |- keeps (value ?o) => destruct o; [apply keeps_ret | apply keeps_raise]
  | |- keeps (Avr8Interface.send _) => apply keeps_send
  | |- keeps (if ?b then _ else _) => destruct b
  | |- keeps (match ?x with _ => _ end) => destruct x
  end.

Lemma keeps_maximumMemoryAccessSize type : keeps (maximumMemoryAccessSize type).
Proof. unfold maximumMemoryAccessSize. repeat keeps_step. Qed.

Lemma keeps_readChunks readChunk :
  (forall address size, keeps (readChunk address size)) ->
  forall turns startAddress bytes maximum output,
    keeps (readChunks readChunk startAddress bytes maximum turns output).
Proof.
  intros Hc. induction turns as [| turns IH]; intros; cbn [readChunks].
  - repeat keeps_step.
  - keeps_step; [| keeps_step]. keeps_step; [apply Hc | apply IH].
Qed.

Lemma keeps_readSegments readSegment :
  (forall address size, keeps (readSegment address size)) ->
  forall excluded startAddress endAddress output segmentStartAddress,
    keeps (readSegments readSegment startAddress endAddress excluded output
             segmentStartAddress).
Proof.
  intros Hc. induction excluded as [| x excluded IH]; intros; cbn [readSegments].
  - keeps_step.
  - keeps_step; [apply IH |]. keeps_step; [| apply IH].
    keeps_step; [| keeps_step]. keeps_step; [apply Hc | keeps_step].
Qed.

(** [readMemory] touches the tool alone. *)
Lemma keeps_readMemory : forall fuel type startAddress bytes excluded,
  keeps (readMemory fuel type startAddress bytes excluded).
Proof.
  induction fuel as [| fuel IH]; intros; cbn [readMemory].
  - keeps_step.
  - unfold fusesGuard, slice, readMemoryFrame.
    repeat first [ apply IH
                 | apply keeps_maximumMemoryAccessSize
                 | apply keeps_readChunks; intros
                 | apply keeps_readSegments; intros
                 | keeps_step ].
Qed.


Lemma afterFrames_exact i i' frames rest :
  toolOnly i i' -> wireOf i' = wireOf i ++ frames ->
  responses (edbgInterface i') = rest ->
  i' = afterFrames frames rest i.
Proof.
  unfold toolOnly, afterFrames, wireOf. intros (Hi & He & Hu) Hw Hr.
  rewrite <- Hi at 1. f_equal.
  destruct (edbgInterface i'); cbn in *. congruence.
Qed.

Lemma chunksOf_single startAddress bytes maximum :
  0 < bytes <= maximum -> chunksOf startAddress bytes maximum = [(startAddress, bytes)].
Proof.
  intros Hb. unfold chunksOf.
  destruct (Z.to_nat bytes) as [| n] eqn:En; [lia |].
  cbn [chunks]. destruct (Z.ltb_spec 0 bytes); [| lia].
  rewrite Z.min_l by lia. f_equal.
  replace (bytes - bytes) with 0 by lia.
  destruct n; reflexivity.
Qed.

(** A read that needs no widening, whatever its length: the frames of its
    chunks go out in order, and the answers are put together. *)
Lemma readMemory_frames fuel type startAddress bytes excl i maximum rs rest :
  plainAccess i type excl ->
  noWidening (targetParameters i) type startAddress bytes maximum ->
  maximumMemoryAccessSize type i = (Ok maximum, i) ->
  0 < maximum -> 0 < bytes ->
  0 <= startAddress -> startAddress + bytes <= 2 ^ 32 -> bytes < 2 ^ 32 ->
  responses (edbgInterface i) = rs ++ rest ->
  answersReads rs (chunksOf startAddress bytes maximum) ->
  (length rs + 2 <= fuel)%nat ->
  readMemory fuel type startAddress bytes excl i
  = (Ok (concat (map memoryData rs)),
     afterFrames (map (readFrameOf type excl) (chunksOf startAddress bytes maximum)) rest i).
Proof.
  intros Hp Hw Hmax Hm Hb Hs0 Hs32 Hb32 Hr Hans Hfuel.
  destruct (Z_le_gt_dec bytes maximum) as [Hfit | Hlong].
  - rewrite chunksOf_single in * by lia.
    inversion Hans as [| r c rs' cs' (Hok & Hlen) Hrest]; subst.
    inversion Hrest; subst. cbn [snd] in Hlen. cbn [app] in Hr.
    destruct fuel as [| fuel]; [simpl in Hfuel; lia |].
    rewrite (readMemory_one_frame fuel type startAddress bytes excl i maximum r rest);
      auto; try lia.
    cbn [map concat]. rewrite app_nil_r. reflexivity.
  - destruct (readMemory_chunked fuel type startAddress bytes excl i maximum rs rest)
      as (i' & Hrun & Hwire & Hset & Hresp); auto; [lia |].
    rewrite Hrun. f_equal.
    apply afterFrames_exact; auto. exact (keeps_readMemory _ _ _ _ _ _ _ _ Hrun).
Qed.

Lemma writeMemory_frames fuel type startAddress buffer i maximum rs rest :
  plainAccess i type [] ->
  noWidening (targetParameters i) type startAddress (Z.of_nat (length buffer)) maximum ->
  maximumMemoryAccessSize type i = (Ok maximum, i) ->
  0 < maximum -> 0 < Z.of_nat (length buffer) ->
  0 <= startAddress -> startAddress + Z.of_nat (length buffer) <= 2 ^ 32 ->
  Z.of_nat (length buffer) < 2 ^ 32 ->
  responses (edbgInterface i) = rs ++ rest ->
  answersWrites rs (chunksOf startAddress (Z.of_nat (length buffer)) maximum) ->
  (length rs + 2 <= fuel)%nat ->
  exists i',
    writeMemory fuel type startAddress buffer i = (Ok tt, i')
    /\ wireOf i' = wireOf i
                   ++ map (writeFrameOf type startAddress buffer)
                        (chunksOf startAddress (Z.of_nat (length buffer)) maximum)
    /\ responses (edbgInterface i') = rest.
Proof.
  intros Hp Hw Hmax Hm Hb Hs0 Hs32 Hb32 Hr Hans Hfuel.
  destruct (Z_le_gt_dec (Z.of_nat (length buffer)) maximum) as [Hfit | Hlong].
  - rewrite chunksOf_single in * by lia.
    inversion Hans as [| r c rs' cs' Hok Hrest]; subst.
    inversion Hrest; subst. cbn [app] in Hr.
    destruct fuel as [| fuel]; [simpl in Hfuel; lia |].
    rewrite (writeMemory_one_frame fuel type startAddress buffer i maximum r rest);
      auto; try lia.
    eexists. split; [reflexivity |]. split; [| reflexivity].
    unfold wireOf, afterFrame, writeFrameOf.
    cbn [edbgInterface with_edbgInterface wire map fst snd].
    rewrite Z.sub_diag. cbn [Z.to_nat skipn].
    rewrite Nat2Z.id, firstn_all. reflexivity.
  - destruct (writeMemory_chunked fuel type startAddress buffer i maximum rs rest)
      as (i' & Hrun & Hwire & Hset & Hresp); auto; [lia |].
    exists i'. auto.
Qed.

End ToolOnly.

(** ** The chip erase of a JTAG target *)

Lemma onInterface_afterFrames {A} (m : M EdbgAvr8Interface A) d r frames rest :
  m (Edbg.interface d) = (r, afterFrames frames rest (Edbg.interface d)) ->
  Edbg.onInterface m d
  = (r, Edbg.with_interface (afterFrames frames rest (Edbg.interface d))
          (Edbg.with_traffic (Edbg.traffic d ++ map Edbg.Avr8 frames) d)).
Proof.
  intros H. unfold Edbg.onInterface. rewrite H.
  unfold wireOf, afterFrames. cbn [edbgInterface with_edbgInterface wire].
  rewrite skipn_app, skipn_all, Nat.sub_diag. reflexivity.
Qed.

Lemma answered_length maximum : forall n address remaining rs,
  0 < maximum -> 0 <= remaining -> (Z.to_nat remaining <= n)%nat ->
  answersReads rs (chunks n address remaining maximum) ->
  Z.of_nat (length (concat (map memoryData rs))) = remaining.
Proof.
  induction n as [| n IH]; intros address remaining rs Hm Hr Hn Hans; cbn [chunks] in Hans.
  - inversion Hans; subst. cbn [map concat length]. lia.
  - destruct (Z.ltb_spec 0 remaining).
    + inversion Hans as [| r c rs' cs' (Hok & Hlen) Hrest]; subst. cbn [snd] in Hlen.
      cbn [map concat]. rewrite length_app, Nat2Z.inj_add, Hlen.
      rewrite (IH (address + Z.min remaining maximum) (remaining - Z.min remaining maximum)
                 rs' Hm ltac:(lia) ltac:(lia) Hrest). lia.
    + inversion Hans; subst. cbn [map concat length]. lia.
Qed.

Lemma writes_restore type startAddress maximum : forall n address remaining rs pre,
  0 < maximum -> 0 <= remaining ->
  answersReads rs (chunks n address remaining maximum) ->
  Z.of_nat (length pre) = address - startAddress ->
  map (writeFrameOf type startAddress (pre ++ concat (map memoryData rs)))
    (chunks n address remaining maximum)
  = restoreFrames type (chunks n address remaining maximum) rs.
Proof.
  unfold restoreFrames.
  induction n as [| n IH]; intros address remaining rs pre Hm Hr Hans Hpre;
    cbn [chunks] in *.
  - reflexivity.
  - destruct (Z.ltb_spec 0 remaining); [| reflexivity].
    inversion Hans as [| r c rs' cs' (Hok & Hlen) Hrest]; subst. cbn [snd] in Hlen.
    cbn [map combine concat fst snd]. f_equal.
    + unfold writeFrameOf. cbn [fst snd]. do 2 f_equal.
      rewrite <- Hpre, Nat2Z.id, skipn_app, skipn_all, Nat.sub_diag. cbn [skipn app].
      rewrite <- Hlen, Nat2Z.id, firstn_app, firstn_all, Nat.sub_diag.
      cbn [firstn]. apply app_nil_r.
    + rewrite app_assoc. apply IH; auto; try lia.
      rewrite length_app, Nat2Z.inj_add. lia.
Qed.

Section ChipErase.

Import MemoryAccess.

Variables (fuel : nat) (d : Edbg.t) (startAddress size maximum : Z).
Variables (reads writes rest : list Avr8ResponseFrame) (erased : Avr8ResponseFrame).

Let type : Avr8MemoryType.t := jtagEepromType (Edbg.interface d).
Let pages : list (Z * Z) := chunksOf startAddress size maximum.

Hypothesis Hvariant : configVariant (Edbg.interface d) = Avr8ConfigVariant.MEGAJTAG.
Hypothesis Hpreserve : Edbg.preserveEeprom (Edbg.targetConfig d) = true.
Hypothesis Hstart :
  eepromStartAddress (targetParameters (Edbg.interface d)) = Some startAddress.
Hypothesis Hsize : Edbg.eepromSize (Edbg.furtherParameters d) = Some size.
Hypothesis Hmax :
  maximumMemoryAccessSize type (Edbg.interface d) = (Ok maximum, Edbg.interface d).
Hypothesis Hpages :
  noWidening (targetParameters (Edbg.interface d)) type startAddress size maximum.
Hypothesis Hbounds :
  0 < maximum /\ 0 < size /\ 0 <= startAddress /\ startAddress + size <= 2 ^ 32
  /\ size < 2 ^ 32.
Hypothesis Hfuel : (length pages + 2 <= fuel)%nat.
Hypothesis Hresponses : pendingResponses d = reads ++ erased :: writes ++ rest.
Hypothesis Hreads : answersReads reads pages.

Lemma eeprom_read_type i startAt bytes :
  configVariant i = Avr8ConfigVariant.MEGAJTAG ->
  TargetMemoryAccess.readMemory fuel TargetMemoryType.EEPROM startAt bytes [] i
  = readMemory fuel (jtagEepromType i) startAt bytes [] i.
Proof.
  intros Hv.
  unfold TargetMemoryAccess.readMemory, TargetMemoryAccess.resolveReadType, jtagEepromType,
    bind, gets, ret, liftRes.
  destruct (programmingModeEnabled i) eqn:Ep; cbn [andb TargetMemoryType.eqb];
    cbv beta iota; rewrite ?Hv, ?Ep; cbn [Avr8ConfigVariant.eqb andb]; cbv beta iota;
    reflexivity.
Qed.

Lemma eeprom_write_type i startAt buffer :
  configVariant i = Avr8ConfigVariant.MEGAJTAG ->
  TargetMemoryAccess.writeMemory fuel TargetMemoryType.EEPROM startAt buffer i
  = writeMemory fuel (jtagEepromType i) startAt buffer i.
Proof.
  intros Hv.
  unfold TargetMemoryAccess.writeMemory, TargetMemoryAccess.resolveWriteType, jtagEepromType,
    bind, gets, ret.
  destruct (programmingModeEnabled i) eqn:Ep;
    cbv beta iota; rewrite ?Hv, ?Ep; cbv beta iota; reflexivity.
Qed.

(** The chip erase of a JTAG target with [preserveEeprom] set, in a
    programming session (where the EEPROM goes through EEPROM_PAGE, page by
    page) or outside one (through EEPROM). Provided that the start address
    and the size of the EEPROM are known, that the EEPROM is not empty,
    lies within the 32-bit address space and needs no widening (in a
    programming session: it is made of whole pages, one access each), and
    that the tool answers every read in full: the EEPROM is read, one access after the other, and
    the chip erase command is sent. If the tool refuses the erase, the
    function throws and nothing is written. If the tool accepts it and
    then every write, every answer of the read is written back to the
    address it was read from, and the function returns. *)
Theorem chip_erase_restores_eeprom (section : option ProgramMemorySection.t) :
  exists r d',
    Edbg.eraseProgramMemory fuel section d = (r, d')
    /\ let reading := map (fun page => Edbg.Avr8 (readFrameOf type [] page)) pages in
       let erase := Edbg.Command (Edbg.EraseMemory Avr8EraseMemoryMode.CHIP) in
       if failed erased
       then r = Err (Exception "AVR8 erase memory command failed")
            /\ trafficSince d d' = reading ++ [erase]
       else answersWrites writes pages ->
            r = Ok tt
            /\ trafficSince d d'
               = reading ++ [erase] ++ map Edbg.Avr8 (restoreFrames type pages reads).
Proof.
  destruct Hbounds as (Hm & Hs & Hs0 & Hs32 & Hb32).
  set (i := Edbg.interface d) in *.
  assert (Hlen : length reads = length pages) by (exact (answersReads_length _ _ Hreads)).
  assert (Hplain : plainAccess i type []).
  { split; [| reflexivity]. unfold type, jtagEepromType.
    destruct (programmingModeEnabled i); reflexivity. }
  pose proof (readMemory_frames fuel type startAddress size [] i maximum reads
                (erased :: writes ++ rest) Hplain Hpages Hmax Hm Hs Hs0 Hs32 Hb32
                Hresponses Hreads ltac:(lia)) as Hread.
  set (snapshot := concat (map memoryData reads)) in *.
  set (i1 := afterFrames (map (readFrameOf type []) pages) (erased :: writes ++ rest) i)
    in *.
  assert (Hsnapshot : Z.of_nat (length snapshot) = size).
  { apply (answered_length maximum (Z.to_nat size) startAddress size reads); auto; lia. }
  unfold Edbg.eraseProgramMemory.
  unfold bind at 1, gets at 1. unfold bind at 1, gets at 1.
  fold i. rewrite Hvariant. cbn [Avr8ConfigVariant.eqb].
  unfold bind at 1, gets at 1. unfold bind at 1. rewrite Hpreserve.
  unfold bind at 1, gets at 1. fold i. rewrite Hstart.
  unfold bind at 1, value at 1, ret at 1.
  rewrite Hsize. unfold bind at 1, value at 1, ret at 1.
  unfold bind at 1.
  rewrite (onInterface_afterFrames _ d (Ok snapshot) (map (readFrameOf type []) pages)
             (erased :: writes ++ rest));
    [| fold i; rewrite (eeprom_read_type i _ _ Hvariant); exact Hread].
  fold i i1. unfold ret at 1.
  unfold bind at 1, Edbg.sendFrame at 1.
  cbn [Edbg.interface Edbg.with_interface Edbg.with_traffic].
  assert (Hr1 : responses (edbgInterface i1) = erased :: writes ++ rest) by reflexivity.
  rewrite Hr1.
  set (i2 := with_edbgInterface _ i1).
  set (d2 := Edbg.with_interface i2 _).
  assert (Htraffic2 : Edbg.traffic d2
                      = Edbg.traffic d
                        ++ map (fun page => Edbg.Avr8 (readFrameOf type [] page)) pages
                        ++ [Edbg.Command (Edbg.EraseMemory Avr8EraseMemoryMode.CHIP)]).
  { unfold d2. cbn [Edbg.traffic Edbg.with_interface Edbg.with_traffic].
    rewrite map_map, <- app_assoc. reflexivity. }
  destruct (failed erased) eqn:Eerased.
  - eexists _, _. split; [reflexivity |]. cbv zeta. split; [reflexivity |].
    apply trafficSince_app. exact Htraffic2.
  - unfold bind at 1, gets at 1.
    assert (Htp : targetParameters (Edbg.interface d2) = targetParameters i) by reflexivity.
    rewrite Htp, Hstart. unfold bind at 1, value at 1, ret at 1.
    assert (Hi2 : Edbg.interface d2 = i2) by reflexivity.
    assert (Hsettings : settingsOf i = settingsOf i2) by reflexivity.
    assert (Htype : jtagEepromType i2 = type) by reflexivity.
    destruct (Edbg.onInterface _ d2) as [r d3] eqn:Ewrite.
    exists r, d3. split; [reflexivity |]. cbv zeta. intros Hwrites.
    apply onInterface_inv in Ewrite.
    destruct Ewrite as (i3 & Hrun & _ & _ & _ & _ & _ & Htraffic3).
    rewrite Hi2 in Hrun, Htraffic3.
    rewrite (eeprom_write_type i2 _ _ Hvariant), Htype in Hrun.
    assert (Hplain2 : plainAccess i2 type [])
      by exact (plainAccess_transfer _ _ _ _ Hsettings Hplain).
    assert (Hpages2 : noWidening (targetParameters i2) type startAddress
                        (Z.of_nat (length snapshot)) maximum)
      by (rewrite Hsnapshot; exact Hpages).
    assert (Hmax2 : maximumMemoryAccessSize type i2 = (Ok maximum, i2))
      by exact (maximumMemoryAccessSize_transfer _ _ _ _ Hsettings Hmax).
    assert (Hwrites2 : answersWrites writes
                         (chunksOf startAddress (Z.of_nat (length snapshot)) maximum))
      by (rewrite Hsnapshot; exact Hwrites).
    assert (Hfuel2 : (length writes + 2 <= fuel)%nat)
      by (rewrite (answersWrites_length _ _ Hwrites); exact Hfuel).
    destruct (writeMemory_frames fuel type startAddress snapshot i2 maximum writes rest
                Hplain2 Hpages2 Hmax2 Hm ltac:(lia) Hs0 ltac:(lia) ltac:(lia) eq_refl
                Hwrites2 Hfuel2)
      as (i3' & Hrun' & Hwire & _).
    rewrite Hrun' in Hrun. inversion Hrun; subst r i3'. split; [reflexivity |].
    apply trafficSince_app. rewrite Htraffic3, Htraffic2, Hwire.
    rewrite skipn_app, skipn_all, Nat.sub_diag. cbn [skipn app].
    rewrite Hsnapshot. fold pages. rewrite <- !app_assoc. do 2 f_equal.
    cbn [app]. do 2 f_equal.
    unfold snapshot, pages, chunksOf.
    apply (writes_restore type startAddress maximum (Z.to_nat size) startAddress size
             reads []); auto; [lia | simpl; lia].
Qed.

End ChipErase.

Lemma chip_erase_restores_eeprom_witness :
  let d := erasingEdbg in
  let d' := snd (Edbg.eraseProgramMemory 4 None d) in
  Edbg.eraseProgramMemory 4 None d = (Ok tt, d')
  /\ trafficSince d d'
     = [Edbg.Avr8 (Sent (CommandFrames.ReadMemory Avr8MemoryType.EEPROM_PAGE 0 4 []));
        Edbg.Avr8 (Sent (CommandFrames.ReadMemory Avr8MemoryType.EEPROM_PAGE 4 4 []));
        Edbg.Command (Edbg.EraseMemory Avr8EraseMemoryMode.CHIP);
        Edbg.Avr8 (Sent (CommandFrames.WriteMemory Avr8MemoryType.EEPROM_PAGE 0
                           [1; 2; 3; 4]));
        Edbg.Avr8 (Sent (CommandFrames.WriteMemory Avr8MemoryType.EEPROM_PAGE 4
                           [5; 6; 7; 8]))].
Proof.
  intros d d'.
  destruct (chip_erase_restores_eeprom 4 d 0 8 4
              [dataResponse [1; 2; 3; 4]; dataResponse [5; 6; 7; 8]]
              [okResponse; okResponse] [] okResponse
              eq_refl eq_refl eq_refl eq_refl eq_refl
              (or_intror (conj eq_refl (conj eq_refl eq_refl)))
              ltac:(lia) ltac:(simpl; lia) eq_refl
              ltac:(repeat constructor) None)
    as (r & d1 & Hcall & Hrest).
  cbv zeta in Hrest. change (failed okResponse) with false in Hrest. cbv iota in Hrest.
  destruct (Hrest ltac:(repeat constructor)) as (-> & Htraffic).
  assert (Hd : d1 = d') by (unfold d'; rewrite Hcall; reflexivity).
  subst d1. split; [exact Hcall | exact Htraffic].
Defined.

(** ** Widened writes *)

Lemma aligned_type_not_fuses (type : Avr8MemoryType.t) (variant : Avr8ConfigVariant.t) :
  Alignment.alignmentRequired type = true ->
  Avr8MemoryType.eqb type Avr8MemoryType.FUSES
  && Avr8ConfigVariant.eqb variant Avr8ConfigVariant.DEBUG_WIRE = false.
Proof. destruct type; intros H; try discriminate H; reflexivity. Qed.

Section WidenedWrite.

Import MemoryAccess Alignment.

Variables (fuel : nat) (type : Avr8MemoryType.t) (startAddress : Z).
Variables (i : EdbgAvr8Interface) (alignedStartAddress alignedBytes : Z).
Variables (buffer : list Z) (maximum readMaximum : Z).
Variables (olds writtens rest : list Avr8ResponseFrame).

Let readMemoryType : Avr8MemoryType.t :=
  if Avr8MemoryType.eqb type Avr8MemoryType.EEPROM_ATOMIC
  then Avr8MemoryType.EEPROM else type.
Let offset : nat := Z.to_nat (startAddress - alignedStartAddress).
Let previous : list Z := concat (map memoryData olds).
Let merged : list Z :=
  firstn offset previous ++ buffer ++ skipn (offset + length buffer) previous.

Hypothesis Hrequired : alignmentRequired type = true.
Hypothesis Hstart :
  alignMemoryAddress (targetParameters i) type startAddress = Ok alignedStartAddress.
Hypothesis Hbytes :
  alignMemoryBytes (targetParameters i) type
    (wrap32 (wrap32 (Z.of_nat (length buffer))
             + wrap32 (startAddress - alignedStartAddress)))
  = Ok alignedBytes.
Hypothesis Hwidened :
  alignedStartAddress <> startAddress
  \/ alignedBytes <> wrap32 (Z.of_nat (length buffer)).
Hypothesis Hwithin :
  0 <= alignedStartAddress <= startAddress
  /\ startAddress - alignedStartAddress + Z.of_nat (length buffer) <= alignedBytes
  /\ 0 < alignedBytes /\ alignedStartAddress + alignedBytes <= 2 ^ 32
  /\ alignedBytes < 2 ^ 32.
Hypothesis Hpage :
  noWidening (targetParameters i) type alignedStartAddress alignedBytes maximum.
Hypothesis Hmax : maximumMemoryAccessSize type i = (Ok maximum, i) /\ 0 < maximum.
Hypothesis Hread :
  noWidening (targetParameters i) readMemoryType alignedStartAddress alignedBytes
    readMaximum
  /\ maximumMemoryAccessSize readMemoryType i = (Ok readMaximum, i)
  /\ 0 < readMaximum.
Hypothesis Hresponses : responses (edbgInterface i) = olds ++ writtens ++ rest.
Hypothesis Hanswers :
  answersReads olds (chunksOf alignedStartAddress alignedBytes readMaximum)
  /\ answersWrites writtens (chunksOf alignedStartAddress alignedBytes maximum).
Hypothesis Hfuel : (length olds + 2 <= fuel)%nat /\ (length writtens + 2 <= fuel)%nat.

(** A write to a memory type that needs alignment, which has to be
    widened to page boundaries, is a read-modify-write over as many pages
    as the request touches. Provided that the widened range covers the
    request and lies within the 32-bit address space, that one access of
    the memory type is one page, and that the tool answers every read in
    full and accepts every write: the widened range is read, one access
    after the other (for EEPROM_ATOMIC through the EEPROM memory type),
    the bytes of the request replace those at its offset, and the whole
    range is written back page by page, every byte around the request as
    it was read. *)
Theorem widened_write_keeps_neighbours :
  Z.of_nat (length merged) = alignedBytes
  /\ exists i',
       writeMemory (S fuel) type startAddress buffer i = (Ok tt, i')
       /\ wireOf i'
          = wireOf i
            ++ map (readFrameOf readMemoryType [])
                 (chunksOf alignedStartAddress alignedBytes readMaximum)
            ++ map (writeFrameOf type alignedStartAddress merged)
                 (chunksOf alignedStartAddress alignedBytes maximum).
Proof.
  pose proof (aligned_type_not_fuses type (configVariant i) Hrequired) as Hguard.
  destruct Hwithin as ((Hw0 & Hw1) & Hw2 & Hw3 & Hw4 & Hw5).
  destruct Hmax as (Hmaximum & Hm). destruct Hread as (Hrw & Hrmax & Hr0).
  destruct Hanswers as (Holds & Hwrittens). destruct Hfuel as (Hf1 & Hf2).
  assert (Hprevious : Z.of_nat (length previous) = alignedBytes).
  { apply (answered_length readMaximum (Z.to_nat alignedBytes) alignedStartAddress
             alignedBytes olds); auto; lia. }
  assert (Hmerged : Z.of_nat (length merged) = alignedBytes).
  { unfold merged, offset. rewrite !length_app, length_firstn, length_skipn. lia. }
  split; [exact Hmerged |].
  rewrite writeMemory_unfold.
  unfold bind at 1. unfold fusesGuard, bind at 1, gets at 1. rewrite Hguard.
  unfold ret at 1. cbv zeta. rewrite Hrequired.
  unfold bind at 1, gets at 1. unfold bind at 1, liftRes at 1. rewrite Hstart.
  unfold bind at 1, liftRes at 1. rewrite Hbytes.
  assert (Hdiff : negb (alignedStartAddress =? startAddress)
                  || negb (alignedBytes =? wrap32 (Z.of_nat (length buffer))) = true).
  { destruct Hwidened as [H | H]; apply Z.eqb_neq in H; rewrite H;
      [reflexivity | apply orb_true_r]. }
  rewrite Hdiff. fold readMemoryType. unfold bind at 1.
  assert (Hplain : plainAccess i readMemoryType []).
  { split; [| reflexivity]. unfold readMemoryType.
    destruct (Avr8MemoryType.eqb type Avr8MemoryType.EEPROM_ATOMIC) eqn:E;
      [reflexivity | exact Hguard]. }
  rewrite (readMemory_frames fuel readMemoryType alignedStartAddress alignedBytes [] i
             readMaximum olds (writtens ++ rest) Hplain Hrw Hrmax Hr0 Hw3 Hw0 Hw4 Hw5
             Hresponses Holds Hf1).
  fold previous.
  unfold bind at 1, overlay at 1.
  rewrite (wrap32_small (startAddress - alignedStartAddress)) by lia.
  rewrite Hprevious. destruct (_ <=? _) eqn:E; [| apply Z.leb_gt in E; lia].
  unfold ret at 1.
  replace (Z.to_nat (startAddress - alignedStartAddress) + length buffer)%nat
    with (offset + length buffer)%nat by reflexivity.
  fold offset. fold merged.
  set (i1 := afterFrames _ (writtens ++ rest) i).
  assert (Hsettings : settingsOf i = settingsOf i1) by reflexivity.
  destruct (writeMemory_frames fuel type alignedStartAddress merged i1 maximum writtens rest)
    as (i2 & Hrun & Hwire & _); try rewrite Hmerged; auto; try lia.
  - split; [exact Hguard | reflexivity].
  - exact (maximumMemoryAccessSize_transfer type i i1 maximum Hsettings Hmaximum).
  - exists i2. split; [exact Hrun |]. rewrite Hwire.
    unfold i1, wireOf, afterFrames. cbn [edbgInterface with_edbgInterface wire].
    rewrite Hmerged, <- app_assoc. reflexivity.
Qed.

End WidenedWrite.

Lemma widened_write_keeps_neighbours_witness :
  let i := twoPageInterface in
  let previous := examplePage ++ examplePage in
  let merged := firstn 127 previous ++ [9; 9] ++ skipn (127 + 2) previous in
  Z.of_nat (length merged) = 256
  /\ exists i',
       MemoryAccess.writeMemory 5 Avr8MemoryType.FLASH_PAGE 127 [9; 9] i = (Ok tt, i')
       /\ wireOf i'
          = wireOf i
            ++ [Sent (CommandFrames.ReadMemory Avr8MemoryType.FLASH_PAGE 0 128 []);
                Sent (CommandFrames.ReadMemory Avr8MemoryType.FLASH_PAGE 128 128 []);
                Sent (CommandFrames.WriteMemory Avr8MemoryType.FLASH_PAGE 0
                        (firstn 128 merged));
                Sent (CommandFrames.WriteMemory Avr8MemoryType.FLASH_PAGE 128
                        (skipn 128 merged))].
Proof.
  intros i previous merged.
  apply (widened_write_keeps_neighbours 4 Avr8MemoryType.FLASH_PAGE 127 i 0 256 [9; 9]
           128 128
           [dataResponse examplePage; dataResponse examplePage]
           [okResponse; okResponse] []).
  - reflexivity.
  - vm_compute. reflexivity.
  - vm_compute. reflexivity.
  - left. lia.
  - simpl. lia.
  - right. repeat split; reflexivity.
  - split; [reflexivity | lia].
  - split; [right; repeat split; reflexivity | split; [reflexivity | lia]].
  - reflexivity.
  - split; repeat constructor.
  - simpl. lia.
Defined.
